(** * mcp-security-report: the storage engine

    A shallow embedding of [src/server/storage/index.ts] (the [LRUCache] and
    [StorageManager] classes) together with the helpers it calls from
    [src/utils/validation.ts], [src/utils/cvss.ts] and [src/utils/env.ts].

    Conventions of the embedding:
    - a JavaScript string is a [string] of 8-bit code units;
    - a [Date] is its epoch-millisecond value in [Z];
    - [async] methods become computations in the state-and-error monad [M]
      over the process state [State]; a thrown exception is [Err];
    - the file system below the working directory is an association list
      from paths (lists of segments) to nodes, in [readdir] order;
    - the libraries the engine calls ([gray-matter] with [js-yaml],
      [proper-lockfile], [ae-cvss-calculator]) and the process environment are
      collected in the record [Env]. *)

From Stdlib Require Import String Ascii List ZArith QArith Qround Lia Bool.
From Stdlib Require Import DecimalString Permutation Sorted.
Import ListNotations.
Open Scope string_scope.
Open Scope Z_scope.

(* ================================================================== *)
(** ** JavaScript strings *)
(* ================================================================== *)

Module Js.

Definition chr (n : nat) : string := String (ascii_of_nat n) EmptyString.

Definition nl : string := chr 10.
Definition dquote : string := chr 34.

(** [s.startsWith(p)] *)
Fixpoint startsWith (s p : string) : bool :=
  match p, s with
  | EmptyString, _ => true
  | String _ _, EmptyString => false
  | String a p', String b s' => Ascii.eqb a b && startsWith s' p'
  end.

(** [s.includes(p)] *)
Fixpoint includes (s p : string) : bool :=
  startsWith s p ||
  match s with
  | EmptyString => false
  | String _ s' => includes s' p
  end.

(** [s.endsWith(p)] *)
Fixpoint endsWith (s p : string) : bool :=
  String.eqb s p ||
  match s with
  | EmptyString => false
  | String _ s' => endsWith s' p
  end.

(** [xs.join(sep)] *)
Fixpoint join (sep : string) (xs : list string) : string :=
  match xs with
  | [] => ""
  | [x] => x
  | x :: rest => x ++ sep ++ join sep rest
  end.

(** The class [\s] of regular expressions, which is also what
    [String.prototype.trim] strips, on code units below 256. *)
Definition isSpace (c : ascii) : bool :=
  let n := nat_of_ascii c in
  (Nat.leb 9 n && Nat.leb n 13) || Nat.eqb n 32 || Nat.eqb n 160.

Definition isNewline (c : ascii) : bool := Nat.eqb (nat_of_ascii c) 10.

Definition isUpper (c : ascii) : bool :=
  let n := nat_of_ascii c in Nat.leb 65 n && Nat.leb n 90.
Definition isLower (c : ascii) : bool :=
  let n := nat_of_ascii c in Nat.leb 97 n && Nat.leb n 122.
Definition isDigit (c : ascii) : bool :=
  let n := nat_of_ascii c in Nat.leb 48 n && Nat.leb n 57.

(** ASCII case folding, as [toLowerCase] and the [i] flag act on code units
    below 128. *)
Definition lower (c : ascii) : ascii :=
  if isUpper c then ascii_of_nat (nat_of_ascii c + 32) else c.

Fixpoint toLowerCase (s : string) : string :=
  match s with
  | EmptyString => EmptyString
  | String c s' => String (lower c) (toLowerCase s')
  end.

Fixpoint trimStart (s : string) : string :=
  match s with
  | EmptyString => EmptyString
  | String c s' => if isSpace c then trimStart s' else s
  end.

Fixpoint trimEnd (s : string) : string :=
  match s with
  | EmptyString => EmptyString
  | String c s' =>
      match trimEnd s' with
      | EmptyString => if isSpace c then EmptyString else String c EmptyString
      | t => String c t
      end
  end.

Definition trim (s : string) : string := trimEnd (trimStart s).

(** [s.substring(0, n)] *)
Fixpoint take (n : nat) (s : string) : string :=
  match n, s with
  | O, _ => EmptyString
  | _, EmptyString => EmptyString
  | S n', String c s' => String c (take n' s')
  end.

Fixpoint filterChars (keep : ascii -> bool) (s : string) : string :=
  match s with
  | EmptyString => EmptyString
  | String c s' =>
      if keep c then String c (filterChars keep s') else filterChars keep s'
  end.

(** [s.replace(/\s+/g, '-')]: every maximal run of white space becomes one
    dash. [inRun] tells that the previous code unit was white space. *)
Fixpoint dashRuns (inRun : bool) (s : string) : string :=
  match s with
  | EmptyString => EmptyString
  | String c s' =>
      if isSpace c
      then (if inRun then dashRuns true s' else String "-" (dashRuns true s'))
      else String c (dashRuns false s')
  end.

(** truthiness of a string: only the empty string is falsy *)
Definition truthy (s : string) : bool :=
  match s with EmptyString => false | _ => true end.

(** truthiness of [string | undefined] *)
Definition truthyOpt (o : option string) : bool :=
  match o with Some s => truthy s | None => false end.

(** A JavaScript number as far as the cache constructor inspects it. *)
Inductive number : Type :=
| NaN
| Infinity (negative : bool)
| Finite (q : Q).

End Js.

(* ================================================================== *)
(** ** src/utils/validation.ts *)
(* ================================================================== *)

Definition isAlnum (c : ascii) : bool :=
  Js.isUpper c || Js.isLower c || Js.isDigit c.

(** [sanitizeProjectName]: [/[^a-zA-Z0-9-_\s]/g] removed, white-space runs
    dashed, lower case, trimmed. *)
Definition sanitizeProjectName (name : string) : string :=
  Js.trim
    (Js.toLowerCase
       (Js.dashRuns false
          (Js.filterChars
             (fun c => isAlnum c || Ascii.eqb c "-" || Ascii.eqb c "_"
                       || Js.isSpace c)
             name))).

Definition slug (title : string) : string :=
  Js.take 20
    (Js.toLowerCase
       (Js.dashRuns false
          (Js.filterChars (fun c => isAlnum c || Js.isSpace c) title))).

(** [sanitizeFindingId]; [randomId] stands for
    [randomBytes(4).toString('hex')]. *)
Definition sanitizeFindingId (randomId title : string) : string :=
  "FIND-" ++ randomId ++ "-" ++ slug title.

Definition sanitizeAuditId (randomId title : string) : string :=
  "AUDIT-" ++ randomId ++ "-" ++ slug title.

(* ================================================================== *)
(** ** The listing cache: class [LRUCache<T>] *)
(* ================================================================== *)

Module LRU.

Record CacheEntry (T : Type) : Type := mkEntry {
  data : T;
  lastModified : Z;
  lastAccessed : Z
}.
Arguments mkEntry {T}.
Arguments data {T}.
Arguments lastModified {T}.
Arguments lastAccessed {T}.

(** [cache] is the [Map] in insertion order, oldest first. The
    [operationMutex] map is empty between any two operations (every
    operation runs to completion inside [withMutex]) and is left out. *)
Record t (T : Type) : Type := mk {
  cache : list (string * CacheEntry T);
  maxSize : Z
}.
Arguments mk {T}.
Arguments cache {T}.
Arguments maxSize {T}.

(** [constructor(maxSize: number = 50)]; [None] is an omitted argument. *)
Definition capacity (arg : option Js.number) : Z :=
  match arg with
  | None => 50
  | Some Js.NaN => 50
  | Some (Js.Infinity _) => 50
  | Some (Js.Finite q) =>
      if Qlt_le_dec q 1 then 50
      else if Qlt_le_dec 10000 q then 10000
      else Qfloor q
  end.

Definition new {T} (arg : option Js.number) : t T :=
  mk [] (capacity arg).

Fixpoint lookup {T} (key : string) (l : list (string * CacheEntry T))
  : option (CacheEntry T) :=
  match l with
  | [] => None
  | (k, e) :: rest => if String.eqb k key then Some e else lookup key rest
  end.

(** [Map.prototype.delete] *)
Fixpoint remove {T} (key : string) (l : list (string * CacheEntry T))
  : list (string * CacheEntry T) :=
  match l with
  | [] => []
  | (k, e) :: rest =>
      if String.eqb k key then rest else (k, e) :: remove key rest
  end.

Definition size {T} (c : t T) : Z := Z.of_nat (length (cache c)).

(** [evictIfNeeded]: the first key of the map goes, unless that key is
    falsy ([if (firstKey)]). *)
Definition evictIfNeeded {T} (c : t T) : t T :=
  if size c <=? maxSize c then c
  else match cache c with
       | [] => c
       | (firstKey, _) :: _ =>
           if Js.truthy firstKey
           then mk (remove firstKey (cache c)) (maxSize c)
           else c
       end.

Definition get {T} (now : Z) (key : string) (c : t T)
  : option (CacheEntry T) * t T :=
  match lookup key (cache c) with
  | Some entry =>
      let entry' := mkEntry (data entry) (lastModified entry) now in
      (Some entry', mk (remove key (cache c) ++ [(key, entry')]) (maxSize c))
  | None => (None, c)
  end.

Definition set {T} (now : Z) (key : string) (d : T) (lastMod : Z) (c : t T)
  : t T :=
  evictIfNeeded
    (mk (remove key (cache c) ++ [(key, mkEntry d lastMod now)]) (maxSize c)).

Definition delete {T} (key : string) (c : t T) : bool * t T :=
  match lookup key (cache c) with
  | Some _ => (true, mk (remove key (cache c)) (maxSize c))
  | None => (false, c)
  end.

(** A trace of cache operations, to state invariants over every use. *)
Inductive op (T : Type) : Type :=
| OpGet (now : Z) (key : string)
| OpSet (now : Z) (key : string) (d : T) (lastMod : Z)
| OpDelete (key : string).
Arguments OpGet {T}.
Arguments OpSet {T}.
Arguments OpDelete {T}.

Definition step {T} (c : t T) (o : op T) : t T :=
  match o with
  | OpGet now key => snd (get now key c)
  | OpSet now key d lastMod => set now key d lastMod c
  | OpDelete key => snd (delete key c)
  end.

Definition run {T} (c : t T) (ops : list (op T)) : t T :=
  fold_left step ops c.

Definition opKey {T} (o : op T) : string :=
  match o with
  | OpGet _ key => key
  | OpSet _ key _ _ => key
  | OpDelete key => key
  end.

End LRU.

(* ================================================================== *)
(** ** Data model: src/types *)
(* ================================================================== *)

Inductive Severity : Type := Critical | High | Medium | Low | Informative.

Inductive ProjectStatus : Type := InProgress | Completed.

Definition ProjectStatus_eqb (a b : ProjectStatus) : bool :=
  match a, b with
  | InProgress, InProgress | Completed, Completed => true
  | _, _ => false
  end.

Record ProjectMetadata : Type := mkProject {
  p_id : string;
  p_name : string;
  p_client : option string;
  p_created : Z;
  p_updated : Z;
  p_scope : option (list string);
  p_status : ProjectStatus;
  p_description : option string
}.

Record CreateProjectInput : Type := mkCreateProjectInput {
  cp_name : string;
  cp_client : option string;
  cp_scope : option (list string);
  cp_description : option string
}.

Record UpdateProjectInput : Type := mkUpdateProjectInput {
  up_client : option string;
  up_scope : option (list string);
  up_description : option string;
  up_status : option ProjectStatus
}.

Definition noUpdates : UpdateProjectInput :=
  mkUpdateProjectInput None None None None.

(** [FindingInput]. The interface has no [cvssScore]; [fi_extraScore] is
    such a property smuggled in by an untyped caller, which the spread
    [...input] of [createFinding] would copy. *)
Record FindingInput : Type := mkFindingInput {
  fi_title : string;
  fi_severity : Severity;
  fi_cwe : option string;
  fi_cvssString : option string;
  fi_components : option (list string);
  fi_description : string;
  fi_evidence : option string;
  fi_recommendations : option string;
  fi_extraScore : option Q
}.

Record Finding : Type := mkFinding {
  f_id : string;
  f_title : string;
  f_severity : Severity;
  f_cwe : option string;
  f_cvssString : option string;
  f_cvssScore : option Q;
  f_components : option (list string);
  f_description : string;
  f_evidence : option string;
  f_recommendations : option string;
  f_created : Z;
  f_updated : Z
}.

(** [Partial<FindingInput>] *)
Record FindingUpdates : Type := mkFindingUpdates {
  fu_title : option string;
  fu_severity : option Severity;
  fu_cwe : option string;
  fu_cvssString : option string;
  fu_components : option (list string);
  fu_description : option string;
  fu_evidence : option string;
  fu_recommendations : option string
}.

Record AuditTrailInput : Type := mkAuditTrailInput {
  ai_title : string;
  ai_description : string;
  ai_tools : option (list string);
  ai_methodology : option string;
  ai_results : option string;
  ai_notes : option string
}.

Record AuditTrailEntry : Type := mkAuditTrailEntry {
  a_id : string;
  a_title : string;
  a_description : string;
  a_created : Z;
  a_tools : option (list string);
  a_methodology : option string;
  a_results : option string;
  a_notes : option string
}.

(** [InternalProjectIndex]: the [Map] in insertion order. *)
Record InternalProjectIndex : Type := mkIndex {
  projects : list (string * ProjectMetadata);
  lastActive : option string
}.

Definition emptyIndex : InternalProjectIndex := mkIndex [] None.

Fixpoint mapGet {V} (key : string) (m : list (string * V)) : option V :=
  match m with
  | [] => None
  | (k, v) :: rest => if String.eqb k key then Some v else mapGet key rest
  end.

(** [Map.prototype.set]: an existing key keeps its place. *)
Fixpoint mapSet {V} (key : string) (v : V) (m : list (string * V))
  : list (string * V) :=
  match m with
  | [] => [(key, v)]
  | (k, w) :: rest =>
      if String.eqb k key then (k, v) :: rest else (k, w) :: mapSet key v rest
  end.

Fixpoint mapDelete {V} (key : string) (m : list (string * V))
  : list (string * V) :=
  match m with
  | [] => []
  | (k, w) :: rest =>
      if String.eqb k key then rest else (k, w) :: mapDelete key rest
  end.

(* ================================================================== *)
(** ** Errors *)
(* ================================================================== *)

Inductive Errno : Type := ENOENT | EEXIST | ENOTDIR | EISDIR | EIO | ELOCKED.

Definition Errno_eqb (a b : Errno) : bool :=
  match a, b with
  | ENOENT, ENOENT | EEXIST, EEXIST | ENOTDIR, ENOTDIR
  | EISDIR, EISDIR | EIO, EIO | ELOCKED, ELOCKED => true
  | _, _ => false
  end.

(** The exceptions the engine throws or lets through. [SystemError] is a
    Node or [proper-lockfile] error carrying a [code]; [PlainError] is
    [new Error(message)]. *)
Inductive Error : Type :=
| ProjectExistsError (projectName : string)
| ProjectNotFoundError (projectName : string)
| FindingNotFoundError (findingId : string)
| AuditTrailNotFoundError (auditId : string)
| ProjectCompletedError (projectName operation : string)
| CVSSError (message : string)
| SystemError (code : Errno) (what : string)
| PlainError (message : string).

Definition errnoName (c : Errno) : string :=
  match c with
  | ENOENT => "ENOENT: no such file or directory"
  | EEXIST => "EEXIST: file already exists"
  | ENOTDIR => "ENOTDIR: not a directory"
  | EISDIR => "EISDIR: illegal operation on a directory"
  | EIO => "EIO: i/o error"
  | ELOCKED => "Lock file is already being held"
  end.

(** [error.message] *)
Definition message (e : Error) : string :=
  match e with
  | ProjectExistsError n =>
      "Project " ++ Js.dquote ++ n ++ Js.dquote
      ++ " already exists. Cannot overwrite existing projects."
  | ProjectNotFoundError n =>
      "Project " ++ Js.dquote ++ n ++ Js.dquote ++ " not found."
  | FindingNotFoundError i =>
      "Finding " ++ Js.dquote ++ i ++ Js.dquote ++ " not found."
  | AuditTrailNotFoundError i =>
      "Audit trail entry " ++ Js.dquote ++ i ++ Js.dquote ++ " not found."
  | ProjectCompletedError n op =>
      "Cannot " ++ op ++ " on completed project " ++ Js.dquote ++ n
      ++ Js.dquote ++ ". "
      ++ "Completed projects are immutable for audit integrity."
  | CVSSError m => m
  | SystemError c what =>
      match c with
      | ELOCKED => errnoName c
      | _ => errnoName c ++ ", " ++ what
      end
  | PlainError m => m
  end.

(** [(error as NodeJS.ErrnoException).code === 'ENOENT'] *)
Definition isENOENT (e : Error) : bool :=
  match e with
  | SystemError ENOENT _ => true
  | _ => false
  end.

Definition isProjectExistsError (e : Error) : bool :=
  match e with
  | ProjectExistsError _ => true
  | _ => false
  end.

Definition isCVSSError (e : Error) : bool :=
  match e with
  | CVSSError _ => true
  | _ => false
  end.

(* ================================================================== *)
(** ** The file system below the working directory *)
(* ================================================================== *)

(** A path is the list of segments below the working directory; [[]] is the
    working directory itself, which always exists. *)
Definition path : Type := list string.
Bind Scope list_scope with path.

Fixpoint path_eqb (a b : path) : bool :=
  match a, b with
  | [], [] => true
  | x :: a', y :: b' => String.eqb x y && path_eqb a' b'
  | _, _ => false
  end.

(** [under d p]: [p] is [d] or lies below it. *)
Fixpoint under (d p : path) : bool :=
  match d, p with
  | [], _ => true
  | x :: d', y :: p' => String.eqb x y && under d' p'
  | _ :: _, [] => false
  end.

(** [childOf d p]: the name of [p] when [p] is an entry of directory [d]. *)
Fixpoint childOf (d p : path) : option string :=
  match d, p with
  | [], [name] => Some name
  | x :: d', y :: p' => if String.eqb x y then childOf d' p' else None
  | _, _ => None
  end.

(** The metadata block of a record file, as [js-yaml] reads it back. *)
Record FindingMatter : Type := mkFindingMatter {
  fm_id : string;
  fm_title : string;
  fm_severity : Severity;
  fm_created : Z;
  fm_updated : Z;
  fm_cwe : option string;
  fm_cvssString : option string;
  fm_cvssScore : option Q;
  fm_components : option (list string)
}.

Record AuditMatter : Type := mkAuditMatter {
  am_id : string;
  am_title : string;
  am_created : Z;
  am_tools : option (list string);
  am_methodology : option string;
  am_results : option string;
  am_notes : option string
}.

Inductive MatterData : Type :=
| FindingData (fm : FindingMatter)
| AuditData (am : AuditMatter).

(** What a file holds. [JSON.stringify]/[JSON.parse] and
    [matter.stringify]/[matter] are taken as exact inverses on the data the
    engine writes, so a file is kept in parsed form:
    - [JsonIndex]: [.mcp-projects.json] with a well-formed index;
    - [JsonProject]: a [project.json];
    - [Markdown data body]: a [gray-matter] document, the metadata block
      between [---] lines followed by [body];
    - [Raw]: any other text (nothing the engine can parse). *)
Inductive Content : Type :=
| JsonIndex (idx : InternalProjectIndex)
| JsonProject (md : ProjectMetadata)
| Markdown (data : MatterData) (body : string)
| Raw (text : string).

Inductive Node : Type :=
| Dir (mtime : Z)
| File (content : Content) (mtime : Z).

Definition mtimeOf (n : Node) : Z :=
  match n with
  | Dir t => t
  | File _ t => t
  end.

Definition isDirectory (n : Node) : bool :=
  match n with
  | Dir _ => true
  | File _ _ => false
  end.

Definition FS : Type := list (path * Node).
Bind Scope list_scope with FS.

Fixpoint fsGet (p : path) (fs : FS) : option Node :=
  match fs with
  | [] => None
  | (q, n) :: rest => if path_eqb q p then Some n else fsGet p rest
  end.

(** replace the node at [p] where it stands, or add it at the end *)
Fixpoint fsPut (p : path) (n : Node) (fs : FS) : FS :=
  match fs with
  | [] => [(p, n)]
  | (q, m) :: rest =>
      if path_eqb q p then (q, n) :: rest else (q, m) :: fsPut p n rest
  end.

Definition fsRemove (p : path) (fs : FS) : FS :=
  filter (fun e => negb (path_eqb (fst e) p)) fs.

Definition fsRemoveTree (p : path) (fs : FS) : FS :=
  filter (fun e => negb (under p (fst e))) fs.

Definition parent (p : path) : path := removelast p.

(** The kinds of file-system calls the engine makes. *)
Inductive FsOp : Type :=
| OpAccess | OpMkdir | OpWriteFile | OpRename | OpUnlink | OpRm
| OpReaddir | OpStat | OpReadFile.

(* ------------------------------------------------------------------ *)
(** *** src/utils/env.ts *)

(** [value === s] for a [string | undefined] *)
Definition optEqb (o : option string) (s : string) : bool :=
  match o with
  | Some t => String.eqb t s
  | None => false
  end.

(** [process.env], as far as [EnvSchema] and the storage engine look at
    it *)
Record ProcessEnv : Type := mkProcessEnv {
  pe_HOST : option string;
  pe_PORT : option string;
  pe_DIR : option string;
  pe_TRANSPORT : option string;
  pe_CORS_ORIGIN : option string;
  pe_MAX_YAML_SIZE : option string;
  pe_MAX_REQUEST_SIZE : option string;
  pe_CACHE_SIZE : option string;
  pe_MAX_SSE_CONNECTIONS : option string;
  pe_LOCK_STALE_MS : option string;
  pe_LOG_LEVEL : option string;
  pe_LOG_TARGET : option string;
  pe_LOG_DIR : option string;
  pe_UNSAFE_NONEMPTY_DIR : option string;
  pe_NODE_ENV : option string;
  pe_VITEST : option string
}.

(** a process started with none of these variables set *)
Definition noVariables : ProcessEnv :=
  mkProcessEnv None None None None None None None None None None None None
               None None None None.

(** [z.string().regex(/^\d+$/).transform(Number)]: the value of a non-empty
    string of decimal digits *)
Fixpoint digitsFrom (acc : Z) (s : string) : option Z :=
  match s with
  | EmptyString => Some acc
  | String c s' =>
      if Js.isDigit c
      then digitsFrom (10 * acc + (Z.of_nat (nat_of_ascii c) - 48)) s'
      else None
  end.

Definition digits (s : string) : option Z :=
  match s with
  | EmptyString => None
  | _ => digitsFrom 0 s
  end.

(** [.refine((val) => val >= lo && val <= hi, ...)] on top of it *)
Definition digitsWithin (lo hi : Z) (s : string) : option Z :=
  match digits s with
  | Some n => if (lo <=? n) && (n <=? hi) then Some n else None
  | None => None
  end.

(** [z.enum([...])] *)
Definition oneOf (allowed : list string) (s : string) : option string :=
  if existsb (String.eqb s) allowed then Some s else None.

(** [schema.optional()] applied to a variable: [None] when the schema
    refuses the value, [Some None] when the variable is not set *)
Definition optionalField {A} (schema : string -> option A)
           (raw : option string) : option (option A) :=
  match raw with
  | None => Some None
  | Some v =>
      match schema v with
      | Some a => Some (Some a)
      | None => None
      end
  end.

(** the numeric settings of [ValidatedEnv] *)
Record ValidatedEnv : Type := mkValidatedEnv {
  ve_PORT : option Z;
  ve_MAX_YAML_SIZE : option Z;
  ve_CACHE_SIZE : option Z;
  ve_MAX_SSE_CONNECTIONS : option Z;
  ve_LOCK_STALE_MS : option Z
}.

Definition noSettings : ValidatedEnv := mkValidatedEnv None None None None None.

(** [EnvSchema.parse(process.env)], [None] when it throws. The string-valued
    variables are accepted as they are; the enumerations are checked. *)
Definition parseEnv (env : ProcessEnv) : option ValidatedEnv :=
  match optionalField digits (pe_PORT env),
        optionalField (oneOf ["stdio"; "sse"]) (pe_TRANSPORT env),
        optionalField (digitsWithin 1 10485760) (pe_MAX_YAML_SIZE env),
        optionalField (digitsWithin 1 10000) (pe_CACHE_SIZE env),
        optionalField (digitsWithin 1 1000) (pe_MAX_SSE_CONNECTIONS env),
        optionalField (digitsWithin 5000 300000) (pe_LOCK_STALE_MS env),
        optionalField (oneOf ["error"; "warn"; "info"; "debug"])
                      (pe_LOG_LEVEL env),
        optionalField (oneOf ["console"; "file"; "both"]) (pe_LOG_TARGET env),
        optionalField (oneOf ["development"; "test"; "production"])
                      (pe_NODE_ENV env) with
  | Some port, Some _, Some yaml, Some cache, Some sse, Some stale,
    Some _, Some _, Some _ =>
      Some (mkValidatedEnv port yaml cache sse stale)
  | _, _, _, _, _, _, _, _, _ => None
  end.

(** [getValidatedEnv], at its first call *)
Definition getValidatedEnv (env : ProcessEnv) : ValidatedEnv :=
  match parseEnv env with
  | Some validated => validated
  | None => noSettings
  end.

(** [validateEnvironment] *)
Definition validateEnvironment (env : ProcessEnv) : bool :=
  match parseEnv env with
  | Some _ => true
  | None => false
  end.

(** the numeric settings of [getServerConfig] *)
Record ServerConfig : Type := mkServerConfig {
  sc_maxYamlSize : Z;
  sc_cacheSize : Z;
  sc_maxSseConnections : Z;
  sc_lockStaleMs : Z
}.

Definition withDefault (o : option Z) (d : Z) : Z :=
  match o with
  | Some n => n
  | None => d
  end.

Definition getServerConfig (env : ProcessEnv) : ServerConfig :=
  let validated := getValidatedEnv env in
  mkServerConfig (withDefault (ve_MAX_YAML_SIZE validated) 10240)
                 (withDefault (ve_CACHE_SIZE validated) 50)
                 (withDefault (ve_MAX_SSE_CONNECTIONS validated) 100)
                 (withDefault (ve_LOCK_STALE_MS validated) 60000).


(** [parseInt(s, 10)]: white space is skipped, a sign is read, then the
    longest run of decimal digits; [None] is [NaN] *)
Fixpoint digitRun (acc : Z) (s : string) : Z :=
  match s with
  | EmptyString => acc
  | String c s' =>
      if Js.isDigit c
      then digitRun (10 * acc + (Z.of_nat (nat_of_ascii c) - 48)) s'
      else acc
  end.

Definition unsignedInt (s : string) : option Z :=
  match s with
  | EmptyString => None
  | String c _ => if Js.isDigit c then Some (digitRun 0 s) else None
  end.

Definition parseInt (s : string) : option Z :=
  match Js.trimStart s with
  | String "-" rest => option_map Z.opp (unsignedInt rest)
  | String "+" rest => unsignedInt rest
  | t => unsignedInt t
  end.

(** Outcome of [new CvssX(vector).calculateScores()]. *)
Inductive CvssOutcome : Type :=
| Scores (base : option Q)
| Thrown (name message : string).

(** What the engine takes from outside: the resolved working directory, the
    process environment, an oracle for I/O failures (a call of kind [op] on
    path [p] fails with [EIO] when [ioFails op p]), the length of the
    metadata block [js-yaml] writes for given data, and the four CVSS
    calculators of [ae-cvss-calculator]. *)
Record Env : Type := mkEnv {
  workingDir : string;
  processEnv : ProcessEnv;
  ioFails : FsOp -> path -> bool;
  yamlLength : MatterData -> Z;
  Cvss2 : string -> CvssOutcome;
  Cvss3P0 : string -> CvssOutcome;
  Cvss3P1 : string -> CvssOutcome;
  Cvss4P0 : string -> CvssOutcome
}.

(** [path.join(base, segment)] for a resolved [base] *)
Definition pathJoin (base segment : string) : string :=
  if String.eqb segment "" then base
  else if String.eqb base "/" then "/" ++ segment
  else base ++ "/" ++ segment.

Definition pathString (E : Env) (p : path) : string :=
  fold_left pathJoin p (workingDir E).

(** process state of one [StorageManager] *)
Record State : Type := mkState {
  disk : FS;
  projectIndexCache : option InternalProjectIndex;
  instanceLockRelease : bool;
  findingsCache : LRU.t (list Finding);
  auditTrailsCache : LRU.t (list AuditTrailEntry);
  clock : Z
}.

Definition setDisk (fs : FS) (s : State) : State :=
  mkState fs (projectIndexCache s) (instanceLockRelease s)
          (findingsCache s) (auditTrailsCache s) (clock s).

Definition setIndexCache (c : option InternalProjectIndex) (s : State) : State :=
  mkState (disk s) c (instanceLockRelease s)
          (findingsCache s) (auditTrailsCache s) (clock s).

Definition setInstanceLockRelease (b : bool) (s : State) : State :=
  mkState (disk s) (projectIndexCache s) b
          (findingsCache s) (auditTrailsCache s) (clock s).

Definition setFindingsCache (c : LRU.t (list Finding)) (s : State) : State :=
  mkState (disk s) (projectIndexCache s) (instanceLockRelease s)
          c (auditTrailsCache s) (clock s).

Definition setAuditTrailsCache (c : LRU.t (list AuditTrailEntry)) (s : State)
  : State :=
  mkState (disk s) (projectIndexCache s) (instanceLockRelease s)
          (findingsCache s) c (clock s).

(** time passes between two calls *)
Definition setClock (t : Z) (s : State) : State :=
  mkState (disk s) (projectIndexCache s) (instanceLockRelease s)
          (findingsCache s) (auditTrailsCache s) t.

(* ================================================================== *)
(** ** The monad of engine calls *)
(* ================================================================== *)

Inductive Result (A : Type) : Type :=
| Ok (a : A)
| Err (e : Error)
| Hang.
Arguments Ok {A}.
Arguments Err {A}.
Arguments Hang {A}.

(** [Hang] is a call that never returns; no handler sees it. *)
Definition M (A : Type) : Type := State -> Result A * State.

Definition ret {A} (a : A) : M A := fun s => (Ok a, s).

Definition bind {A B} (m : M A) (k : A -> M B) : M B :=
  fun s =>
    match m s with
    | (Ok a, s') => k a s'
    | (Err e, s') => (Err e, s')
    | (Hang, s') => (Hang, s')
    end.

Definition throw {A} (e : Error) : M A := fun s => (Err e, s).

(** [try { m } catch (error) { h error }] *)
Definition tryCatch {A} (m : M A) (h : Error -> M A) : M A :=
  fun s =>
    match m s with
    | (Err e, s') => h e s'
    | r => r
    end.

(** [try { m } catch { /* ignored */ }] *)
Definition ignoreErrors (m : M unit) : M unit :=
  tryCatch m (fun _ => ret tt).

(** [try { m } finally { f }], for an [f] that does not throw *)
Definition finally {A} (m : M A) (f : M unit) : M A :=
  fun s =>
    match m s with
    | (Hang, s') => (Hang, s')
    | (r, s') => (r, snd (f s'))
    end.

Definition get : M State := fun s => (Ok s, s).
Definition modify (f : State -> State) : M unit := fun s => (Ok tt, f s).

Declare Scope monad_scope.
Delimit Scope monad_scope with monad.
Notation "x <- m ;; k" := (bind m (fun x => k))
  (at level 61, m at next level, right associativity) : monad_scope.
Notation "m ;;; k" := (bind m (fun _ => k))
  (at level 61, right associativity) : monad_scope.
Open Scope monad_scope.

(** [Promise.allSettled(xs.map(f))], keeping the fulfilled values: the
    calls run in order, a rejection is dropped, the state changes stay. *)
Fixpoint allSettled {A B} (f : A -> M B) (xs : list A) : M (list B) :=
  match xs with
  | [] => ret []
  | x :: rest =>
      fun s =>
        match f x s with
        | (Ok b, s') =>
            match allSettled f rest s' with
            | (Ok bs, s'') => (Ok (b :: bs), s'')
            | r => r
            end
        | (Err _, s') => allSettled f rest s'
        | (Hang, s') => (Hang, s')
        end
  end.

Definition showZ (z : Z) : string := NilZero.string_of_int (Z.to_int z).

(** [Array.prototype.slice(start, end)] *)
Definition jsIndex (len i : Z) : Z :=
  if i <? 0 then Z.max (len + i) 0 else Z.min i len.

Definition slice {A} (l : list A) (start stop : Z) : list A :=
  let len := Z.of_nat (length l) in
  let k := jsIndex len start in
  let e := jsIndex len stop in
  firstn (Z.to_nat (e - k)) (skipn (Z.to_nat k) l).

(** [l.splice(start)]: what stays in [l] *)
Definition spliceFrom {A} (l : list A) (start : Z) : list A :=
  firstn (Z.to_nat (jsIndex (Z.of_nat (length l)) start)) l.

(** [Array.prototype.sort((a, b) => key(b) - key(a))]: stable, descending. *)
Fixpoint insertDesc {A} (key : A -> Z) (x : A) (sorted : list A) : list A :=
  match sorted with
  | [] => [x]
  | y :: ys =>
      if key x <? key y then y :: insertDesc key x ys else x :: y :: ys
  end.

Definition sortDesc {A} (key : A -> Z) (l : list A) : list A :=
  fold_right (insertDesc key) [] l.

(* ================================================================== *)
(** ** src/utils/cvss.ts and the settings of the engine *)
(* ================================================================== *)

Fixpoint countChar (c : ascii) (s : string) : nat :=
  match s with
  | EmptyString => O
  | String d s' => (if Ascii.eqb c d then 1 else 0) + countChar c s'
  end.

Section Engine.

Variable E : Env.

(** the [catch] block of [calculateCVSSScore] for a library error *)
Definition cvssLibraryError (name msg : string) : Error :=
  if Js.includes msg "Cannot read properties of undefined"
  then CVSSError "Invalid CVSS vector format - missing required components"
  else if Js.includes msg "Invalid"
  then CVSSError ("CVSS validation failed: " ++ msg)
  else if String.eqb name "TypeError"
  then CVSSError "CVSS vector has invalid type or structure"
  else if String.eqb name "RangeError"
  then CVSSError "CVSS vector values are out of valid range"
  else CVSSError ("Failed to calculate CVSS score: " ++ msg).

(** [!scores?.base] *)
Definition baseOf (o : option Q) : option Q :=
  match o with
  | Some q => if Qeq_bool q 0 then None else Some q
  | None => None
  end.

Definition scoreWith (calc : string -> CvssOutcome) (version cleanVector : string)
  : Error + Q :=
  match calc cleanVector with
  | Thrown name msg => inl (cvssLibraryError name msg)
  | Scores base =>
      match baseOf base with
      | Some q => inr q
      | None =>
          inl (CVSSError ("CVSS " ++ version
                          ++ " calculation returned invalid scores"))
      end
  end.

(** [calculateCVSSScore(vector).score] *)
Definition calculateCVSSScore (vector : string) : Error + Q :=
  if negb (Js.truthy vector) || String.eqb (Js.trim vector) ""
  then inl (CVSSError "Invalid CVSS vector: empty or null string")
  else
    let cleanVector := Js.trim vector in
    if Js.startsWith cleanVector "CVSS:4.0"
    then scoreWith (Cvss4P0 E) "4.0" cleanVector
    else if Js.startsWith cleanVector "CVSS:3.1"
    then scoreWith (Cvss3P1 E) "3.1" cleanVector
    else if Js.startsWith cleanVector "CVSS:3.0"
    then scoreWith (Cvss3P0 E) "3.0" cleanVector
    else if negb (Js.includes cleanVector ":")
            || Nat.ltb (S (countChar "/" cleanVector)) 3
    then inl (CVSSError "Invalid CVSS vector format")
    else scoreWith (Cvss2 E) "2.0" cleanVector.

(** [getServerConfig().cacheSize] and [.lockStaleMs] *)
Definition cacheSize : Z := sc_cacheSize (getServerConfig (processEnv E)).

Definition lockStaleMs : Z := sc_lockStaleMs (getServerConfig (processEnv E)).

(** [getYamlSizeLimit], which reads the variable itself *)
Definition getYamlSizeLimit : Z :=
  match pe_MAX_YAML_SIZE (processEnv E) with
  | Some envLimit =>
      if Js.truthy envLimit
      then match parseInt envLimit with
           | Some parsed =>
               if (0 <? parsed) && (parsed <=? 1000000) then parsed else 10240
           | None => 10240
           end
      else 10240
  | None => 10240
  end.

(** [process.env.NODE_ENV === 'test' || process.env.VITEST === 'true'] *)
Definition testEnvironment : bool :=
  optEqb (pe_NODE_ENV (processEnv E)) "test"
  || optEqb (pe_VITEST (processEnv E)) "true".

(** [new StorageManager(workingDir)] on a given disk *)
Definition newStorageManager (fs : FS) (now : Z) : State :=
  mkState fs None false
          (LRU.new (Some (Js.Finite (inject_Z cacheSize))))
          (LRU.new (Some (Js.Finite (inject_Z cacheSize))))
          now.

(* ================================================================== *)
(** ** [fs/promises] *)
(* ================================================================== *)

Definition sysError {A} (code : Errno) (p : path) : M A :=
  throw (SystemError code (pathString E p)).

Definition oracle (op : FsOp) (p : path) : M unit :=
  if ioFails E op p then sysError EIO p else ret tt.

Definition nodeAt (p : path) (fs : FS) : option Node :=
  match p with
  | [] => Some (Dir 0)
  | _ => fsGet p fs
  end.

Definition fs_access (p : path) : M unit :=
  oracle OpAccess p ;;;
  s <- get ;;
  match nodeAt p (disk s) with
  | Some _ => ret tt
  | None => sysError ENOENT p
  end.

(** [mkdir(p, { recursive: true })], one segment after the other *)
Fixpoint mkdirFrom (base : path) (segs : list string) (now : Z) (fs : FS)
  : Errno + FS :=
  match segs with
  | [] => inr fs
  | seg :: rest =>
      let p := (base ++ [seg])%list in
      match fsGet p fs with
      | Some (Dir _) => mkdirFrom p rest now fs
      | Some (File _ _) =>
          inl (match rest with [] => EEXIST | _ => ENOTDIR end)
      | None => mkdirFrom p rest now (fs ++ [(p, Dir now)])%list
      end
  end.

Definition fs_mkdir (p : path) : M unit :=
  oracle OpMkdir p ;;;
  s <- get ;;
  match mkdirFrom [] p (clock s) (disk s) with
  | inr fs' => modify (setDisk fs')
  | inl code => sysError code p
  end.

Definition fs_writeFile (p : path) (c : Content) : M unit :=
  oracle OpWriteFile p ;;;
  s <- get ;;
  match p with
  | [] => sysError EISDIR p
  | _ =>
      match nodeAt (parent p) (disk s) with
      | None => sysError ENOENT p
      | Some (File _ _) => sysError ENOTDIR p
      | Some (Dir _) =>
          match fsGet p (disk s) with
          | Some (Dir _) => sysError EISDIR p
          | _ => modify (setDisk (fsPut p (File c (clock s)) (disk s)))
          end
      end
  end.

(** [rename(a, b)]. The engine renames only a file it has just written;
    a directory as source is reported as [EISDIR]. *)
Definition fs_rename (a b : path) : M unit :=
  oracle OpRename a ;;;
  s <- get ;;
  match fsGet a (disk s) with
  | None => sysError ENOENT a
  | Some (Dir _) => sysError EISDIR a
  | Some (File c t) =>
      match b with
      | [] => sysError EISDIR b
      | _ =>
          match nodeAt (parent b) (disk s) with
          | None => sysError ENOENT b
          | Some (File _ _) => sysError ENOTDIR b
          | Some (Dir _) =>
              match fsGet b (disk s) with
              | Some (Dir _) => sysError EISDIR b
              | _ =>
                  modify (setDisk (fsPut b (File c t) (fsRemove a (disk s))))
              end
          end
      end
  end.

Definition fs_unlink (p : path) : M unit :=
  oracle OpUnlink p ;;;
  s <- get ;;
  match fsGet p (disk s) with
  | None => sysError ENOENT p
  | Some (Dir _) => sysError EISDIR p
  | Some (File _ _) => modify (setDisk (fsRemove p (disk s)))
  end.

(** [rm(p, { recursive: true, force: true })] *)
Definition fs_rm (p : path) : M unit :=
  oracle OpRm p ;;;
  s <- get ;;
  modify (setDisk (fsRemoveTree p (disk s))).

Definition entriesOf (d : path) (fs : FS) : list (string * bool) :=
  flat_map
    (fun e =>
       match childOf d (fst e) with
       | Some name => [(name, isDirectory (snd e))]
       | None => []
       end)
    fs.

(** [readdir(d, { withFileTypes: true })]: names with [isDirectory()] *)
Definition fs_readdir (d : path) : M (list (string * bool)) :=
  oracle OpReaddir d ;;;
  s <- get ;;
  match nodeAt d (disk s) with
  | None => sysError ENOENT d
  | Some (File _ _) => sysError ENOTDIR d
  | Some (Dir _) => ret (entriesOf d (disk s))
  end.

(** [(await stat(p)).mtimeMs] *)
Definition fs_stat (p : path) : M Z :=
  oracle OpStat p ;;;
  s <- get ;;
  match nodeAt p (disk s) with
  | None => sysError ENOENT p
  | Some n => ret (mtimeOf n)
  end.

Definition fs_readFile (p : path) : M Content :=
  oracle OpReadFile p ;;;
  s <- get ;;
  match nodeAt p (disk s) with
  | None => sysError ENOENT p
  | Some (Dir _) => sysError EISDIR p
  | Some (File c _) => ret c
  end.

(* ================================================================== *)
(** ** [proper-lockfile] *)
(* ================================================================== *)

(** [lockfile.lock(file, { stale, retries })] makes the directory
    [file + '.lock']; [name] is that directory's name in the working
    directory. A present artifact older than [stale] is taken over; a fresh
    one is held by someone else. The clock stands still during a call, so
    every retry sees what the first attempt saw. A name with a slash points
    into a directory that does not exist. *)
Definition lockfileLock (name : string) (stale : Z) : M unit :=
  if Js.includes name "/" then sysError ENOENT [name]
  else
    oracle OpMkdir [name] ;;;
    s <- get ;;
    match fsGet [name] (disk s) with
    | None => modify (setDisk (disk s ++ [([name], Dir (clock s))])%list)
    | Some n =>
        if mtimeOf n <? clock s - stale
        then modify (setDisk (fsPut [name] (Dir (clock s))
                                    (fsRemoveTree [name] (disk s))))
        else throw (SystemError ELOCKED (pathString E [name]))
    end.

(** the [release] function [lock] returns *)
Definition lockfileRelease (name : string) : M unit :=
  s <- get ;;
  match fsGet [name] (disk s) with
  | Some _ => modify (setDisk (fsRemoveTree [name] (disk s)))
  | None => throw (PlainError "Lock is already released")
  end.

(* ================================================================== *)
(** ** class [StorageManager] *)
(* ================================================================== *)

Definition projectIndexPath : path := [".mcp-projects.json"].
Definition projectIndexTmp : path := [".mcp-projects.json.tmp"].

(** [this.instanceLockPath], a string: [path.join(workingDir, '.mcp-instance')] *)
Definition instanceLockPath : string := pathJoin (workingDir E) ".mcp-instance".

(** the artifact [proper-lockfile] makes for the instance lock *)
Definition instanceLockName : string := ".mcp-instance.lock".

Definition wrap (context : string) (e : Error) : Error :=
  PlainError (context ++ message e).

Definition ensureDirectoryExists (dirPath : path) : M unit :=
  tryCatch (fs_mkdir dirPath)
    (fun error =>
       throw (PlainError ("Failed to create directory " ++ pathString E dirPath
                          ++ ": " ++ message error))).

Definition initializeProjectIndex : M unit :=
  tryCatch
    (found <- tryCatch (fs_access projectIndexPath ;;; ret true)
                (fun error => if isENOENT error then ret false else throw error) ;;
     if (found : bool) then ret tt
     else
       fs_writeFile projectIndexTmp (JsonIndex emptyIndex) ;;;
       fs_rename projectIndexTmp projectIndexPath ;;;
       modify (setIndexCache None))
    (fun error =>
       ignoreErrors (fs_unlink projectIndexTmp) ;;;
       throw (wrap "Failed to initialize project index: " error)).

Definition instanceHeldMessage : string :=
  "Another MCP Security Report instance is already running in "
  ++ workingDir E ++ "." ++ Js.nl
  ++ "Running multiple instances in the same directory can lead to data corruption."
  ++ Js.nl
  ++ "If you are certain no other instance is running, you can manually remove the lock file:"
  ++ Js.nl
  ++ "  rm -r " ++ Js.dquote ++ instanceLockPath ++ ".lock" ++ Js.dquote.

Definition acquireInstanceLock : M unit :=
  tryCatch
    (ensureDirectoryExists [] ;;;
     initializeProjectIndex ;;;
     lockfileLock instanceLockName 30000 ;;;
     modify (setInstanceLockRelease true))
    (fun error =>
       if Js.includes (message error) "already being held"
       then throw (PlainError instanceHeldMessage)
       else throw (wrap "Failed to acquire instance lock: " error)).

Definition releaseInstanceLock : M unit :=
  s <- get ;;
  if instanceLockRelease s
  then tryCatch
         (lockfileRelease instanceLockName ;;;
          modify (setInstanceLockRelease false))
         (fun _ => ret tt)
  else ret tt.

Definition isLockFile (f : string) : bool :=
  Js.startsWith f ".mcp-lock-" || String.eqb f ".mcp-instance.lock".

(** the body of the [for] loop of [cleanupStaleLocks] *)
Definition sweepLock (lockFile : string) : M unit :=
  let lockPath := pathJoin (workingDir E) lockFile in
  tryCatch
    (s <- get ;;
     if String.eqb lockPath instanceLockPath && instanceLockRelease s
     then ret tt
     else
       mtimeMs <- fs_stat [lockFile] ;;
       let ageMs := clock s - mtimeMs in
       let staleTimeout :=
         if String.eqb lockFile ".mcp-instance.lock" then 60000
         else lockStaleMs in
       if staleTimeout <? ageMs then fs_rm [lockFile] else ret tt)
    (fun _ => ret tt).

Fixpoint forEach {A} (f : A -> M unit) (xs : list A) : M unit :=
  match xs with
  | [] => ret tt
  | x :: rest => f x ;;; forEach f rest
  end.

Definition cleanupStaleLocks : M unit :=
  tryCatch
    (files <- fs_readdir [] ;;
     let lockFiles := filter isLockFile (map fst files) in
     forEach sweepLock lockFiles)
    (fun _ => ret tt).

Definition invalidateFindings (projectName : string) : M unit :=
  s <- get ;;
  modify (setFindingsCache
            (snd (LRU.delete (projectName ++ "-findings") (findingsCache s)))).

Definition invalidateAuditTrails (projectName : string) : M unit :=
  s <- get ;;
  modify (setAuditTrailsCache
            (snd (LRU.delete (projectName ++ "-audit-trails")
                             (auditTrailsCache s)))).

(** [Math.max(...stats)] over a non-empty array *)
Definition maxOf (l : list Z) : Z :=
  match l with
  | [] => 0
  | x :: rest => fold_left Z.max rest x
  end.

Definition getDirectoryLastModified (dirPath : path) : M Z :=
  tryCatch
    (files <- fs_readdir dirPath ;;
     match files with
     | [] => ret 0
     | _ =>
         stats <- allSettled
                    (fun file =>
                       tryCatch (fs_stat (dirPath ++ [fst file])%list)
                                (fun _ => ret 0))
                    files ;;
         ret (maxOf stats)
     end)
    (fun _ => ret 0).

Definition lockTimeout {A} (lockKey : string) (error : Error) : M A :=
  if Js.includes (message error) "already being held"
  then throw (PlainError ("Operation timed out waiting for lock: " ++ lockKey))
  else throw error.

Definition withLock {A} (lockKey : string) (operation : M A) : M A :=
  let name := ".mcp-lock-" ++ lockKey ++ ".lock" in
  fun s =>
    match lockfileLock name 10000 s with
    | (Ok _, s1) =>
        finally (tryCatch operation (lockTimeout lockKey))
                (ignoreErrors (lockfileRelease name)) s1
    | (Err error, s1) => lockTimeout lockKey error s1
    | (Hang, s1) => (Hang, s1)
    end.

Definition corruptionMessage (actualProjectDirs : list string) : string :=
  "FATAL: MCP Security Report directory corruption detected!" ++ Js.nl
  ++ "Found " ++ showZ (Z.of_nat (length actualProjectDirs))
  ++ " project directories but missing .mcp-projects.json index file." ++ Js.nl
  ++ "Projects found: " ++ Js.join ", " actualProjectDirs ++ Js.nl
  ++ "Working directory: " ++ workingDir E ++ Js.nl ++ Js.nl
  ++ "This indicates data corruption or manual deletion of the index file."
  ++ Js.nl
  ++ "To recover, either:" ++ Js.nl
  ++ "1. Restore .mcp-projects.json from backup, or" ++ Js.nl
  ++ "2. Move existing project directories to a safe location and reinitialize"
  ++ Js.nl ++ Js.nl
  ++ "The server cannot safely continue operation in this state.".

Definition skipsCorruptionCheck : bool :=
  Js.includes (workingDir E) "tmp"
  || Js.includes (workingDir E) "temp"
  || Js.includes (workingDir E) "test"
  || testEnvironment.

Definition projectLike (entry : string * bool) : bool :=
  snd entry
  && negb (Js.startsWith (fst entry) ".")
  && negb (Js.startsWith (fst entry) "node_modules")
  && negb (Js.startsWith (fst entry) "tmp")
  && negb (Js.startsWith (fst entry) "temp").

(** the loop that fills [actualProjectDirs] *)
Fixpoint collectProjectDirs (dirs : list string) : M (list string) :=
  match dirs with
  | [] => ret []
  | name :: rest =>
      found <- tryCatch (fs_access [name; "project.json"] ;;; ret true)
                 (fun _ => ret false) ;;
      others <- collectProjectDirs rest ;;
      ret (if (found : bool) then name :: others else others)
  end.

Definition checkForCorruptedDirectory : M unit :=
  tryCatch
    (if skipsCorruptionCheck then ret tt
     else
       entries <- fs_readdir [] ;;
       let hasLockFiles := existsb (fun entry => isLockFile (fst entry)) entries in
       let projectLikeDirs := filter projectLike entries in
       actualProjectDirs <- collectProjectDirs (map fst projectLikeDirs) ;;
       if Nat.ltb 0 (length actualProjectDirs)
          && (hasLockFiles || Nat.ltb 1 (length actualProjectDirs))
       then throw (PlainError (corruptionMessage actualProjectDirs))
       else ret tt)
    (fun error =>
       if Js.includes (message error)
            "FATAL: MCP Security Report directory corruption"
       then throw error
       else ret tt).

Definition readProjectIndex : M InternalProjectIndex :=
  s <- get ;;
  match projectIndexCache s with
  | Some cached => ret cached
  | None =>
      tryCatch
        (content <- fs_readFile projectIndexPath ;;
         match content with
         | JsonIndex internalIndex =>
             modify (setIndexCache (Some internalIndex)) ;;;
             ret internalIndex
         | _ => throw (PlainError "Unexpected token in JSON")
         end)
        (fun error =>
           if isENOENT error
           then
             checkForCorruptedDirectory ;;;
             modify (setIndexCache (Some emptyIndex)) ;;;
             ret emptyIndex
           else throw (wrap "Failed to read project index: " error))
  end.

Definition writeProjectIndex (index : InternalProjectIndex) : M unit :=
  tryCatch
    (fs_writeFile projectIndexTmp (JsonIndex index) ;;;
     fs_rename projectIndexTmp projectIndexPath ;;;
     modify (setIndexCache None))
    (fun error =>
       ignoreErrors (fs_unlink projectIndexTmp) ;;;
       throw (wrap "Failed to write project index: " error)).

(** [getProjectPath]; [path.join(workingDir, '')] is the working directory.
    A sanitized name has no dot and no slash, so the [startsWith] check of
    the source always passes. *)
Definition getProjectPath (projectName : string) : path :=
  let sanitized := sanitizeProjectName projectName in
  if String.eqb sanitized "" then [] else [sanitized].

Inductive RollbackAction : Type :=
| RemoveProjectDirectory (projectPath : path)
| RestoreProjectIndex (originalIndexState : InternalProjectIndex).

Record RollbackItem : Type := mkRollback {
  operation : RollbackAction;
  description : string;
  completed : bool
}.

Definition runRollback (a : RollbackAction) : M unit :=
  match a with
  | RemoveProjectDirectory projectPath => fs_rm projectPath
  | RestoreProjectIndex originalIndexState =>
      writeProjectIndex originalIndexState ;;;
      modify (setIndexCache None)
  end.

(** the rollback loop: [items] come last-pushed first; gives
    [rollbackErrors] *)
Fixpoint rollbackAll (items : list RollbackItem) : M (list string) :=
  match items with
  | [] => ret []
  | item :: rest =>
      failed <- (if completed item
                 then tryCatch (runRollback (operation item) ;;; ret [])
                        (fun rollbackError =>
                           ret [description item ++ ": "
                                ++ message rollbackError])
                 else ret []) ;;
      others <- rollbackAll rest ;;
      ret (failed ++ others)%list
  end.

Definition markLastCompleted (ops : list RollbackItem) : list RollbackItem :=
  match rev ops with
  | [] => []
  | last :: before =>
      rev (mkRollback (operation last) (description last) true :: before)
  end.

(** the [try] block of [executeProjectCreationTransaction]: its outcome and
    the [operations] array as it stands when the block is left *)
Definition transactionBody (sanitizedName : string) (projectPath : path)
           (metadata : ProjectMetadata)
  : State -> (Result ProjectMetadata * list RollbackItem) * State :=
  fun s0 =>
    match ensureDirectoryExists projectPath s0 with
    | (Err e, s1) => ((Err e, []), s1)
    | (Hang, s1) => ((Hang, []), s1)
    | (Ok _, s1) =>
        let ops1 :=
          [mkRollback (RemoveProjectDirectory projectPath)
                      "Remove project directory" true] in
        let projectFile := (projectPath ++ ["project.json"])%list in
        let tempFile := (projectPath ++ ["project.json.tmp"])%list in
        match (ensureDirectoryExists (projectPath ++ ["findings"])%list ;;;
               ensureDirectoryExists (projectPath ++ ["audit-trails"])%list ;;;
               fs_writeFile tempFile (JsonProject metadata) ;;;
               fs_rename tempFile projectFile ;;;
               readProjectIndex) s1 with
        | (Err e, s2) => ((Err e, ops1), s2)
        | (Hang, s2) => ((Hang, ops1), s2)
        | (Ok originalIndexState, s2) =>
            let newIndex :=
              mkIndex (mapSet sanitizedName metadata
                              (projects originalIndexState))
                      (lastActive originalIndexState) in
            let ops2 :=
              (ops1 ++ [mkRollback (RestoreProjectIndex originalIndexState)
                                   "Restore project index" false])%list in
            match writeProjectIndex newIndex s2 with
            | (Err e, s3) => ((Err e, ops2), s3)
            | (Hang, s3) => ((Hang, ops2), s3)
            | (Ok _, s3) => ((Ok metadata, markLastCompleted ops2), s3)
            end
        end
    end.

Definition executeProjectCreationTransaction (sanitizedName : string)
           (projectPath : path) (metadata : ProjectMetadata)
  : M ProjectMetadata :=
  fun s0 =>
    match transactionBody sanitizedName projectPath metadata s0 with
    | ((Err error, operations), s1) =>
        (rollbackErrors <- rollbackAll (rev operations) ;;
         modify (setIndexCache None) ;;;
         match rollbackErrors with
         | [] => throw (PlainError ("Failed to create project: "
                                    ++ message error))
         | _ => throw (PlainError ("Failed to create project: "
                                   ++ message error ++ ". Rollback errors: "
                                   ++ Js.join "; " rollbackErrors))
         end) s1
    | ((r, _), s1) => (r, s1)
    end.

(** [createProject]; [uuid] stands for [uuidv4()]. *)
Definition createProject (uuid : string) (input : CreateProjectInput)
  : M ProjectMetadata :=
  let sanitizedName := sanitizeProjectName (cp_name input) in
  if negb (Js.truthy sanitizedName)
  then throw (PlainError "Invalid project name")
  else
    let projectPath := getProjectPath sanitizedName in
    withLock "project-index"
      (tryCatch
         (fs_access projectPath ;;; throw (ProjectExistsError sanitizedName))
         (fun error =>
            if negb (isProjectExistsError error) && negb (isENOENT error)
            then throw (wrap "Failed to check project existence: " error)
            else if isProjectExistsError error then throw error
            else ret tt) ;;;
       s <- get ;;
       let metadata :=
         mkProject uuid sanitizedName (cp_client input) (clock s) (clock s)
                   (cp_scope input) InProgress (cp_description input) in
       executeProjectCreationTransaction sanitizedName projectPath metadata).

Definition getProject (projectName : string) : M ProjectMetadata :=
  let sanitizedName := sanitizeProjectName projectName in
  index <- readProjectIndex ;;
  match mapGet sanitizedName (projects index) with
  | Some metadata => ret metadata
  | None => throw (ProjectNotFoundError sanitizedName)
  end.

Definition checkProjectNotCompleted (projectName operation : string) : M unit :=
  project <- getProject projectName ;;
  if ProjectStatus_eqb (p_status project) Completed
  then throw (ProjectCompletedError projectName operation)
  else ret tt.

Definition orElse {A} (o fallback : option A) : option A :=
  match o with
  | Some _ => o
  | None => fallback
  end.

(** [{ ...metadata, ...updates, updated: new Date(), status: ... }] *)
Definition applyProjectUpdates (metadata : ProjectMetadata)
           (updates : UpdateProjectInput) (now : Z) : ProjectMetadata :=
  mkProject (p_id metadata) (p_name metadata)
            (orElse (up_client updates) (p_client metadata))
            (p_created metadata) now
            (orElse (up_scope updates) (p_scope metadata))
            (match up_status updates with
             | Some st => st
             | None => p_status metadata
             end)
            (orElse (up_description updates) (p_description metadata)).

(** [updateProject]. [readProjectIndex] hands out the cached object, so
    [index.projects.set] changes the cache as well. *)
Definition updateProject (projectName : string) (updates : UpdateProjectInput)
  : M ProjectMetadata :=
  withLock "project-index"
    (metadata <- getProject projectName ;;
     if ProjectStatus_eqb (p_status metadata) Completed
     then throw (ProjectCompletedError projectName "update")
     else
       s <- get ;;
       let updated := applyProjectUpdates metadata updates (clock s) in
       let projectPath := getProjectPath projectName in
       let projectFile := (projectPath ++ ["project.json"])%list in
       let tempFile := (projectPath ++ ["project.json.tmp"])%list in
       tryCatch
         (fs_writeFile tempFile (JsonProject updated) ;;;
          fs_rename tempFile projectFile ;;;
          index <- readProjectIndex ;;
          let index' :=
            mkIndex (mapSet (sanitizeProjectName projectName) updated
                            (projects index))
                    (lastActive index) in
          modify (setIndexCache (Some index')) ;;;
          writeProjectIndex index' ;;;
          ret updated)
         (fun error =>
            ignoreErrors (fs_unlink tempFile) ;;;
            throw (wrap "Failed to update project: " error))).

Definition deleteProject (projectName : string) : M unit :=
  let sanitizedName := sanitizeProjectName projectName in
  withLock "project-index"
    (getProject sanitizedName ;;;
     checkProjectNotCompleted sanitizedName "delete" ;;;
     let projectPath := getProjectPath sanitizedName in
     originalIndex <- readProjectIndex ;;
     tryCatch
       (let index :=
          mkIndex (mapDelete sanitizedName (projects originalIndex))
                  (if optEqb (lastActive originalIndex) sanitizedName
                   then None else lastActive originalIndex) in
        writeProjectIndex index ;;;
        fs_rm projectPath)
       (fun error =>
          tryCatch
            (writeProjectIndex originalIndex ;;;
             modify (setIndexCache None))
            (fun _ => modify (setIndexCache None)) ;;;
          throw (wrap "Failed to delete project: " error))).

(* ------------------------------------------------------------------ *)
(** *** Record files: [gray-matter] documents *)

(** [newline] of [gray-matter/lib/stringify.js] *)
Definition newline (str : string) : string :=
  if Js.endsWith str Js.nl then str else str ++ Js.nl.

(** [matter.stringify(body, frontmatter)] *)
Definition matterStringify (body : string) (frontmatter : MatterData) : Content :=
  Markdown frontmatter (newline body).

(** [matter(content, SAFE_MATTER_OPTIONS)] on a document of the engine's
    making: the metadata block and the text after it. The [yaml] engine of
    the options refuses a block longer than [getYamlSizeLimit]. What the
    library reads from any other text (no data when the text has no block,
    whatever [js-yaml] makes of the block otherwise) does not fit the types
    of the records; such a file is reported as unreadable here, so what is
    stated about a read is stated for documents of the engine's making. *)
Definition matterParse (content : Content) : M (MatterData * string) :=
  match content with
  | Markdown data body =>
      if getYamlSizeLimit <? yamlLength E data
      then throw (PlainError
                    ("YAML frontmatter too large (>"
                     ++ showZ ((2 * getYamlSizeLimit + 1024) / 2048) ++ "KB)"))
      else ret (data, body)
  | _ => throw (PlainError "YAML frontmatter must be an object")
  end.

(** [content.match(/^---\n([\s\S]*?)\n---/)] *)
Definition hasFrontmatter (content : Content) : bool :=
  match content with
  | Markdown _ _ => true
  | Raw text =>
      Js.startsWith text ("---" ++ Js.nl)
      && Js.includes
           (match text with
            | String _ (String _ (String _ rest)) => rest
            | _ => ""
            end)
           (Js.nl ++ "---")
  | _ => false
  end.

(** match [p] at the head of [s] under the [i] flag; gives the rest *)
Fixpoint stripPrefixCI (s p : string) : option string :=
  match p, s with
  | EmptyString, _ => Some s
  | String _ _, EmptyString => None
  | String a p', String b s' =>
      if Ascii.eqb (Js.lower a) (Js.lower b) then stripPrefixCI s' p' else None
  end.

(** [\s*\n], greedy: the text after the last line feed of the white-space
    run at the head of [s] *)
Fixpoint afterBlankLine (s : string) : option string :=
  match s with
  | EmptyString => None
  | String c rest =>
      if Js.isSpace c
      then match afterBlankLine rest with
           | Some t => Some t
           | None => if Js.isNewline c then Some rest else None
           end
      else None
  end.

(** the heading [## sectionName\s*\n] at the head of [s] *)
Definition headingAt (sectionName s : string) : option string :=
  match stripPrefixCI s ("## " ++ sectionName) with
  | Some rest => afterBlankLine rest
  | None => None
  end.

(** leftmost match of the heading; gives the text after it *)
Fixpoint findHeading (sectionName s : string) : option string :=
  match headingAt sectionName s with
  | Some rest => Some rest
  | None =>
      match s with
      | EmptyString => None
      | String _ s' => findHeading sectionName s'
      end
  end.

(** [([\s\S]*?)(?=\n## |$)]: the shortest text up to a next heading or the
    end *)
Fixpoint untilNextHeading (s : string) : string :=
  if Js.startsWith s (Js.nl ++ "## ") then EmptyString
  else match s with
       | EmptyString => EmptyString
       | String c s' => String c (untilNextHeading s')
       end.

(** [extractSection] of [getFinding]:
    [new RegExp(`## ${sectionName}\\s*\\n([\\s\\S]*?)(?=\\n## |$)`, 'i')] *)
Definition extractSection (markdownContent sectionName : string)
  : option string :=
  match findHeading sectionName markdownContent with
  | Some rest => Some (Js.trim (untilNextHeading rest))
  | None => None
  end.

Definition findingBody (description : string)
           (evidence recommendations : option string) : string :=
  "## Description" ++ Js.nl ++ Js.nl ++ description ++ Js.nl ++ Js.nl
  ++ (match evidence with
      | Some ev =>
          if Js.truthy ev
          then "## Evidence" ++ Js.nl ++ Js.nl ++ ev ++ Js.nl ++ Js.nl
          else ""
      | None => ""
      end)
  ++ (match recommendations with
      | Some rc =>
          if Js.truthy rc
          then "## Recommendations" ++ Js.nl ++ Js.nl ++ rc
          else ""
      | None => ""
      end).

Definition findingFrontmatter (finding : Finding) : MatterData :=
  FindingData
    (mkFindingMatter (f_id finding) (f_title finding) (f_severity finding)
                     (f_created finding) (f_updated finding)
                     (f_cwe finding) (f_cvssString finding)
                     (f_cvssScore finding) (f_components finding)).

Definition findingContent (finding : Finding) : Content :=
  matterStringify
    (findingBody (f_description finding) (f_evidence finding)
                 (f_recommendations finding))
    (findingFrontmatter finding).

Definition findingPath (projectName findingId : string) : path :=
  (getProjectPath projectName
   ++ ["findings"; String.append findingId ".md"])%list.

Definition findingTmp (projectName findingId : string) : path :=
  (getProjectPath projectName
   ++ ["findings"; String.append findingId ".md.tmp"])%list.

Definition liftE {A} (r : Error + A) : M A :=
  match r with
  | inl e => throw e
  | inr a => ret a
  end.

(** [createFinding]; [randomId] stands for the random bytes of
    [sanitizeFindingId]. *)
Definition createFinding (randomId projectName : string) (input : FindingInput)
  : M Finding :=
  getProject projectName ;;;
  checkProjectNotCompleted projectName "create finding" ;;;
  s <- get ;;
  let finding0 :=
    mkFinding (sanitizeFindingId randomId (fi_title input))
              (fi_title input) (fi_severity input) (fi_cwe input)
              (fi_cvssString input) None (fi_components input)
              (fi_description input) (fi_evidence input)
              (fi_recommendations input) (clock s) (clock s) in
  finding <-
    (if Js.truthyOpt (fi_cvssString input)
     then
       tryCatch
         (score <- liftE (calculateCVSSScore
                            (match fi_cvssString input with
                             | Some v => v
                             | None => ""
                             end)) ;;
          ret (mkFinding (f_id finding0) (f_title finding0)
                         (f_severity finding0) (f_cwe finding0)
                         (f_cvssString finding0) (Some score)
                         (f_components finding0) (f_description finding0)
                         (f_evidence finding0) (f_recommendations finding0)
                         (f_created finding0) (f_updated finding0)))
         (fun error => throw (wrap "Invalid CVSS string: " error))
     else ret finding0) ;;
  let lockKey := "finding-" ++ projectName ++ "-" ++ f_id finding in
  withLock lockKey
    (let findingFile := findingPath projectName (f_id finding) in
     let tempPath := findingTmp projectName (f_id finding) in
     tryCatch
       (fs_access findingFile ;;;
        throw (PlainError ("Finding with ID '" ++ f_id finding
                           ++ "' already exists")))
       (fun error => if isENOENT error then ret tt else throw error) ;;;
     tryCatch
       (fs_writeFile tempPath (findingContent finding) ;;;
        fs_rename tempPath findingFile ;;;
        updateProject projectName noUpdates ;;;
        invalidateFindings projectName ;;;
        ret finding)
       (fun error =>
          ignoreErrors (fs_unlink tempPath) ;;;
          throw (wrap "Failed to create finding: " error))).

Definition getFinding (projectName findingId : string) : M Finding :=
  getProject projectName ;;;
  tryCatch
    (content <- fs_readFile (findingPath projectName findingId) ;;
     parsed <- matterParse content ;;
     match fst parsed with
     | FindingData data =>
         let markdownContent := snd parsed in
         let description :=
           match extractSection markdownContent "Description" with
           | Some d => d
           | None => ""
           end in
         ret (mkFinding (fm_id data) (fm_title data) (fm_severity data)
                        (fm_cwe data) (fm_cvssString data) (fm_cvssScore data)
                        (fm_components data) description
                        (extractSection markdownContent "Evidence")
                        (extractSection markdownContent "Recommendations")
                        (fm_created data) (fm_updated data))
     | AuditData _ => throw (PlainError "YAML frontmatter must be an object")
     end)
    (fun error =>
       if isENOENT error then throw (FindingNotFoundError findingId)
       else throw (wrap "Failed to read finding: " error)).

(** the stats of one batch, failures dropped *)
Definition statBatch (dir : path) (batch : list string) : M (list (string * Z)) :=
  allSettled
    (fun file => mtime <- fs_stat (dir ++ [file])%list ;; ret (file, mtime))
    batch.

(** the batch loop of [listFindings]. [i] is the loop index, [fuel] bounds
    the number of rounds; running out of it stands for a loop that does not
    advance. *)
Fixpoint scanFindings (fuel : nat) (dir : path) (mdFiles : list string)
         (batchSize targetCount memoryLimit : Z) (i : Z)
         (filesByMtime : list (string * Z)) : M (list (string * Z)) :=
  if Z.of_nat (length mdFiles) <=? i then ret filesByMtime
  else
    match fuel with
    | O => fun s => (Hang, s)
    | S fuel' =>
        successfulStats <- statBatch dir (slice mdFiles i (i + batchSize)) ;;
        let sorted := sortDesc snd (filesByMtime ++ successfulStats)%list in
        let trimmed :=
          if memoryLimit <? Z.of_nat (length sorted)
          then spliceFrom sorted memoryLimit else sorted in
        if targetCount + Z.min 20 batchSize <=? Z.of_nat (length trimmed)
        then ret trimmed
        else scanFindings fuel' dir mdFiles batchSize targetCount memoryLimit
                          (i + batchSize) trimmed
    end.

(** one file of the page, as [listFindings] reads it *)
Definition readListedFinding (dir : path) (file : string) : M Finding :=
  content <- fs_readFile (dir ++ [file])%list ;;
  if negb (hasFrontmatter content)
  then throw (PlainError ("No frontmatter found in " ++ file))
  else
    parsed <- matterParse content ;;
    match fst parsed with
    | FindingData data =>
        ret (mkFinding (fm_id data) (fm_title data) (fm_severity data)
                       (fm_cwe data) (fm_cvssString data) (fm_cvssScore data)
                       (fm_components data) "" None None
                       (fm_created data) (fm_updated data))
    | AuditData _ => throw (PlainError "YAML frontmatter must be an object")
    end.

Definition isMarkdownFile (entry : string * bool) : bool :=
  negb (snd entry) && Js.endsWith (fst entry) ".md".

(** [listFindings(projectName, { limit, offset })]; the defaults
    [limit = 100], [offset = 0] are the caller's to fill in. *)
Definition listFindings (projectName : string) (limit offset : Z)
  : M (list Finding) :=
  getProject projectName ;;;
  let findingsDir := (getProjectPath projectName ++ ["findings"])%list in
  let cacheKey := projectName ++ "-findings" in
  tryCatch
    (lastModified <- getDirectoryLastModified findingsDir ;;
     s <- get ;;
     let hit := LRU.get (clock s) cacheKey (findingsCache s) in
     modify (setFindingsCache (snd hit)) ;;;
     let fromCache :=
       match fst hit with
       | Some cached =>
           if lastModified <=? LRU.lastModified cached
           then Some (slice (LRU.data cached) offset (offset + limit))
           else None
       | None => None
       end in
     match fromCache with
     | Some page => ret page
     | None =>
         files <- fs_readdir findingsDir ;;
         let mdFiles := map fst (filter isMarkdownFile files) in
         let isLargeOffset := 500 <? offset in
         let isLargeDataset := 1000 <? Z.of_nat (length mdFiles) in
         let batchSize :=
           if isLargeDataset then Z.min 25 (limit * 2)
           else Z.min 50 (limit * 3) in
         let targetCount := offset + limit in
         let memoryLimit :=
           if isLargeOffset then Z.min (targetCount + 100) 2000
           else targetCount + 50 in
         filesByMtime <- scanFindings (length mdFiles) findingsDir mdFiles
                           batchSize targetCount memoryLimit 0 [] ;;
         let sortedFiles :=
           map fst (slice (sortDesc snd filesByMtime) offset (offset + limit)) in
         findings <- allSettled (readListedFinding findingsDir) sortedFiles ;;
         ret (sortDesc f_updated findings)
     end)
    (fun error =>
       if isENOENT error
       then
         s <- get ;;
         modify (setFindingsCache
                   (LRU.set (clock s) cacheKey [] (clock s) (findingsCache s))) ;;;
         ret []
       else throw (wrap "Failed to list findings: " error)).

(** [{ ...existing, ...updates, updated: new Date() }] *)
Definition applyFindingUpdates (existing : Finding) (updates : FindingUpdates)
           (now : Z) : Finding :=
  mkFinding (f_id existing)
            (match fu_title updates with
             | Some t => t
             | None => f_title existing
             end)
            (match fu_severity updates with
             | Some v => v
             | None => f_severity existing
             end)
            (orElse (fu_cwe updates) (f_cwe existing))
            (orElse (fu_cvssString updates) (f_cvssString existing))
            (f_cvssScore existing)
            (orElse (fu_components updates) (f_components existing))
            (match fu_description updates with
             | Some d => d
             | None => f_description existing
             end)
            (orElse (fu_evidence updates) (f_evidence existing))
            (orElse (fu_recommendations updates) (f_recommendations existing))
            (f_created existing) now.

Definition withScore (finding : Finding) (score : option Q) : Finding :=
  mkFinding (f_id finding) (f_title finding) (f_severity finding)
            (f_cwe finding) (f_cvssString finding) score
            (f_components finding) (f_description finding)
            (f_evidence finding) (f_recommendations finding)
            (f_created finding) (f_updated finding).

Definition updateFinding (projectName findingId : string)
           (updates : FindingUpdates) : M Finding :=
  let lockKey := "finding-" ++ projectName ++ "-" ++ findingId in
  withLock lockKey
    (existing <- getFinding projectName findingId ;;
     checkProjectNotCompleted projectName "update finding" ;;;
     s <- get ;;
     let updated0 := applyFindingUpdates existing updates (clock s) in
     updated <-
       match fu_cvssString updates with
       | Some v =>
           if Js.truthy v
           then tryCatch
                  (score <- liftE (calculateCVSSScore v) ;;
                   ret (withScore updated0 (Some score)))
                  (fun error => throw (wrap "Invalid CVSS string: " error))
           else ret (withScore updated0 None)
       | None => ret updated0
       end ;;
     let findingFile := findingPath projectName findingId in
     let tempPath := findingTmp projectName findingId in
     tryCatch
       (fs_writeFile tempPath (findingContent updated) ;;;
        fs_rename tempPath findingFile ;;;
        updateProject projectName noUpdates ;;;
        invalidateFindings projectName ;;;
        ret updated)
       (fun error =>
          ignoreErrors (fs_unlink tempPath) ;;;
          throw (wrap "Failed to update finding: " error))).

Definition deleteFinding (projectName findingId : string) : M unit :=
  let lockKey := "finding-" ++ projectName ++ "-" ++ findingId in
  withLock lockKey
    (getFinding projectName findingId ;;;
     checkProjectNotCompleted projectName "delete finding" ;;;
     tryCatch
       (fs_unlink (findingPath projectName findingId) ;;;
        updateProject projectName noUpdates ;;;
        invalidateFindings projectName)
       (fun error => throw (wrap "Failed to delete finding: " error))).

Definition auditPath (projectName auditId : string) : path :=
  (getProjectPath projectName
   ++ ["audit-trails"; String.append auditId ".md"])%list.

Definition auditTmp (projectName auditId : string) : path :=
  (getProjectPath projectName
   ++ ["audit-trails"; String.append auditId ".md.tmp"])%list.

Definition auditFrontmatter (entry : AuditTrailEntry) : MatterData :=
  AuditData
    (mkAuditMatter (a_id entry) (a_title entry) (a_created entry)
                   (a_tools entry) (a_methodology entry) (a_results entry)
                   (a_notes entry)).

(** [createAuditTrail]. [matter.stringify] is given the description as the
    document text. *)
Definition createAuditTrail (randomId projectName : string)
           (input : AuditTrailInput) : M AuditTrailEntry :=
  getProject projectName ;;;
  checkProjectNotCompleted projectName "create audit trail" ;;;
  s <- get ;;
  let entry :=
    mkAuditTrailEntry (sanitizeAuditId randomId (ai_title input))
                      (ai_title input) (ai_description input) (clock s)
                      (ai_tools input) (ai_methodology input)
                      (ai_results input) (ai_notes input) in
  let lockKey := "audit-" ++ projectName ++ "-" ++ a_id entry in
  withLock lockKey
    (let auditFile := auditPath projectName (a_id entry) in
     let tempPath := auditTmp projectName (a_id entry) in
     tryCatch
       (fs_access auditFile ;;;
        throw (PlainError ("Audit trail with ID '" ++ a_id entry
                           ++ "' already exists")))
       (fun error => if isENOENT error then ret tt else throw error) ;;;
     tryCatch
       (ensureDirectoryExists
          (getProjectPath projectName ++ ["audit-trails"])%list ;;;
        fs_writeFile tempPath
          (matterStringify (a_description entry) (auditFrontmatter entry)) ;;;
        fs_rename tempPath auditFile ;;;
        updateProject projectName noUpdates ;;;
        invalidateAuditTrails projectName ;;;
        ret entry)
       (fun error =>
          ignoreErrors (fs_unlink tempPath) ;;;
          throw (wrap "Failed to create audit trail: " error))).

Definition getAuditTrail (projectName auditId : string) : M AuditTrailEntry :=
  getProject projectName ;;;
  tryCatch
    (content <- fs_readFile (auditPath projectName auditId) ;;
     parsed <- matterParse content ;;
     match fst parsed with
     | AuditData data =>
         ret (mkAuditTrailEntry (am_id data) (am_title data) (snd parsed)
                                (am_created data) (am_tools data)
                                None None None)
     | FindingData _ => throw (PlainError "YAML frontmatter must be an object")
     end)
    (fun error =>
       if isENOENT error then throw (AuditTrailNotFoundError auditId)
       else throw (wrap "Failed to read audit trail: " error)).

(** the batch loop of [listAuditTrails] *)
Fixpoint scanAuditTrails (fuel : nat) (dir : path) (mdFiles : list string)
         (batchSize targetCount : Z) (i : Z)
         (filesByMtime : list (string * Z)) : M (list (string * Z)) :=
  if Z.of_nat (length mdFiles) <=? i then ret filesByMtime
  else
    match fuel with
    | O => fun s => (Hang, s)
    | S fuel' =>
        successfulStats <- statBatch dir (slice mdFiles i (i + batchSize)) ;;
        let sorted := sortDesc snd (filesByMtime ++ successfulStats)%list in
        if targetCount + 10 <=? Z.of_nat (length sorted)
        then ret sorted
        else scanAuditTrails fuel' dir mdFiles batchSize targetCount
                             (i + batchSize) sorted
    end.

Definition readListedAuditTrail (dir : path) (file : string) : M AuditTrailEntry :=
  content <- fs_readFile (dir ++ [file])%list ;;
  if negb (hasFrontmatter content)
  then throw (PlainError ("No frontmatter found in " ++ file))
  else
    parsed <- matterParse content ;;
    match fst parsed with
    | AuditData data =>
        ret (mkAuditTrailEntry (am_id data) (am_title data) ""
                               (am_created data) (am_tools data)
                               None None None)
    | FindingData _ => throw (PlainError "YAML frontmatter must be an object")
    end.

Definition listAuditTrails (projectName : string) (limit offset : Z)
  : M (list AuditTrailEntry) :=
  getProject projectName ;;;
  let auditDir := (getProjectPath projectName ++ ["audit-trails"])%list in
  let cacheKey := projectName ++ "-audit-trails" in
  tryCatch
    (lastModified <- getDirectoryLastModified auditDir ;;
     s <- get ;;
     let hit := LRU.get (clock s) cacheKey (auditTrailsCache s) in
     modify (setAuditTrailsCache (snd hit)) ;;;
     let fromCache :=
       match fst hit with
       | Some cached =>
           if lastModified <=? LRU.lastModified cached
           then Some (slice (LRU.data cached) offset (offset + limit))
           else None
       | None => None
       end in
     match fromCache with
     | Some page => ret page
     | None =>
         files <- fs_readdir auditDir ;;
         let mdFiles := map fst (filter isMarkdownFile files) in
         let batchSize := Z.min 50 (limit * 3) in
         let targetCount := offset + limit in
         filesByMtime <- scanAuditTrails (length mdFiles) auditDir mdFiles
                           batchSize targetCount 0 [] ;;
         let sortedFiles :=
           map fst (slice (sortDesc snd filesByMtime) offset (offset + limit)) in
         entries <- allSettled (readListedAuditTrail auditDir) sortedFiles ;;
         ret (sortDesc a_created entries)
     end)
    (fun error =>
       if isENOENT error
       then
         s <- get ;;
         modify (setAuditTrailsCache
                   (LRU.set (clock s) cacheKey [] (clock s)
                            (auditTrailsCache s))) ;;;
         ret []
       else throw (wrap "Failed to list audit trails: " error)).

End Engine.

(* ================================================================== *)
(** ** Reference definitions and sample data *)
(* ================================================================== *)

(** The capacity as the design text words it: the configured size, 50 when
    none is given, clamped to [1, 10000]. *)
Definition clampedCapacity (configured : option Z) : Z :=
  Z.max 1 (Z.min 10000 (match configured with Some n => n | None => 50 end)).

(** [checkForCorruptedDirectory] read off the disk: the directories it takes
    for orphaned projects, and whether it raises the alarm. *)
Definition hasProjectJson (fs : FS) (name : string) : bool :=
  match fsGet [name; "project.json"] fs with
  | Some _ => true
  | None => false
  end.

Definition orphanedProjects (fs : FS) : list string :=
  filter (hasProjectJson fs) (map fst (filter projectLike (entriesOf [] fs))).

Definition hasLockArtifacts (fs : FS) : bool :=
  existsb (fun entry => isLockFile (fst entry)) (entriesOf [] fs).

Definition corruptionDetected (E : Env) (fs : FS) : bool :=
  negb (skipsCorruptionCheck E)
  && Nat.ltb 0 (length (orphanedProjects fs))
  && (hasLockArtifacts fs || Nat.ltb 1 (length (orphanedProjects fs))).

(** The corruption heuristic as the design text words it: at least one
    subdirectory containing a [project.json] exists, and either lock
    artifacts exist or more than one such subdirectory exists. *)
Definition projectDirectories (fs : FS) : list string :=
  filter (hasProjectJson fs)
         (map fst (filter (fun entry => snd entry) (entriesOf [] fs))).

Definition heuristicAsWorded (fs : FS) : bool :=
  Nat.ltb 0 (length (projectDirectories fs))
  && (hasLockArtifacts fs || Nat.ltb 1 (length (projectDirectories fs))).

Module Sample.

(** An engine in [/srv/audit]: no I/O failure, CVSS 3.x vectors score 9.8,
    CVSS 2 vectors are refused by the library. *)
Definition env : Env :=
  mkEnv "/srv/audit" noVariables
        (fun _ _ => false)
        (fun _ => 120)
        (fun _ => Thrown "Error" "Invalid CVSS 2 vector")
        (fun _ => Scores (Some (98 # 10)))
        (fun _ => Scores (Some (98 # 10)))
        (fun _ => Scores None).

(** the same engine started with the variables [variables] *)
Definition startedWith (variables : ProcessEnv) : Env :=
  mkEnv (workingDir env) variables (ioFails env) (yamlLength env)
        (Cvss2 env) (Cvss3P0 env) (Cvss3P1 env) (Cvss4P0 env).

(** [MCP_SECURITY_REPORT_CACHE_SIZE] set to [size] *)
Definition cacheSizeSet (size : string) : ProcessEnv :=
  mkProcessEnv None None None None None None None (Some size) None None None
               None None None None None.

(** [MCP_SECURITY_REPORT_LOCK_STALE_MS] set to [ms] *)
Definition lockStaleSet (ms : string) : ProcessEnv :=
  mkProcessEnv None None None None None None None None None (Some ms) None
               None None None None None.

Definition indexFile (idx : InternalProjectIndex) : path * Node :=
  (projectIndexPath, File (JsonIndex idx) 0).

(** a second process holds the instance lock since [t = 990] *)
Definition heldState : State :=
  newStorageManager env
    [indexFile emptyIndex; ([instanceLockName], Dir 990)] 1000.

(** this process took the instance lock at [t = 0]; 60001 ms later the
    artifact still carries its first time stamp *)
Definition ownerState : State :=
  setClock 60001 (snd (acquireInstanceLock env (newStorageManager env [] 0))).

Definition project (name : string) (status : ProjectStatus) : ProjectMetadata :=
  mkProject "5f0c2d1e-0000-4000-8000-000000000001" name None 0 0 None status None.

Definition findingFile (projectName id : string) (t : Z) : path * Node :=
  ([projectName; "findings"; String.append id ".md"],
   File (Markdown
           (FindingData (mkFindingMatter id id Low t t None None None None))
           ("## Description" ++ Js.nl ++ Js.nl ++ "text" ++ Js.nl ++ Js.nl))
        t).

(** project [p] with seven findings; [readdir] lists them oldest first *)
Definition sevenFindings : State :=
  newStorageManager env
    [indexFile (mkIndex [("p", project "p" InProgress)] None);
     (["p"], Dir 0);
     (["p"; "findings"], Dir 0);
     (["p"; "audit-trails"], Dir 0);
     (["p"; "project.json"], File (JsonProject (project "p" InProgress)) 0);
     findingFile "p" "FIND-00000001-a" 1;
     findingFile "p" "FIND-00000002-b" 2;
     findingFile "p" "FIND-00000003-c" 3;
     findingFile "p" "FIND-00000004-d" 4;
     findingFile "p" "FIND-00000005-e" 5;
     findingFile "p" "FIND-00000006-f" 6;
     findingFile "p" "FIND-00000007-g" 7]
    100.

(** a disk with the one project [name] and no record in it *)
Definition projectDisk (name : string) (status : ProjectStatus) : FS :=
  [indexFile (mkIndex [(name, project name status)] None);
   ([name], Dir 0);
   ([name; "findings"], Dir 0);
   ([name; "audit-trails"], Dir 0);
   ([name; "project.json"], File (JsonProject (project name status)) 0)].

Definition auditFile (projectName id : string) (t : Z) : path * Node :=
  ([projectName; "audit-trails"; String.append id ".md"],
   File (Markdown
           (AuditData (mkAuditMatter id id t None None None None))
           ("Scanned the perimeter." ++ Js.nl))
        t).

(** project [p], completed, with one finding and one audit trail *)
Definition archived : State :=
  newStorageManager env
    (projectDisk "p" Completed
     ++ [findingFile "p" "FIND-00000001-a" 1;
         auditFile "p" "AUD-00000001-a" 2])%list
    100.

Definition retitle : FindingUpdates :=
  mkFindingUpdates (Some "Renamed") None None None None None None None.

Definition rewording : FindingUpdates :=
  mkFindingUpdates None None None None None (Some "Reworded.") None None.

(** an engine whose writes of the index's temporary file fail *)
Definition indexWriteFails : Env :=
  mkEnv "/srv/audit" noVariables
        (fun op p =>
           match op with
           | OpWriteFile => path_eqb p projectIndexTmp
           | _ => false
           end)
        (fun _ => 120)
        (fun _ => Scores None) (fun _ => Scores None)
        (fun _ => Scores None) (fun _ => Scores None).

(** a store of that engine with an empty index and no project *)
Definition emptyStore : State :=
  newStorageManager indexWriteFails [indexFile emptyIndex] 100.

(** an engine on which, besides, no directory can be removed *)
Definition nothingRemoved : Env :=
  mkEnv "/srv/audit" noVariables
        (fun op p =>
           match op with
           | OpWriteFile => path_eqb p projectIndexTmp
           | OpRm => true
           | _ => false
           end)
        (fun _ => 120)
        (fun _ => Scores None) (fun _ => Scores None)
        (fun _ => Scores None) (fun _ => Scores None).

Definition acme : CreateProjectInput :=
  mkCreateProjectInput "Acme Corp" (Some "Acme") None None.

Definition oneProject : State :=
  newStorageManager env (projectDisk "p" InProgress) 100.

Definition sqli (cvssString : option string) : FindingInput :=
  mkFindingInput "SQLi" High (Some "CWE-89") cvssString None
                 "The id parameter is concatenated into the query."
                 None None None.

(** a finding with all three sections; [description] is the caller's *)
Definition xss (description : string) : FindingInput :=
  mkFindingInput "Stored XSS" Medium (Some "CWE-79") None
                 (Some ["web/comments"]) description
                 (Some "<script>alert(1)</script> is echoed back.")
                 (Some "") None.

(** an engine whose working directory has [test] in its name *)
Definition pentestEnv : Env :=
  mkEnv "/home/alice/pentest-reports" noVariables
        (fun _ _ => false) (fun _ => 120)
        (fun _ => Scores None) (fun _ => Scores None)
        (fun _ => Scores None) (fun _ => Scores None).

(** two project directories and a lock artifact, but no index file *)
Definition orphans : FS :=
  [(["acme"], Dir 0);
   (["acme"; "project.json"], File (JsonProject (project "acme" InProgress)) 0);
   (["globex"], Dir 0);
   (["globex"; "project.json"],
    File (JsonProject (project "globex" InProgress)) 0);
   ([".mcp-lock-project-index.lock"], Dir 0)].

(** an engine whose CVSS 3.1 calculator gives the base score 0 *)
Definition zeroScoreEnv : Env :=
  mkEnv "/srv/audit" noVariables
        (fun _ _ => false) (fun _ => 120)
        (fun _ => Scores None) (fun _ => Scores None)
        (fun _ => Scores (Some (0 # 1))) (fun _ => Scores None).

Definition orphanStore : State := newStorageManager env orphans 0.

Definition pentestStore : State := newStorageManager pentestEnv orphans 0.

End Sample.

(** The page of a listing as the design text words it: of the records in
    [files] (name and modification time), those with the [(offset+1)]-th
    through [(offset+limit)]-th most recent modification times, most recent
    first. *)
Definition pageByMtime (files : list (string * Z)) (limit offset : Z)
  : list string :=
  map fst
      (firstn (Z.to_nat limit) (skipn (Z.to_nat offset) (sortDesc snd files))).

(** name and modification time of the files in directory [dir] *)
Definition filesIn (dir : path) (fs : FS) : list (string * Z) :=
  flat_map
    (fun e =>
       match childOf dir (fst e) with
       | Some name => [(name, mtimeOf (snd e))]
       | None => []
       end)
    fs.

Module Sample2.

(** three projects, updated at 30, 10 and 20, in the order they were
    created *)
Definition agedProject (name : string) (updated : Z) : ProjectMetadata :=
  mkProject "5f0c2d1e-0000-4000-8000-000000000003" name None 0 updated None
            InProgress None.

Definition threeProjects : State :=
  newStorageManager Sample.env
    [Sample.indexFile
       (mkIndex [("a", agedProject "a" 30); ("b", agedProject "b" 10);
                 ("c", agedProject "c" 20)] None)]
    100.

End Sample2.

Module Sample3.

(** an engine whose [access] of the index file fails *)
Definition accessFails : Env :=
  mkEnv "/srv/audit" noVariables
        (fun op p =>
           match op with
           | OpAccess => path_eqb p projectIndexPath
           | _ => false
           end)
        (fun _ => 120)
        (fun _ => Scores None) (fun _ => Scores None)
        (fun _ => Scores None) (fun _ => Scores None).

(** an index with one project, and a temporary file an earlier run left *)
Definition interrupted : State :=
  newStorageManager accessFails
    [Sample.indexFile (mkIndex [("p", Sample.project "p" InProgress)] None);
     (projectIndexTmp, File (JsonIndex emptyIndex) 0)]
    100.

(** an empty working directory *)
Definition fresh : State := newStorageManager Sample.env [] 100.

End Sample3.

Module Sample4.

(** at [t = 100000]: a resource lock made at 30000 with a file in it, one
    made at 50000, and another process's instance lock made at 45000 *)
Definition lockedDisk : State :=
  newStorageManager Sample.env
    [Sample.indexFile emptyIndex;
     ([".mcp-lock-project-index.lock"], Dir 30000);
     ([".mcp-lock-project-index.lock"; "owner"], File (Raw "4711") 30000);
     ([".mcp-lock-finding-p-FIND-1.lock"], Dir 50000);
     ([".mcp-instance.lock"], Dir 45000)]
    100000.

(** the same disk under an engine started with a stale time of one second,
    which the schema refuses *)
Definition hastyDisk : State :=
  newStorageManager (Sample.startedWith (Sample.lockStaleSet "1000"))
                    (disk lockedDisk) 100000.

End Sample4.

Module Sample5.

Definition handover : UpdateProjectInput :=
  mkUpdateProjectInput (Some "Acme") None None (Some Completed).

(** projects [p] and [q], both in progress *)
Definition twoProjects : State :=
  newStorageManager Sample.env
    [Sample.indexFile
       (mkIndex [("p", Sample.project "p" InProgress);
                 ("q", Sample.project "q" InProgress)] (Some "p"));
     (["p"], Dir 0);
     (["p"; "findings"], Dir 0);
     (["p"; "audit-trails"], Dir 0);
     (["p"; "project.json"],
      File (JsonProject (Sample.project "p" InProgress)) 0);
     (["q"], Dir 0);
     (["q"; "findings"], Dir 0);
     (["q"; "audit-trails"], Dir 0);
     (["q"; "project.json"],
      File (JsonProject (Sample.project "q" InProgress)) 0)]
    100.

End Sample5.

Module Sample6.

(** the index with project [p], and nothing else on the disk *)
Definition indexOnly : State :=
  newStorageManager Sample.env
    [Sample.indexFile (mkIndex [("p", Sample.project "p" InProgress)] None)]
    100.

Definition acmeMetadata : ProjectMetadata :=
  mkProject "5f0c2d1e-0000-4000-8000-000000000002" "acme-corp" (Some "Acme")
            100 100 None InProgress None.

End Sample6.

Module Sample7.

(** project [p], in progress, with one finding *)
Definition oneFinding : State :=
  newStorageManager Sample.env
    (Sample.projectDisk "p" InProgress
     ++ [Sample.findingFile "p" "FIND-00000001-a" 1])%list
    100.

End Sample7.

Module Sample8.

(** a new title and a CVSS 3.1 vector *)
Definition rescoring : FindingUpdates :=
  mkFindingUpdates (Some "Renamed") None None
                   (Some "CVSS:3.1/AV:N/AC:L/PR:N/UI:N/S:U/C:H/I:H/A:H")
                   None None None None.

End Sample8.

Module Sample9.

Definition portScan : AuditTrailInput :=
  mkAuditTrailInput "Port scan" "Scanned the perimeter."
                    (Some ["nmap"]) (Some "TCP connect scan")
                    (Some "22 and 443 open") None.

End Sample9.

Module Sample10.

(** project [p] on an engine whose writes of the index's temporary file
    fail *)
Definition brokenStore : State :=
  newStorageManager Sample.indexWriteFails
    (Sample.projectDisk "p" InProgress) 100.

End Sample10.

(* ================================================================== *)
(** ** Predicates on states *)
(* ================================================================== *)

(** a finding file that [getFinding] can read *)
Definition readableFinding (E : Env) (s : State)
           (projectName findingId : string) : Prop :=
  exists data body t,
    fsGet (findingPath projectName findingId) (disk s)
    = Some (File (Markdown (FindingData data) body) t) /\
    yamlLength E (FindingData data) <= getYamlSizeLimit E.

(** an audit trail file that [getAuditTrail] can read *)
Definition readableAuditTrail (E : Env) (s : State)
           (projectName auditId : string) : Prop :=
  exists data body t,
    fsGet (auditPath projectName auditId) (disk s)
    = Some (File (Markdown (AuditData data) body) t) /\
    yamlLength E (AuditData data) <= getYamlSizeLimit E.

(** a record directory is a directory or is not there at all *)
Definition notAFile (dir : path) (s : State) : Prop :=
  forall c t, nodeAt dir (disk s) <> Some (File c t).

(** a finding as a listing gives it: the metadata, without the sections *)
Definition metadataOnly (finding : Finding) : Prop :=
  f_description finding = "" /\
  f_evidence finding = None /\
  f_recommendations finding = None.

(** every finding held in the listing cache is of that shape *)
Definition listingsCached (s : State) : Prop :=
  Forall (fun entry => Forall metadataOnly (LRU.data (snd entry)))
         (LRU.cache (findingsCache s)).

(** nothing of the project at [projectPath] is on the disk *)
Definition absent (projectPath : path) (s : State) : Prop :=
  forall q, under projectPath q = true -> fsGet q (disk s) = None.

(** the paths a failed [createProject] may leave changed: the artifact of
    the index lock and the temporary file of the index *)
Definition rollbackResidue (q : path) : bool :=
  under [".mcp-lock-project-index.lock"] q || path_eqb q projectIndexTmp.

(** the paths [createProject] works on *)
Definition createFootprint (projectPath q : path) : bool :=
  rollbackResidue q || under projectPath q.

(** [absent], decided on the entries of the disk *)
Definition absentb (projectPath : path) (fs : FS) : bool :=
  forallb (fun entry => negb (under projectPath (fst entry))) fs.

(** a text that a section of a finding file gives back: not blank, and
    without the heading marker *)
Definition sectionText (x : string) : bool :=
  negb (Js.includes x "## ") && Js.truthy (Js.trim x).

(** an optional section: absent, empty, or such a text *)
Definition optionalText (o : option string) : bool :=
  match o with
  | Some x => negb (Js.truthy x) || sectionText x
  | None => true
  end.

(** an optional section as it is read back: trimmed; absent when it was
    empty or absent *)
Definition optText (o : option string) : option string :=
  match o with
  | Some x => if Js.truthy x then Some (Js.trim x) else None
  | None => None
  end.

(** a finding as [getFinding] reads it back after [createFinding] *)
Definition readBack (finding : Finding) : Finding :=
  mkFinding (f_id finding) (f_title finding) (f_severity finding)
            (f_cwe finding) (f_cvssString finding) (f_cvssScore finding)
            (f_components finding)
            (Js.trim (f_description finding))
            (optText (f_evidence finding))
            (optText (f_recommendations finding))
            (f_created finding) (f_updated finding).

(** no heading marker starts inside [a] when [v] follows *)
Fixpoint noMarkerIn (a v : string) : bool :=
  match a with
  | EmptyString => true
  | String c a' =>
      negb (Js.startsWith (a ++ v) "## ") && noMarkerIn a' v
  end.

(** the two optional sections of a finding file, as [createFinding] writes
    them *)
Definition evidencePart (evidence : option string) : string :=
  match evidence with
  | Some ev =>
      if Js.truthy ev
      then "## Evidence" ++ Js.nl ++ Js.nl ++ ev ++ Js.nl ++ Js.nl
      else ""
  | None => ""
  end.

Definition recommendationsPart (recommendations : option string) : string :=
  match recommendations with
  | Some rc =>
      if Js.truthy rc
      then "## Recommendations" ++ Js.nl ++ Js.nl ++ rc
      else ""
  | None => ""
  end.

(* ================================================================== *)
(** ** Notions used in the statements *)
(* ================================================================== *)

(** no injected I/O failure *)
Definition reliable (E : Env) : Prop := forall op p, ioFails E op p = false.

Fixpoint strAll (P : ascii -> bool) (s : string) : bool :=
  match s with
  | EmptyString => true
  | String c s' => P c && strAll P s'
  end.

(** the characters of a sanitized project name *)
Definition cleanChar (c : ascii) : bool :=
  Js.isLower c || Js.isDigit c || Ascii.eqb c "-" || Ascii.eqb c "_".

Definition keptChar (c : ascii) : bool :=
  isAlnum c || Ascii.eqb c "-" || Ascii.eqb c "_" || Js.isSpace c.

Fixpoint strMem (c : ascii) (s : string) : bool :=
  match s with
  | EmptyString => false
  | String d s' => Ascii.eqb c d || strMem c s'
  end.

Definition held : string := "already being held".

Module LRUSpec.
Import LRU.

(** what every operation on proper keys maintains *)
Definition bounded {T} (c : t T) : Prop :=
  0 <= size c <= maxSize c /\ Forall (fun p => fst p <> "") (cache c).

Definition properKey {T} (o : op T) : Prop :=
  match o with
  | OpSet _ key _ _ => key <> ""
  | _ => True
  end.

(** the time of an operation that stamps an entry *)
Definition opTime {T} (o : op T) : option Z :=
  match o with
  | OpGet now _ => Some now
  | OpSet now _ _ _ => Some now
  | OpDelete _ => None
  end.

(** the operations come in the order of their times, none before [t] *)
Fixpoint chronological {T} (t : Z) (ops : list (op T)) : Prop :=
  match ops with
  | [] => True
  | o :: rest =>
      match opTime o with
      | Some now => t <= now /\ chronological now rest
      | None => chronological t rest
      end
  end.

(** [a] was last used no later than [b] *)
Definition usedBefore {T} (a b : string * CacheEntry T) : Prop :=
  lastAccessed (snd a) <= lastAccessed (snd b).

(** the entries stand in the order of their last use, none used after
    [time] *)
Definition byLastUse {T} (time : Z) (c : t T) : Prop :=
  StronglySorted usedBefore (cache c) /\
  Forall (fun p => lastAccessed (snd p) <= time) (cache c).

End LRUSpec.

(** the listing cache a new [StorageManager] starts with *)
Definition listingCache (E : Env) (T : Type) : LRU.t T :=
  LRU.new (Some (Js.Finite (inject_Z (cacheSize E)))).

(** A relation between the state before and after a call that every
    elementary change of the disk inside the footprint [W], and every change
    the engine makes to its caches, respects. *)
Inductive diskStep (W : path -> bool) : FS -> FS -> Prop :=
| step_put p n fs : W p = true -> diskStep W fs (fsPut p n fs)
| step_add p n fs : W p = true -> diskStep W fs (fs ++ [(p, n)])
| step_remove p fs : W p = true -> diskStep W fs (fsRemove p fs)
| step_removeTree p fs :
    (forall q, under p q = true -> W q = true) ->
    diskStep W fs (fsRemoveTree p fs)
| step_refl fs : diskStep W fs fs
| step_trans a b c : diskStep W a b -> diskStep W b c -> diskStep W a c.

Class Pre (R : State -> State -> Prop) : Prop := {
  frame_refl : forall s, R s s;
  frame_trans : forall a b c, R a b -> R b c -> R a c
}.

(** respected by a call that only reads the disk *)
Class Reads (R : State -> State -> Prop) : Prop := {
  reads_pre :: Pre R;
  frame_indexCache : forall s c, R s (setIndexCache c s)
}.

(** respected by a call that writes inside [W] *)
Class Frame (R : State -> State -> Prop) (W : path -> bool) : Prop := {
  frame_reads :: Reads R;
  frame_disk : forall s fs', diskStep W (disk s) fs' -> R s (setDisk fs' s);
  frame_lockRelease : forall s b, R s (setInstanceLockRelease b s);
  frame_findingsDelete : forall s key,
      R s (setFindingsCache (snd (LRU.delete key (findingsCache s))) s);
  frame_findingsGet : forall s now key,
      R s (setFindingsCache (snd (LRU.get now key (findingsCache s))) s);
  frame_findingsSet : forall s now key t,
      R s (setFindingsCache (LRU.set now key [] t (findingsCache s)) s);
  frame_auditDelete : forall s key,
      R s (setAuditTrailsCache (snd (LRU.delete key (auditTrailsCache s))) s);
  frame_auditGet : forall s now key,
      R s (setAuditTrailsCache (snd (LRU.get now key (auditTrailsCache s))) s);
  frame_auditSet : forall s now key t,
      R s (setAuditTrailsCache (LRU.set now key [] t (auditTrailsCache s)) s)
}.

Definition preserves (R : State -> State -> Prop) {A} (m : M A) : Prop :=
  forall s, R s (snd (m s)).

(** What a reading call can change: the cached index, nothing else. *)
Definition readOnly (s s' : State) : Prop :=
  disk s' = disk s /\
  instanceLockRelease s' = instanceLockRelease s /\
  findingsCache s' = findingsCache s /\
  auditTrailsCache s' = auditTrailsCache s /\
  clock s' = clock s.

(** the index a read would find: the cached one, else the one on disk *)
Definition indexOf (s : State) : option InternalProjectIndex :=
  match projectIndexCache s with
  | Some cached => Some cached
  | None =>
      match fsGet projectIndexPath (disk s) with
      | Some (File (JsonIndex idx) _) => Some idx
      | _ => None
      end
  end.

(** project [projectName] is in the index, with metadata [md] *)
Definition recorded (s : State) (projectName : string) (md : ProjectMetadata)
  : Prop :=
  exists idx,
    indexOf s = Some idx /\
    mapGet (sanitizeProjectName projectName) (projects idx) = Some md.

Definition returns {A} (m : M A) : Prop := forall s, fst (m s) <> Hang.

(** the disk outside [W] is as before *)
Definition agree (W : path -> bool) (s s' : State) : Prop :=
  forall q, W q = false -> fsGet q (disk s') = fsGet q (disk s).

Definition projectIndexLock : string := ".mcp-lock-project-index.lock".

(** the paths [updateProject] may touch *)
Definition updateFootprint (projectPath q : path) : bool :=
  under [projectIndexLock] q
  || path_eqb q (projectPath ++ ["project.json.tmp"])
  || path_eqb q (projectPath ++ ["project.json"])
  || path_eqb q projectIndexTmp
  || path_eqb q projectIndexPath.

(** the finding [createFinding] builds from its input *)
Definition builtFinding (randomId : string) (input : FindingInput) (now : Z)
           (score : option Q) : Finding :=
  mkFinding (sanitizeFindingId randomId (fi_title input))
            (fi_title input) (fi_severity input) (fi_cwe input)
            (fi_cvssString input) score (fi_components input)
            (fi_description input) (fi_evidence input)
            (fi_recommendations input) now now.

(** the score [createFinding] derives: none without a vector or for the
    empty vector, else what the evaluator says *)
Definition derivedScore (E : Env) (input : FindingInput) : option Q :=
  match fi_cvssString input with
  | Some v =>
      if Js.truthy v
      then match calculateCVSSScore E v with
           | inr score => Some score
           | inl _ => None
           end
      else None
  | None => None
  end.

(** the index file holds project [projectName] and nothing is cached *)
Definition indexed (s : State) (projectName : string) : Prop :=
  projectIndexCache s = None /\
  exists idx t md,
    fsGet projectIndexPath (disk s) = Some (File (JsonIndex idx) t) /\
    mapGet (sanitizeProjectName projectName) (projects idx) = Some md.

(** the finding [getFinding] builds from a file *)
Definition parsedFinding (data : FindingMatter) (markdownContent : string)
  : Finding :=
  mkFinding (fm_id data) (fm_title data) (fm_severity data)
            (fm_cwe data) (fm_cvssString data) (fm_cvssScore data)
            (fm_components data)
            (match extractSection markdownContent "Description" with
             | Some d => d
             | None => ""
             end)
            (extractSection markdownContent "Evidence")
            (extractSection markdownContent "Recommendations")
            (fm_created data) (fm_updated data).

(** the lock of key [lockKey] is free: no artifact, and a name that stays in
    the working directory *)
Definition lockFree (lockKey : string) (s : State) : Prop :=
  Js.includes (".mcp-lock-" ++ lockKey ++ ".lock") "/" = false /\
  fsGet [".mcp-lock-" ++ lockKey ++ ".lock"] (disk s) = None.

Definition locked (lockKey : string) (s : State) : State :=
  setDisk (disk s ++ [([".mcp-lock-" ++ lockKey ++ ".lock"], Dir (clock s))]) s.

(** what no operation undoes: the shape of the cached listings *)
Definition keepsListings (s s' : State) : Prop :=
  listingsCached s -> listingsCached s'.

(** what a failed [createProject] leaves behind *)
Definition rolledBack (name : string) (s s' : State) : Prop :=
  agree (createFootprint [name]) s s' /\
  (absent [name] s -> absent [name] s') /\
  (projectIndexCache s' = None \/ projectIndexCache s' = projectIndexCache s).

Definition ws (s : string) : bool := strAll Js.isSpace s.

(** what may follow a text: nothing, or a line feed *)
Definition lineEnd (v : string) : Prop :=
  v = "" \/ exists rest, v = String (ascii_of_nat 10) rest.

(** what follows a section: the end of the text, a last line feed, or the
    next heading *)
Definition sectionEnd (v : string) : Prop :=
  v = "" \/ v = Js.nl \/ Js.startsWith v "## " = true.

(** the characters of the slug of a record id *)
Definition slugChar (c : ascii) : bool :=
  Js.isLower c || Js.isDigit c || Ascii.eqb c "-".

(** the characters of [randomBytes(4).toString('hex')] *)
Definition hexChar (c : ascii) : bool :=
  Js.isDigit c || (Nat.leb 97 (nat_of_ascii c) && Nat.leb (nat_of_ascii c) 102).

(** the characters of a record id *)
Definition idChar (c : ascii) : bool :=
  Js.isUpper c || Js.isLower c || Js.isDigit c || Ascii.eqb c "-".

(** the order of the severity ratings *)
Definition ratingRank (rating : string) : nat :=
  if String.eqb rating "Critical" then 4
  else if String.eqb rating "High" then 3
  else if String.eqb rating "Medium" then 2
  else if String.eqb rating "Low" then 1
  else 0.

(** the keys of a cache are distinct, as those of a [Map] are *)
Definition distinctKeys {T} (c : LRU.t T) : Prop :=
  NoDup (map fst (LRU.cache c)).

(** the two files [initializeProjectIndex] writes *)
Definition indexFiles (q : path) : bool :=
  path_eqb projectIndexPath q || path_eqb projectIndexTmp q.

(** what [withLock] makes of an error of the call it guards *)
Definition underLock (lockKey : string) (e : Error) : Error :=
  if Js.includes (message e) held
  then PlainError ("Operation timed out waiting for lock: " ++ lockKey)
  else e.

(** a path in or below a lock artifact of the working directory *)
Definition lockArtifact (q : path) : bool :=
  match q with
  | f :: _ => isLockFile f
  | [] => false
  end.

(** the age beyond which the sweep removes lock [lockFile] *)
Definition staleTimeout (E : Env) (lockFile : string) : Z :=
  if String.eqb lockFile ".mcp-instance.lock" then 60000 else lockStaleMs E.

(** the state one round of the sweep leaves *)
Definition swept (E : Env) (lockFile : string) (s : State) : State :=
  if ioFails E OpStat [lockFile] then s
  else
    match fsGet [lockFile] (disk s) with
    | None => s
    | Some n =>
        if staleTimeout E lockFile <? clock s - mtimeOf n
        then if ioFails E OpRm [lockFile] then s
             else setDisk (fsRemoveTree [lockFile] (disk s)) s
        else s
    end.

Definition sweptAll (E : Env) (lockFiles : list string) (s : State) : State :=
  fold_left (fun t lockFile => swept E lockFile t) lockFiles s.

(** the index can be read and has no project [projectName] *)
Definition unknownProject (s : State) (projectName : string) : Prop :=
  exists idx,
    indexOf s = Some idx /\
    mapGet (sanitizeProjectName projectName) (projects idx) = None.

(** no call moves the clock *)
Definition sameClock (s s' : State) : Prop := clock s' = clock s.

(** the index files and the lock that guards them *)
Definition indexFootprint (q : path) : bool :=
  under [projectIndexLock] q || indexFiles q.

(** what creating or deleting a project may touch: the project, the index files and the
    index lock *)
Definition projectFootprint (name : string) (q : path) : bool :=
  under [name] q || indexFootprint q.

(** the keys of a [Map] are distinct *)
Definition distinctProjects (idx : InternalProjectIndex) : Prop :=
  NoDup (map fst (projects idx)).

(** what removing or rewriting the finding [findingId] of a project may
    touch: the finding's file, temporary file and lock, and what
    [updateProject] touches *)
Definition findingFootprint (projectName findingId : string) (q : path) : bool :=
  under [".mcp-lock-" ++ ("finding-" ++ projectName ++ "-" ++ findingId)
         ++ ".lock"] q
  || path_eqb q (findingPath projectName findingId)
  || path_eqb q (findingTmp projectName findingId)
  || updateFootprint (getProjectPath projectName) q.

(** the score [updateFinding] stores: derived anew from a vector that is
    given, dropped with an empty vector, kept when no vector is given *)
Definition rescored (E : Env) (updates : FindingUpdates) (kept : option Q)
  : option Q :=
  match fu_cvssString updates with
  | Some v =>
      if Js.truthy v
      then match calculateCVSSScore E v with
           | inr score => Some score
           | inl _ => None
           end
      else None
  | None => kept
  end.

(** an audit trail entry as [getAuditTrail] gives it back after
    [createAuditTrail]: the text ends in a line end, and of the optional
    fields only the tools are read *)
Definition auditReadBack (entry : AuditTrailEntry) : AuditTrailEntry :=
  mkAuditTrailEntry (a_id entry) (a_title entry)
                    (newline (a_description entry)) (a_created entry)
                    (a_tools entry) None None None.

(** the listing caches hold empty listings only, as the engine fills them *)
Definition emptyListings (s : State) : Prop :=
  Forall (fun entry => LRU.data (snd entry) = []) (LRU.cache (findingsCache s))
  /\ Forall (fun entry => LRU.data (snd entry) = [])
            (LRU.cache (auditTrailsCache s)).

(** every call works but the write of the index's temporary file *)
Definition indexWriteBroken (E : Env) : Prop :=
  forall op q,
    ioFails E op q
    = match op with
      | OpWriteFile => path_eqb q projectIndexTmp
      | _ => false
      end.

(** a project directory in which [project.json] can be rewritten *)
Definition projectWritable (s : State) (projectName : string) : Prop :=
  (exists t, nodeAt (getProjectPath projectName) (disk s) = Some (Dir t)) /\
  (forall t, fsGet (getProjectPath projectName ++ ["project.json.tmp"])
                   (disk s) <> Some (Dir t)) /\
  (forall t, fsGet (getProjectPath projectName ++ ["project.json"])
                   (disk s) <> Some (Dir t)).

(** the vector of a finding input, when one is given, can be scored *)
Definition scorable (E : Env) (input : FindingInput) : Prop :=
  forall v,
    fi_cvssString input = Some v -> Js.truthy v = true ->
    exists score, calculateCVSSScore E v = inr score.

(** the order of a listing: the greater key first *)
Definition descending {A : Type} (key : A -> Z) (a b : A) : Prop :=
  key b <= key a.

(* ================================================================== *)
(** ** More of [src/utils/validation.ts] and [src/utils/cvss.ts] *)
(* ================================================================== *)

(** [isValidProjectName] *)
Definition isValidProjectName (name : string) : bool :=
  let sanitized := sanitizeProjectName name in
  Nat.ltb 0 (String.length sanitized) && Nat.leb (String.length sanitized) 100.

(** [getCVSSSeverityRating] *)
Definition getCVSSSeverityRating (score : Q) : string :=
  if Qle_bool 9 score then "Critical"
  else if Qle_bool 7 score then "High"
  else if Qle_bool 4 score then "Medium"
  else if Qle_bool (1 # 10) score then "Low"
  else "None".

(** [isValidCVSSVector] *)
Definition isValidCVSSVector (E : Env) (vector : string) : bool :=
  match calculateCVSSScore E vector with
  | inr _ => true
  | inl _ => false
  end.

(* ================================================================== *)
(** ** More of class [StorageManager] *)
(* ================================================================== *)

(** [listProjects] *)
Definition listProjects (E : Env) : M (list ProjectMetadata) :=
  index <- readProjectIndex E ;;
  ret (sortDesc p_updated (map snd (projects index))).

(* ================================================================== *)
(** * Properties *)
(* ================================================================== *)

(** ** Strings *)

Module JsFacts.
Import Js.

Lemma startsWith_refl (s : string) : startsWith s s = true.
Proof.
  induction s as [|c s IH]; simpl; [reflexivity|].
  now rewrite Ascii.eqb_refl, IH.
Qed.

Lemma startsWith_app (p s : string) : startsWith (p ++ s) p = true.
Proof.
  induction p as [|c p IH]; simpl.
  - now destruct s.
  - now rewrite Ascii.eqb_refl, IH.
Qed.

Lemma startsWith_empty (s : string) : startsWith s "" = true.
Proof. now destruct s. Qed.

Lemma includes_startsWith (s p : string) :
  startsWith s p = true -> includes s p = true.
Proof. intros H. destruct s; simpl in *; now rewrite H. Qed.

Lemma includes_app_r (a s p : string) :
  includes s p = true -> includes (a ++ s) p = true.
Proof.
  intros H. induction a as [|c a IH]; simpl; [exact H|].
  rewrite IH. apply orb_true_r.
Qed.

Lemma startsWith_app_l (s t p : string) :
  startsWith s p = true -> startsWith (s ++ t) p = true.
Proof.
  revert s. induction p as [|c p IH]; intros s H.
  - apply startsWith_empty.
  - destruct s as [|d s]; simpl in *; [discriminate|].
    apply andb_true_iff in H as [H1 H2].
    now rewrite H1, (IH _ H2).
Qed.

Lemma includes_app_l (s t p : string) :
  includes s p = true -> includes (s ++ t) p = true.
Proof.
  induction s as [|c s IH]; intros H.
  - simpl in H. rewrite orb_false_r in H. destruct p; [|discriminate].
    apply includes_startsWith, startsWith_empty.
  - cbn [includes] in H. apply orb_true_iff in H as [H|H].
    + apply includes_startsWith.
      exact (startsWith_app_l (String c s) t p H).
    + change (String c s ++ t) with (String c (s ++ t)).
      cbn [includes]. rewrite (IH H). apply orb_true_r.
Qed.

Lemma includes_refl (s : string) : includes s s = true.
Proof. apply includes_startsWith, startsWith_refl. Qed.

(** [p] occurs in [a ++ p ++ b] *)
Lemma includes_mid (a p b : string) : includes (a ++ p ++ b) p = true.
Proof. apply includes_app_r, includes_app_l, includes_refl. Qed.

Lemma append_assoc (a b c : string) : ((a ++ b) ++ c = a ++ (b ++ c))%string.
Proof. induction a as [|x a IH]; simpl; [reflexivity|now rewrite IH]. Qed.

Lemma append_empty_r (a : string) : (a ++ "" = a)%string.
Proof. induction a as [|x a IH]; simpl; [reflexivity|now rewrite IH]. Qed.

Lemma includes_join (sep : string) (xs : list string) (x : string) :
  In x xs -> includes (join sep xs) x = true.
Proof.
  induction xs as [|y ys IH]; intros Hin; [destruct Hin|].
  destruct Hin as [->|Hin].
  - destruct ys as [|z zs]; simpl join.
    + apply includes_refl.
    + apply includes_app_l, includes_refl.
  - destruct ys as [|z zs]; [destruct Hin|].
    change (join sep (y :: z :: zs)) with (y ++ sep ++ join sep (z :: zs)).
    apply includes_app_r, includes_app_r, IH, Hin.
Qed.

End JsFacts.
(** ** Settings *)

Section Settings.

Lemma digitsWithin_range lo hi s n :
  digitsWithin lo hi s = Some n -> lo <= n <= hi.
Proof.
  unfold digitsWithin. destruct (digits s) as [m|]; [|discriminate].
  destruct (Z.leb_spec lo m), (Z.leb_spec m hi); cbn; try discriminate.
  intros [= <-]. lia.
Qed.

Lemma optionalField_range lo hi raw field n :
  optionalField (digitsWithin lo hi) raw = Some field ->
  field = Some n -> lo <= n <= hi.
Proof.
  unfold optionalField. destruct raw as [v|]; [|now intros [= <-]].
  destruct (digitsWithin lo hi v) as [m|] eqn:Hm; [|discriminate].
  intros [= <-] [= <-]. exact (digitsWithin_range _ _ _ _ Hm).
Qed.

Lemma parseEnv_ranges env validated :
  parseEnv env = Some validated ->
  (forall n, ve_MAX_YAML_SIZE validated = Some n -> 1 <= n <= 10485760) /\
  (forall n, ve_CACHE_SIZE validated = Some n -> 1 <= n <= 10000) /\
  (forall n, ve_MAX_SSE_CONNECTIONS validated = Some n -> 1 <= n <= 1000) /\
  (forall n, ve_LOCK_STALE_MS validated = Some n -> 5000 <= n <= 300000).
Proof.
  unfold parseEnv.
  destruct (optionalField digits (pe_PORT env)); [|discriminate].
  destruct (optionalField (oneOf ["stdio"; "sse"]) (pe_TRANSPORT env));
    [|discriminate].
  destruct (optionalField (digitsWithin 1 10485760) (pe_MAX_YAML_SIZE env))
    as [yaml|] eqn:Hyaml; [|discriminate].
  destruct (optionalField (digitsWithin 1 10000) (pe_CACHE_SIZE env))
    as [cache|] eqn:Hcache; [|discriminate].
  destruct (optionalField (digitsWithin 1 1000) (pe_MAX_SSE_CONNECTIONS env))
    as [sse|] eqn:Hsse; [|discriminate].
  destruct (optionalField (digitsWithin 5000 300000) (pe_LOCK_STALE_MS env))
    as [stale|] eqn:Hstale; [|discriminate].
  destruct (optionalField (oneOf ["error"; "warn"; "info"; "debug"])
                          (pe_LOG_LEVEL env)); [|discriminate].
  destruct (optionalField (oneOf ["console"; "file"; "both"])
                          (pe_LOG_TARGET env)); [|discriminate].
  destruct (optionalField (oneOf ["development"; "test"; "production"])
                          (pe_NODE_ENV env)); [|discriminate].
  intros [= <-]. cbn.
  split; [|split; [|split]]; intros k Hk;
    eapply optionalField_range; eassumption.
Qed.

Lemma capacity_exact n :
  1 <= n <= 10000 -> LRU.capacity (Some (Js.Finite (inject_Z n))) = n.
Proof.
  intros Hn. cbn [LRU.capacity].
  destruct (Qlt_le_dec (inject_Z n) 1) as [H|_].
  { exfalso. revert H. unfold Qlt, inject_Z. cbn. lia. }
  destruct (Qlt_le_dec 10000 (inject_Z n)) as [H|_].
  { exfalso. revert H. unfold Qlt, inject_Z. cbn. lia. }
  apply Qfloor_Z.
Qed.

Lemma getServerConfig_within env :
  1 <= sc_cacheSize (getServerConfig env) <= 10000 /\
  5000 <= sc_lockStaleMs (getServerConfig env) <= 300000 /\
  1 <= sc_maxSseConnections (getServerConfig env) <= 1000 /\
  1 <= sc_maxYamlSize (getServerConfig env) <= 10485760.
Proof.
  unfold getServerConfig, getValidatedEnv.
  destruct (parseEnv env) as [validated|] eqn:Hparse; [|cbn; lia].
  destruct (parseEnv_ranges env validated Hparse)
    as (Hyaml & Hcache & Hsse & Hstale).
  cbn [sc_cacheSize sc_lockStaleMs sc_maxSseConnections sc_maxYamlSize].
  destruct (ve_MAX_YAML_SIZE validated) as [yaml|];
    destruct (ve_CACHE_SIZE validated) as [cache|];
    destruct (ve_MAX_SSE_CONNECTIONS validated) as [sse|];
    destruct (ve_LOCK_STALE_MS validated) as [stale|];
    cbn [withDefault];
    try specialize (Hyaml _ eq_refl);
    try specialize (Hcache _ eq_refl);
    try specialize (Hsse _ eq_refl);
    try specialize (Hstale _ eq_refl);
    lia.
Qed.

Lemma getServerConfig_refused env :
  validateEnvironment env = false ->
  getServerConfig env = mkServerConfig 10240 50 100 60000.
Proof.
  unfold validateEnvironment, getServerConfig, getValidatedEnv.
  destruct (parseEnv env); [discriminate|reflexivity].
Qed.

(** the cache size of a process environment the schema accepts *)
Lemma parseEnv_cacheSize env validated :
  parseEnv env = Some validated ->
  optionalField (digitsWithin 1 10000) (pe_CACHE_SIZE env)
  = Some (ve_CACHE_SIZE validated).
Proof.
  unfold parseEnv.
  destruct (optionalField digits (pe_PORT env)); [|discriminate].
  destruct (optionalField (oneOf ["stdio"; "sse"]) (pe_TRANSPORT env));
    [|discriminate].
  destruct (optionalField (digitsWithin 1 10485760) (pe_MAX_YAML_SIZE env));
    [|discriminate].
  destruct (optionalField (digitsWithin 1 10000) (pe_CACHE_SIZE env))
    as [cache|]; [|discriminate].
  destruct (optionalField (digitsWithin 1 1000) (pe_MAX_SSE_CONNECTIONS env));
    [|discriminate].
  destruct (optionalField (digitsWithin 5000 300000) (pe_LOCK_STALE_MS env));
    [|discriminate].
  destruct (optionalField (oneOf ["error"; "warn"; "info"; "debug"])
                          (pe_LOG_LEVEL env)); [|discriminate].
  destruct (optionalField (oneOf ["console"; "file"; "both"])
                          (pe_LOG_TARGET env)); [|discriminate].
  destruct (optionalField (oneOf ["development"; "test"; "production"])
                          (pe_NODE_ENV env)); [|discriminate].
  now intros [= <-].
Qed.

Lemma cacheSize_unset env :
  pe_CACHE_SIZE env = None -> sc_cacheSize (getServerConfig env) = 50.
Proof.
  intros Hunset. unfold getServerConfig, getValidatedEnv.
  destruct (parseEnv env) as [validated|] eqn:Hparse; [|reflexivity].
  pose proof (parseEnv_cacheSize env validated Hparse) as Hc.
  rewrite Hunset in Hc. cbn in Hc. injection Hc as <-. reflexivity.
Qed.

Lemma cacheSize_refused env v :
  pe_CACHE_SIZE env = Some v -> digitsWithin 1 10000 v = None ->
  validateEnvironment env = false.
Proof.
  intros Hset Hbad. unfold validateEnvironment.
  destruct (parseEnv env) as [validated|] eqn:Hparse; [|reflexivity].
  pose proof (parseEnv_cacheSize env validated Hparse) as Hc.
  rewrite Hset in Hc. cbn in Hc. rewrite Hbad in Hc. discriminate.
Qed.

Lemma cacheSize_accepted env v :
  validateEnvironment env = true -> pe_CACHE_SIZE env = Some v ->
  digits v = Some (sc_cacheSize (getServerConfig env)).
Proof.
  unfold validateEnvironment, getServerConfig, getValidatedEnv.
  destruct (parseEnv env) as [validated|] eqn:Hparse; [|discriminate].
  intros _ Hset.
  pose proof (parseEnv_cacheSize env validated Hparse) as Hc.
  rewrite Hset in Hc. cbn in Hc. unfold digitsWithin in Hc.
  destruct (digits v) as [n|]; [|discriminate].
  destruct ((1 <=? n) && (n <=? 10000)); [|discriminate].
  injection Hc as <-. reflexivity.
Qed.

End Settings.


(** ** The instance lock *)

Lemma instanceLockPath_lock (E : Env) :
  (instanceLockPath E ++ ".lock")%string
  = pathJoin (workingDir E) ".mcp-instance.lock".
Proof.
  unfold instanceLockPath, pathJoin. simpl String.eqb.
  destruct (String.eqb (workingDir E) "/"); [reflexivity|].
  now rewrite !JsFacts.append_assoc.
Qed.

Lemma instanceHeldMessage_parts (E : Env) :
  Js.includes (instanceHeldMessage E) (workingDir E) = true /\
  Js.includes (instanceHeldMessage E)
    "Running multiple instances in the same directory can lead to data corruption"
  = true /\
  Js.includes (instanceHeldMessage E)
    ("rm -r " ++ Js.dquote ++ pathJoin (workingDir E) ".mcp-instance.lock"
     ++ Js.dquote) = true.
Proof.
  unfold instanceHeldMessage. repeat split.
  - apply JsFacts.includes_mid.
  - do 4 apply JsFacts.includes_app_r.
    apply JsFacts.includes_app_l, JsFacts.includes_startsWith.
    reflexivity.
  - do 8 apply JsFacts.includes_app_r.
    change ("  rm -r " ++ Js.dquote ++ instanceLockPath E ++ ".lock" ++ Js.dquote)%string
      with ("  " ++ ("rm -r " ++ Js.dquote ++ instanceLockPath E ++ ".lock" ++ Js.dquote))%string.
    apply JsFacts.includes_app_r.
    rewrite <- instanceLockPath_lock.
    assert (H : forall a b c d : string,
               (a ++ b ++ c ++ d ++ b = a ++ b ++ (c ++ d) ++ b)%string).
    { intros. now rewrite JsFacts.append_assoc. }
    rewrite H. apply JsFacts.includes_refl.
Qed.

(** C6. When [acquireInstanceLock] reaches the lock and finds it held (the
    artifact [.mcp-instance.lock] is there and not older than 30 s), the
    call throws an error whose message contains the working directory, the
    warning about data corruption, and the command [rm -r "<dir>/.mcp-instance.lock"]. *)
Theorem acquireInstanceLock_held_message
        (E : Env) (s s0 s1 : State) (holder : Node) :
  ensureDirectoryExists E [] s = (Ok tt, s0) ->
  initializeProjectIndex E s0 = (Ok tt, s1) ->
  ioFails E OpMkdir [instanceLockName] = false ->
  fsGet [instanceLockName] (disk s1) = Some holder ->
  clock s1 - 30000 <= mtimeOf holder ->
  exists msg,
    acquireInstanceLock E s = (Err (PlainError msg), s1) /\
    Js.includes msg (workingDir E) = true /\
    Js.includes msg
      "Running multiple instances in the same directory can lead to data corruption"
    = true /\
    Js.includes msg
      ("rm -r " ++ Js.dquote ++ pathJoin (workingDir E) ".mcp-instance.lock"
       ++ Js.dquote) = true.
Proof.
  intros Hdir Hinit Hio Hheld Hfresh.
  exists (instanceHeldMessage E). split; [|apply instanceHeldMessage_parts].
  unfold acquireInstanceLock, tryCatch, bind. rewrite Hdir, Hinit.
  unfold lockfileLock.
  change (Js.includes instanceLockName "/") with false. cbv iota.
  unfold bind, oracle. rewrite Hio. unfold ret, get. cbv beta iota.
  rewrite Hheld.
  destruct (Z.ltb_spec (mtimeOf holder) (clock s1 - 30000)) as [Hlt|_]; [lia|].
  unfold throw. reflexivity.
Qed.

Lemma acquireInstanceLock_held_message_witness :
  exists msg,
    acquireInstanceLock Sample.env Sample.heldState
    = (Err (PlainError msg), Sample.heldState) /\
    Js.includes msg (workingDir Sample.env) = true /\
    Js.includes msg
      "Running multiple instances in the same directory can lead to data corruption"
    = true /\
    Js.includes msg
      ("rm -r " ++ Js.dquote
       ++ pathJoin (workingDir Sample.env) ".mcp-instance.lock" ++ Js.dquote)
    = true.
Proof.
  apply (acquireInstanceLock_held_message
           Sample.env Sample.heldState Sample.heldState Sample.heldState
           (Dir 990)).
  - reflexivity.
  - reflexivity.
  - reflexivity.
  - reflexivity.
  - simpl. lia.
Defined.

(** ** The listing cache *)

Module LRUFacts.
Import LRU LRUSpec.

Section WithT.
Context {T : Type}.
Implicit Types (l : list (string * CacheEntry T)) (c : t T).

Lemma remove_length_le key l : (length (remove key l) <= length l)%nat.
Proof.
  induction l as [|[k e] l IH]; simpl; [lia|].
  destruct (String.eqb k key); simpl; lia.
Qed.

Lemma remove_length_found key l e :
  lookup key l = Some e -> S (length (remove key l)) = length l.
Proof.
  induction l as [|[k e'] l IH]; simpl; [discriminate|].
  destruct (String.eqb k key); simpl; [reflexivity|].
  intros H. now rewrite (IH H).
Qed.

Lemma remove_keys key l :
  Forall (fun p => fst p <> "") l ->
  Forall (fun p => fst p <> "") (remove key l).
Proof.
  induction 1 as [|[k e] l Hk Hl IH]; simpl; [constructor|].
  destruct (String.eqb k key); [assumption|now constructor].
Qed.

Lemma evictIfNeeded_bounded c :
  0 <= maxSize c -> size c <= maxSize c + 1 ->
  Forall (fun p => fst p <> "") (cache c) ->
  bounded (evictIfNeeded c) /\ maxSize (evictIfNeeded c) = maxSize c.
Proof.
  intros Hmax Hsize Hkeys. unfold evictIfNeeded.
  destruct (Z.leb_spec (size c) (maxSize c)) as [Hle|Hgt].
  - unfold bounded, size in *. repeat split; try assumption; lia.
  - destruct c as [[|[k e] rest] m]; unfold bounded, size in *;
      cbn [cache maxSize] in *.
    + simpl in Hgt. lia.
    + inversion Hkeys as [|? ? Hk Hrest]; subst. simpl in Hk.
      destruct k as [|a k]; [contradiction|].
      cbn [Js.truthy remove cache maxSize]. rewrite String.eqb_refl.
      cbn [cache maxSize]. rewrite length_cons in *.
      repeat split; [lia|lia|assumption].
Qed.

Lemma set_bounded now key d lastMod c :
  key <> "" -> bounded c ->
  bounded (set now key d lastMod c) /\
  maxSize (set now key d lastMod c) = maxSize c.
Proof.
  intros Hkey [Hsize Hkeys]. unfold set.
  match goal with
  | |- bounded (evictIfNeeded ?c') /\ _ =>
      destruct (evictIfNeeded_bounded c') as [Hb Hm]; [| | |now split]
  end; simpl.
  - lia.
  - unfold size in *. simpl. rewrite length_app. simpl.
    pose proof (remove_length_le key (cache c)). lia.
  - apply Forall_app. split; [now apply remove_keys|].
    constructor; [exact Hkey|constructor].
Qed.

Lemma get_bounded now key c :
  bounded c ->
  bounded (snd (get now key c)) /\ maxSize (snd (get now key c)) = maxSize c.
Proof.
  intros [Hsize Hkeys]. unfold get.
  destruct (lookup key (cache c)) as [e|] eqn:Hl; simpl; [|now repeat split].
  unfold bounded, size in *. simpl. rewrite length_app. simpl.
  pose proof (remove_length_found _ _ _ Hl).
  repeat split; [lia|lia|].
  apply Forall_app. split; [now apply remove_keys|].
  constructor; [|constructor]. simpl. intros ->.
  clear -Hl Hkeys. induction Hkeys as [|[k e'] l Hk Hl' IH]; simpl in *.
  - discriminate.
  - destruct (String.eqb_spec k ""); [contradiction|]. now apply IH.
Qed.

Lemma delete_bounded key c :
  bounded c ->
  bounded (snd (delete key c)) /\ maxSize (snd (delete key c)) = maxSize c.
Proof.
  intros [Hsize Hkeys]. unfold delete.
  destruct (lookup key (cache c)) as [e|] eqn:Hl; simpl; [|now repeat split].
  unfold bounded, size in *. simpl.
  pose proof (remove_length_le key (cache c)).
  repeat split; [lia|lia|now apply remove_keys].
Qed.

Lemma run_bounded ops c :
  Forall properKey ops -> bounded c ->
  bounded (run c ops) /\ maxSize (run c ops) = maxSize c.
Proof.
  intros Hops. revert c.
  induction Hops as [|o ops Ho Hops IH]; intros c Hc; [now split|].
  unfold run in *. simpl.
  assert (Hstep : bounded (step c o) /\ maxSize (step c o) = maxSize c).
  { destruct o as [now key|now key d lastMod|key]; simpl.
    - now apply get_bounded.
    - now apply set_bounded.
    - now apply delete_bounded. }
  destruct Hstep as [Hb Hm].
  destruct (IH _ Hb) as [Hb' Hm']. split; [assumption|congruence].
Qed.

(** *** The order of the entries *)

Lemma remove_Forall (P : string * CacheEntry T -> Prop) key l :
  Forall P l -> Forall P (remove key l).
Proof.
  induction 1 as [|[k e] l Hk Hl IH]; simpl; [constructor|].
  destruct (String.eqb k key); [assumption|now constructor].
Qed.

Lemma remove_sorted key l :
  StronglySorted usedBefore l -> StronglySorted usedBefore (remove key l).
Proof.
  induction 1 as [|[k e] l Hl IH Hk]; simpl; [constructor|].
  destruct (String.eqb k key); [assumption|].
  constructor; [exact IH|now apply remove_Forall].
Qed.

Lemma appended_sorted l p :
  StronglySorted usedBefore l ->
  Forall (fun q => usedBefore q p) l ->
  StronglySorted usedBefore (l ++ [p]).
Proof.
  induction 1 as [|q l Hl IH Hq]; intros Hp; simpl.
  - repeat constructor.
  - inversion Hp as [|? ? Hqp Hlp]; subst.
    constructor; [now apply IH|].
    apply Forall_app. split; [exact Hq|]. now repeat constructor.
Qed.

Lemma touched_byLastUse t now key e l m :
  t <= now -> lastAccessed e = now ->
  byLastUse t (mk l m) ->
  byLastUse now (mk (remove key l ++ [(key, e)]) m).
Proof.
  intros Ht He [Hsorted Hused]. unfold byLastUse in *. cbn [cache] in *.
  split.
  - apply appended_sorted; [now apply remove_sorted|].
    apply remove_Forall. eapply Forall_impl; [|exact Hused].
    intros q Hq. unfold usedBefore. cbn beta in Hq. cbn [snd]. lia.
  - apply Forall_app. split.
    + apply remove_Forall. eapply Forall_impl; [|exact Hused].
      intros q Hq. cbn beta in Hq. lia.
    + repeat constructor. cbn [snd]. lia.
Qed.

Lemma later_byLastUse t now c :
  t <= now -> byLastUse t c -> byLastUse now c.
Proof.
  intros Ht [Hsorted Hused]. split; [exact Hsorted|].
  eapply Forall_impl; [|exact Hused]. intros q Hq. cbn beta in Hq. lia.
Qed.

Lemma evictIfNeeded_byLastUse t c :
  byLastUse t c -> byLastUse t (evictIfNeeded c).
Proof.
  intros Hc. unfold evictIfNeeded.
  destruct (size c <=? maxSize c); [exact Hc|].
  destruct (cache c) as [|[k e] l] eqn:Hl; [exact Hc|].
  destruct (Js.truthy k); [|exact Hc].
  destruct Hc as [Hsorted Hused]. rewrite Hl in Hsorted, Hused.
  split; cbn [cache]; [now apply remove_sorted|now apply remove_Forall].
Qed.

Lemma step_byLastUse t o c :
  chronological t [o] -> byLastUse t c ->
  byLastUse (match opTime o with Some now => now | None => t end) (step c o).
Proof.
  destruct o as [now key|now key d lastMod|key]; cbn [chronological opTime step].
  - intros [Ht _] Hc. unfold get.
    destruct (lookup key (cache c)) as [e|]; cbn [snd].
    + destruct c as [l m]. now apply (touched_byLastUse t).
    + now apply (later_byLastUse t).
  - intros [Ht _] Hc. unfold set. apply evictIfNeeded_byLastUse.
    destruct c as [l m]. now apply (touched_byLastUse t).
  - intros _ [Hsorted Hused]. unfold delete.
    destruct (lookup key (cache c)); cbn [snd]; [|now split].
    split; cbn [cache]; [now apply remove_sorted|now apply remove_Forall].
Qed.

Lemma run_byLastUse ops : forall t c,
  chronological t ops -> byLastUse t c ->
  exists t', byLastUse t' (run c ops).
Proof.
  induction ops as [|o ops IH]; intros t c Hops Hc; [now exists t|].
  unfold run in *. cbn [fold_left].
  apply (IH (match opTime o with Some now => now | None => t end)).
  - cbn [chronological] in Hops. destruct (opTime o); tauto.
  - apply step_byLastUse; [|exact Hc].
    cbn [chronological] in *. destruct (opTime o); tauto.
Qed.

(** a new key set in a full cache takes the place of the first entry *)
Lemma set_full_evicts now key d lastMod c :
  bounded c -> 1 <= maxSize c -> size c = maxSize c ->
  lookup key (cache c) = None ->
  exists k0 e0 rest,
    cache c = (k0, e0) :: rest /\
    cache (set now key d lastMod c)
    = (rest ++ [(key, mkEntry d lastMod now)])%list.
Proof.
  intros [_ Hkeys] Hmax Hfull Hnew.
  destruct c as [[|[k0 e0] rest] m]; unfold size in Hfull;
    cbn [cache maxSize length] in *; [lia|].
  exists k0, e0, rest. split; [reflexivity|].
  apply Forall_inv in Hkeys. cbn [fst] in Hkeys.
  assert (Ht0 : Js.truthy k0 = true)
    by (destruct k0; [contradiction|reflexivity]).
  unfold set, evictIfNeeded, size. cbn [cache maxSize].
  assert (Hsame : remove key ((k0, e0) :: rest) = (k0, e0) :: rest).
  { clear -Hnew. revert Hnew. generalize ((k0, e0) :: rest). intros l.
    induction l as [|[k e] l IH]; cbn [lookup remove]; [reflexivity|].
    destruct (String.eqb k key); [discriminate|]. intros H. now rewrite IH. }
  rewrite Hsame. cbn [app length]. rewrite length_app. cbn [length].
  destruct (Z.leb_spec (Z.of_nat (S (length rest + 1))) m); [lia|].
  rewrite Ht0. cbn [cache remove]. now rewrite String.eqb_refl.
Qed.

End WithT.

Lemma capacity_range (arg : option Js.number) : 1 <= capacity arg <= 10000.
Proof.
  unfold capacity.
  destruct arg as [[| |q]|]; try lia.
  destruct (Qlt_le_dec q 1) as [|Hge]; [lia|].
  destruct (Qlt_le_dec 10000 q) as [|Hle]; [lia|].
  split.
  - change 1 with (Qfloor 1). now apply Qfloor_resp_le.
  - change 10000 with (Qfloor 10000). now apply Qfloor_resp_le.
Qed.

End LRUFacts.

(** C9, as stated, fails: a configured size outside [1, 10000] is not
    clamped. A manager started with [MCP_SECURITY_REPORT_CACHE_SIZE=20000]
    has caches of 50 entries, not of 10000, and so has one started with a
    size of 0, where clamping would give 1. *)
Lemma configured_size_not_clamped :
  LRU.maxSize
    (findingsCache
       (newStorageManager (Sample.startedWith (Sample.cacheSizeSet "20000"))
                          [] 0)) = 50 /\
  clampedCapacity (Some 20000) = 10000 /\
  LRU.maxSize
    (findingsCache
       (newStorageManager (Sample.startedWith (Sample.cacheSizeSet "0"))
                          [] 0)) = 50 /\
  clampedCapacity (Some 0) = 1.
Proof. repeat split; vm_compute; reflexivity. Qed.

(** C9, amended. The two listing caches of a new manager have the capacity
    [getServerConfig().cacheSize], which always lies in [1, 10000]: it is the
    value of [MCP_SECURITY_REPORT_CACHE_SIZE] when the schema accepts the
    process environment and the variable is set, and 50 when the variable is
    not set or the schema refuses the environment, as it does for a size
    that is not a string of digits with a value in [1, 10000]. Whatever
    sequence of [get], [set] and [delete] runs on such a cache, with no empty
    key ever set (the keys of the listings are not empty), the capacity stays
    and the number of entries never exceeds it. When the operations come in the order of their times, a new key set
    in a full cache takes the place of the first entry, which of all entries
    is the one used least recently; every other entry stays. *)
Theorem listing_cache_bounded (E : Env) (fs : FS) (t0 : Z) :
  (findingsCache (newStorageManager E fs t0) = listingCache E (list Finding) /\
   auditTrailsCache (newStorageManager E fs t0)
   = listingCache E (list AuditTrailEntry)) /\
  1 <= cacheSize E <= 10000 /\
  (validateEnvironment (processEnv E) = false -> cacheSize E = 50) /\
  (pe_CACHE_SIZE (processEnv E) = None -> cacheSize E = 50) /\
  (forall size,
      pe_CACHE_SIZE (processEnv E) = Some size ->
      digitsWithin 1 10000 size = None ->
      cacheSize E = 50) /\
  (forall size,
      validateEnvironment (processEnv E) = true ->
      pe_CACHE_SIZE (processEnv E) = Some size ->
      digits size = Some (cacheSize E)) /\
  (forall projectName : string,
      (projectName ++ "-findings")%string <> "" /\
      (projectName ++ "-audit-trails")%string <> "") /\
  forall (T : Type) (ops : list (LRU.op T)),
    Forall LRUSpec.properKey ops ->
    LRU.maxSize (LRU.run (listingCache E T) ops) = cacheSize E /\
    LRU.size (LRU.run (listingCache E T) ops) <= cacheSize E /\
    (LRUSpec.chronological t0 ops ->
     forall key d lastMod now,
       LRU.lookup key (LRU.cache (LRU.run (listingCache E T) ops)) = None ->
       LRU.size (LRU.run (listingCache E T) ops) = cacheSize E ->
       exists k0 e0 rest,
         LRU.cache (LRU.run (listingCache E T) ops) = (k0, e0) :: rest /\
         LRU.cache (LRU.set now key d lastMod
                            (LRU.run (listingCache E T) ops))
         = (rest ++ [(key, LRU.mkEntry d lastMod now)])%list /\
         Forall (fun p => LRU.lastAccessed e0 <= LRU.lastAccessed (snd p))
                rest).
Proof.
  pose proof (getServerConfig_within (processEnv E)) as (Hrange & _).
  fold (cacheSize E) in Hrange.
  split; [split; reflexivity|]. split; [exact Hrange|].
  split.
  { intros Hbad. unfold cacheSize.
    now rewrite (getServerConfig_refused _ Hbad). }
  split; [apply cacheSize_unset|].
  split.
  { intros size Hset Hbad. unfold cacheSize.
    now rewrite (getServerConfig_refused
                   _ (cacheSize_refused _ _ Hset Hbad)). }
  split; [intros size; apply cacheSize_accepted|].
  split; [intros projectName; split; now destruct projectName|].
  intros T ops Hops.
  assert (Hcap : LRU.maxSize (listingCache E T) = cacheSize E).
  { unfold listingCache. cbn [LRU.new LRU.maxSize].
    now apply capacity_exact. }
  assert (Hnew : LRUSpec.bounded (listingCache E T)).
  { split; [|constructor]. rewrite Hcap. unfold LRU.size, listingCache.
    cbn [LRU.new LRU.cache length Z.of_nat]. lia. }
  destruct (LRUFacts.run_bounded ops _ Hops Hnew) as [Hb Hmax].
  rewrite Hcap in Hmax.
  split; [exact Hmax|].
  split; [destruct Hb as [[_ Hsize] _]; now rewrite Hmax in Hsize|].
  intros Htimes key d lastMod now Hfresh Hfull.
  destruct (LRUFacts.run_byLastUse ops t0 (listingCache E T) Htimes)
    as (t' & Hsorted & _).
  { split; constructor. }
  destruct (LRUFacts.set_full_evicts now key d lastMod _ Hb)
    as (k0 & e0 & rest & Hcache & Hset); [lia|congruence|exact Hfresh|].
  exists k0, e0, rest. split; [exact Hcache|]. split; [exact Hset|].
  rewrite Hcache in Hsorted.
  inversion Hsorted as [|? ? _ Hfirst]; subst. exact Hfirst.
Qed.

Lemma listing_cache_bounded_witness :
  LRU.maxSize (findingsCache
                 (newStorageManager (Sample.startedWith (Sample.cacheSizeSet "2"))
                                    [] 0)) = 2 /\
  map fst
      (LRU.cache
         (LRU.set 4 "c-findings" [3%nat] 0
            (LRU.run (listingCache (Sample.startedWith (Sample.cacheSizeSet "2"))
                                   (list nat))
                     [LRU.OpSet 1 "a-findings" [1%nat] 0;
                      LRU.OpSet 2 "b-findings" [2%nat] 0;
                      LRU.OpGet 3 "a-findings"])))
  = ["a-findings"; "c-findings"].
Proof.
  destruct (listing_cache_bounded
              (Sample.startedWith (Sample.cacheSizeSet "2")) [] 0)
    as ((Hfindings & _) & _ & _ & _ & _ & Hsize & _ & Hrun).
  split.
  - rewrite Hfindings.
    destruct (Hrun (list Finding) []) as (Hmax & _); [constructor|].
    cbn [LRU.run fold_left] in Hmax. rewrite Hmax.
    pose proof (Hsize "2" eq_refl eq_refl) as Hdigits.
    change (digits "2") with (Some 2) in Hdigits. congruence.
  - destruct (Hrun (list nat)
                   [LRU.OpSet 1 "a-findings" [1%nat] 0;
                    LRU.OpSet 2 "b-findings" [2%nat] 0;
                    LRU.OpGet 3 "a-findings"])
      as (_ & _ & Hevict).
    { repeat constructor; simpl; discriminate. }
    destruct (Hevict ltac:(cbn; lia) "c-findings" [3%nat] 0 4)
      as (k0 & e0 & rest & Hcache & Hset & _);
      [reflexivity|reflexivity|].
    rewrite Hset. vm_compute in Hcache. injection Hcache as _ _ <-.
    reflexivity.
Defined.

(** ** The stale-lock sweep *)

Lemma append_cancel_l (a b c : string) : (a ++ b = a ++ c)%string -> b = c.
Proof.
  induction a as [|x a IH]; simpl; intros H; [exact H|].
  injection H as H. now apply IH.
Qed.

(** The test [lockPath === this.instanceLockPath] of the sweep is false for
    every name the sweep looks at: the lock path ends in [.lock] or names a
    resource lock, the instance lock path is [<dir>/.mcp-instance]. *)
Lemma sweep_never_skips (E : Env) (lockFile : string) :
  isLockFile lockFile = true ->
  String.eqb (pathJoin (workingDir E) lockFile) (instanceLockPath E) = false.
Proof.
  intros Hlock. apply String.eqb_neq. intros Heq.
  unfold instanceLockPath, pathJoin in Heq.
  simpl String.eqb in Heq.
  destruct (String.eqb_spec lockFile "") as [->|_]; [discriminate|].
  assert (Hname : lockFile = ".mcp-instance").
  { destruct (String.eqb (workingDir E) "/").
    - now injection Heq.
    - apply append_cancel_l in Heq. now injection Heq. }
  subst lockFile. discriminate.
Qed.

(** C7, the code at the failing input: this process holds the instance lock
    ([instanceLockRelease] is set), its artifact is 60001 ms old, and the
    sweep removes it. *)
Theorem sweep_removes_own_instance_lock :
  instanceLockRelease Sample.ownerState = true /\
  fsGet [instanceLockName] (disk Sample.ownerState) = Some (Dir 0) /\
  fsGet [instanceLockName]
        (disk (snd (cleanupStaleLocks Sample.env Sample.ownerState))) = None.
Proof. vm_compute. repeat split. Qed.

(** ** Listing findings *)

(** C4, the code at the failing input: seven findings with modification
    times 1 to 7, listed with [limit = 1] and [offset = 0]. The scan stops
    after six files; the page holds the finding modified at time 6, where
    the most recent one was modified at time 7. *)
Theorem listFindings_stops_early :
  exists page s',
    listFindings Sample.env "p" 1 0 Sample.sevenFindings = (Ok page, s') /\
    map f_id page = ["FIND-00000006-f"] /\
    pageByMtime (filesIn ["p"; "findings"] (disk Sample.sevenFindings)) 1 0
    = ["FIND-00000007-g.md"].
Proof. eexists. eexists. vm_compute. repeat split. Qed.

(** ** Running the monad *)

Section MonadFacts.

Context {A B : Type}.

Lemma bind_ok (m : M A) (k : A -> M B) s a s' :
  m s = (Ok a, s') -> bind m k s = k a s'.
Proof. intros H. unfold bind. now rewrite H. Qed.

Lemma bind_err (m : M A) (k : A -> M B) s e s' :
  m s = (Err e, s') -> bind m k s = (Err e, s').
Proof. intros H. unfold bind. now rewrite H. Qed.

Lemma bind_hang (m : M A) (k : A -> M B) s s' :
  m s = (Hang, s') -> bind m k s = (Hang, s').
Proof. intros H. unfold bind. now rewrite H. Qed.

Lemma tryCatch_ok (m : M A) h s a s' :
  m s = (Ok a, s') -> tryCatch m h s = (Ok a, s').
Proof. intros H. unfold tryCatch. now rewrite H. Qed.

Lemma tryCatch_err (m : M A) h s e s' :
  m s = (Err e, s') -> tryCatch m h s = h e s'.
Proof. intros H. unfold tryCatch. now rewrite H. Qed.

Lemma tryCatch_hang (m : M A) h s s' :
  m s = (Hang, s') -> tryCatch m h s = (Hang, s').
Proof. intros H. unfold tryCatch. now rewrite H. Qed.

End MonadFacts.

Lemma oracle_reliable E op p s : reliable E -> oracle E op p s = (Ok tt, s).
Proof. intros H. unfold oracle. now rewrite H. Qed.

Lemma oracle_ok E op p s :
  ioFails E op p = false -> oracle E op p s = (Ok tt, s).
Proof. intros H. unfold oracle. now rewrite H. Qed.

Lemma path_eqb_refl (p : path) : path_eqb p p = true.
Proof.
  induction p as [|x p IH]; simpl; [reflexivity|].
  now rewrite String.eqb_refl.
Qed.

Lemma path_eqb_eq (p q : path) : path_eqb p q = true <-> p = q.
Proof.
  split; [|intros ->; apply path_eqb_refl].
  revert q. induction p as [|x p IH]; intros [|y q]; simpl; try discriminate.
  - reflexivity.
  - intros H. apply andb_true_iff in H as [H1 H2].
    apply String.eqb_eq in H1. f_equal; [assumption|now apply IH].
Qed.

Lemma path_eqb_neq (p q : path) : path_eqb p q = false <-> p <> q.
Proof.
  rewrite <- path_eqb_eq. destruct (path_eqb p q); split; congruence.
Qed.

Lemma path_eqb_sym (p q : path) : path_eqb p q = path_eqb q p.
Proof.
  destruct (path_eqb p q) eqn:H.
  - apply path_eqb_eq in H. subst. symmetry. apply path_eqb_refl.
  - symmetry. apply path_eqb_neq. apply path_eqb_neq in H. congruence.
Qed.

(** ** Reading the index when the file is missing *)

Section MissingIndex.

Variable E : Env.
Hypothesis Hio : reliable E.

Lemma fs_access_spec (p : path) s :
  fs_access E p s
  = match nodeAt p (disk s) with
    | Some _ => (Ok tt, s)
    | None => (Err (SystemError ENOENT (pathString E p)), s)
    end.
Proof.
  unfold fs_access. rewrite (bind_ok _ _ _ _ _ (oracle_reliable E _ _ s Hio)).
  unfold bind, get. now destruct (nodeAt p (disk s)).
Qed.

Lemma collectProjectDirs_spec (names : list string) s :
  collectProjectDirs E names s = (Ok (filter (hasProjectJson (disk s)) names), s).
Proof.
  induction names as [|name names IH]; [reflexivity|].
  cbn [collectProjectDirs filter].
  unfold bind at 1. unfold tryCatch, bind at 1.
  rewrite fs_access_spec. unfold hasProjectJson at 1. cbn [nodeAt].
  destruct (fsGet [name; "project.json"] (disk s)); cbn.
  - unfold bind. rewrite IH. reflexivity.
  - unfold bind. rewrite IH. reflexivity.
Qed.

Lemma fs_readdir_root s :
  fs_readdir E [] s = (Ok (entriesOf [] (disk s)), s).
Proof.
  unfold fs_readdir.
  rewrite (bind_ok _ _ _ _ _ (oracle_reliable E _ _ s Hio)). reflexivity.
Qed.

Lemma corruptionMessage_fatal (dirs : list string) :
  Js.includes (corruptionMessage E dirs)
              "FATAL: MCP Security Report directory corruption" = true.
Proof. reflexivity. Qed.

Lemma checkForCorruptedDirectory_spec s :
  checkForCorruptedDirectory E s
  = if corruptionDetected E (disk s)
    then (Err (PlainError (corruptionMessage E (orphanedProjects (disk s)))), s)
    else (Ok tt, s).
Proof.
  unfold checkForCorruptedDirectory, corruptionDetected.
  destruct (skipsCorruptionCheck E) eqn:Hskip; cbn [negb andb].
  - reflexivity.
  - unfold tryCatch.
    rewrite (bind_ok _ _ _ _ _ (fs_readdir_root s)).
    rewrite (bind_ok _ _ _ _ _ (collectProjectDirs_spec _ s)).
    fold (orphanedProjects (disk s)). fold (hasLockArtifacts (disk s)).
    destruct (Nat.ltb 0 (length (orphanedProjects (disk s)))
              && (hasLockArtifacts (disk s)
                  || Nat.ltb 1 (length (orphanedProjects (disk s))))).
    + unfold throw. cbn [message]. now rewrite corruptionMessage_fatal.
    + reflexivity.
Qed.

Lemma readProjectIndex_missing s :
  projectIndexCache s = None ->
  fsGet projectIndexPath (disk s) = None ->
  readProjectIndex E s
  = if corruptionDetected E (disk s)
    then (Err (PlainError (corruptionMessage E (orphanedProjects (disk s)))), s)
    else (Ok emptyIndex, setIndexCache (Some emptyIndex) s).
Proof.
  intros Hcache Hfile. unfold readProjectIndex.
  unfold bind at 1. unfold get. rewrite Hcache.
  unfold tryCatch at 1. unfold bind at 1. unfold fs_readFile.
  rewrite (bind_ok _ _ _ _ _ (oracle_reliable E _ _ s Hio)).
  unfold bind at 1. unfold get. cbn [nodeAt projectIndexPath].
  rewrite Hfile.
  unfold sysError, throw. cbn [isENOENT].
  unfold bind at 1. rewrite checkForCorruptedDirectory_spec.
  destruct (corruptionDetected E (disk s)); reflexivity.
Qed.

End MissingIndex.

(** C5, as stated, fails: with no index file, two project directories and a
    lock artifact the heuristic holds as worded, yet in a working directory
    whose path contains [test] the read returns an empty index. *)
Lemma missing_index_in_pentest_directory :
  fsGet projectIndexPath (disk Sample.pentestStore) = None /\
  heuristicAsWorded (disk Sample.pentestStore) = true /\
  fst (readProjectIndex Sample.pentestEnv Sample.pentestStore)
  = Ok emptyIndex.
Proof. vm_compute. repeat split. Qed.

(** C5, amended. With no cached index, no index file and no I/O failure,
    reading the index fails with the corruption diagnostic, which lists
    every orphaned project directory, exactly when all of the following
    hold: the working directory path contains none of [tmp], [temp],
    [test] and the process does not run under test; at least one
    directory whose name does not start with [.], [node_modules], [tmp] or
    [temp] contains a [project.json]; and lock artifacts exist or there is
    more than one such directory. Otherwise the read returns the empty index
    and caches it. *)
Theorem readProjectIndex_missing_file (E : Env) (s : State) :
  reliable E ->
  projectIndexCache s = None ->
  fsGet projectIndexPath (disk s) = None ->
  (corruptionDetected E (disk s) = true ->
   exists diagnostic,
     readProjectIndex E s = (Err (PlainError diagnostic), s) /\
     Js.startsWith diagnostic
       "FATAL: MCP Security Report directory corruption detected!" = true /\
     forall name, In name (orphanedProjects (disk s)) ->
                  Js.includes diagnostic name = true) /\
  (corruptionDetected E (disk s) = false ->
   readProjectIndex E s = (Ok emptyIndex, setIndexCache (Some emptyIndex) s)).
Proof.
  intros Hio Hcache Hfile.
  rewrite (readProjectIndex_missing E Hio s Hcache Hfile).
  split; intros ->; [|reflexivity].
  eexists. split; [reflexivity|]. split; [reflexivity|].
  intros name Hin. unfold corruptionMessage.
  do 7 apply JsFacts.includes_app_r.
  apply JsFacts.includes_app_l. now apply JsFacts.includes_join.
Qed.

Lemma readProjectIndex_missing_file_witness :
  exists diagnostic,
    readProjectIndex Sample.env Sample.orphanStore
    = (Err (PlainError diagnostic), Sample.orphanStore) /\
    Js.startsWith diagnostic
      "FATAL: MCP Security Report directory corruption detected!" = true /\
    forall name, In name (orphanedProjects (disk Sample.orphanStore)) ->
                 Js.includes diagnostic name = true.
Proof.
  apply (proj1 (readProjectIndex_missing_file Sample.env Sample.orphanStore
                  (fun _ _ => eq_refl) eq_refl eq_refl)).
  reflexivity.
Defined.

(** ** Sanitized names *)

Module SanitizeFacts.
Import Js.

Lemma strAll_impl (P Q : ascii -> bool) s :
  (forall c, P c = true -> Q c = true) -> strAll P s = true -> strAll Q s = true.
Proof.
  intros H. induction s as [|c s IH]; simpl; [reflexivity|].
  intros Hs. apply andb_true_iff in Hs as [Hc Hs].
  now rewrite (H c Hc), (IH Hs).
Qed.

Lemma strAll_filterChars keep s : strAll keep (filterChars keep s) = true.
Proof.
  induction s as [|c s IH]; simpl; [reflexivity|].
  destruct (keep c) eqn:Hc; simpl; [now rewrite Hc|exact IH].
Qed.

Lemma strAll_dashRuns P b s :
  P "-"%char = true -> isSpace "-"%char = false ->
  strAll P s = true ->
  strAll (fun c => P c && negb (isSpace c)) (dashRuns b s) = true.
Proof.
  intros Hdash Hns. revert b. induction s as [|c s IH]; intros b; simpl;
    [reflexivity|].
  intros Hs. apply andb_true_iff in Hs as [Hc Hs].
  destruct (isSpace c) eqn:Hsp.
  - destruct b; simpl; [now apply IH|].
    rewrite Hdash. simpl. now apply IH.
  - simpl. rewrite Hc, Hsp. simpl. now apply IH.
Qed.

Lemma strAll_toLowerCase (P Q : ascii -> bool) s :
  (forall c, P c = true -> Q (lower c) = true) ->
  strAll P s = true -> strAll Q (toLowerCase s) = true.
Proof.
  intros H. induction s as [|c s IH]; simpl; [reflexivity|].
  intros Hs. apply andb_true_iff in Hs as [Hc Hs].
  now rewrite (H c Hc), (IH Hs).
Qed.

Lemma strAll_trimStart P s : strAll P s = true -> strAll P (trimStart s) = true.
Proof.
  induction s as [|c s IH]; simpl; [reflexivity|].
  intros Hs. destruct (isSpace c); [|exact Hs].
  apply andb_true_iff in Hs as [_ Hs]. now apply IH.
Qed.

Lemma strAll_trimEnd P s : strAll P s = true -> strAll P (trimEnd s) = true.
Proof.
  induction s as [|c s IH]; simpl; [reflexivity|].
  intros Hs. apply andb_true_iff in Hs as [Hc Hs]. specialize (IH Hs).
  destruct (trimEnd s) as [|d t].
  - destruct (isSpace c); simpl; [reflexivity|now rewrite Hc].
  - simpl in *. now rewrite Hc, IH.
Qed.

Lemma kept_lower_clean (c : ascii) :
  keptChar c && negb (isSpace c) = true -> cleanChar (lower c) = true.
Proof.
  destruct c as [[] [] [] [] [] [] [] []]; vm_compute; congruence.
Qed.

Lemma clean_facts (c : ascii) :
  cleanChar c = true ->
  keptChar c = true /\ isSpace c = false /\ lower c = c
  /\ Ascii.eqb c "." = false /\ Ascii.eqb c "/" = false
  /\ Ascii.eqb c " " = false.
Proof.
  destruct c as [[] [] [] [] [] [] [] []]; vm_compute; intros H;
    try discriminate; repeat split.
Qed.

Lemma sanitize_clean name : strAll cleanChar (sanitizeProjectName name) = true.
Proof.
  unfold sanitizeProjectName, trim.
  apply strAll_trimEnd, strAll_trimStart.
  apply (strAll_toLowerCase (fun c => keptChar c && negb (isSpace c))).
  - exact kept_lower_clean.
  - apply (strAll_dashRuns keptChar); [reflexivity|reflexivity|].
    apply strAll_filterChars.
Qed.

Lemma filterChars_all keep s :
  strAll keep s = true -> filterChars keep s = s.
Proof.
  induction s as [|c s IH]; simpl; [reflexivity|].
  intros Hs. apply andb_true_iff in Hs as [Hc Hs].
  now rewrite Hc, (IH Hs).
Qed.

Lemma dashRuns_none s :
  strAll (fun c => negb (isSpace c)) s = true -> dashRuns false s = s.
Proof.
  induction s as [|c s IH]; simpl; [reflexivity|].
  intros Hs. apply andb_true_iff in Hs as [Hc Hs].
  apply negb_true_iff in Hc. now rewrite Hc, (IH Hs).
Qed.

Lemma toLowerCase_fixed s :
  strAll (fun c => Ascii.eqb (lower c) c) s = true -> toLowerCase s = s.
Proof.
  induction s as [|c s IH]; simpl; [reflexivity|].
  intros Hs. apply andb_true_iff in Hs as [Hc Hs].
  apply Ascii.eqb_eq in Hc. now rewrite Hc, (IH Hs).
Qed.

Lemma trimEnd_none s :
  strAll (fun c => negb (isSpace c)) s = true -> trimEnd s = s.
Proof.
  induction s as [|c s IH]; simpl; [reflexivity|].
  intros Hs. apply andb_true_iff in Hs as [Hc Hs].
  apply negb_true_iff in Hc. rewrite (IH Hs), Hc. now destruct s.
Qed.

Lemma trimStart_none s :
  strAll (fun c => negb (isSpace c)) s = true -> trimStart s = s.
Proof.
  destruct s as [|c s]; simpl; [reflexivity|].
  intros Hs. apply andb_true_iff in Hs as [Hc Hs].
  apply negb_true_iff in Hc. now rewrite Hc.
Qed.

Lemma sanitize_fixed s :
  strAll cleanChar s = true -> sanitizeProjectName s = s.
Proof.
  intros Hs.
  assert (Hkept : strAll keptChar s = true).
  { eapply strAll_impl; [|exact Hs]. intros c Hc. apply (clean_facts c Hc). }
  assert (Hnsp : strAll (fun c => negb (isSpace c)) s = true).
  { eapply strAll_impl; [|exact Hs]. intros c Hc.
    destruct (clean_facts c Hc) as (_ & H & _). now rewrite H. }
  assert (Hlow : strAll (fun c => Ascii.eqb (lower c) c) s = true).
  { eapply strAll_impl; [|exact Hs]. intros c Hc.
    destruct (clean_facts c Hc) as (_ & _ & H & _). rewrite H.
    apply Ascii.eqb_refl. }
  unfold sanitizeProjectName, trim.
  change (fun c => isAlnum c || Ascii.eqb c "-" || Ascii.eqb c "_" || isSpace c)
    with keptChar.
  rewrite (filterChars_all _ _ Hkept), (dashRuns_none _ Hnsp),
    (toLowerCase_fixed _ Hlow), (trimStart_none _ Hnsp).
  exact (trimEnd_none _ Hnsp).
Qed.

(** sanitizing twice is sanitizing once *)
Lemma sanitize_idempotent name :
  sanitizeProjectName (sanitizeProjectName name) = sanitizeProjectName name.
Proof. apply sanitize_fixed, sanitize_clean. Qed.

(** a sanitized name is not the name of a dot file *)
Lemma sanitize_not_dotfile name rest :
  String.eqb (String "." rest) (sanitizeProjectName name) = false.
Proof.
  pose proof (sanitize_clean name) as H.
  destruct (sanitizeProjectName name) as [|c s]; [reflexivity|].
  simpl in H. apply andb_true_iff in H as [Hc _].
  destruct (clean_facts c Hc) as (_ & _ & _ & Hdot & _).
  cbn [String.eqb]. rewrite Ascii.eqb_sym, Hdot. reflexivity.
Qed.

End SanitizeFacts.

(** ** The disk as an association list *)

Lemma fsGet_fsPut_same p n fs : fsGet p (fsPut p n fs) = Some n.
Proof.
  induction fs as [|[q m] fs IH]; simpl.
  - now rewrite path_eqb_refl.
  - destruct (path_eqb q p) eqn:H; simpl; rewrite H; [reflexivity|exact IH].
Qed.

Lemma fsGet_fsPut_other p q n fs :
  p <> q -> fsGet q (fsPut p n fs) = fsGet q fs.
Proof.
  intros Hne. induction fs as [|[r m] fs IH]; simpl.
  - apply path_eqb_neq in Hne. now rewrite Hne.
  - destruct (path_eqb r p) eqn:H; simpl.
    + apply path_eqb_eq in H. subst r.
      apply path_eqb_neq in Hne. now rewrite Hne.
    + destruct (path_eqb r q); [reflexivity|exact IH].
Qed.

Lemma fsGet_app p (fs fs' : FS) :
  fsGet p (fs ++ fs') = match fsGet p fs with
                        | Some n => Some n
                        | None => fsGet p fs'
                        end.
Proof.
  induction fs as [|[q m] fs IH]; simpl; [reflexivity|].
  destruct (path_eqb q p); [reflexivity|exact IH].
Qed.

Lemma fsGet_filter (keep : path -> bool) p fs :
  fsGet p (filter (fun e => keep (fst e)) fs)
  = if keep p then fsGet p fs else None.
Proof.
  induction fs as [|[q m] fs IH]; simpl.
  - now destruct (keep p).
  - destruct (keep q) eqn:Hq; simpl; destruct (path_eqb q p) eqn:Hqp.
    + apply path_eqb_eq in Hqp. subst q. now rewrite Hq.
    + exact IH.
    + apply path_eqb_eq in Hqp. subst q. rewrite Hq in IH |- *. exact IH.
    + exact IH.
Qed.

Lemma fsGet_fsRemove p q fs :
  fsGet q (fsRemove p fs) = if path_eqb p q then None else fsGet q fs.
Proof.
  unfold fsRemove.
  rewrite (fsGet_filter (fun r => negb (path_eqb r p)) q fs).
  rewrite (path_eqb_sym q p). now destruct (path_eqb p q).
Qed.

Lemma fsGet_fsRemoveTree p q fs :
  fsGet q (fsRemoveTree p fs) = if under p q then None else fsGet q fs.
Proof.
  unfold fsRemoveTree.
  rewrite (fsGet_filter (fun r => negb (under p r)) q fs).
  now destruct (under p q).
Qed.

Lemma under_refl p : under p p = true.
Proof.
  induction p as [|x p IH]; simpl; [reflexivity|].
  now rewrite String.eqb_refl.
Qed.

Lemma under_app (p q : path) : under p (p ++ q) = true.
Proof.
  induction p as [|x p IH]; simpl; [reflexivity|].
  now rewrite String.eqb_refl.
Qed.

(** ** Frames: what a call leaves alone *)

Section FrameRules.

Context {R : State -> State -> Prop} `{!Pre R}.

Lemma preserves_ret A (a : A) : preserves R (ret a).
Proof. intros s. apply frame_refl. Qed.

Lemma preserves_throw A (e : Error) : preserves R (@throw A e).
Proof. intros s. apply frame_refl. Qed.

Lemma preserves_get : preserves R get.
Proof. intros s. apply frame_refl. Qed.

Lemma preserves_hang A : preserves R (fun s => (@Hang A, s)).
Proof. intros s. apply frame_refl. Qed.

Lemma preserves_bind A B (m : M A) (k : A -> M B) :
  preserves R m -> (forall a, preserves R (k a)) -> preserves R (bind m k).
Proof.
  intros Hm Hk s. unfold bind. specialize (Hm s).
  destruct (m s) as [[a|e|] s1]; simpl in *; try assumption.
  eapply frame_trans; [exact Hm|apply Hk].
Qed.

Lemma preserves_tryCatch A (m : M A) h :
  preserves R m -> (forall e, preserves R (h e)) -> preserves R (tryCatch m h).
Proof.
  intros Hm Hh s. unfold tryCatch. specialize (Hm s).
  destruct (m s) as [[a|e|] s1]; simpl in *; try assumption.
  eapply frame_trans; [exact Hm|apply Hh].
Qed.

Lemma preserves_ignoreErrors (m : M unit) :
  preserves R m -> preserves R (ignoreErrors m).
Proof.
  intros Hm. apply preserves_tryCatch; [exact Hm|].
  intros e. apply preserves_ret.
Qed.

Lemma preserves_finally A (m : M A) f :
  preserves R m -> preserves R f -> preserves R (finally m f).
Proof.
  intros Hm Hf s. unfold finally. specialize (Hm s).
  destruct (m s) as [[a|e|] s1]; simpl in *; try assumption;
    (eapply frame_trans; [exact Hm|apply Hf]).
Qed.

Lemma preserves_modify (f : State -> State) :
  (forall s, R s (f s)) -> preserves R (modify f).
Proof. intros H s. apply H. Qed.

Lemma preserves_liftE A (r : Error + A) : preserves R (liftE r).
Proof. destruct r; [apply preserves_throw|apply preserves_ret]. Qed.

Lemma preserves_allSettled A B (f : A -> M B) xs :
  (forall x, preserves R (f x)) -> preserves R (allSettled f xs).
Proof.
  intros Hf. induction xs as [|x xs IH]; [apply preserves_ret|].
  intros s. cbn [allSettled]. specialize (Hf x s).
  destruct (f x s) as [[b|e|] s1]; simpl in *; try assumption.
  - specialize (IH s1).
    destruct (allSettled f xs s1) as [[bs|e|] s2]; simpl in *;
      (eapply frame_trans; [exact Hf|exact IH]).
  - eapply frame_trans; [exact Hf|apply IH].
Qed.

Lemma preserves_forEach A (f : A -> M unit) xs :
  (forall x, preserves R (f x)) -> preserves R (forEach f xs).
Proof.
  intros Hf. induction xs as [|x xs IH]; [apply preserves_ret|].
  cbn [forEach]. apply preserves_bind; [apply Hf|intros _; exact IH].
Qed.

Lemma oracle_frame (E : Env) op p : preserves R (oracle E op p).
Proof.
  intros s. unfold oracle, sysError, throw, ret.
  destruct (ioFails E op p); apply frame_refl.
Qed.

(** a continuation that uses the state [get] hands it *)
Lemma preserves_get_bind A (k : State -> M A) :
  (forall s, R s (snd (k s s))) -> preserves R (bind get k).
Proof. intros H s. apply H. Qed.

Lemma modify_bind_at A (f : State -> State) (k : unit -> M A) s :
  R s (f s) -> preserves R (k tt) -> R s (snd (bind (modify f) k s)).
Proof.
  intros Hf Hk. unfold bind, modify.
  eapply frame_trans; [exact Hf|apply Hk].
Qed.

End FrameRules.

(** apply a lemma, class arguments resolved by [refine] *)
Ltac class_goal :=
  lazymatch goal with
  | |- Pre _ => typeclasses eauto
  | |- Reads _ => typeclasses eauto
  | |- Frame _ _ => typeclasses eauto
  | |- _ => idtac
  end.

Tactic Notation "use" uconstr(H) :=
  first
    [ refine H; class_goal
    | refine (H _); class_goal
    | refine (H _ _); class_goal
    | refine (H _ _ _); class_goal
    | refine (H _ _ _ _); class_goal
    | refine (H _ _ _ _ _); class_goal
    | refine (H _ _ _ _ _ _); class_goal
    | refine (H _ _ _ _ _ _ _); class_goal ].

(** first-order decomposition of a computation into its primitive calls *)
Ltac frame_step :=
  lazymatch goal with
  | |- preserves _ (ret _) => use preserves_ret
  | |- preserves _ (throw _) => use preserves_throw
  | |- preserves _ (sysError _ _ _) => use preserves_throw
  | |- preserves _ get => use preserves_get
  | |- preserves _ (fun s => (Hang, s)) => use preserves_hang
  | |- preserves _ (liftE _) => use preserves_liftE
  | |- preserves _ (bind _ _) => refine (preserves_bind _ _ _ _ _ _); [|intros ?]
  | |- preserves _ (tryCatch _ _) =>
      refine (preserves_tryCatch _ _ _ _ _); [|intros ?]
  | |- preserves _ (ignoreErrors _) => refine (preserves_ignoreErrors _ _)
  | |- preserves _ (finally _ _) => refine (preserves_finally _ _ _ _ _)
  | |- preserves _ (allSettled _ _) =>
      refine (preserves_allSettled _ _ _ _ _); intros ?
  | |- preserves _ (forEach _ _) =>
      refine (preserves_forEach _ _ _ _); intros ?
  | |- preserves _ (modify _) => refine (preserves_modify _ _); intros ?
  | |- preserves _ (oracle _ _ _) => use oracle_frame
  | |- preserves _ (if ?b then _ else _) => destruct b
  | |- preserves _ (match ?x with _ => _ end) => destruct x
  end.

Ltac frame := repeat frame_step.

Section ReadPrimitives.

Variable E : Env.
Context {R : State -> State -> Prop} `{!Pre R}.

Lemma fs_access_frame p : preserves R (fs_access E p).
Proof. unfold fs_access. frame. Qed.

Lemma fs_readdir_frame d : preserves R (fs_readdir E d).
Proof. unfold fs_readdir. frame. Qed.

Lemma fs_stat_frame p : preserves R (fs_stat E p).
Proof. unfold fs_stat. frame. Qed.

Lemma fs_readFile_frame p : preserves R (fs_readFile E p).
Proof. unfold fs_readFile. frame. Qed.

End ReadPrimitives.

Section FramePrimitives.

Variable E : Env.
Context {R : State -> State -> Prop} {W : path -> bool} `{!Frame R W}.

(** a primitive call: run it on [s] and look at every outcome *)
Ltac prim :=
  intros s;
  unfold bind, oracle, get, modify, sysError, throw, ret;
  repeat match goal with
         | |- context [if ?b then _ else _] => destruct b
         | |- context [match ?x with _ => _ end] => destruct x eqn:?
         end;
  cbn [snd]; try apply frame_refl.

Lemma fs_writeFile_frame p c :
  W p = true -> preserves R (fs_writeFile E p c).
Proof.
  intros Hp. unfold fs_writeFile. prim.
  all: apply frame_disk, step_put, Hp.
Qed.

Lemma fs_rename_frame a b :
  W a = true -> W b = true -> preserves R (fs_rename E a b).
Proof.
  intros Ha Hb. unfold fs_rename. prim.
  all: apply frame_disk; eapply step_trans;
    [apply step_remove, Ha|apply step_put, Hb].
Qed.

Lemma fs_unlink_frame p : W p = true -> preserves R (fs_unlink E p).
Proof.
  intros Hp. unfold fs_unlink. prim.
  apply frame_disk, step_remove, Hp.
Qed.

Lemma fs_rm_frame p :
  (forall q, under p q = true -> W q = true) -> preserves R (fs_rm E p).
Proof.
  intros Hp. unfold fs_rm. prim.
  apply frame_disk, step_removeTree, Hp.
Qed.

Lemma mkdirFrom_step base segs now fs fs' :
  (forall k, (0 < k <= length segs)%nat -> W (base ++ firstn k segs) = true) ->
  mkdirFrom base segs now fs = inr fs' -> diskStep W fs fs'.
Proof.
  revert base fs. induction segs as [|seg segs IH]; intros base fs Hw; simpl.
  - intros H. injection H as <-. apply step_refl.
  - assert (Hrest : forall k, (0 < k <= length segs)%nat ->
                              W ((base ++ [seg]) ++ firstn k segs) = true).
    { intros k Hk. rewrite <- app_assoc. apply (Hw (S k)). simpl. lia. }
    destruct (fsGet (base ++ [seg]) fs) as [[t|c t]|] eqn:Hget.
    + apply IH, Hrest.
    + discriminate.
    + intros H. eapply step_trans; [|eapply IH; [exact Hrest|exact H]].
      apply step_add. apply (Hw 1%nat). simpl. lia.
Qed.

Lemma fs_mkdir_frame p :
  (forall k, (0 < k <= length p)%nat -> W (firstn k p) = true) ->
  preserves R (fs_mkdir E p).
Proof.
  intros Hp. unfold fs_mkdir. frame_step; [frame_step|].
  intros s. unfold bind, get.
  destruct (mkdirFrom [] p (clock s) (disk s)) as [code|fs'] eqn:Hmk.
  - apply frame_refl.
  - apply frame_disk. eapply mkdirFrom_step; [|exact Hmk]. exact Hp.
Qed.

Lemma lockfileLock_frame name stale :
  (forall q, under [name] q = true -> W q = true) ->
  preserves R (lockfileLock E name stale).
Proof.
  intros Hw. unfold lockfileLock. prim.
  - apply frame_disk. eapply step_trans.
    + apply step_removeTree, Hw.
    + apply step_put, Hw, under_refl.
  - apply frame_disk, step_add, Hw, under_refl.
Qed.

Lemma lockfileRelease_frame name :
  (forall q, under [name] q = true -> W q = true) ->
  preserves R (lockfileRelease name).
Proof.
  intros Hw. unfold lockfileRelease. prim.
  apply frame_disk, step_removeTree, Hw.
Qed.

End FramePrimitives.

(** ** Calls that only read *)

Section PureOps.

Variable E : Env.
Context {R : State -> State -> Prop} `{!Pre R}.

Lemma collectProjectDirs_frame names :
  preserves R (collectProjectDirs E names).
Proof.
  induction names as [|name names IH]; cbn [collectProjectDirs]; frame.
  - use (fs_access_frame E).
  - exact IH.
Qed.

Lemma checkForCorruptedDirectory_frame :
  preserves R (checkForCorruptedDirectory E).
Proof.
  unfold checkForCorruptedDirectory. frame.
  - use (fs_readdir_frame E).
  - use collectProjectDirs_frame.
Qed.

Lemma matterParse_frame content : preserves R (matterParse E content).
Proof. unfold matterParse. frame. Qed.

Lemma getDirectoryLastModified_frame dirPath :
  preserves R (getDirectoryLastModified E dirPath).
Proof.
  unfold getDirectoryLastModified. frame.
  - use (fs_readdir_frame E).
  - use (fs_stat_frame E).
Qed.

Lemma statBatch_frame dir batch : preserves R (statBatch E dir batch).
Proof. unfold statBatch. frame. use (fs_stat_frame E). Qed.

Lemma scanFindings_frame fuel dir mdFiles batchSize targetCount memoryLimit i acc :
  preserves R (scanFindings E fuel dir mdFiles batchSize targetCount
                            memoryLimit i acc).
Proof.
  revert i acc. induction fuel as [|fuel IH]; intros i acc;
    cbn [scanFindings]; frame.
  - use statBatch_frame.
  - apply IH.
Qed.

Lemma scanAuditTrails_frame fuel dir mdFiles batchSize targetCount i acc :
  preserves R (scanAuditTrails E fuel dir mdFiles batchSize targetCount i acc).
Proof.
  revert i acc. induction fuel as [|fuel IH]; intros i acc;
    cbn [scanAuditTrails]; frame.
  - use statBatch_frame.
  - apply IH.
Qed.

Lemma readListedFinding_frame dir file :
  preserves R (readListedFinding E dir file).
Proof.
  unfold readListedFinding. frame.
  - use (fs_readFile_frame E).
  - use matterParse_frame.
Qed.

Lemma readListedAuditTrail_frame dir file :
  preserves R (readListedAuditTrail E dir file).
Proof.
  unfold readListedAuditTrail. frame.
  - use (fs_readFile_frame E).
  - use matterParse_frame.
Qed.

End PureOps.

Section ReadOps.

Variable E : Env.
Context {R : State -> State -> Prop} `{!Reads R}.

Lemma readProjectIndex_frame : preserves R (readProjectIndex E).
Proof.
  unfold readProjectIndex. frame.
  - use (fs_readFile_frame E).
  - apply frame_indexCache.
  - use (checkForCorruptedDirectory_frame E).
  - apply frame_indexCache.
Qed.

Lemma getProject_frame projectName : preserves R (getProject E projectName).
Proof. unfold getProject. frame. use readProjectIndex_frame. Qed.

Lemma checkProjectNotCompleted_frame projectName operation :
  preserves R (checkProjectNotCompleted E projectName operation).
Proof. unfold checkProjectNotCompleted. frame. use getProject_frame. Qed.

Lemma getFinding_frame projectName findingId :
  preserves R (getFinding E projectName findingId).
Proof.
  unfold getFinding. frame.
  - use getProject_frame.
  - use (fs_readFile_frame E).
  - use (matterParse_frame E).
Qed.

Lemma getAuditTrail_frame projectName auditId :
  preserves R (getAuditTrail E projectName auditId).
Proof.
  unfold getAuditTrail. frame.
  - use getProject_frame.
  - use (fs_readFile_frame E).
  - use (matterParse_frame E).
Qed.

End ReadOps.

#[export] Instance readOnly_Pre : Pre readOnly.
Proof.
  split.
  - intros s. now repeat split.
  - intros a b c (H1 & H2 & H3 & H4 & H5) (G1 & G2 & G3 & G4 & G5).
    repeat split; congruence.
Qed.

#[export] Instance readOnly_Reads : Reads readOnly.
Proof. split; [exact readOnly_Pre|]. intros s c. now repeat split. Qed.

Lemma readOnly_setIndexCache s s' :
  readOnly s s' -> s' = setIndexCache (projectIndexCache s') s.
Proof.
  intros (H1 & H2 & H3 & H4 & H5). destruct s, s'. simpl in *.
  unfold setIndexCache. simpl. congruence.
Qed.

#[export] Instance eq_Pre : Pre (@eq State).
Proof. split; congruence. Qed.

(** ** What the index says about a project *)

Lemma setIndexCache_same s c :
  projectIndexCache s = c -> setIndexCache c s = s.
Proof. intros <-. now destruct s. Qed.

Section IndexFacts.

Variable E : Env.
Hypothesis Hread : ioFails E OpReadFile projectIndexPath = false.

Lemma readProjectIndex_indexOf s idx :
  indexOf s = Some idx ->
  readProjectIndex E s = (Ok idx, setIndexCache (Some idx) s).
Proof.
  unfold indexOf, readProjectIndex. unfold bind at 1. unfold get.
  destruct (projectIndexCache s) as [cached|] eqn:Hc.
  - intros H. injection H as <-. unfold ret.
    now rewrite (setIndexCache_same s (Some cached) Hc).
  - destruct (fsGet projectIndexPath (disk s)) as [[t|[i|md|d b|x] t]|] eqn:Hf;
      try discriminate.
    intros H. injection H as <-.
    unfold tryCatch, bind at 1. unfold fs_readFile.
    rewrite (bind_ok _ _ _ _ _ (oracle_ok E _ _ s Hread)).
    unfold bind at 1. unfold get. cbn [nodeAt projectIndexPath].
    rewrite Hf. reflexivity.
Qed.

Lemma getProject_recorded s projectName md :
  recorded s projectName md ->
  exists idx,
    indexOf s = Some idx /\
    getProject E projectName s = (Ok md, setIndexCache (Some idx) s).
Proof.
  intros (idx & Hidx & Hget). exists idx. split; [exact Hidx|].
  unfold getProject.
  rewrite (bind_ok _ _ _ _ _ (readProjectIndex_indexOf s idx Hidx)).
  now rewrite Hget.
Qed.

End IndexFacts.

Lemma indexOf_cached s idx :
  projectIndexCache s = Some idx -> indexOf s = Some idx.
Proof. unfold indexOf. now intros ->. Qed.

Lemma recorded_setIndexCache s idx projectName md :
  indexOf s = Some idx ->
  recorded s projectName md ->
  recorded (setIndexCache (Some idx) s) projectName md.
Proof.
  intros Hidx (idx' & Hidx' & Hget). exists idx. split; [reflexivity|].
  congruence.
Qed.

(** a successful read leaves the index it returns in the cache *)
Lemma readProjectIndex_ok_cached (E : Env) s idx s' :
  readProjectIndex E s = (Ok idx, s') -> projectIndexCache s' = Some idx.
Proof.
  unfold readProjectIndex. unfold bind at 1. unfold get.
  destruct (projectIndexCache s) as [cached|] eqn:Hc.
  - unfold ret. intros H. injection H as <- <-. exact Hc.
  - unfold tryCatch.
    destruct (bind (fs_readFile E projectIndexPath) _ s)
      as [[a|e|] s1] eqn:Hbody.
    + intros H. injection H as <- <-.
      unfold bind in Hbody.
      destruct (fs_readFile E projectIndexPath s) as [[c|e|] s2];
        try discriminate.
      destruct c; try discriminate.
      unfold modify, ret in Hbody. now injection Hbody as <- <-.
    + destruct (isENOENT e); [|discriminate].
      unfold bind.
      destruct (checkForCorruptedDirectory E s1) as [[u|e'|] s2];
        try discriminate.
      unfold modify, ret. intros H. now injection H as <- <-.
    + discriminate.
Qed.

Lemma getProject_ok_cached (E : Env) projectName s md s' :
  getProject E projectName s = (Ok md, s') ->
  readOnly s s' /\
  exists idx,
    projectIndexCache s' = Some idx /\
    mapGet (sanitizeProjectName projectName) (projects idx) = Some md.
Proof.
  intros H. split.
  { pose proof (getProject_frame E (R := readOnly) projectName s) as Hro.
    now rewrite H in Hro. }
  unfold getProject, bind in H.
  destruct (readProjectIndex E s) as [[idx|e|] s1] eqn:Hr; try discriminate.
  destruct (mapGet (sanitizeProjectName projectName) (projects idx))
    as [md'|] eqn:Hget; try discriminate.
  unfold ret in H. injection H as <- <-.
  exists idx. split; [|exact Hget].
  exact (readProjectIndex_ok_cached E s idx s1 Hr).
Qed.

Lemma getProject_cached (E : Env) projectName s idx md :
  projectIndexCache s = Some idx ->
  mapGet (sanitizeProjectName projectName) (projects idx) = Some md ->
  getProject E projectName s = (Ok md, s).
Proof.
  intros Hc Hget.
  assert (Hr : readProjectIndex E s = (Ok idx, s)).
  { unfold readProjectIndex, bind, get. cbv beta iota. now rewrite Hc. }
  unfold getProject. rewrite (bind_ok _ _ _ _ _ Hr). now rewrite Hget.
Qed.

(** ** Calls that always return *)

Section ReturnRules.

Lemma returns_ret A (a : A) : returns (ret a).
Proof. intros s. discriminate. Qed.

Lemma returns_throw A e : returns (@throw A e).
Proof. intros s. discriminate. Qed.

Lemma returns_get : returns get.
Proof. intros s. discriminate. Qed.

Lemma returns_modify f : returns (modify f).
Proof. intros s. discriminate. Qed.

Lemma returns_liftE A (r : Error + A) : returns (liftE r).
Proof. destruct r; [apply returns_throw|apply returns_ret]. Qed.

Lemma returns_oracle E op p : returns (oracle E op p).
Proof. intros s. unfold oracle, sysError, throw, ret. now destruct (ioFails E op p). Qed.

Lemma returns_bind A B (m : M A) (k : A -> M B) :
  returns m -> (forall a, returns (k a)) -> returns (bind m k).
Proof.
  intros Hm Hk s. unfold bind. specialize (Hm s).
  destruct (m s) as [[a|e|] s1]; simpl in *; try discriminate; [apply Hk|].
  now contradiction Hm.
Qed.

Lemma returns_tryCatch A (m : M A) h :
  returns m -> (forall e, returns (h e)) -> returns (tryCatch m h).
Proof.
  intros Hm Hh s. unfold tryCatch. specialize (Hm s).
  destruct (m s) as [[a|e|] s1]; simpl in *; try discriminate; [apply Hh|].
  now contradiction Hm.
Qed.

Lemma returns_ignoreErrors (m : M unit) : returns m -> returns (ignoreErrors m).
Proof.
  intros Hm. apply returns_tryCatch; [exact Hm|]. intros e. apply returns_ret.
Qed.

Lemma returns_finally A (m : M A) f : returns m -> returns (finally m f).
Proof.
  intros Hm s. unfold finally. specialize (Hm s).
  destruct (m s) as [[a|e|] s1]; simpl in *; try discriminate.
  now contradiction Hm.
Qed.

Lemma returns_allSettled A B (f : A -> M B) xs :
  (forall x, returns (f x)) -> returns (allSettled f xs).
Proof.
  intros Hf. induction xs as [|x xs IH]; [apply returns_ret|].
  intros s. cbn [allSettled]. specialize (Hf x s).
  destruct (f x s) as [[b|e|] s1]; simpl in *.
  - specialize (IH s1).
    destruct (allSettled f xs s1) as [[bs|e|] s2]; simpl in *;
      try discriminate. exact IH.
  - apply IH.
  - now contradiction Hf.
Qed.

Lemma returns_forEach A (f : A -> M unit) xs :
  (forall x, returns (f x)) -> returns (forEach f xs).
Proof.
  intros Hf. induction xs as [|x xs IH]; [apply returns_ret|].
  cbn [forEach]. apply returns_bind; [apply Hf|intros _; exact IH].
Qed.

End ReturnRules.

Ltac returns_step :=
  lazymatch goal with
  | |- returns (ret _) => apply returns_ret
  | |- returns (throw _) => apply returns_throw
  | |- returns (sysError _ _ _) => apply returns_throw
  | |- returns get => apply returns_get
  | |- returns (liftE _) => apply returns_liftE
  | |- returns (modify _) => apply returns_modify
  | |- returns (oracle _ _ _) => apply returns_oracle
  | |- returns (bind _ _) => apply returns_bind; [|intros ?]
  | |- returns (tryCatch _ _) => apply returns_tryCatch; [|intros ?]
  | |- returns (ignoreErrors _) => apply returns_ignoreErrors
  | |- returns (finally _ _) => apply returns_finally
  | |- returns (allSettled _ _) => apply returns_allSettled; intros ?
  | |- returns (forEach _ _) => apply returns_forEach; intros ?
  | |- returns (if ?b then _ else _) => destruct b
  | |- returns (match ?x with _ => _ end) => destruct x
  end.

Ltac returns_tac := repeat returns_step.

Create HintDb returns.

Section ReturnOps.

Variable E : Env.

Lemma returns_fs_access p : returns (fs_access E p).
Proof. unfold fs_access. returns_tac. Qed.

Lemma returns_fs_mkdir p : returns (fs_mkdir E p).
Proof. unfold fs_mkdir. returns_tac. Qed.

Lemma returns_fs_writeFile p c : returns (fs_writeFile E p c).
Proof. unfold fs_writeFile. returns_tac. Qed.

Lemma returns_fs_rename a b : returns (fs_rename E a b).
Proof. unfold fs_rename. returns_tac. Qed.

Lemma returns_fs_unlink p : returns (fs_unlink E p).
Proof. unfold fs_unlink. returns_tac. Qed.

Lemma returns_fs_rm p : returns (fs_rm E p).
Proof. unfold fs_rm. returns_tac. Qed.

Lemma returns_fs_readdir d : returns (fs_readdir E d).
Proof. unfold fs_readdir. returns_tac. Qed.

Lemma returns_fs_stat p : returns (fs_stat E p).
Proof. unfold fs_stat. returns_tac. Qed.

Lemma returns_fs_readFile p : returns (fs_readFile E p).
Proof. unfold fs_readFile. returns_tac. Qed.

Lemma returns_lockfileLock name stale : returns (lockfileLock E name stale).
Proof. unfold lockfileLock. returns_tac. Qed.

Lemma returns_lockfileRelease name : returns (lockfileRelease name).
Proof. unfold lockfileRelease. returns_tac. Qed.

Hint Resolve returns_fs_access returns_fs_mkdir returns_fs_writeFile
     returns_fs_rename returns_fs_unlink returns_fs_rm returns_fs_readdir
     returns_fs_stat returns_fs_readFile returns_lockfileLock
     returns_lockfileRelease : returns.

Ltac solve_returns := returns_tac; auto with returns.

Lemma returns_withLock A lockKey (operation : M A) :
  returns operation -> returns (withLock E lockKey operation).
Proof.
  intros Hop s. unfold withLock.
  pose proof (returns_lockfileLock
                (".mcp-lock-" ++ lockKey ++ ".lock") 10000 s) as Hl.
  destruct (lockfileLock E _ 10000 s) as [[u|e|] s1]; simpl in *.
  - apply returns_finally. apply returns_tryCatch; [exact Hop|].
    intros e. unfold lockTimeout. solve_returns.
  - unfold lockTimeout.
    destruct (Js.includes (message e) "already being held"); discriminate.
  - now contradiction Hl.
Qed.

Lemma returns_ensureDirectoryExists p : returns (ensureDirectoryExists E p).
Proof. unfold ensureDirectoryExists. solve_returns. Qed.

Lemma returns_collectProjectDirs names : returns (collectProjectDirs E names).
Proof.
  induction names as [|n names IH]; cbn [collectProjectDirs]; solve_returns.
Qed.

Lemma returns_checkForCorruptedDirectory :
  returns (checkForCorruptedDirectory E).
Proof.
  unfold checkForCorruptedDirectory. solve_returns.
  apply returns_collectProjectDirs.
Qed.

Lemma returns_readProjectIndex : returns (readProjectIndex E).
Proof.
  unfold readProjectIndex. solve_returns.
  all: apply returns_checkForCorruptedDirectory.
Qed.

Lemma returns_writeProjectIndex index : returns (writeProjectIndex E index).
Proof. unfold writeProjectIndex. solve_returns. Qed.

Lemma returns_getProject projectName : returns (getProject E projectName).
Proof. unfold getProject. solve_returns. apply returns_readProjectIndex. Qed.

Lemma returns_checkProjectNotCompleted projectName operation :
  returns (checkProjectNotCompleted E projectName operation).
Proof.
  unfold checkProjectNotCompleted. solve_returns. apply returns_getProject.
Qed.

Lemma returns_matterParse content : returns (matterParse E content).
Proof. unfold matterParse. solve_returns. Qed.

Lemma returns_getFinding projectName findingId :
  returns (getFinding E projectName findingId).
Proof.
  unfold getFinding. solve_returns.
  - apply returns_getProject.
  - apply returns_matterParse.
Qed.

Lemma returns_getAuditTrail projectName auditId :
  returns (getAuditTrail E projectName auditId).
Proof.
  unfold getAuditTrail. solve_returns.
  - apply returns_getProject.
  - apply returns_matterParse.
Qed.

Lemma returns_updateProject projectName updates :
  returns (updateProject E projectName updates).
Proof.
  unfold updateProject. apply returns_withLock. solve_returns.
  - apply returns_getProject.
  - apply returns_readProjectIndex.
  - apply returns_writeProjectIndex.
Qed.

Lemma returns_getDirectoryLastModified dirPath :
  returns (getDirectoryLastModified E dirPath).
Proof. unfold getDirectoryLastModified. solve_returns. Qed.

Lemma returns_statBatch dir batch : returns (statBatch E dir batch).
Proof. unfold statBatch. solve_returns. Qed.

Lemma returns_readListedFinding dir file :
  returns (readListedFinding E dir file).
Proof. unfold readListedFinding. solve_returns. apply returns_matterParse. Qed.

Lemma returns_readListedAuditTrail dir file :
  returns (readListedAuditTrail E dir file).
Proof.
  unfold readListedAuditTrail. solve_returns. apply returns_matterParse.
Qed.

End ReturnOps.

(** ** CVSS vectors at [createFinding] *)

Section InvalidVector.

Variable E : Env.
Variables (randomId projectName vector : string) (input : FindingInput).
Variable reason : Error.
Hypothesis Hvector : fi_cvssString input = Some vector.
Hypothesis Hnonempty : vector <> "".
Hypothesis Hrejected : calculateCVSSScore E vector = inl reason.

Let invalid : Error := PlainError ("Invalid CVSS string: " ++ message reason).

(** the call, unfolded up to the scoring step *)
Lemma createFinding_rejected s :
  createFinding E randomId projectName input s
  = match getProject E projectName s with
    | (Ok _, s1) =>
        match checkProjectNotCompleted E projectName "create finding" s1 with
        | (Ok _, s2) => (Err invalid, s2)
        | (Err e, s2) => (Err e, s2)
        | (Hang, s2) => (Hang, s2)
        end
    | (Err e, s1) => (Err e, s1)
    | (Hang, s1) => (Hang, s1)
    end.
Proof.
  unfold createFinding. unfold bind at 1.
  destruct (getProject E projectName s) as [[md|e|] s1]; try reflexivity.
  unfold bind at 1.
  destruct (checkProjectNotCompleted E projectName "create finding" s1)
    as [[u|e|] s2]; try reflexivity.
  unfold bind at 1. unfold get. unfold bind at 1.
  rewrite Hvector.
  destruct vector as [|c v]; [contradiction|]. cbn [Js.truthyOpt Js.truthy].
  unfold tryCatch, bind at 1. rewrite Hrejected. reflexivity.
Qed.

Lemma createFinding_rejected_fails s :
  exists e, fst (createFinding E randomId projectName input s) = Err e.
Proof.
  rewrite createFinding_rejected.
  pose proof (returns_getProject E projectName s) as Hg.
  destruct (getProject E projectName s) as [[md|e|] s1]; simpl in *.
  - pose proof (returns_checkProjectNotCompleted
                  E projectName "create finding" s1) as Hc.
    destruct (checkProjectNotCompleted E projectName "create finding" s1)
      as [[u|e|] s2]; simpl in *; eauto. now contradiction Hc.
  - eauto.
  - now contradiction Hg.
Qed.

Lemma createFinding_rejected_readOnly s :
  readOnly s (snd (createFinding E randomId projectName input s)).
Proof.
  rewrite createFinding_rejected.
  pose proof (getProject_frame E (R := readOnly) projectName s) as Hg.
  destruct (getProject E projectName s) as [[md|e|] s1]; simpl in *;
    try exact Hg.
  pose proof (checkProjectNotCompleted_frame
                E (R := readOnly) projectName "create finding" s1) as Hc.
  destruct (checkProjectNotCompleted E projectName "create finding" s1)
    as [[u|e|] s2]; simpl in *; eapply frame_trans; eassumption.
Qed.

Lemma createFinding_rejected_error s md s1 :
  getProject E projectName s = (Ok md, s1) ->
  p_status md = InProgress ->
  fst (createFinding E randomId projectName input s) = Err invalid.
Proof.
  intros Hg Hstatus. rewrite createFinding_rejected, Hg.
  destruct (getProject_ok_cached E _ _ _ _ Hg) as (_ & idx & Hc & Hget).
  unfold checkProjectNotCompleted.
  rewrite (bind_ok _ _ _ _ _ (getProject_cached E _ _ _ _ Hc Hget)).
  now rewrite Hstatus.
Qed.

End InvalidVector.


(** ** Calls that write *)

Lemma diskStep_agree W fs fs' :
  diskStep W fs fs' -> forall q, W q = false -> fsGet q fs' = fsGet q fs.
Proof.
  induction 1 as [p n fs Hp|p n fs Hp|p fs Hp|p fs Hp|fs|a b c _ IH1 _ IH2];
    intros q Hq.
  - apply fsGet_fsPut_other. intros ->. congruence.
  - rewrite fsGet_app. destruct (fsGet q fs) as [m|] eqn:Hget; [reflexivity|].
    simpl. destruct (path_eqb p q) eqn:Hpq; [|reflexivity].
    apply path_eqb_eq in Hpq. subst. congruence.
  - rewrite fsGet_fsRemove. destruct (path_eqb p q) eqn:Hpq; [|reflexivity].
    apply path_eqb_eq in Hpq. subst. congruence.
  - rewrite fsGet_fsRemoveTree. destruct (under p q) eqn:Hpq; [|reflexivity].
    rewrite (Hp q Hpq) in Hq. discriminate.
  - reflexivity.
  - rewrite (IH2 q Hq). now apply IH1.
Qed.

#[export] Instance agree_Frame W : Frame (agree W) W.
Proof.
  split; [split; [split|]|..]; unfold agree; simpl; try (intros; reflexivity).
  - intros a b c Hab Hbc q Hq. rewrite (Hbc q Hq). now apply Hab.
  - intros s fs' Hstep q Hq. now apply (diskStep_agree W).
Qed.

Section WriteOps.

Variable E : Env.
Context {R : State -> State -> Prop} {W : path -> bool} `{!Frame R W}.

Lemma ensureDirectoryExists_frame p :
  (forall k, (0 < k <= length p)%nat -> W (firstn k p) = true) ->
  preserves R (ensureDirectoryExists E p).
Proof.
  intros Hp. unfold ensureDirectoryExists. frame.
  use (fs_mkdir_frame E p Hp).
Qed.

Lemma writeProjectIndex_frame index :
  W projectIndexTmp = true -> W projectIndexPath = true ->
  preserves R (writeProjectIndex E index).
Proof.
  intros Htmp Hidx. unfold writeProjectIndex. frame.
  - use (fs_writeFile_frame E _ _ Htmp).
  - use (fs_rename_frame E _ _ Htmp Hidx).
  - apply frame_indexCache.
  - use (fs_unlink_frame E _ Htmp).
Qed.

Lemma lockTimeout_frame A lockKey e : preserves R (@lockTimeout A lockKey e).
Proof. unfold lockTimeout. frame. Qed.

Lemma withLock_frame A lockKey (operation : M A) :
  (forall q, under [".mcp-lock-" ++ lockKey ++ ".lock"] q = true -> W q = true) ->
  preserves R operation ->
  preserves R (withLock E lockKey operation).
Proof.
  intros Hw Hop s. unfold withLock.
  pose proof (lockfileLock_frame E _ 10000 Hw s) as Hl.
  destruct (lockfileLock E _ 10000 s) as [[u|e|] s1]; cbn [snd] in Hl |- *.
  - eapply frame_trans; [exact Hl|].
    refine (preserves_finally _ _ _ _ _ s1).
    + frame; [exact Hop|use lockTimeout_frame].
    + frame. use (lockfileRelease_frame _ Hw).
  - eapply frame_trans; [exact Hl|]. use lockTimeout_frame.
  - exact Hl.
Qed.

Lemma updateProject_frame projectName updates :
  (forall q, updateFootprint (getProjectPath projectName) q = true ->
             W q = true) ->
  preserves R (updateProject E projectName updates).
Proof.
  intros Hw.
  assert (Hlock : forall q, under [projectIndexLock] q = true -> W q = true).
  { intros q Hq. apply Hw. unfold updateFootprint. now rewrite Hq. }
  assert (Htmp : W (getProjectPath projectName ++ ["project.json.tmp"]) = true).
  { apply Hw. unfold updateFootprint. rewrite path_eqb_refl.
    now rewrite !orb_true_r. }
  assert (Hfile : W (getProjectPath projectName ++ ["project.json"]) = true).
  { apply Hw. unfold updateFootprint. rewrite path_eqb_refl.
    now rewrite !orb_true_r. }
  assert (Hit : W projectIndexTmp = true).
  { apply Hw. unfold updateFootprint. rewrite path_eqb_refl.
    now rewrite !orb_true_r. }
  assert (Hip : W projectIndexPath = true).
  { apply Hw. unfold updateFootprint. rewrite path_eqb_refl.
    now rewrite !orb_true_r. }
  unfold updateProject. apply withLock_frame; [exact Hlock|].
  frame.
  - use (getProject_frame E).
  - use (fs_writeFile_frame E _ _ Htmp).
  - use (fs_rename_frame E _ _ Htmp Hfile).
  - use (readProjectIndex_frame E).
  - apply frame_indexCache.
  - use (writeProjectIndex_frame _ Hit Hip).
  - use (fs_unlink_frame E _ Htmp).
Qed.

Lemma invalidateFindings_frame projectName :
  preserves R (invalidateFindings projectName).
Proof. intros s. apply frame_findingsDelete. Qed.

Lemma invalidateAuditTrails_frame projectName :
  preserves R (invalidateAuditTrails projectName).
Proof. intros s. apply frame_auditDelete. Qed.

End WriteOps.

(** ** Successful calls, read backwards *)

Section Inversion.

Context {A B : Type}.

Lemma bind_ok_inv (m : M A) (k : A -> M B) s b s' :
  bind m k s = (Ok b, s') ->
  exists a s1, m s = (Ok a, s1) /\ k a s1 = (Ok b, s').
Proof.
  unfold bind. destruct (m s) as [[a|e|] s1]; try discriminate. eauto.
Qed.

Lemma tryCatch_throws_ok_inv (m : M A) h s a s' :
  (forall e s1, fst (h e s1) <> Ok a) ->
  tryCatch m h s = (Ok a, s') -> m s = (Ok a, s').
Proof.
  intros Hh. unfold tryCatch.
  destruct (m s) as [[a'|e|] s1]; try discriminate; [auto|].
  intros H. exfalso. apply (Hh e s1). now rewrite H.
Qed.

End Inversion.

Section WriteInversion.

Variable E : Env.

Lemma fs_writeFile_ok_inv p c s s' :
  fs_writeFile E p c s = (Ok tt, s') ->
  s' = setDisk (fsPut p (File c (clock s)) (disk s)) s.
Proof.
  unfold fs_writeFile, bind, oracle, get, modify, sysError, throw, ret.
  destruct (ioFails E OpWriteFile p); [discriminate|].
  destruct p as [|x p]; [discriminate|].
  destruct (nodeAt (parent (x :: p)) (disk s)) as [[t|c' t]|];
    try discriminate.
  destruct (fsGet (x :: p) (disk s)) as [[t'|c' t']|]; try discriminate;
    intros H; now injection H as <-.
Qed.

Lemma fs_rename_ok_inv a b s s' :
  fs_rename E a b s = (Ok tt, s') ->
  exists c t,
    fsGet a (disk s) = Some (File c t) /\
    s' = setDisk (fsPut b (File c t) (fsRemove a (disk s))) s.
Proof.
  unfold fs_rename, bind, oracle, get, modify, sysError, throw, ret.
  destruct (ioFails E OpRename a); [discriminate|].
  destruct (fsGet a (disk s)) as [[t|c t]|]; try discriminate.
  destruct b as [|y b]; [discriminate|].
  destruct (nodeAt (parent (y :: b)) (disk s)) as [[t'|c' t']|];
    try discriminate.
  destruct (fsGet (y :: b) (disk s)) as [[t''|c'' t'']|]; try discriminate;
    intros H; injection H as <-; eauto.
Qed.

Lemma lockTimeout_throws A lockKey e s (a : A) :
  fst (@lockTimeout A lockKey e s) <> Ok a.
Proof.
  unfold lockTimeout.
  destruct (Js.includes (message e) "already being held"); discriminate.
Qed.

(** a call under a lock that returns: the lock was taken, the operation
    returned, the lock was released *)
Lemma withLock_ok_inv A lockKey (operation : M A) s a s' :
  withLock E lockKey operation s = (Ok a, s') ->
  exists s1 s2,
    lockfileLock E (".mcp-lock-" ++ lockKey ++ ".lock") 10000 s = (Ok tt, s1) /\
    operation s1 = (Ok a, s2) /\
    s' = snd (ignoreErrors
                (lockfileRelease (".mcp-lock-" ++ lockKey ++ ".lock")) s2).
Proof.
  unfold withLock.
  destruct (lockfileLock E _ 10000 s) as [[[]|e|] s1]; try discriminate.
  - unfold finally.
    destruct (tryCatch operation (lockTimeout lockKey) s1)
      as [[a'|e|] s2] eqn:Hop; try discriminate.
    intros H. injection H as <- <-.
    exists s1, s2. repeat split.
    eapply tryCatch_throws_ok_inv; [|exact Hop].
    intros e s3. apply lockTimeout_throws.
  - intros H. exfalso.
    apply (lockTimeout_throws A lockKey e s1 a). now rewrite H.
Qed.

Lemma release_disk name s :
  disk (snd (ignoreErrors (lockfileRelease name) s))
  = fsRemoveTree [name] (disk s)
  \/ snd (ignoreErrors (lockfileRelease name) s) = s.
Proof.
  unfold ignoreErrors, tryCatch, lockfileRelease, bind, get, modify, throw, ret.
  destruct (fsGet [name] (disk s)); simpl; auto.
Qed.

Lemma release_readOnly_but_disk name s :
  let s' := snd (ignoreErrors (lockfileRelease name) s) in
  projectIndexCache s' = projectIndexCache s /\
  agree (under [name]) s s'.
Proof.
  unfold ignoreErrors, tryCatch, lockfileRelease, bind, get, modify, throw, ret.
  destruct (fsGet [name] (disk s)); cbn [snd]; split; try reflexivity.
  - intros q Hq. cbn [disk setDisk]. now rewrite fsGet_fsRemoveTree, Hq.
  - intros q Hq. reflexivity.
Qed.

End WriteInversion.

(** ** What a successful write leaves on disk *)

Lemma mapGet_mapSet {V} key (v : V) m : mapGet key (mapSet key v m) = Some v.
Proof.
  induction m as [|[k w] m IH]; simpl.
  - now rewrite String.eqb_refl.
  - destruct (String.eqb k key) eqn:Hk; simpl; rewrite Hk; [reflexivity|exact IH].
Qed.

Section CreateFacts.

Variable E : Env.

Lemma writeProjectIndex_ok_inv index s s' :
  writeProjectIndex E index s = (Ok tt, s') ->
  projectIndexCache s' = None /\
  exists t, fsGet projectIndexPath (disk s') = Some (File (JsonIndex index) t).
Proof.
  unfold writeProjectIndex. intros H.
  apply tryCatch_throws_ok_inv in H.
  2:{ intros e s1. unfold bind.
      destruct (ignoreErrors (fs_unlink E projectIndexTmp) s1) as [[u|e'|] s2];
        discriminate. }
  apply bind_ok_inv in H as ([] & s1 & Hw & H).
  apply bind_ok_inv in H as ([] & s2 & Hr & H).
  unfold modify in H. injection H as <-.
  apply fs_writeFile_ok_inv in Hw. apply fs_rename_ok_inv in Hr.
  destruct Hr as (c & t & Hget & ->). subst s1.
  cbn [disk setDisk projectIndexCache setIndexCache] in *.
  split; [reflexivity|].
  rewrite fsGet_fsPut_same in Hget. injection Hget as <- <-.
  eexists. apply fsGet_fsPut_same.
Qed.

Lemma index_not_locked lockKey :
  under [".mcp-lock-" ++ lockKey ++ ".lock"] projectIndexPath = false.
Proof. reflexivity. Qed.

Lemma updateProject_ok_inv projectName updates s md s' :
  updateProject E projectName updates s = (Ok md, s') ->
  indexed s' projectName.
Proof.
  unfold updateProject. intros H.
  apply withLock_ok_inv in H as (s1 & s2 & _ & Hop & ->).
  apply bind_ok_inv in Hop as (md0 & s3 & _ & Hop).
  destruct (ProjectStatus_eqb (p_status md0) Completed); [discriminate|].
  unfold bind at 1 in Hop. unfold get in Hop.
  apply tryCatch_throws_ok_inv in Hop.
  2:{ intros e s4. unfold bind.
      destruct (ignoreErrors (fs_unlink E _) s4) as [[u|e'|] s5];
        discriminate. }
  apply bind_ok_inv in Hop as ([] & s4 & _ & Hop).
  apply bind_ok_inv in Hop as ([] & s5 & _ & Hop).
  apply bind_ok_inv in Hop as (idx & s6 & _ & Hop).
  apply bind_ok_inv in Hop as ([] & s7 & _ & Hop).
  apply bind_ok_inv in Hop as ([] & s8 & Hw & Hop).
  unfold ret in Hop. injection Hop as <- <-.
  apply writeProjectIndex_ok_inv in Hw as (Hcache & t & Hfile).
  destruct (release_readOnly_but_disk
              (".mcp-lock-" ++ "project-index" ++ ".lock") s8) as (Hc' & Hd').
  split; [now rewrite Hc'|].
  eexists. exists t. eexists. split.
  - rewrite (Hd' projectIndexPath (index_not_locked "project-index")).
    exact Hfile.
  - cbn [projects]. apply mapGet_mapSet.
Qed.

(** the finding file lies outside of what [updateProject] touches *)
Lemma finding_outside_update projectName file :
  updateFootprint (getProjectPath projectName)
                  (getProjectPath projectName ++ ["findings"; file]) = false.
Proof.
  unfold updateFootprint, getProjectPath, projectIndexLock.
  destruct (String.eqb (sanitizeProjectName projectName) ""); cbn [app].
  - reflexivity.
  - cbn [under path_eqb projectIndexTmp projectIndexPath].
    rewrite SanitizeFacts.sanitize_not_dotfile.
    rewrite String.eqb_refl. cbn.
    now rewrite !andb_false_r.
Qed.

Lemma finding_not_locked lockKey projectName file :
  under [".mcp-lock-" ++ lockKey ++ ".lock"]
        (getProjectPath projectName ++ ["findings"; file]) = false.
Proof.
  unfold getProjectPath.
  destruct (String.eqb (sanitizeProjectName projectName) ""); cbn [app].
  - reflexivity.
  - cbn [under]. change (".mcp-lock-" ++ lockKey ++ ".lock")%string
      with (String "." ("mcp-lock-" ++ lockKey ++ ".lock")).
    now rewrite SanitizeFacts.sanitize_not_dotfile.
Qed.

(** the scoring step of [createFinding] *)
Lemma scoring_ok_inv randomId input now s finding s' :
  (if Js.truthyOpt (fi_cvssString input)
   then
     tryCatch
       (score <- liftE (calculateCVSSScore E
                          (match fi_cvssString input with
                           | Some v => v
                           | None => ""
                           end)) ;;
        ret (builtFinding randomId input now (Some score)))
       (fun error => throw (wrap "Invalid CVSS string: " error))
   else ret (builtFinding randomId input now None)) s = (Ok finding, s') ->
  finding = builtFinding randomId input now (derivedScore E input) /\ s' = s.
Proof.
  unfold derivedScore.
  destruct (fi_cvssString input) as [v|]; cbn [Js.truthyOpt].
  - destruct (Js.truthy v).
    + unfold tryCatch, bind, liftE.
      destruct (calculateCVSSScore E v) as [e|score]; [discriminate|].
      unfold ret. intros H. now injection H as <- <-.
    + unfold ret. intros H. now injection H as <- <-.
  - unfold ret. intros H. now injection H as <- <-.
Qed.

(** A call of [createFinding] that returns has written the finding it
    returns, with the derived score, and has left the project in the index
    file. *)
Lemma createFinding_ok_inv randomId projectName input s finding s' :
  createFinding E randomId projectName input s = (Ok finding, s') ->
  finding = builtFinding randomId input (clock s) (derivedScore E input) /\
  (exists t, fsGet (findingPath projectName (f_id finding)) (disk s')
             = Some (File (findingContent finding) t)) /\
  indexed s' projectName.
Proof.
  unfold createFinding. intros H.
  apply bind_ok_inv in H as (md & s1 & Hg & H).
  apply bind_ok_inv in H as ([] & s2 & Hc & H).
  unfold bind at 1 in H. unfold get in H.
  apply bind_ok_inv in H as (f & s3 & Hscore & H).
  assert (Hclock : clock s2 = clock s).
  { pose proof (getProject_frame E (R := readOnly) projectName s) as R1.
    pose proof (checkProjectNotCompleted_frame
                  E (R := readOnly) projectName "create finding" s1) as R2.
    rewrite Hg in R1. rewrite Hc in R2.
    destruct R1 as (_ & _ & _ & _ & C1), R2 as (_ & _ & _ & _ & C2).
    cbn [snd] in *. congruence. }
  apply (scoring_ok_inv randomId input (clock s2)) in Hscore as [-> ->].
  rewrite Hclock in *.
  set (built := builtFinding randomId input (clock s) (derivedScore E input))
    in *.
  apply withLock_ok_inv in H as (s4 & s5 & Hlock & Hop & ->).
  apply bind_ok_inv in Hop as ([] & s6 & _ & Hop).
  apply tryCatch_throws_ok_inv in Hop.
  2:{ intros e s7. unfold bind.
      destruct (ignoreErrors (fs_unlink E _) s7) as [[u|e'|] s8];
        discriminate. }
  apply bind_ok_inv in Hop as ([] & s7 & Hw & Hop).
  apply bind_ok_inv in Hop as ([] & s8 & Hr & Hop).
  apply bind_ok_inv in Hop as (md' & s9 & Hu & Hop).
  apply bind_ok_inv in Hop as ([] & s10 & Hi & Hop).
  unfold ret in Hop. injection Hop as <- <-.
  split; [reflexivity|].
  (* the file after the rename *)
  apply fs_writeFile_ok_inv in Hw. apply fs_rename_ok_inv in Hr.
  destruct Hr as (c & t & Hget & Hs8). subst s7.
  cbn [disk setDisk] in Hget. rewrite fsGet_fsPut_same in Hget.
  injection Hget as <- <-.
  assert (Hfile8 : fsGet (findingPath projectName (f_id built)) (disk s8)
                   = Some (File (findingContent built) (clock s6))).
  { subst s8. cbn [disk setDisk]. apply fsGet_fsPut_same. }
  (* through [updateProject] *)
  pose proof (updateProject_frame
                E (R := agree (updateFootprint (getProjectPath projectName)))
                projectName noUpdates (fun q H => H) s8) as Hframe.
  rewrite Hu in Hframe. cbn [snd] in Hframe.
  specialize (Hframe (findingPath projectName (f_id built))
                     (finding_outside_update projectName _)).
  pose proof (updateProject_ok_inv _ _ _ _ _ Hu) as (Hcache9 & Hidx9).
  (* through the invalidation *)
  unfold invalidateFindings, bind, get, modify in Hi. injection Hi as <-.
  (* through the release of the lock *)
  match goal with
  | |- context [lockfileRelease ?n] =>
      destruct (release_readOnly_but_disk n
                  (setFindingsCache
                     (snd (LRU.delete (projectName ++ "-findings")
                                      (findingsCache s9))) s9))
        as (Hc' & Hd')
  end.
  cbn [disk setFindingsCache projectIndexCache] in Hc', Hd'.
  split.
  - exists (clock s6).
    rewrite (Hd' (findingPath projectName (f_id built))
                 (finding_not_locked _ projectName _)).
    cbn [disk setFindingsCache]. rewrite Hframe. exact Hfile8.
  - split; [now rewrite Hc'|].
    destruct Hidx9 as (idx & t & md9 & Hf9 & Hg9).
    exists idx, t, md9. split; [|exact Hg9].
    rewrite (Hd' _ (index_not_locked _)). exact Hf9.
Qed.

End CreateFacts.

(** C8, as stated, fails: the evaluator rejects the empty vector, yet
    [createFinding] with [cvssString = ""] does not throw; it writes the
    finding, without a score. *)
Lemma createFinding_empty_vector :
  (exists reason, calculateCVSSScore Sample.env "" = inl reason) /\
  exists finding s',
    createFinding Sample.env "0a1b2c3d" "p" (Sample.sqli (Some ""))
                  Sample.oneProject = (Ok finding, s') /\
    f_cvssScore finding = None /\
    fsGet (findingPath "p" (f_id finding)) (disk s') <> None.
Proof.
  split; [eexists; reflexivity|].
  eexists. eexists. split; [vm_compute; reflexivity|].
  split; [reflexivity|]. vm_compute. discriminate.
Qed.

(** C8, amended. Take a call of [createFinding] whose input carries a
    non-empty [cvssString] (the empty string counts as no vector). If the
    evaluator rejects the vector, the call fails and changes nothing on
    disk, in the listing caches or in the clock: no finding file, no
    temporary file, no bumped project; on a project that exists and is in
    progress the error is the invalid-CVSS error. If the evaluator accepts
    the vector with some score, a call that returns gives the finding that
    score, and the metadata block of the finding's file carries it, whatever
    score the caller passed along. *)
Theorem createFinding_cvss
        (E : Env) (randomId projectName vector : string)
        (input : FindingInput) (s : State) :
  fi_cvssString input = Some vector ->
  vector <> "" ->
  let outcome := createFinding E randomId projectName input s in
  match calculateCVSSScore E vector with
  | inl reason =>
      (exists e, fst outcome = Err e) /\
      readOnly s (snd outcome) /\
      (forall md s1,
          getProject E projectName s = (Ok md, s1) ->
          p_status md = InProgress ->
          fst outcome
          = Err (PlainError ("Invalid CVSS string: " ++ message reason)))
  | inr score =>
      forall finding,
        fst outcome = Ok finding ->
        f_cvssScore finding = Some score /\
        exists data body t,
          fsGet (findingPath projectName (f_id finding)) (disk (snd outcome))
          = Some (File (Markdown (FindingData data) body) t) /\
          fm_cvssScore data = Some score
  end.
Proof.
  intros Hvector Hnonempty outcome.
  destruct (calculateCVSSScore E vector) as [reason|score] eqn:Hcalc.
  - split; [|split].
    + exact (createFinding_rejected_fails
               E randomId projectName vector input reason
               Hvector Hnonempty Hcalc s).
    + exact (createFinding_rejected_readOnly
               E randomId projectName vector input reason
               Hvector Hnonempty Hcalc s).
    + exact (createFinding_rejected_error
               E randomId projectName vector input reason
               Hvector Hnonempty Hcalc s).
  - intros finding Hok. subst outcome.
    destruct (createFinding E randomId projectName input s) as [r s'] eqn:Hrun.
    cbn [fst snd] in *. subst r.
    destruct (createFinding_ok_inv E _ _ _ _ _ _ Hrun) as (Hbuilt & [t Hfile] & _).
    assert (Hscore : f_cvssScore finding = Some score).
    { rewrite Hbuilt. unfold builtFinding, derivedScore. cbn [f_cvssScore].
      rewrite Hvector, Hcalc.
      destruct vector; [contradiction|reflexivity]. }
    split; [exact Hscore|].
    eexists. eexists. exists t. split; [exact Hfile|].
    cbn [fm_cvssScore]. exact Hscore.
Qed.

Lemma createFinding_cvss_witness :
  let outcome :=
    createFinding Sample.env "0a1b2c3d" "p"
                  (Sample.sqli (Some "INVALID:CVSS:STRING"))
                  Sample.oneProject in
  (exists e, fst outcome = Err e) /\
  readOnly Sample.oneProject (snd outcome) /\
  (forall md s1,
      getProject Sample.env "p" Sample.oneProject = (Ok md, s1) ->
      p_status md = InProgress ->
      fst outcome
      = Err (PlainError
               ("Invalid CVSS string: "
                ++ message (CVSSError "Invalid CVSS vector format")))).
Proof.
  exact (createFinding_cvss
           Sample.env "0a1b2c3d" "p" "INVALID:CVSS:STRING"
           (Sample.sqli (Some "INVALID:CVSS:STRING")) Sample.oneProject
           eq_refl ltac:(discriminate)).
Defined.

(** ** Completed projects *)

Module PhraseFacts.
Import Js.

Lemma startsWith_app_split x b rest p :
  startsWith (x ++ String b rest) p = true ->
  startsWith x p = true \/ strMem b p = true.
Proof.
  revert x. induction p as [|a p IH]; intros x H.
  - left. apply JsFacts.startsWith_empty.
  - destruct x as [|c x]; cbn [append startsWith] in H |- *.
    + apply andb_true_iff in H as [H _]. right. cbn [strMem].
      rewrite Ascii.eqb_sym, H. reflexivity.
    + apply andb_true_iff in H as [H1 H2].
      destruct (IH _ H2) as [H|H].
      * left. now rewrite H1, H.
      * right. cbn [strMem]. rewrite H. apply orb_true_r.
Qed.

(** a phrase does not straddle a boundary whose first character it lacks *)
Lemma includes_app_boundary x b rest p :
  strMem b p = false ->
  includes x p = false ->
  includes (x ++ String b rest) p = includes (String b rest) p.
Proof.
  intros Hb. induction x as [|c x IH]; intros Hx; [reflexivity|].
  cbn [includes] in Hx. apply orb_false_iff in Hx as [Hs Hi].
  change (String c x ++ String b rest) with (String c (x ++ String b rest)).
  cbn [includes]. rewrite (IH Hi).
  destruct (startsWith (String c (x ++ String b rest)) p) eqn:Hsw;
    [|reflexivity].
  destruct (startsWith_app_split (String c x) b rest p Hsw); congruence.
Qed.

Lemma startsWith_strAll Q s p :
  strAll Q s = true -> startsWith s p = true -> strAll Q p = true.
Proof.
  revert s. induction p as [|a p IH]; intros s Hs Hp; [reflexivity|].
  destruct s as [|c s]; [discriminate|].
  cbn [startsWith strAll] in *.
  apply andb_true_iff in Hs as [Hc Hs], Hp as [Hac Hp].
  apply Ascii.eqb_eq in Hac. subst a.
  now rewrite Hc, (IH s Hs Hp).
Qed.

Lemma includes_strAll Q s p :
  strAll Q s = true -> includes s p = true -> strAll Q p = true.
Proof.
  induction s as [|c s IH]; intros Hs Hp.
  - cbn [includes] in Hp. rewrite orb_false_r in Hp.
    now apply (startsWith_strAll Q "").
  - cbn [includes] in Hp. apply orb_true_iff in Hp as [Hp|Hp].
    + now apply (startsWith_strAll Q (String c s)).
    + cbn [strAll] in Hs. apply andb_true_iff in Hs as [_ Hs]. now apply IH.
Qed.

Lemma completed_message_clean projectName operation :
  In operation ["update"; "delete"; "update finding"; "delete finding"] ->
  includes projectName held = false ->
  includes (message (ProjectCompletedError projectName operation)) held = false.
Proof.
  intros Hop Hname.
  assert (Htail :
            includes (projectName ++ dquote ++ ". "
                      ++ "Completed projects are immutable for audit integrity.")
                     held = false).
  { change (projectName ++ dquote ++ ". "
            ++ "Completed projects are immutable for audit integrity.")%string
      with (projectName
            ++ String (ascii_of_nat 34)
                 (". "
                  ++ "Completed projects are immutable for audit integrity."))%string.
    rewrite (includes_app_boundary projectName (ascii_of_nat 34) _ held
               eq_refl Hname).
    reflexivity. }
  cbn [message].
  destruct Hop as [<-|[<-|[<-|[<-|[]]]]]; cbn; exact Htail.
Qed.

Lemma sanitized_no_phrase name :
  includes (sanitizeProjectName name) held = false.
Proof.
  destruct (includes (sanitizeProjectName name) held) eqn:H; [|reflexivity].
  pose proof (includes_strAll cleanChar _ _
                (SanitizeFacts.sanitize_clean name) H) as Hall.
  discriminate.
Qed.

End PhraseFacts.

Section Guard.

Variable E : Env.
Hypothesis Hio : reliable E.

Lemma lockfileLock_free lockKey s :
  lockFree lockKey s ->
  lockfileLock E (".mcp-lock-" ++ lockKey ++ ".lock") 10000 s
  = (Ok tt, locked lockKey s).
Proof.
  intros [Hslash Hfree]. unfold lockfileLock. rewrite Hslash.
  rewrite (bind_ok _ _ _ _ _ (oracle_reliable E _ _ s Hio)).
  unfold bind, get. now rewrite Hfree.
Qed.

(** under a free lock the operation runs in the locked state, and the lock
    is released whatever comes of it *)
Lemma withLock_free A lockKey (operation : M A) s :
  lockFree lockKey s ->
  withLock E lockKey operation s
  = finally (tryCatch operation (lockTimeout lockKey))
            (ignoreErrors
               (lockfileRelease (".mcp-lock-" ++ lockKey ++ ".lock")))
            (locked lockKey s).
Proof.
  intros Hfree. unfold withLock. now rewrite (lockfileLock_free _ _ Hfree).
Qed.

Lemma withLock_free_throws A lockKey (operation : M A) s e s1 :
  lockFree lockKey s ->
  operation (locked lockKey s) = (Err e, s1) ->
  Js.includes (message e) "already being held" = false ->
  fst (withLock E lockKey operation s) = Err e.
Proof.
  intros Hfree Hop Hmsg. rewrite (withLock_free _ _ _ _ Hfree).
  unfold finally, tryCatch. rewrite Hop. unfold lockTimeout. rewrite Hmsg.
  reflexivity.
Qed.

Lemma indexOf_locked lockKey s : indexOf (locked lockKey s) = indexOf s.
Proof.
  unfold indexOf, locked. cbn [projectIndexCache disk setDisk].
  destruct (projectIndexCache s); [reflexivity|].
  rewrite fsGet_app.
  destruct (fsGet projectIndexPath (disk s)); reflexivity.
Qed.

Lemma recorded_locked lockKey s projectName md :
  recorded s projectName md -> recorded (locked lockKey s) projectName md.
Proof.
  intros (idx & Hidx & Hget). exists idx. now rewrite indexOf_locked.
Qed.

Lemma recorded_sanitized s projectName md :
  recorded s projectName md ->
  recorded s (sanitizeProjectName projectName) md.
Proof.
  intros (idx & Hidx & Hget). exists idx.
  now rewrite SanitizeFacts.sanitize_idempotent.
Qed.

Lemma getProject_ok s projectName md :
  recorded s projectName md -> fst (getProject E projectName s) = Ok md.
Proof.
  intros Hrec.
  destruct (getProject_recorded E (Hio _ _) s projectName md Hrec)
    as (idx & _ & ->).
  reflexivity.
Qed.

Lemma guard_throws s projectName operation md :
  recorded s projectName md ->
  p_status md = Completed ->
  exists s',
    checkProjectNotCompleted E projectName operation s
    = (Err (ProjectCompletedError projectName operation), s') /\
    readOnly s s'.
Proof.
  intros Hrec Hdone.
  destruct (getProject_recorded E (Hio _ _) s projectName md Hrec)
    as (idx & _ & Hg).
  exists (setIndexCache (Some idx) s). split.
  - unfold checkProjectNotCompleted. rewrite (bind_ok _ _ _ _ _ Hg).
    now rewrite Hdone.
  - apply frame_indexCache.
Qed.

Lemma recorded_readOnly s s' projectName md :
  readOnly s s' ->
  (exists idx, indexOf s = Some idx /\ projectIndexCache s' = Some idx) ->
  recorded s projectName md -> recorded s' projectName md.
Proof.
  intros _ (idx & Hidx & Hc) (idx' & Hidx' & Hget).
  exists idx. split; [now apply indexOf_cached|]. congruence.
Qed.

Lemma getFinding_readable s projectName findingId md data body t :
  recorded s projectName md ->
  fsGet (findingPath projectName findingId) (disk s)
  = Some (File (Markdown (FindingData data) body) t) ->
  yamlLength E (FindingData data) <= getYamlSizeLimit E ->
  exists idx,
    indexOf s = Some idx /\
    getFinding E projectName findingId s
    = (Ok (parsedFinding data body), setIndexCache (Some idx) s).
Proof.
  intros Hrec Hfile Hsize.
  destruct (getProject_recorded E (Hio _ _) s projectName md Hrec)
    as (idx & Hidx & Hg).
  exists idx. split; [exact Hidx|].
  unfold getFinding. rewrite (bind_ok _ _ _ _ _ Hg).
  unfold tryCatch, bind at 1. unfold fs_readFile.
  rewrite (bind_ok _ _ _ _ _ (oracle_reliable E _ _ _ Hio)).
  unfold bind at 1. unfold get.
  assert (Hnode : nodeAt (findingPath projectName findingId)
                         (disk (setIndexCache (Some idx) s))
                  = Some (File (Markdown (FindingData data) body) t)).
  { cbn [disk setIndexCache]. unfold findingPath in *.
    destruct (getProjectPath projectName); exact Hfile. }
  rewrite Hnode. unfold ret. unfold bind at 1. unfold matterParse.
  destruct (Z.ltb_spec (getYamlSizeLimit E) (yamlLength E (FindingData data)))
    as [Hlt|_]; [lia|].
  reflexivity.
Qed.

End Guard.

(** ** Listings return *)

Lemma allSettled_ok {A B} (f : A -> M B) xs s :
  (forall x, returns (f x)) ->
  exists l s', allSettled f xs s = (Ok l, s').
Proof.
  intros Hf. revert s. induction xs as [|x xs IH]; intros s.
  - now exists [], s.
  - cbn [allSettled]. specialize (Hf x s).
    destruct (f x s) as [[b|e|] s1]; cbn [fst] in Hf.
    + destruct (IH s1) as (l & s' & ->). now exists (b :: l), s'.
    + apply IH.
    + now contradiction Hf.
Qed.

Section ListFacts.

Variable E : Env.
Hypothesis Hio : reliable E.

Lemma getDirectoryLastModified_ok dirPath s :
  exists lastModified, getDirectoryLastModified E dirPath s = (Ok lastModified, s).
Proof.
  pose proof (getDirectoryLastModified_frame E (R := eq) dirPath s) as Hs.
  pose proof (returns_getDirectoryLastModified E dirPath s) as Hr.
  assert (Hne : forall e, fst (getDirectoryLastModified E dirPath s) <> Err e).
  { intros e. unfold getDirectoryLastModified, tryCatch.
    destruct (bind (fs_readdir E dirPath) _ s) as [[z|e'|] s1]; discriminate. }
  destruct (getDirectoryLastModified E dirPath s) as [[z|e|] s1];
    cbn [fst snd] in *.
  - exists z. now subst.
  - now contradiction (Hne e).
  - now contradiction Hr.
Qed.

Lemma statBatch_ok dir batch s :
  exists stats, statBatch E dir batch s = (Ok stats, s).
Proof.
  pose proof (statBatch_frame E (R := eq) dir batch s) as Hs.
  destruct (allSettled_ok
              (fun file => mtime <- fs_stat E (dir ++ [file]) ;; ret (file, mtime))
              batch s) as (l & s' & Hrun).
  { intros x. apply returns_bind; [apply returns_fs_stat|].
    intros a. apply returns_ret. }
  unfold statBatch in *. rewrite Hrun in *. cbn [snd] in Hs. subst s'.
  now exists l.
Qed.

(** with a positive batch size the scan ends before its fuel does *)
Lemma scanFindings_ok fuel dir mdFiles batchSize targetCount memoryLimit i acc s :
  1 <= batchSize ->
  Z.of_nat (length mdFiles) - i <= Z.of_nat fuel ->
  exists files,
    scanFindings E fuel dir mdFiles batchSize targetCount memoryLimit i acc s
    = (Ok files, s).
Proof.
  intros Hbatch. revert i acc.
  induction fuel as [|fuel IH]; intros i acc Hfuel.
  - cbn [scanFindings].
    destruct (Z.leb_spec (Z.of_nat (length mdFiles)) i); [|lia].
    now exists acc.
  - cbn [scanFindings].
    destruct (Z.leb_spec (Z.of_nat (length mdFiles)) i); [now exists acc|].
    destruct (statBatch_ok dir (slice mdFiles i (i + batchSize)) s)
      as (stats & Hstat).
    rewrite (bind_ok _ _ _ _ _ Hstat).
    match goal with
    | |- context [if ?c then ret ?x else _] => destruct c; [now exists x|]
    end.
    apply IH. lia.
Qed.

Lemma scanAuditTrails_ok fuel dir mdFiles batchSize targetCount i acc s :
  1 <= batchSize ->
  Z.of_nat (length mdFiles) - i <= Z.of_nat fuel ->
  exists files,
    scanAuditTrails E fuel dir mdFiles batchSize targetCount i acc s
    = (Ok files, s).
Proof.
  intros Hbatch. revert i acc.
  induction fuel as [|fuel IH]; intros i acc Hfuel.
  - cbn [scanAuditTrails].
    destruct (Z.leb_spec (Z.of_nat (length mdFiles)) i); [|lia].
    now exists acc.
  - cbn [scanAuditTrails].
    destruct (Z.leb_spec (Z.of_nat (length mdFiles)) i); [now exists acc|].
    destruct (statBatch_ok dir (slice mdFiles i (i + batchSize)) s)
      as (stats & Hstat).
    rewrite (bind_ok _ _ _ _ _ Hstat).
    match goal with
    | |- context [if ?c then ret ?x else _] => destruct c; [now exists x|]
    end.
    apply IH. lia.
Qed.

Lemma fs_readdir_cases dir s :
  notAFile dir s ->
  (exists entries, fs_readdir E dir s = (Ok entries, s)) \/
  (exists what, fs_readdir E dir s = (Err (SystemError ENOENT what), s)).
Proof.
  intros Hdir. unfold fs_readdir.
  rewrite (bind_ok _ _ _ _ _ (oracle_reliable E _ _ s Hio)).
  unfold bind, get.
  destruct (nodeAt dir (disk s)) as [[t|c t]|] eqn:Hn.
  - left. unfold ret. eauto.
  - now contradiction (Hdir c t).
  - right. unfold sysError, throw. eauto.
Qed.

Lemma listFindings_ok s projectName md limit offset :
  recorded s projectName md ->
  1 <= limit ->
  notAFile (getProjectPath projectName ++ ["findings"]) s ->
  exists page s', listFindings E projectName limit offset s = (Ok page, s').
Proof.
  intros Hrec Hlimit Hdir.
  destruct (getProject_recorded E (Hio _ _) s projectName md Hrec)
    as (idx & _ & Hg).
  unfold listFindings. rewrite (bind_ok _ _ _ _ _ Hg).
  set (s1 := setIndexCache (Some idx) s).
  unfold tryCatch at 1.
  destruct (getDirectoryLastModified_ok
              (getProjectPath projectName ++ ["findings"]) s1) as (lm & Hlm).
  rewrite (bind_ok _ _ _ _ _ Hlm).
  unfold bind at 1. unfold get. unfold bind at 1. unfold modify.
  match goal with
  | |- context [match ?c with Some page => ret page | None => _ end] =>
      destruct c as [page|]
  end.
  { unfold ret. eauto. }
  match goal with
  | |- context [bind (fs_readdir E ?d) ?k ?st] =>
      destruct (fs_readdir_cases d st) as [(entries & Hrd)|(what & Hrd)];
        [exact Hdir|rewrite (bind_ok _ _ _ _ _ Hrd)
                   |rewrite (bind_err _ _ _ _ _ Hrd)]
  end.
  - match goal with
    | |- context [bind (scanFindings E ?fuel ?d ?files ?b ?tc ?ml 0 []) ?k ?st] =>
        destruct (scanFindings_ok fuel d files b tc ml 0 [] st)
          as (scanned & Hscan); [|lia|rewrite (bind_ok _ _ _ _ _ Hscan)]
    end.
    { destruct (1000 <? _); lia. }
    match goal with
    | |- context [bind (allSettled ?f ?xs) ?k ?st] =>
        destruct (allSettled_ok f xs st) as (found & s2 & Hread);
          [intros x; apply returns_readListedFinding
          |rewrite (bind_ok _ _ _ _ _ Hread)]
    end.
    unfold ret. eauto.
  - cbn [isENOENT]. unfold bind, get, modify, ret. eauto.
Qed.

Lemma listAuditTrails_ok s projectName md limit offset :
  recorded s projectName md ->
  1 <= limit ->
  notAFile (getProjectPath projectName ++ ["audit-trails"]) s ->
  exists page s', listAuditTrails E projectName limit offset s = (Ok page, s').
Proof.
  intros Hrec Hlimit Hdir.
  destruct (getProject_recorded E (Hio _ _) s projectName md Hrec)
    as (idx & _ & Hg).
  unfold listAuditTrails. rewrite (bind_ok _ _ _ _ _ Hg).
  set (s1 := setIndexCache (Some idx) s).
  unfold tryCatch at 1.
  destruct (getDirectoryLastModified_ok
              (getProjectPath projectName ++ ["audit-trails"]) s1) as (lm & Hlm).
  rewrite (bind_ok _ _ _ _ _ Hlm).
  unfold bind at 1. unfold get. unfold bind at 1. unfold modify.
  match goal with
  | |- context [match ?c with Some page => ret page | None => _ end] =>
      destruct c as [page|]
  end.
  { unfold ret. eauto. }
  match goal with
  | |- context [bind (fs_readdir E ?d) ?k ?st] =>
      destruct (fs_readdir_cases d st) as [(entries & Hrd)|(what & Hrd)];
        [exact Hdir|rewrite (bind_ok _ _ _ _ _ Hrd)
                   |rewrite (bind_err _ _ _ _ _ Hrd)]
  end.
  - match goal with
    | |- context [bind (scanAuditTrails E ?fuel ?d ?files ?b ?tc 0 []) ?k ?st] =>
        destruct (scanAuditTrails_ok fuel d files b tc 0 [] st)
          as (scanned & Hscan); [lia|lia|rewrite (bind_ok _ _ _ _ _ Hscan)]
    end.
    match goal with
    | |- context [bind (allSettled ?f ?xs) ?k ?st] =>
        destruct (allSettled_ok f xs st) as (found & s2 & Hread);
          [intros x; apply returns_readListedAuditTrail
          |rewrite (bind_ok _ _ _ _ _ Hread)]
    end.
    unfold ret. eauto.
  - cbn [isENOENT]. unfold bind, get, modify, ret. eauto.
Qed.

Lemma getAuditTrail_readable s projectName auditId md data body t :
  recorded s projectName md ->
  fsGet (auditPath projectName auditId) (disk s)
  = Some (File (Markdown (AuditData data) body) t) ->
  yamlLength E (AuditData data) <= getYamlSizeLimit E ->
  exists entry s', getAuditTrail E projectName auditId s = (Ok entry, s').
Proof.
  intros Hrec Hfile Hsize.
  destruct (getProject_recorded E (Hio _ _) s projectName md Hrec)
    as (idx & Hidx & Hg).
  unfold getAuditTrail. rewrite (bind_ok _ _ _ _ _ Hg).
  unfold tryCatch, bind at 1. unfold fs_readFile.
  rewrite (bind_ok _ _ _ _ _ (oracle_reliable E _ _ _ Hio)).
  unfold bind at 1. unfold get.
  assert (Hnode : nodeAt (auditPath projectName auditId)
                         (disk (setIndexCache (Some idx) s))
                  = Some (File (Markdown (AuditData data) body) t)).
  { cbn [disk setIndexCache]. unfold auditPath in *.
    destruct (getProjectPath projectName); exact Hfile. }
  rewrite Hnode. unfold ret. unfold bind at 1. unfold matterParse.
  destruct (Z.ltb_spec (getYamlSizeLimit E) (yamlLength E (AuditData data)))
    as [Hlt|_]; [lia|].
  cbn. eauto.
Qed.

End ListFacts.

(** ** Completed projects *)

Section Completed.

Variable E : Env.
Hypothesis Hio : reliable E.

Variables (s : State) (projectName : string) (md : ProjectMetadata).
Hypothesis Hrec : recorded s projectName md.
Hypothesis Hdone : p_status md = Completed.

Lemma guard_after_getProject (operation : string) {A} (rest : M A) :
  fst ((getProject E projectName ;;;
        checkProjectNotCompleted E projectName operation ;;; rest) s)
  = Err (ProjectCompletedError projectName operation).
Proof.
  destruct (getProject_recorded E (Hio _ _) s projectName md Hrec)
    as (idx & Hidx & Hg).
  rewrite (bind_ok _ _ _ _ _ Hg).
  pose proof (recorded_setIndexCache s idx projectName md Hidx Hrec) as Hrec1.
  destruct (guard_throws E Hio _ projectName operation md Hrec1 Hdone)
    as (s' & Hguard & _).
  now rewrite (bind_err _ _ _ _ _ Hguard).
Qed.

Lemma createFinding_completed randomId input :
  fst (createFinding E randomId projectName input s)
  = Err (ProjectCompletedError projectName "create finding").
Proof. unfold createFinding. apply guard_after_getProject. Qed.

Lemma createAuditTrail_completed randomId input :
  fst (createAuditTrail E randomId projectName input s)
  = Err (ProjectCompletedError projectName "create audit trail").
Proof. unfold createAuditTrail. apply guard_after_getProject. Qed.

Lemma updateProject_completed updates :
  lockFree "project-index" s ->
  Js.includes projectName "already being held" = false ->
  fst (updateProject E projectName updates s)
  = Err (ProjectCompletedError projectName "update").
Proof.
  intros Hfree Hname.
  destruct (getProject_recorded E (Hio _ _) _ projectName md
              (recorded_locked "project-index" s projectName md Hrec))
    as (idx & Hidx & Hg).
  unfold updateProject.
  eapply withLock_free_throws; [exact Hio|exact Hfree| |].
  - rewrite (bind_ok _ _ _ _ _ Hg), Hdone. reflexivity.
  - apply PhraseFacts.completed_message_clean; [|exact Hname].
    cbn [In]. tauto.
Qed.

Lemma deleteProject_completed :
  lockFree "project-index" s ->
  fst (deleteProject E projectName s)
  = Err (ProjectCompletedError (sanitizeProjectName projectName) "delete").
Proof.
  intros Hfree.
  pose proof (recorded_sanitized s projectName md Hrec) as Hsan.
  pose proof (recorded_locked "project-index" s _ md Hsan) as Hlocked.
  destruct (getProject_recorded E (Hio _ _) _ _ md Hlocked)
    as (idx & Hidx & Hg).
  pose proof (recorded_setIndexCache _ idx _ md Hidx Hlocked) as Hrec1.
  destruct (guard_throws E Hio _ _ "delete" md Hrec1 Hdone)
    as (s' & Hguard & _).
  unfold deleteProject.
  eapply withLock_free_throws; [exact Hio|exact Hfree| |].
  - rewrite (bind_ok _ _ _ _ _ Hg), (bind_err _ _ _ _ _ Hguard). reflexivity.
  - apply PhraseFacts.completed_message_clean; [cbn [In]; tauto|].
    apply PhraseFacts.sanitized_no_phrase.
Qed.

Lemma withLock_free_fails A lockKey (operation : M A) s0 e :
  lockFree lockKey s0 ->
  fst (operation (locked lockKey s0)) = Err e ->
  Js.includes (message e) "already being held" = false ->
  fst (withLock E lockKey operation s0) = Err e.
Proof.
  intros Hfree Hop Hmsg.
  destruct (operation (locked lockKey s0)) as [r s1] eqn:Hrun.
  cbn [fst] in Hop. subst r.
  now apply (withLock_free_throws E Hio A lockKey operation s0 e s1).
Qed.

Lemma guard_after_getFinding findingId (operation : string) {A}
      (rest : Finding -> M A) :
  readableFinding E s projectName findingId ->
  lockFree ("finding-" ++ projectName ++ "-" ++ findingId) s ->
  fst ((existing <- getFinding E projectName findingId ;;
        checkProjectNotCompleted E projectName operation ;;; rest existing)
         (locked ("finding-" ++ projectName ++ "-" ++ findingId) s))
  = Err (ProjectCompletedError projectName operation).
Proof.
  intros (data & body & t & Hfile & Hsize) Hfree.
  set (lockKey := "finding-" ++ projectName ++ "-" ++ findingId) in *.
  pose proof (recorded_locked lockKey s _ md Hrec) as Hlocked.
  assert (Hfile' : fsGet (findingPath projectName findingId)
                         (disk (locked lockKey s))
                   = Some (File (Markdown (FindingData data) body) t)).
  { unfold locked. cbn [disk setDisk]. now rewrite fsGet_app, Hfile. }
  destruct (getFinding_readable E Hio _ _ _ md data body t
              Hlocked Hfile' Hsize) as (idx & Hidx & Hg).
  pose proof (recorded_setIndexCache _ idx _ md Hidx Hlocked) as Hrec1.
  destruct (guard_throws E Hio _ _ operation md Hrec1 Hdone)
    as (s' & Hguard & _).
  now rewrite (bind_ok _ _ _ _ _ Hg), (bind_err _ _ _ _ _ Hguard).
Qed.

Lemma updateFinding_completed findingId updates :
  readableFinding E s projectName findingId ->
  lockFree ("finding-" ++ projectName ++ "-" ++ findingId) s ->
  Js.includes projectName "already being held" = false ->
  fst (updateFinding E projectName findingId updates s)
  = Err (ProjectCompletedError projectName "update finding").
Proof.
  intros Hfile Hfree Hname. unfold updateFinding.
  apply withLock_free_fails; [exact Hfree| |].
  - now apply guard_after_getFinding.
  - apply PhraseFacts.completed_message_clean; [cbn [In]; tauto|exact Hname].
Qed.

Lemma deleteFinding_completed findingId :
  readableFinding E s projectName findingId ->
  lockFree ("finding-" ++ projectName ++ "-" ++ findingId) s ->
  Js.includes projectName "already being held" = false ->
  fst (deleteFinding E projectName findingId s)
  = Err (ProjectCompletedError projectName "delete finding").
Proof.
  intros Hfile Hfree Hname. unfold deleteFinding.
  apply withLock_free_fails; [exact Hfree| |].
  - now apply (guard_after_getFinding findingId "delete finding" (fun _ => _)).
  - apply PhraseFacts.completed_message_clean; [cbn [In]; tauto|exact Hname].
Qed.

(** a finding that is not there is reported before the status is looked at *)
Lemma findingNotFound_message_clean findingId :
  Js.includes findingId held = false ->
  Js.includes (message (FindingNotFoundError findingId)) held = false.
Proof.
  intros Hid. cbn [message].
  assert (Htail : Js.includes (findingId ++ Js.dquote ++ " not found.") held
                  = false).
  { change (findingId ++ Js.dquote ++ " not found.")%string
      with (findingId ++ String (ascii_of_nat 34) " not found.")%string.
    rewrite (PhraseFacts.includes_app_boundary _ (ascii_of_nat 34) _ held
               eq_refl Hid).
    reflexivity. }
  cbn. exact Htail.
Qed.

Lemma getFinding_missing findingId s0 :
  recorded s0 projectName md ->
  fsGet (findingPath projectName findingId) (disk s0) = None ->
  exists s1,
    getFinding E projectName findingId s0
    = (Err (FindingNotFoundError findingId), s1).
Proof.
  intros Hrec0 Hnone.
  destruct (getProject_recorded E (Hio _ _) s0 projectName md Hrec0)
    as (idx & _ & Hg).
  unfold getFinding. rewrite (bind_ok _ _ _ _ _ Hg).
  set (s1 := setIndexCache (Some idx) s0).
  assert (Hread : fs_readFile E (findingPath projectName findingId) s1
                  = (Err (SystemError ENOENT
                            (pathString E (findingPath projectName findingId))),
                     s1)).
  { unfold fs_readFile.
    rewrite (bind_ok _ _ _ _ _ (oracle_reliable E _ _ _ Hio)).
    unfold bind, get, nodeAt. cbv beta iota.
    change (disk s1) with (disk s0).
    destruct (findingPath projectName findingId) eqn:Hpath.
    - unfold findingPath in Hpath.
      now destruct (getProjectPath projectName).
    - now rewrite Hnone. }
  exists s1.
  now rewrite (tryCatch_err _ _ _ _ _ (bind_err _ _ _ _ _ Hread)).
Qed.

Lemma missing_under_lock findingId :
  fsGet (findingPath projectName findingId) (disk s) = None ->
  fsGet (findingPath projectName findingId)
        (disk (locked ("finding-" ++ projectName ++ "-" ++ findingId) s))
  = None.
Proof.
  intros Hnone. unfold locked. cbn [disk setDisk].
  rewrite fsGet_app, Hnone. cbn [fsGet].
  pose proof (finding_not_locked
                ("finding-" ++ projectName ++ "-" ++ findingId) projectName
                (String.append findingId ".md")) as Hout.
  fold (findingPath projectName findingId) in Hout.
  destruct (path_eqb _ (findingPath projectName findingId)) eqn:Heq;
    [|reflexivity].
  apply path_eqb_eq in Heq. rewrite <- Heq in Hout.
  cbn [under] in Hout. now rewrite String.eqb_refl in Hout.
Qed.

Lemma updateFinding_missing findingId updates :
  fsGet (findingPath projectName findingId) (disk s) = None ->
  lockFree ("finding-" ++ projectName ++ "-" ++ findingId) s ->
  Js.includes findingId "already being held" = false ->
  fst (updateFinding E projectName findingId updates s)
  = Err (FindingNotFoundError findingId).
Proof.
  intros Hnone Hfree Hid. unfold updateFinding.
  destruct (getFinding_missing findingId _
              (recorded_locked _ s _ md Hrec)
              (missing_under_lock findingId Hnone)) as (s1 & Hg).
  eapply withLock_free_throws; [exact Hio|exact Hfree| |].
  - exact (bind_err _ _ _ _ _ Hg).
  - now apply findingNotFound_message_clean.
Qed.

Lemma deleteFinding_missing findingId :
  fsGet (findingPath projectName findingId) (disk s) = None ->
  lockFree ("finding-" ++ projectName ++ "-" ++ findingId) s ->
  Js.includes findingId "already being held" = false ->
  fst (deleteFinding E projectName findingId s)
  = Err (FindingNotFoundError findingId).
Proof.
  intros Hnone Hfree Hid. unfold deleteFinding.
  destruct (getFinding_missing findingId _
              (recorded_locked _ s _ md Hrec)
              (missing_under_lock findingId Hnone)) as (s1 & Hg).
  eapply withLock_free_throws; [exact Hio|exact Hfree| |].
  - exact (bind_err _ _ _ _ _ Hg).
  - now apply findingNotFound_message_clean.
Qed.

End Completed.




(** ** Listings carry metadata only *)

Module ListingFacts.

Lemma Forall_insertDesc {A} (P : A -> Prop) key x l :
  P x -> Forall P l -> Forall P (insertDesc key x l).
Proof.
  intros Hx Hl. induction Hl as [|y ys Hy Hys IH]; cbn [insertDesc].
  - now constructor.
  - destruct (key x <? key y); repeat constructor; assumption.
Qed.

Lemma Forall_sortDesc {A} (P : A -> Prop) key l :
  Forall P l -> Forall P (sortDesc key l).
Proof.
  unfold sortDesc. induction 1 as [|x l Hx Hl IH]; cbn [fold_right].
  - constructor.
  - now apply Forall_insertDesc.
Qed.

Lemma Forall_firstn {A} (P : A -> Prop) n l :
  Forall P l -> Forall P (firstn n l).
Proof.
  intros Hl. revert n. induction Hl as [|x l Hx Hl IH]; intros [|n];
    cbn [firstn]; try constructor; auto.
Qed.

Lemma Forall_skipn {A} (P : A -> Prop) n l :
  Forall P l -> Forall P (skipn n l).
Proof.
  intros Hl. revert n. induction Hl as [|x l Hx Hl IH]; intros [|n];
    cbn [skipn]; try constructor; auto.
Qed.

Lemma Forall_slice {A} (P : A -> Prop) l start stop :
  Forall P l -> Forall P (slice l start stop).
Proof. intros Hl. unfold slice. now apply Forall_firstn, Forall_skipn. Qed.

Section Cache.

Context {T : Type} (P : T -> Prop).

Let good (l : list (string * LRU.CacheEntry T)) : Prop :=
  Forall (fun entry => P (LRU.data (snd entry))) l.

Lemma lookup_good key l e :
  good l -> LRU.lookup key l = Some e -> P (LRU.data e).
Proof.
  induction 1 as [|[k e'] l He Hl IH]; cbn [LRU.lookup]; [discriminate|].
  destruct (String.eqb k key); [|exact IH].
  intros [= <-]. exact He.
Qed.

Lemma remove_good key l : good l -> good (LRU.remove key l).
Proof.
  induction 1 as [|[k e'] l He Hl IH]; cbn [LRU.remove]; [constructor|].
  destruct (String.eqb k key); [exact Hl|now constructor].
Qed.

Lemma get_good now key c :
  good (LRU.cache c) ->
  good (LRU.cache (snd (LRU.get now key c))) /\
  forall e, fst (LRU.get now key c) = Some e -> P (LRU.data e).
Proof.
  intros Hc. unfold LRU.get.
  destruct (LRU.lookup key (LRU.cache c)) as [e|] eqn:He; cbn [fst snd].
  - pose proof (lookup_good _ _ _ Hc He) as Hp. split.
    + cbn [LRU.cache]. apply Forall_app. split; [now apply remove_good|].
      now repeat constructor.
    + now intros e' [= <-].
  - split; [exact Hc|discriminate].
Qed.

Lemma evictIfNeeded_good c :
  good (LRU.cache c) -> good (LRU.cache (LRU.evictIfNeeded c)).
Proof.
  intros Hc. unfold LRU.evictIfNeeded.
  destruct (LRU.size c <=? LRU.maxSize c); [exact Hc|].
  destruct (LRU.cache c) as [|[k e] l] eqn:Hl; [now rewrite Hl|].
  destruct (Js.truthy k); [|now rewrite Hl].
  cbn [LRU.cache]. rewrite <- Hl in Hc |- *. now apply remove_good.
Qed.

Lemma set_good now key d lastMod c :
  P d -> good (LRU.cache c) -> good (LRU.cache (LRU.set now key d lastMod c)).
Proof.
  intros Hd Hc. unfold LRU.set. apply evictIfNeeded_good. cbn [LRU.cache].
  apply Forall_app. split; [now apply remove_good|]. now repeat constructor.
Qed.

Lemma delete_good key c :
  good (LRU.cache c) -> good (LRU.cache (snd (LRU.delete key c))).
Proof.
  intros Hc. unfold LRU.delete.
  destruct (LRU.lookup key (LRU.cache c)); cbn [snd LRU.cache];
    [now apply remove_good|exact Hc].
Qed.

End Cache.

Lemma allSettled_all {A B} (P : B -> Prop) (f : A -> M B) xs :
  (forall x s b s', f x s = (Ok b, s') -> P b) ->
  forall s l s', allSettled f xs s = (Ok l, s') -> Forall P l.
Proof.
  intros Hf. induction xs as [|x xs IH]; intros s l s'; cbn [allSettled].
  - intros [= <- _]. constructor.
  - destruct (f x s) as [[b|e|] s1] eqn:Hx.
    + destruct (allSettled f xs s1) as [[l'|e|] s2] eqn:Hrest;
        try discriminate.
      intros [= <- _]. constructor; [exact (Hf _ _ _ _ Hx)|].
      exact (IH _ _ _ Hrest).
    + apply IH.
    + discriminate.
Qed.

Lemma readListedFinding_metadataOnly E dir file s finding s' :
  readListedFinding E dir file s = (Ok finding, s') -> metadataOnly finding.
Proof.
  unfold readListedFinding. intros H.
  apply bind_ok_inv in H as (content & s1 & _ & H).
  destruct (negb (hasFrontmatter content)); [discriminate|].
  apply bind_ok_inv in H as (parsed & s2 & _ & H).
  destruct (fst parsed); [|discriminate].
  injection H as <- _. now repeat split.
Qed.

End ListingFacts.

Section ListingFrame.

Variable E : Env.
Context {R : State -> State -> Prop} {W : path -> bool} `{!Frame R W}.

Lemma listFindings_frame projectName limit offset :
  preserves R (listFindings E projectName limit offset).
Proof.
  unfold listFindings.
  refine (preserves_bind _ _ _ _ _ _); [use (getProject_frame E)|intros _].
  refine (preserves_tryCatch _ _ _ _ _).
  - refine (preserves_bind _ _ _ _ _ _);
      [use (getDirectoryLastModified_frame E)|intros lastModified].
    apply preserves_get_bind. intros s.
    apply modify_bind_at; [apply frame_findingsGet|].
    match goal with
    | |- preserves _ (match ?c with Some page => _ | None => _ end) =>
        destruct c
    end.
    + use preserves_ret.
    + frame.
      * use (fs_readdir_frame E).
      * use (scanFindings_frame E _ _).
      * use (readListedFinding_frame E).
  - intros error. destruct (isENOENT error); [|use preserves_throw].
    apply preserves_get_bind. intros s.
    apply modify_bind_at; [apply frame_findingsSet|use preserves_ret].
Qed.

End ListingFrame.

#[export] Instance keepsListings_Frame W : Frame keepsListings W.
Proof.
  split; [split; [split|]|..]; unfold keepsListings, listingsCached.
  - auto.
  - auto.
  - intros s c. now destruct s.
  - intros s fs' _. now destruct s.
  - intros s b. now destruct s.
  - intros s key H. destruct s. cbn in *.
    now apply ListingFacts.delete_good.
  - intros s now key H. destruct s. cbn in *.
    now apply (ListingFacts.get_good (Forall metadataOnly)).
  - intros s now key t H. destruct s. cbn in *.
    apply (ListingFacts.set_good (Forall metadataOnly)); [constructor|exact H].
  - intros s key. now destruct s.
  - intros s now key. now destruct s.
  - intros s now key t. now destruct s.
Qed.

#[export] Instance keepsListings_Reads : Reads keepsListings.
Proof. exact (@frame_reads _ _ (keepsListings_Frame (fun _ => true))). Qed.

Lemma newStorageManager_listingsCached E fs now :
  listingsCached (newStorageManager E fs now).
Proof. constructor. Qed.

(** the description an update gives is the description of the finding
    [updateFinding] returns *)
Lemma updateFinding_description E projectName findingId updates description
      updated s s' :
  fu_description updates = Some description ->
  updateFinding E projectName findingId updates s = (Ok updated, s') ->
  f_description updated = description.
Proof.
  intros Hd Hrun. unfold updateFinding in Hrun.
  apply withLock_ok_inv in Hrun as (s1 & s2 & _ & Hop & _).
  apply bind_ok_inv in Hop as (existing & s3 & _ & Hop).
  apply bind_ok_inv in Hop as ([] & s4 & _ & Hop).
  unfold bind at 1 in Hop. unfold get in Hop.
  apply bind_ok_inv in Hop as (u & s5 & Hscore & Hop).
  apply tryCatch_throws_ok_inv in Hop.
  2:{ intros e s7. unfold bind.
      destruct (ignoreErrors (fs_unlink E _) s7) as [[u'|e'|] s8];
        discriminate. }
  apply bind_ok_inv in Hop as ([] & s6 & _ & Hop).
  apply bind_ok_inv in Hop as ([] & s7 & _ & Hop).
  apply bind_ok_inv in Hop as (md' & s8 & _ & Hop).
  apply bind_ok_inv in Hop as ([] & s9 & _ & Hop).
  unfold ret in Hop. injection Hop as <- _.
  assert (Hu : f_description u
               = f_description (applyFindingUpdates existing updates
                                                    (clock s4))).
  { destruct (fu_cvssString updates) as [v|].
    - destruct (Js.truthy v).
      + unfold tryCatch, bind, liftE in Hscore.
        destruct (calculateCVSSScore E v); [discriminate|].
        unfold ret in Hscore. injection Hscore as <- _. reflexivity.
      + unfold ret in Hscore. injection Hscore as <- _. reflexivity.
    - unfold ret in Hscore. injection Hscore as <- _. reflexivity. }
  rewrite Hu. cbn [applyFindingUpdates f_description]. now rewrite Hd.
Qed.

(** C10, as stated, fails in its last clause: the sections of a finding are
    not returned by [getFinding] alone. [createFinding] returns the finding
    with the description and the evidence of its input, and [updateFinding]
    returns the finding with the description read from its file. *)
Lemma sections_returned_by_writes :
  (exists created s',
      createFinding Sample.env "0a1b2c3d" "p"
                    (Sample.xss "Comments are rendered unescaped.")
                    Sample.oneProject = (Ok created, s') /\
      f_description created = "Comments are rendered unescaped." /\
      f_evidence created = Some "<script>alert(1)</script> is echoed back.") /\
  (exists updated s',
      updateFinding Sample.env "p" "FIND-00000001-a" Sample.retitle
                    Sample7.oneFinding = (Ok updated, s') /\
      f_title updated = "Renamed" /\
      f_description updated = "text").
Proof.
  split; do 2 eexists; (split; [vm_compute; reflexivity|]); split; reflexivity.
Qed.

(** C10, amended: in a state whose listing cache holds findings without
    sections only (the cache of a new storage is empty, and no operation of
    the storage puts anything else there), every finding of a page that
    [listFindings] returns has the empty description and neither evidence nor
    recommendations, whatever the text of the finding's file; the listing
    leaves the cache in that shape. The sections are returned by the
    operations on one finding: a [createFinding] that returns gives the
    description, evidence and recommendations of its input, and an
    [updateFinding] that returns gives the description of the update. *)
Theorem listFindings_metadata_only
        (E : Env) (projectName : string) (limit offset : Z) (s : State) :
  listingsCached s ->
  (forall page,
      fst (listFindings E projectName limit offset s) = Ok page ->
      Forall metadataOnly page) /\
  listingsCached (snd (listFindings E projectName limit offset s)) /\
  (forall randomId input created s',
      createFinding E randomId projectName input s = (Ok created, s') ->
      f_description created = fi_description input /\
      f_evidence created = fi_evidence input /\
      f_recommendations created = fi_recommendations input) /\
  (forall findingId updates description updated s',
      fu_description updates = Some description ->
      updateFinding E projectName findingId updates s = (Ok updated, s') ->
      f_description updated = description).
Proof.
  intros Hcache. split; [|split; [|split]].
  2: { now apply (listFindings_frame E (R := keepsListings)
                                     (W := fun _ => true)). }
  2: { intros randomId input created s' Hrun.
       destruct (createFinding_ok_inv E _ _ _ _ _ _ Hrun) as (-> & _).
       repeat split. }
  2: { intros findingId updates description updated s' Hd Hrun.
       exact (updateFinding_description E _ _ _ _ _ _ _ Hd Hrun). }
  intros page Hok.
  destruct (listFindings E projectName limit offset s) as [r s'] eqn:Hrun.
  cbn [fst] in Hok. subst r. unfold listFindings in Hrun.
  apply bind_ok_inv in Hrun as (md & s1 & Hg & Hrun).
  assert (Hs1 : listingsCached s1).
  { pose proof (getProject_frame E (R := keepsListings) projectName s) as H.
    rewrite Hg in H. now apply H. }
  unfold tryCatch in Hrun.
  match type of Hrun with
  | context [match ?body s1 with _ => _ end] =>
      destruct (body s1) as [[page'|error|] s2] eqn:Hbody
  end; [|clear Hbody|discriminate].
  - injection Hrun as -> ->.
    apply bind_ok_inv in Hbody as (lastModified & s3 & Hlm & Hbody).
    assert (Hs3 : listingsCached s3).
    { pose proof (getDirectoryLastModified_frame E (R := keepsListings)
                    (getProjectPath projectName ++ ["findings"]) s1) as H.
      rewrite Hlm in H. now apply H. }
    unfold bind at 1 in Hbody. unfold get in Hbody.
    unfold bind at 1 in Hbody. unfold modify in Hbody.
    destruct (ListingFacts.get_good (Forall metadataOnly) (clock s3)
                (projectName ++ "-findings") (findingsCache s3) Hs3)
      as (_ & Hhit).
    destruct (fst (LRU.get (clock s3) (projectName ++ "-findings")
                           (findingsCache s3))) as [cached|] eqn:Hget.
    + destruct (lastModified <=? LRU.lastModified cached).
      * injection Hbody as <- _. apply ListingFacts.Forall_slice.
        now apply Hhit.
      * apply bind_ok_inv in Hbody as (files & s4 & _ & Hbody).
        apply bind_ok_inv in Hbody as (scanned & s5 & _ & Hbody).
        apply bind_ok_inv in Hbody as (findings & s6 & Hread & Hbody).
        injection Hbody as <- _. apply ListingFacts.Forall_sortDesc.
        eapply ListingFacts.allSettled_all; [|exact Hread].
        intros x sa b sb. apply ListingFacts.readListedFinding_metadataOnly.
    + apply bind_ok_inv in Hbody as (files & s4 & _ & Hbody).
      apply bind_ok_inv in Hbody as (scanned & s5 & _ & Hbody).
      apply bind_ok_inv in Hbody as (findings & s6 & Hread & Hbody).
      injection Hbody as <- _. apply ListingFacts.Forall_sortDesc.
      eapply ListingFacts.allSettled_all; [|exact Hread].
      intros x sa b sb. apply ListingFacts.readListedFinding_metadataOnly.
  - destruct (isENOENT error); [|discriminate].
    injection Hrun as <- _. constructor.
Qed.

Lemma listFindings_metadata_only_witness :
  listingsCached Sample.sevenFindings /\
  (exists page,
      fst (listFindings Sample.env "p" 2 0 Sample.sevenFindings) = Ok page /\
      length page = 2%nat /\
      Forall metadataOnly page) /\
  (exists full,
      fst (getFinding Sample.env "p" "FIND-00000006-f" Sample.sevenFindings)
      = Ok full /\
      f_description full = "text") /\
  exists updated,
    fst (updateFinding Sample.env "p" "FIND-00000006-f" Sample.rewording
                       Sample.sevenFindings) = Ok updated /\
    f_description updated = "Reworded.".
Proof.
  destruct (listFindings_metadata_only Sample.env "p" 2 0
              Sample.sevenFindings (Forall_nil _))
    as (Hpage & _ & _ & Hupdate).
  split; [constructor|]. split; [|split].
  - eexists. split; [vm_compute; reflexivity|]. split; [reflexivity|].
    apply Hpage. vm_compute. reflexivity.
  - eexists. split; vm_compute; reflexivity.
  - destruct (updateFinding Sample.env "p" "FIND-00000006-f" Sample.rewording
                            Sample.sevenFindings) as [[updated|e|] s'] eqn:Hrun;
      [|vm_compute in Hrun; discriminate Hrun
       |vm_compute in Hrun; discriminate Hrun].
    exists updated. split; [reflexivity|].
    exact (Hupdate "FIND-00000006-f" Sample.rewording "Reworded." updated s'
                   eq_refl Hrun).
Defined.

(** ** Rollback of a failed [createProject] *)

Ltac run_prim :=
  unfold bind, oracle, get, modify, sysError, throw, ret;
  repeat match goal with
         | |- context [if ?b then _ else _] => destruct b eqn:?
         | |- context [match ?x with _ => _ end] => destruct x eqn:?
         end.

Section Failures.

Variable E : Env.

Lemma fs_mkdir_err p s e s' : fs_mkdir E p s = (Err e, s') -> s' = s.
Proof. unfold fs_mkdir. run_prim; intros H; now inversion H. Qed.

Lemma ensureDirectoryExists_err p s e s' :
  ensureDirectoryExists E p s = (Err e, s') -> s' = s.
Proof.
  unfold ensureDirectoryExists, tryCatch.
  destruct (fs_mkdir E p s) as [[u|e1|] s1] eqn:Hmk; try discriminate.
  apply fs_mkdir_err in Hmk. subst s1. unfold throw. now intros [= _ <-].
Qed.

Lemma fs_rename_err a b s e s' : fs_rename E a b s = (Err e, s') -> s' = s.
Proof. unfold fs_rename. run_prim; intros H; now inversion H. Qed.

Lemma fs_access_state p s : snd (fs_access E p s) = s.
Proof. unfold fs_access. run_prim; reflexivity. Qed.

Lemma fs_rm_ok p s :
  ioFails E OpRm p = false ->
  fs_rm E p s = (Ok tt, setDisk (fsRemoveTree p (disk s)) s).
Proof. intros H. unfold fs_rm, bind, oracle, get, modify. now rewrite H. Qed.

Lemma lockfileLock_cache name stale s :
  projectIndexCache (snd (lockfileLock E name stale s)) = projectIndexCache s.
Proof. unfold lockfileLock. run_prim; reflexivity. Qed.

Lemma lockfileRelease_cache name s :
  projectIndexCache (snd (ignoreErrors (lockfileRelease name) s))
  = projectIndexCache s.
Proof. unfold ignoreErrors, tryCatch, lockfileRelease. run_prim; reflexivity. Qed.

(** a failed index write leaves the index file as it was *)
Lemma writeProjectIndex_err {R : State -> State -> Prop} {W : path -> bool}
      `{!Frame R W} index s e s' :
  W projectIndexTmp = true ->
  writeProjectIndex E index s = (Err e, s') -> R s s'.
Proof.
  intros Htmp. unfold writeProjectIndex, tryCatch.
  destruct ((fs_writeFile E projectIndexTmp (JsonIndex index) ;;;
             fs_rename E projectIndexTmp projectIndexPath ;;;
             modify (setIndexCache None)) s) as [[u|e1|] s1] eqn:Hbody;
    try discriminate.
  intros Hclean.
  assert (Hs1 : R s s1).
  { pose proof (fs_writeFile_frame E (R := R) projectIndexTmp
                  (JsonIndex index) Htmp s) as Hw.
    unfold bind at 1 in Hbody.
    destruct (fs_writeFile E projectIndexTmp (JsonIndex index) s)
      as [[u|e2|] sa]; cbn [snd] in Hw; try discriminate.
    - unfold bind at 1 in Hbody.
      destruct (fs_rename E projectIndexTmp projectIndexPath sa)
        as [[u'|e3|] sb] eqn:Hmv; try discriminate.
      apply fs_rename_err in Hmv. subst sb. now injection Hbody as _ <-.
    - now injection Hbody as _ <-. }
  eapply frame_trans; [exact Hs1|].
  assert (Hh : preserves R (ignoreErrors (fs_unlink E projectIndexTmp) ;;;
                            @throw unit
                              (wrap "Failed to write project index: " e1))).
  { frame. use (fs_unlink_frame E _ Htmp). }
  specialize (Hh s1). now rewrite Hclean in Hh.
Qed.

End Failures.

Lemma agree_mono (W W' : path -> bool) s s' :
  (forall q, W q = true -> W' q = true) -> agree W s s' -> agree W' s s'.
Proof.
  intros Hsub H q Hq. apply H.
  destruct (W q) eqn:Hw; [|reflexivity]. rewrite (Hsub q Hw) in Hq.
  discriminate.
Qed.

Section Rollback.

Variable E : Env.

(** a sanitized, non-empty project name *)
Variable name : string.
Hypothesis Hclean : sanitizeProjectName name = name.
Hypothesis Hname : name <> "".
Hypothesis Hrm : ioFails E OpRm [name] = false.

Let W : path -> bool := createFootprint [name].

Lemma getProjectPath_name : getProjectPath name = [name].
Proof.
  unfold getProjectPath. rewrite Hclean.
  destruct (String.eqb_spec name ""); [contradiction|reflexivity].
Qed.

Lemma project_not_residue q :
  under [name] q = true -> rollbackResidue q = false.
Proof.
  destruct q as [|x q]; [discriminate|]. cbn [under].
  intros H. apply andb_true_iff in H as [H _].
  apply String.eqb_eq in H. subst x.
  pose proof (SanitizeFacts.sanitize_not_dotfile name) as Hdot.
  rewrite Hclean in Hdot.
  unfold rollbackResidue, projectIndexTmp. cbn [under path_eqb].
  rewrite (Hdot "mcp-lock-project-index.lock").
  rewrite String.eqb_sym, (Hdot "mcp-projects.json.tmp"). reflexivity.
Qed.

Lemma index_outside : W projectIndexPath = false.
Proof.
  unfold W, createFootprint, projectIndexPath. cbn [under].
  pose proof (SanitizeFacts.sanitize_not_dotfile name "mcp-projects.json")
    as Hdot.
  rewrite Hclean, String.eqb_sym in Hdot. rewrite Hdot. reflexivity.
Qed.

Lemma residue_absent s s' :
  agree rollbackResidue s s' -> absent [name] s -> absent [name] s'.
Proof.
  intros Hag Habs q Hq. rewrite (Hag q (project_not_residue q Hq)).
  now apply Habs.
Qed.

Lemma rollback_directory description s :
  rollbackAll E [mkRollback (RemoveProjectDirectory [name]) description true] s
  = (Ok [], setDisk (fsRemoveTree [name] (disk s)) s).
Proof.
  cbn [rollbackAll completed operation runRollback].
  unfold bind at 1. unfold tryCatch. unfold bind at 1.
  now rewrite (fs_rm_ok E [name] s Hrm).
Qed.

Lemma rollback_skipped action description rest s :
  rollbackAll E (mkRollback action description false :: rest) s
  = rollbackAll E rest s.
Proof.
  cbn [rollbackAll completed]. unfold bind at 1. unfold ret at 1.
  unfold bind. destruct (rollbackAll E rest s) as [[l|e|] s1]; reflexivity.
Qed.

Lemma removed_absent s c :
  absent [name] (setIndexCache c (setDisk (fsRemoveTree [name] (disk s)) s)).
Proof.
  intros q Hq. cbn [disk setIndexCache setDisk].
  now rewrite fsGet_fsRemoveTree, Hq.
Qed.

Lemma removed_agree s c :
  agree W s (setIndexCache c (setDisk (fsRemoveTree [name] (disk s)) s)).
Proof.
  eapply frame_trans; [|apply frame_indexCache].
  apply frame_disk, step_removeTree. intros q Hq.
  unfold W, createFootprint. rewrite Hq. apply orb_true_r.
Qed.

Lemma under_project (k : nat) (rest : list string) :
  (0 < k)%nat -> W (firstn k (name :: rest)) = true.
Proof.
  destruct k as [|k]; [lia|]. intros _. cbn [firstn].
  unfold W, createFootprint. cbn [under]. rewrite String.eqb_refl.
  apply orb_true_r.
Qed.

(** a transaction that fails has removed what it made of the project, has
    kept the index file and has dropped the cached index *)
Lemma transaction_err metadata s e s' :
  executeProjectCreationTransaction E name [name] metadata s = (Err e, s') ->
  agree W s s' /\
  (absent [name] s -> absent [name] s') /\
  projectIndexCache s' = None.
Proof.
  unfold executeProjectCreationTransaction, transactionBody.
  pose proof (ensureDirectoryExists_frame E (R := agree W) [name]
                (fun k Hk => under_project k [] (proj1 Hk)) s) as Hfirst.
  destruct (ensureDirectoryExists E [name] s) as [[u|e1|] sa] eqn:Hmk;
    cbn [snd] in Hfirst.
  - match goal with
    | |- context [match ?mid sa with _ => _ end] =>
        assert (Hmid : preserves (agree W) mid);
          [|specialize (Hmid sa);
            destruct (mid sa) as [[originalIndexState|e2|] sb]]
    end.
    { frame.
      - use (ensureDirectoryExists_frame E).
        intros k Hk. apply (under_project k ["findings"]), Hk.
      - use (ensureDirectoryExists_frame E).
        intros k Hk. apply (under_project k ["audit-trails"]), Hk.
      - use (fs_writeFile_frame E).
        apply (under_project 2 ["project.json.tmp"]). lia.
      - use (fs_rename_frame E).
        + apply (under_project 2 ["project.json.tmp"]). lia.
        + apply (under_project 2 ["project.json"]). lia.
      - use (readProjectIndex_frame E). }
    + cbn [snd] in Hmid.
      match goal with
      | |- context [writeProjectIndex E ?idx sb] =>
          destruct (writeProjectIndex E idx sb) as [[u'|e3|] sc] eqn:Hwrite
      end; try discriminate.
      apply (writeProjectIndex_err E (R := agree W)) in Hwrite;
        [|reflexivity].
      cbn [rev app]. unfold bind at 1.
      rewrite rollback_skipped, rollback_directory.
      unfold bind at 1. unfold modify.
      intros [= _ <-]. split; [|split].
      * eapply frame_trans; [exact Hfirst|].
        eapply frame_trans; [exact Hmid|].
        eapply frame_trans; [exact Hwrite|]. apply removed_agree.
      * intros _. apply removed_absent.
      * reflexivity.
    + cbn [snd] in Hmid. cbn [rev app].
      unfold bind at 1. rewrite rollback_directory.
      unfold bind at 1. unfold modify.
      intros [= _ <-]. split; [|split].
      * eapply frame_trans; [exact Hfirst|].
        eapply frame_trans; [exact Hmid|]. apply removed_agree.
      * intros _. apply removed_absent.
      * reflexivity.
    + discriminate.
  - apply ensureDirectoryExists_err in Hmk. subst sa.
    cbn [rev rollbackAll]. unfold bind at 1. unfold ret at 1.
    unfold bind at 1. unfold modify.
    intros [= _ <-]. split; [|split].
    + apply frame_indexCache.
    + intros Habs q Hq. now apply Habs.
    + reflexivity.
  - discriminate.
Qed.

End Rollback.

Lemma rolledBack_refl name s : rolledBack name s s.
Proof. split; [apply frame_refl|split; [auto|now right]]. Qed.

Lemma rolledBack_trans name a b c :
  rolledBack name a b -> rolledBack name b c -> rolledBack name a c.
Proof.
  intros (H1 & H2 & H3) (G1 & G2 & G3). split; [|split].
  - eapply frame_trans; eassumption.
  - auto.
  - destruct G3 as [G3|G3]; [now left|]. rewrite G3. exact H3.
Qed.

Lemma lockTimeout_err A lockKey error s e s' :
  @lockTimeout A lockKey error s = (Err e, s') -> s' = s.
Proof.
  unfold lockTimeout.
  destruct (Js.includes (message error) "already being held");
    now intros [= _ <-].
Qed.

Section CreateProject.

Variable E : Env.
Variable name : string.
Hypothesis Hclean : sanitizeProjectName name = name.
Hypothesis Hname : name <> "".
Hypothesis Hrm : ioFails E OpRm [name] = false.

Lemma residue_rolledBack s s' :
  agree rollbackResidue s s' ->
  projectIndexCache s' = projectIndexCache s ->
  rolledBack name s s'.
Proof.
  intros Hag Hcache. split; [|split].
  - eapply agree_mono; [|exact Hag]. intros q Hq.
    unfold createFootprint. now rewrite Hq.
  - now apply residue_absent.
  - now right.
Qed.

Lemma lock_residue q :
  under [".mcp-lock-" ++ "project-index" ++ ".lock"] q = true ->
  rollbackResidue q = true.
Proof. intros Hq. unfold rollbackResidue. cbn in Hq |- *. now rewrite Hq. Qed.

Lemma createProject_locked_err uuid input s e s' :
  sanitizeProjectName (cp_name input) = name ->
  createProject E uuid input s = (Err e, s') -> rolledBack name s s'.
Proof.
  intros Hinput. unfold createProject. rewrite Hinput.
  destruct (Js.truthy name); cbn [negb];
    [|intros [= _ <-]; apply rolledBack_refl].
  rewrite (getProjectPath_name name Hclean Hname).
  unfold withLock.
  pose proof (lockfileLock_frame E (R := agree rollbackResidue) _ 10000
                lock_residue s) as Hlock.
  pose proof (lockfileLock_cache E
                (".mcp-lock-" ++ "project-index" ++ ".lock") 10000 s) as Hlc.
  destruct (lockfileLock E (".mcp-lock-" ++ "project-index" ++ ".lock")
                         10000 s) as [[u|e1|] s1]; cbn [snd] in Hlock, Hlc.
  - unfold finally.
    match goal with
    | |- context [tryCatch ?op _ s1] =>
        destruct (op s1) as [[a|e0|] s2] eqn:Hop;
          [rewrite (tryCatch_ok _ _ _ _ _ Hop)
          |rewrite (tryCatch_err _ _ _ _ _ Hop)
          |rewrite (tryCatch_hang _ _ _ _ Hop)]
    end; [discriminate| |discriminate].
    destruct (lockTimeout (A := ProjectMetadata) "project-index" e0 s2)
      as [[a|e2|] s3] eqn:Hto; [discriminate| |discriminate].
    apply lockTimeout_err in Hto. subst s3.
    intros [= _ <-].
    apply (rolledBack_trans name s s1);
      [apply residue_rolledBack; assumption|].
    apply (rolledBack_trans name s1 s2).
    2:{ apply residue_rolledBack.
        - refine (preserves_ignoreErrors _ _ s2).
          use (lockfileRelease_frame (R := agree rollbackResidue) _ lock_residue).
        - apply lockfileRelease_cache. }
    unfold bind at 1 in Hop.
    set (check := tryCatch
                    (fs_access E [name] ;;; throw (ProjectExistsError name))
                    _) in Hop.
    assert (Hcheck : snd (check s1) = s1);
      [|destruct (check s1) as [[u'|ec|] sc]; cbn [snd] in Hcheck; subst sc].
    { unfold check, tryCatch, bind.
      pose proof (fs_access_state E [name] s1) as Hacc.
      destruct (fs_access E [name] s1) as [[u'|ea|] sa]; cbn [snd] in Hacc;
        subst sa; cbn; [reflexivity| |reflexivity].
      destruct (isProjectExistsError ea), (isENOENT ea); reflexivity. }
    + unfold bind at 1 in Hop. unfold get in Hop.
      apply (transaction_err E name Hrm) in Hop as (Hag & Habs & Hcache).
      split; [exact Hag|split; [exact Habs|now left]].
    + injection Hop as _ <-. apply rolledBack_refl.
    + discriminate.
  - intros Hto. apply lockTimeout_err in Hto. subst s'.
    now apply residue_rolledBack.
  - discriminate.
Qed.

End CreateProject.

Lemma absentb_absent projectPath s :
  absentb projectPath (disk s) = true -> absent projectPath s.
Proof.
  unfold absentb, absent. intros Hall q Hq.
  induction (disk s) as [|[p n] fs IH]; [reflexivity|].
  cbn [forallb fst] in Hall. apply andb_true_iff in Hall as [Hp Hall].
  cbn [fsGet]. destruct (path_eqb p q) eqn:Hpq; [|now apply IH].
  apply path_eqb_eq in Hpq. subst p. rewrite Hq in Hp. discriminate.
Qed.

Section Forced.

Variable E : Env.

Lemma fs_writeFile_ok_oracle p c s u s' :
  fs_writeFile E p c s = (Ok u, s') -> ioFails E OpWriteFile p = false.
Proof.
  unfold fs_writeFile, bind, oracle, sysError, throw.
  destruct (ioFails E OpWriteFile p); [discriminate|reflexivity].
Qed.

Lemma fs_rename_ok_oracle a b s u s' :
  fs_rename E a b s = (Ok u, s') -> ioFails E OpRename a = false.
Proof.
  unfold fs_rename, bind, oracle, sysError, throw.
  destruct (ioFails E OpRename a); [discriminate|reflexivity].
Qed.

Lemma writeProjectIndex_ok_oracle index s u s' :
  writeProjectIndex E index s = (Ok u, s') ->
  ioFails E OpWriteFile projectIndexTmp = false /\
  ioFails E OpRename projectIndexTmp = false.
Proof.
  unfold writeProjectIndex. intros H.
  apply tryCatch_throws_ok_inv in H.
  2:{ intros e s1. unfold bind.
      destruct (ignoreErrors (fs_unlink E projectIndexTmp) s1) as [[v|e'|] s2];
        discriminate. }
  apply bind_ok_inv in H as (v & s1 & Hw & H).
  apply bind_ok_inv in H as (v' & s2 & Hmv & _).
  split; [exact (fs_writeFile_ok_oracle _ _ _ _ _ Hw)
         |exact (fs_rename_ok_oracle _ _ _ _ _ Hmv)].
Qed.

Lemma transaction_ok_oracle name projectPath metadata s md s' :
  executeProjectCreationTransaction E name projectPath metadata s
  = (Ok md, s') ->
  ioFails E OpWriteFile projectIndexTmp = false /\
  ioFails E OpRename projectIndexTmp = false.
Proof.
  unfold executeProjectCreationTransaction, transactionBody.
  destruct (ensureDirectoryExists E projectPath s) as [[u|e1|] sa].
  - match goal with
    | |- context [match ?mid sa with _ => _ end] =>
        destruct (mid sa) as [[originalIndexState|e2|] sb]
    end.
    + match goal with
      | |- context [writeProjectIndex E ?idx sb] =>
          destruct (writeProjectIndex E idx sb) as [[u'|e3|] sc] eqn:Hwrite
      end.
      * intros _. exact (writeProjectIndex_ok_oracle _ _ _ _ Hwrite).
      * intros H. exfalso. revert H.
        match goal with
        | |- ?m sc = _ -> _ =>
            unfold bind; destruct (rollbackAll E _ sc) as [[l|e4|] sd];
              [destruct l| |]; discriminate
        end.
      * discriminate.
    + intros H. exfalso. revert H.
      unfold bind; destruct (rollbackAll E _ sb) as [[l|e4|] sd];
        [destruct l| |]; discriminate.
    + discriminate.
  - intros H. exfalso. revert H.
    unfold bind; destruct (rollbackAll E _ sa) as [[l|e4|] sd];
      [destruct l| |]; discriminate.
  - discriminate.
Qed.

Lemma createProject_ok_oracle uuid input s md s' :
  createProject E uuid input s = (Ok md, s') ->
  ioFails E OpWriteFile projectIndexTmp = false /\
  ioFails E OpRename projectIndexTmp = false.
Proof.
  unfold createProject.
  destruct (Js.truthy (sanitizeProjectName (cp_name input))); cbn [negb];
    [|discriminate].
  intros H. apply withLock_ok_inv in H as (s1 & s2 & _ & H & _).
  apply bind_ok_inv in H as (u & s3 & _ & H).
  unfold bind at 1 in H. unfold get in H.
  exact (transaction_ok_oracle _ _ _ _ _ _ H).
Qed.

Lemma returns_rollbackAll items : returns (rollbackAll E items).
Proof.
  induction items as [|item items IH]; cbn [rollbackAll]; returns_tac;
    try exact IH.
  destruct (operation item); cbn [runRollback]; returns_tac.
  - apply returns_fs_rm.
  - apply returns_writeProjectIndex.
Qed.

Lemma returns_transaction name projectPath metadata :
  returns (executeProjectCreationTransaction E name projectPath metadata).
Proof.
  assert (Hroll : forall (error : Error) items,
             returns (rollbackErrors <- rollbackAll E items ;;
                      modify (setIndexCache None) ;;;
                      match rollbackErrors with
                      | [] => throw (PlainError ("Failed to create project: "
                                                 ++ message error))
                      | _ => @throw ProjectMetadata
                               (PlainError ("Failed to create project: "
                                            ++ message error
                                            ++ ". Rollback errors: "
                                            ++ Js.join "; " rollbackErrors))
                      end)).
  { intros error items. returns_tac. apply returns_rollbackAll. }
  intros s. unfold executeProjectCreationTransaction, transactionBody.
  pose proof (returns_ensureDirectoryExists E projectPath s) as H1.
  destruct (ensureDirectoryExists E projectPath s) as [[u|e1|] sa];
    cbn [fst] in H1; [|apply Hroll|now contradiction H1].
  match goal with
  | |- context [match ?mid sa with _ => _ end] =>
      assert (H2 : returns mid);
        [|specialize (H2 sa);
          destruct (mid sa) as [[originalIndexState|e2|] sb]; cbn [fst] in H2]
  end.
  { returns_tac.
    - apply returns_ensureDirectoryExists.
    - apply returns_ensureDirectoryExists.
    - apply returns_fs_writeFile.
    - apply returns_fs_rename.
    - apply returns_readProjectIndex. }
  - match goal with
    | |- context [writeProjectIndex E ?idx sb] =>
        pose proof (returns_writeProjectIndex E idx sb) as H3;
          destruct (writeProjectIndex E idx sb) as [[u'|e3|] sc];
          cbn [fst] in H3
    end; [discriminate|apply Hroll|now contradiction H3].
  - apply Hroll.
  - now contradiction H2.
Qed.

Lemma returns_createProject uuid input : returns (createProject E uuid input).
Proof.
  unfold createProject.
  destruct (negb (Js.truthy (sanitizeProjectName (cp_name input))));
    [apply returns_throw|].
  apply returns_withLock. returns_tac.
  - apply returns_fs_access.
  - apply returns_transaction.
Qed.

End Forced.

(** C3, as stated, fails: the rollback is best effort. When the index write
    fails and the [rm] of the rollback fails too, [createProject] returns an
    error that lists the rollback error, and the project directory stays on
    the disk with [findings], [audit-trails] and [project.json], while the
    index has no entry for the project. *)
Lemma createProject_rollback_incomplete :
  (exists msg,
      fst (createProject Sample.nothingRemoved
             "5f0c2d1e-0000-4000-8000-000000000002" Sample.acme
             (newStorageManager Sample.nothingRemoved
                                [Sample.indexFile emptyIndex] 100))
      = Err (PlainError msg) /\
      Js.startsWith msg
        "Failed to create project: Failed to write project index: " = true /\
      Js.includes msg ". Rollback errors: Remove project directory: " = true) /\
  map fst
      (disk (snd (createProject Sample.nothingRemoved
                    "5f0c2d1e-0000-4000-8000-000000000002" Sample.acme
                    (newStorageManager Sample.nothingRemoved
                                       [Sample.indexFile emptyIndex] 100))))
  = [projectIndexPath; ["acme-corp"]; ["acme-corp"; "findings"];
     ["acme-corp"; "audit-trails"]; ["acme-corp"; "project.json"]] /\
  fsGet projectIndexPath
        (disk (snd (createProject Sample.nothingRemoved
                      "5f0c2d1e-0000-4000-8000-000000000002" Sample.acme
                      (newStorageManager Sample.nothingRemoved
                                         [Sample.indexFile emptyIndex] 100))))
  = Some (File (JsonIndex emptyIndex) 0).
Proof.
  split; [|split; vm_compute; reflexivity].
  eexists. split; [vm_compute; reflexivity|]. split; vm_compute; reflexivity.
Qed.

(** C3, amended: take a call of [createProject] for a project of which
    nothing is on the disk, on an engine whose [rm] of the project directory
    does not fail. If the write of the index is forced to fail (the write of its
    temporary file, or the rename over the index), the call returns an
    error. Whenever the call returns an error, nothing of the project
    directory is left (no directory, no [findings], no [audit-trails], no
    [project.json]), the index file is what it was before the call, as is
    every other path but the artifact of the index lock and the index's
    temporary file, and the cached index is dropped or what it was: no
    entry for the project is left behind. *)
Theorem createProject_rollback
        (E : Env) (uuid : string) (input : CreateProjectInput) (s : State) :
  let projectPath := getProjectPath (sanitizeProjectName (cp_name input)) in
  let outcome := createProject E uuid input s in
  ioFails E OpRm projectPath = false ->
  absent projectPath s ->
  (ioFails E OpWriteFile projectIndexTmp = true \/
   ioFails E OpRename projectIndexTmp = true ->
   exists e, fst outcome = Err e) /\
  (forall e,
      fst outcome = Err e ->
      absent projectPath (snd outcome) /\
      fsGet projectIndexPath (disk (snd outcome))
      = fsGet projectIndexPath (disk s) /\
      agree rollbackResidue s (snd outcome) /\
      (projectIndexCache (snd outcome) = None \/
       projectIndexCache (snd outcome) = projectIndexCache s)).
Proof.
  intros projectPath outcome Hrm Habs. split.
  - intros Hforced.
    pose proof (returns_createProject E uuid input s) as Hret.
    pose proof (createProject_ok_oracle E uuid input s) as Hok.
    fold outcome in Hret. unfold outcome in *.
    destruct (createProject E uuid input s) as [[md|e|] s'];
      cbn [fst] in *; [|now exists e|now contradiction Hret].
    destruct (Hok md s' eq_refl) as [Hw Hmv].
    destruct Hforced; congruence.
  - intros e He. unfold outcome in *.
    destruct (createProject E uuid input s) as [r s'] eqn:Hrun.
    cbn [fst snd] in *. subst r.
    set (name := sanitizeProjectName (cp_name input)) in *.
    destruct (String.eqb_spec name "") as [Hempty|Hname].
    + unfold createProject in Hrun. fold name in Hrun.
      rewrite Hempty in Hrun. cbn in Hrun. injection Hrun as _ <-.
      repeat split; auto.
    + assert (Hclean : sanitizeProjectName name = name)
        by apply SanitizeFacts.sanitize_idempotent.
      unfold projectPath in *.
      rewrite (getProjectPath_name name Hclean Hname) in *.
      destruct (createProject_locked_err E name Hclean Hname Hrm uuid input
                  s e s' eq_refl Hrun) as (Hag & Hkeep & Hcache).
      specialize (Hkeep Habs).
      split; [exact Hkeep|]. split; [|split; [|exact Hcache]].
      * apply Hag. apply (index_outside name Hclean).
      * intros q Hq. destruct (under [name] q) eqn:Hu.
        -- now rewrite (Hkeep q Hu), (Habs q Hu).
        -- apply Hag. unfold createFootprint. now rewrite Hq, Hu.
Qed.

Lemma createProject_rollback_witness :
  getProjectPath (sanitizeProjectName (cp_name Sample.acme)) = ["acme-corp"] /\
  (exists e,
      fst (createProject Sample.indexWriteFails
             "5f0c2d1e-0000-4000-8000-000000000002" Sample.acme
             Sample.emptyStore) = Err e) /\
  absent ["acme-corp"]
         (snd (createProject Sample.indexWriteFails
                 "5f0c2d1e-0000-4000-8000-000000000002" Sample.acme
                 Sample.emptyStore)) /\
  fsGet projectIndexPath
        (disk (snd (createProject Sample.indexWriteFails
                      "5f0c2d1e-0000-4000-8000-000000000002" Sample.acme
                      Sample.emptyStore)))
  = Some (File (JsonIndex emptyIndex) 0).
Proof.
  destruct (createProject_rollback Sample.indexWriteFails
              "5f0c2d1e-0000-4000-8000-000000000002" Sample.acme
              Sample.emptyStore)
    as [Hfails Hclean].
  - reflexivity.
  - apply absentb_absent. reflexivity.
  - destruct (Hfails (or_introl eq_refl)) as (e & He).
    destruct (Hclean e He) as (Habs & Hidx & _).
    split; [reflexivity|]. split; [now exists e|]. split; [exact Habs|].
    exact Hidx.
Defined.

(** ** Sections of a finding file, written and read back *)

Module SectionFacts.
Import Js.

Lemma space_not_hash c : isSpace c = true -> Ascii.eqb "#" c = false.
Proof. destruct c as [[] [] [] [] [] [] [] []]; vm_compute; congruence. Qed.

Lemma lower_hash c : Ascii.eqb (lower "#") (lower c) = Ascii.eqb "#" c.
Proof. destruct c as [[] [] [] [] [] [] [] []]; reflexivity. Qed.

Lemma lower_blank c : Ascii.eqb (lower " ") (lower c) = Ascii.eqb " " c.
Proof. destruct c as [[] [] [] [] [] [] [] []]; reflexivity. Qed.

Lemma nl_space : isSpace (ascii_of_nat 10) = true.
Proof. reflexivity. Qed.

(** *** [trim] *)

Lemma trimStart_ws w s : ws w = true -> trimStart (w ++ s) = trimStart s.
Proof.
  induction w as [|c w IH]; cbn [ws strAll append trimStart]; [reflexivity|].
  intros H. apply andb_true_iff in H as [Hc Hw]. rewrite Hc. now apply IH.
Qed.

Lemma trimStart_app x tail :
  trimStart x <> "" -> trimStart (x ++ tail) = trimStart x ++ tail.
Proof.
  induction x as [|c x IH]; cbn [append trimStart]; [congruence|].
  destruct (isSpace c); [exact IH|reflexivity].
Qed.

Lemma trimStart_idem x : trimStart (trimStart x) = trimStart x.
Proof.
  induction x as [|c x IH]; [reflexivity|]. cbn [trimStart].
  destruct (isSpace c) eqn:Hc; [exact IH|]. cbn [trimStart]. now rewrite Hc.
Qed.

Lemma trimStart_split s : exists w, ws w = true /\ s = w ++ trimStart s.
Proof.
  induction s as [|c s (w & Hw & Hs)]; [now exists ""|].
  cbn [trimStart]. destruct (isSpace c) eqn:Hc.
  - exists (String c w). split; [cbn; now rewrite Hc|].
    cbn [append]. now rewrite <- Hs.
  - now exists "".
Qed.

Lemma trimEnd_ws u : ws u = true -> trimEnd u = "".
Proof.
  induction u as [|c u IH]; [reflexivity|]. cbn [ws strAll trimEnd].
  intros H. apply andb_true_iff in H as [Hc Hu].
  fold (ws u) in Hu. now rewrite (IH Hu), Hc.
Qed.

Lemma trimEnd_app_ws z u : ws u = true -> trimEnd (z ++ u) = trimEnd z.
Proof.
  intros Hu. induction z as [|c z IH]; cbn [append trimEnd].
  - now apply trimEnd_ws.
  - now rewrite IH.
Qed.

Lemma ws_app a b : ws a = true -> ws b = true -> ws (a ++ b) = true.
Proof.
  induction a as [|c a IH]; cbn [ws strAll append]; [auto|].
  intros H Hb. apply andb_true_iff in H as [Hc Ha]. rewrite Hc.
  now apply IH.
Qed.

(** the text between white space is what [trim] leaves of it *)
Lemma trim_between w x u :
  ws w = true -> ws u = true -> trim x <> "" ->
  trim (w ++ trimStart x ++ u) = trim x.
Proof.
  intros Hw Hu Hx. unfold trim in *.
  assert (Hz : trimStart x <> "").
  { intros H. now rewrite H in Hx. }
  rewrite (trimStart_ws w _ Hw).
  rewrite trimStart_app by now rewrite trimStart_idem.
  rewrite trimStart_idem. now apply trimEnd_app_ws.
Qed.

(** *** the heading marker *)

Lemma includes_startsWith_false s p :
  includes s p = false -> startsWith s p = false.
Proof.
  destruct s; cbn [includes]; intros H; now apply orb_false_iff in H.
Qed.

Lemma includes_tail c s p : includes (String c s) p = false -> includes s p = false.
Proof. cbn [includes]. intros H. now apply orb_false_iff in H. Qed.

Lemma includes_trimStart x p :
  includes x p = false -> includes (trimStart x) p = false.
Proof.
  induction x as [|c x IH]; [auto|]. intros H. cbn [trimStart].
  destruct (isSpace c); [|exact H]. apply IH. exact (includes_tail _ _ _ H).
Qed.

Lemma marker_boundary a v :
  lineEnd v -> startsWith a "## " = false -> startsWith (a ++ v) "## " = false.
Proof.
  intros [->|(rest & ->)] Ha.
  - now rewrite JsFacts.append_empty_r.
  - destruct (startsWith (a ++ String (ascii_of_nat 10) rest) "## ") eqn:H;
      [|reflexivity].
    apply PhraseFacts.startsWith_app_split in H as [H|H]; [congruence|].
    discriminate.
Qed.

Lemma noMarkerIn_text a v :
  lineEnd v -> includes a "## " = false -> noMarkerIn a v = true.
Proof.
  intros Hv. induction a as [|c a IH]; [reflexivity|]. intros Ha.
  cbn [noMarkerIn].
  rewrite (marker_boundary _ v Hv (includes_startsWith_false _ _ Ha)).
  exact (IH (includes_tail _ _ _ Ha)).
Qed.

Lemma noMarkerIn_ws a v : ws a = true -> noMarkerIn a v = true.
Proof.
  induction a as [|c a IH]; [reflexivity|]. cbn [ws strAll noMarkerIn].
  intros H. apply andb_true_iff in H as [Hc Ha].
  cbn [append startsWith]. rewrite (space_not_hash c Hc). now apply IH.
Qed.

Lemma ws_no_marker w : ws w = true -> includes w "## " = false.
Proof.
  induction w as [|c w IH]; [reflexivity|]. cbn [ws strAll].
  intros H. apply andb_true_iff in H as [Hc Hw].
  cbn [includes startsWith]. rewrite (space_not_hash c Hc). now apply IH.
Qed.

Lemma includes_ws_app w z :
  ws w = true -> includes z "## " = false -> includes (w ++ z) "## " = false.
Proof.
  induction w as [|c w IH]; [auto|]. cbn [ws strAll].
  intros H Hz. apply andb_true_iff in H as [Hc Hw].
  cbn [append includes startsWith]. rewrite (space_not_hash c Hc).
  now apply IH.
Qed.

(** *** headings *)

Lemma stripPrefixCI_app p r : stripPrefixCI (p ++ r) p = Some r.
Proof.
  induction p as [|a p IH]; cbn [append stripPrefixCI].
  - now destruct r.
  - now rewrite Ascii.eqb_refl.
Qed.

Lemma headingAt_marker name s :
  startsWith s "## " = false -> headingAt name s = None.
Proof.
  unfold headingAt. change ("## " ++ name) with (String "#" (String "#" (String " " name))).
  destruct s as [|c1 [|c2 [|c3 s]]]; cbn [stripPrefixCI startsWith];
    rewrite ?lower_hash, ?lower_blank.
  - reflexivity.
  - now destruct (Ascii.eqb "#" c1).
  - now destruct (Ascii.eqb "#" c1), (Ascii.eqb "#" c2).
  - destruct (Ascii.eqb "#" c1), (Ascii.eqb "#" c2), (Ascii.eqb " " c3);
      cbn; intros H; first [reflexivity|destruct s; discriminate].
Qed.

Lemma noMarkerIn_head a v :
  noMarkerIn a v = true -> startsWith v "## " = false ->
  startsWith (a ++ v) "## " = false.
Proof.
  destruct a as [|c a]; [auto|]. cbn [noMarkerIn]. intros H _.
  apply andb_true_iff in H as [H _]. now apply negb_true_iff in H.
Qed.

Lemma findHeading_skip name a v :
  noMarkerIn a v = true -> findHeading name (a ++ v) = findHeading name v.
Proof.
  induction a as [|c a IH]; [reflexivity|]. cbn [noMarkerIn].
  intros H. apply andb_true_iff in H as [Hc Ha]. apply negb_true_iff in Hc.
  change (String c a ++ v) with (String c (a ++ v)) in *.
  cbn [findHeading]. rewrite (headingAt_marker name _ Hc). now apply IH.
Qed.

Lemma untilNextHeading_skip a v :
  noMarkerIn a v = true -> startsWith v "## " = false ->
  untilNextHeading (a ++ v) = a ++ untilNextHeading v.
Proof.
  intros Ha Hv. induction a as [|c a IH]; [reflexivity|].
  cbn [noMarkerIn] in Ha. apply andb_true_iff in Ha as [_ Ha].
  change (String c a ++ v) with (String c (a ++ v)).
  cbn [untilNextHeading].
  change (nl ++ "## ") with (String (ascii_of_nat 10) "## ").
  cbn [startsWith]. fold (startsWith (a ++ v) "## ").
  rewrite (noMarkerIn_head a v Ha Hv), andb_false_r.
  cbn [append]. now rewrite (IH Ha).
Qed.

Lemma untilNextHeading_text v :
  includes v "## " = false -> untilNextHeading v = v.
Proof.
  intros Hv.
  pose proof (untilNextHeading_skip v "" (noMarkerIn_text v "" (or_introl eq_refl) Hv)
                eq_refl) as H.
  now rewrite !JsFacts.append_empty_r in H.
Qed.

Lemma afterBlankLine_spec s t :
  afterBlankLine s = Some t ->
  exists w, ws w = true /\ t = w ++ trimStart s.
Proof.
  revert t. induction s as [|c s IH]; intros t; cbn [afterBlankLine trimStart];
    [discriminate|].
  destruct (isSpace c); [|discriminate].
  destruct (afterBlankLine s) as [t'|].
  - intros [= <-]. now apply IH.
  - destruct (isNewline c); [|discriminate]. intros [= <-].
    apply trimStart_split.
Qed.

Lemma afterBlankLine_nl s :
  exists t, afterBlankLine (String (ascii_of_nat 10) s) = Some t.
Proof.
  cbn [afterBlankLine]. rewrite nl_space.
  destruct (afterBlankLine s) as [t|]; [now exists t|]. now exists s.
Qed.

(** what the pattern captures after a heading that is followed by an empty
    line, the text [x] and [tail], when the capture ends in the white space
    [u] of the tail *)
Lemma captured x tail u t :
  sectionText x = true ->
  lineEnd tail ->
  untilNextHeading tail = u -> ws u = true ->
  afterBlankLine (nl ++ nl ++ x ++ tail) = Some t ->
  trim (untilNextHeading t) = trim x.
Proof.
  intros Hx Htail Hu Hws Ht. unfold sectionText in Hx.
  apply andb_true_iff in Hx as [Hmark Hblank].
  apply negb_true_iff in Hmark.
  assert (Hne : trim x <> "") by (intros H; now rewrite H in Hblank).
  assert (Hz : trimStart x <> "").
  { intros H. apply Hne. unfold trim. now rewrite H. }
  apply afterBlankLine_spec in Ht as (w & Hw & ->).
  change (nl ++ nl ++ x ++ tail)
    with (String (ascii_of_nat 10) (String (ascii_of_nat 10) (x ++ tail))).
  cbn [trimStart]. rewrite nl_space.
  rewrite (trimStart_app x tail Hz).
  rewrite <- JsFacts.append_assoc.
  rewrite untilNextHeading_skip.
  - rewrite Hu, JsFacts.append_assoc. now apply trim_between.
  - apply noMarkerIn_text; [exact Htail|].
    apply includes_ws_app; [exact Hw|]. now apply includes_trimStart.
  - destruct Htail as [->|(rest & ->)]; reflexivity.
Qed.

(** *** the text of a finding file *)

Lemma findHeading_unfold name s :
  findHeading name s
  = match headingAt name s with
    | Some rest => Some rest
    | None => match s with
              | EmptyString => None
              | String _ s' => findHeading name s'
              end
    end.
Proof. now destruct s. Qed.

Lemma findHeading_here name r t :
  afterBlankLine r = Some t ->
  findHeading name (("## " ++ name) ++ r) = Some t.
Proof.
  intros Ht. rewrite findHeading_unfold. unfold headingAt.
  now rewrite stripPrefixCI_app, Ht.
Qed.

Lemma findHeading_nl name r :
  findHeading name (nl ++ r) = findHeading name r.
Proof. apply findHeading_skip, noMarkerIn_ws. reflexivity. Qed.

Lemma findHeading_text name x r :
  lineEnd r -> includes x "## " = false ->
  findHeading name (x ++ r) = findHeading name r.
Proof. intros Hr Hx. now apply findHeading_skip, noMarkerIn_text. Qed.

(** a heading of another section is passed over *)
Lemma findHeading_other name other r :
  headingAt name (("## " ++ other) ++ r) = None ->
  noMarkerIn ("# " ++ other) r = true ->
  findHeading name (("## " ++ other) ++ r) = findHeading name r.
Proof.
  intros Hhead Hrest. rewrite findHeading_unfold, Hhead.
  change (("## " ++ other) ++ r) with (String "#" (("# " ++ other) ++ r)).
  now apply findHeading_skip.
Qed.

Lemma description_not_evidence r :
  findHeading "Evidence" ("## Description" ++ r) = findHeading "Evidence" r.
Proof. apply (findHeading_other "Evidence" "Description"); reflexivity. Qed.

Lemma description_not_recommendations r :
  findHeading "Recommendations" ("## Description" ++ r)
  = findHeading "Recommendations" r.
Proof. apply (findHeading_other "Recommendations" "Description"); reflexivity. Qed.

Lemma evidence_not_recommendations r :
  findHeading "Recommendations" ("## Evidence" ++ r)
  = findHeading "Recommendations" r.
Proof. apply (findHeading_other "Recommendations" "Evidence"); reflexivity. Qed.

Lemma recommendations_not_evidence r :
  findHeading "Evidence" ("## Recommendations" ++ r)
  = findHeading "Evidence" r.
Proof. apply (findHeading_other "Evidence" "Recommendations"); reflexivity. Qed.

Lemma gap_lineEnd v : lineEnd (nl ++ nl ++ v).
Proof. right. now eexists. Qed.

Lemma gap_captured v :
  sectionEnd v -> ws (untilNextHeading (nl ++ nl ++ v)) = true.
Proof.
  intros [->|[->|Hv]]; [reflexivity|reflexivity|].
  change (nl ++ nl ++ v)
    with (String (ascii_of_nat 10) (String (ascii_of_nat 10) v)).
  cbn [untilNextHeading].
  change (nl ++ "## ") with (String (ascii_of_nat 10) "## ").
  cbn [startsWith]. fold (startsWith v "## "). rewrite Hv. reflexivity.
Qed.

(** the section [name] with text [x], followed by [v] *)
Lemma section_read name x v :
  sectionText x = true -> sectionEnd v ->
  match findHeading name
          (("## " ++ name) ++ nl ++ nl ++ x ++ nl ++ nl ++ v) with
  | Some rest => Some (trim (untilNextHeading rest))
  | None => None
  end = Some (trim x).
Proof.
  intros Hx Hv.
  destruct (afterBlankLine_nl (nl ++ x ++ nl ++ nl ++ v)) as (t & Ht).
  change (String (ascii_of_nat 10) (nl ++ x ++ nl ++ nl ++ v))
    with (nl ++ nl ++ x ++ nl ++ nl ++ v) in Ht.
  rewrite (findHeading_here name _ t Ht). f_equal.
  now apply (captured x (nl ++ nl ++ v) _ t Hx (gap_lineEnd v) eq_refl
               (gap_captured v Hv)).
Qed.

(** the last section, followed by the end of the file *)
Lemma last_section_read name x t :
  sectionText x = true -> t = "" \/ t = nl ->
  match findHeading name (("## " ++ name) ++ nl ++ nl ++ x ++ t) with
  | Some rest => Some (trim (untilNextHeading rest))
  | None => None
  end = Some (trim x).
Proof.
  intros Hx Ht.
  destruct (afterBlankLine_nl (nl ++ x ++ t)) as (t' & Ht').
  change (String (ascii_of_nat 10) (nl ++ x ++ t))
    with (nl ++ nl ++ x ++ t) in Ht'.
  rewrite (findHeading_here name _ t' Ht'). f_equal.
  apply (captured x t (untilNextHeading t) t' Hx); [|reflexivity| |exact Ht'].
  - destruct Ht as [->| ->]; [now left|right; now eexists].
  - destruct Ht as [->| ->]; reflexivity.
Qed.

Lemma findingBody_parts d ev rc :
  findingBody d ev rc
  = "## Description" ++ nl ++ nl ++ d ++ nl ++ nl
    ++ evidencePart ev ++ recommendationsPart rc.
Proof. reflexivity. Qed.

Lemma optionalText_cases o :
  optionalText o = true ->
  (optText o = None /\ (o = None \/ o = Some "")) \/
  exists x, o = Some x /\ truthy x = true /\ sectionText x = true.
Proof.
  destruct o as [x|]; [|intros _; left; auto]. cbn [optionalText optText].
  destruct (truthy x) eqn:Hx; cbn [negb orb].
  - intros H. right. now exists x.
  - intros _. left. split; [reflexivity|]. right. now destruct x.
Qed.

Lemma sectionText_marker x :
  sectionText x = true -> includes x "## " = false.
Proof.
  unfold sectionText. intros H. apply andb_true_iff in H as [H _].
  now apply negb_true_iff in H.
Qed.

Section Parts.

Variable t : string.
Hypothesis Ht : t = "" \/ t = nl.

Lemma end_sectionEnd : sectionEnd t.
Proof. destruct Ht as [->| ->]; [now left|right; now left]. Qed.

Lemma end_lineEnd : lineEnd t.
Proof. destruct Ht as [->| ->]; [now left|right; now eexists]. Qed.

Lemma end_no_heading name : findHeading name t = None.
Proof.
  destruct Ht as [->| ->]; reflexivity.
Qed.

Lemma recommendations_sectionEnd rc :
  sectionEnd (recommendationsPart rc ++ t).
Proof.
  destruct rc as [x|]; cbn [recommendationsPart]; [|apply end_sectionEnd].
  destruct (truthy x); [|apply end_sectionEnd]. right. right. reflexivity.
Qed.

Lemma recommendations_no_evidence rc :
  optionalText rc = true ->
  findHeading "Evidence" (recommendationsPart rc ++ t) = None.
Proof.
  intros Hrc.
  destruct (optionalText_cases rc Hrc)
    as [[_ [->| ->]]|(x & -> & Hx & Htext)];
    cbn [recommendationsPart truthy]; try apply end_no_heading.
  rewrite Hx. rewrite !JsFacts.append_assoc.
  rewrite recommendations_not_evidence, !findHeading_nl.
  rewrite (findHeading_text _ x t end_lineEnd (sectionText_marker x Htext)).
  apply end_no_heading.
Qed.

Lemma recommendations_read rc :
  optionalText rc = true ->
  extractSection (recommendationsPart rc ++ t) "Recommendations"
  = optText rc.
Proof.
  intros Hrc. unfold extractSection.
  destruct (optionalText_cases rc Hrc)
    as [[_ [->| ->]]|(x & -> & Hx & Htext)].
  - cbn [recommendationsPart optText append]. now rewrite end_no_heading.
  - cbn [recommendationsPart optText truthy append].
    now rewrite end_no_heading.
  - cbn [recommendationsPart optText]. rewrite Hx.
    rewrite !JsFacts.append_assoc.
    exact (last_section_read "Recommendations" x t Htext Ht).
Qed.

Lemma evidence_sectionEnd ev w :
  sectionEnd w -> sectionEnd (evidencePart ev ++ w).
Proof.
  intros Hw. destruct ev as [x|]; cbn [evidencePart]; [|exact Hw].
  destruct (truthy x); [|exact Hw]. right. right. reflexivity.
Qed.

Lemma evidence_passed ev w :
  optionalText ev = true ->
  findHeading "Recommendations" (evidencePart ev ++ w)
  = findHeading "Recommendations" w.
Proof.
  intros Hev.
  destruct (optionalText_cases ev Hev)
    as [[_ [->| ->]]|(x & -> & Hx & Htext)];
    cbn [evidencePart truthy]; try reflexivity.
  rewrite Hx. rewrite !JsFacts.append_assoc.
  rewrite evidence_not_recommendations, !findHeading_nl.
  rewrite (findHeading_text _ x _ (gap_lineEnd w) (sectionText_marker x Htext)).
  now rewrite !findHeading_nl.
Qed.

Lemma evidence_read ev w :
  optionalText ev = true -> sectionEnd w ->
  findHeading "Evidence" w = None ->
  extractSection (evidencePart ev ++ w) "Evidence" = optText ev.
Proof.
  intros Hev Hw Hnone. unfold extractSection.
  destruct (optionalText_cases ev Hev)
    as [[_ [->| ->]]|(x & -> & Hx & Htext)].
  - cbn [evidencePart optText append]. now rewrite Hnone.
  - cbn [evidencePart optText truthy append]. now rewrite Hnone.
  - cbn [evidencePart optText]. rewrite Hx.
    rewrite !JsFacts.append_assoc.
    exact (section_read "Evidence" x w Htext Hw).
Qed.

(** the three sections of the text [createFinding] writes, read back *)
Lemma body_read d ev rc :
  sectionText d = true ->
  optionalText ev = true -> optionalText rc = true ->
  extractSection (findingBody d ev rc ++ t) "Description" = Some (trim d) /\
  extractSection (findingBody d ev rc ++ t) "Evidence" = optText ev /\
  extractSection (findingBody d ev rc ++ t) "Recommendations" = optText rc.
Proof.
  intros Hd Hev Hrc. rewrite findingBody_parts, !JsFacts.append_assoc.
  pose proof (sectionText_marker d Hd) as Hmark.
  pose proof (recommendations_sectionEnd rc) as Hend.
  split; [|split].
  - unfold extractSection.
    exact (section_read "Description" d _ Hd (evidence_sectionEnd ev _ Hend)).
  - rewrite <- (evidence_read ev (recommendationsPart rc ++ t) Hev Hend
                  (recommendations_no_evidence rc Hrc)).
    unfold extractSection.
    rewrite description_not_evidence, !findHeading_nl.
    rewrite (findHeading_text _ d _ (gap_lineEnd _) Hmark).
    now rewrite !findHeading_nl.
  - rewrite <- (recommendations_read rc Hrc).
    unfold extractSection.
    rewrite description_not_recommendations, !findHeading_nl.
    rewrite (findHeading_text _ d _ (gap_lineEnd _) Hmark).
    now rewrite !findHeading_nl, (evidence_passed ev _ Hev).
Qed.

End Parts.

Lemma newline_cases body :
  exists t, (t = "" \/ t = nl) /\ newline body = body ++ t.
Proof.
  unfold newline. destruct (endsWith body nl).
  - exists "". split; [now left|]. now rewrite JsFacts.append_empty_r.
  - exists nl. split; [now right|reflexivity].
Qed.

End SectionFacts.

Lemma indexed_recorded s projectName :
  indexed s projectName -> exists md, recorded s projectName md.
Proof.
  intros (Hcache & idx & t & md & Hfile & Hget). exists md, idx.
  split; [|exact Hget]. unfold indexOf. now rewrite Hcache, Hfile.
Qed.

(** C2 (counterexample): a description that ends in a blank is a valid
    input; the finding [createFinding] returns carries it as given, the
    finding [getFinding] then returns carries it without the blank. *)
Lemma createFinding_getFinding_trims :
  exists created s' read,
    createFinding Sample.env "0a1b2c3d" "p"
                  (Sample.xss "Comments are rendered unescaped. ")
                  Sample.oneProject = (Ok created, s') /\
    fst (getFinding Sample.env "p" (f_id created) s') = Ok read /\
    f_description created = "Comments are rendered unescaped. " /\
    f_description read = "Comments are rendered unescaped." /\
    read <> created.
Proof.
  do 3 eexists. split; [vm_compute; reflexivity|].
  split; [vm_compute; reflexivity|].
  split; [reflexivity|]. split; [reflexivity|]. discriminate.
Qed.

(** C2 (amended): let [createFinding] return a finding for an input whose
    description is not blank and whose evidence and recommendations are
    absent, empty or not blank, none of them containing the heading marker
    [## ], on an engine without I/O failures where the metadata block fits
    the size limit. Then [getFinding] with the returned id returns the
    created finding with its three texts trimmed of surrounding white space
    and its empty optional sections absent; every other field is equal. For
    texts without surrounding white space that is the created finding
    itself, up to the empty optional sections. *)
Theorem createFinding_getFinding
        (E : Env) (randomId projectName : string) (input : FindingInput)
        (s s' : State) (finding : Finding) :
  reliable E ->
  sectionText (fi_description input) = true ->
  optionalText (fi_evidence input) = true ->
  optionalText (fi_recommendations input) = true ->
  createFinding E randomId projectName input s = (Ok finding, s') ->
  yamlLength E (findingFrontmatter finding) <= getYamlSizeLimit E ->
  fst (getFinding E projectName (f_id finding) s') = Ok (readBack finding) /\
  (Js.trim (f_description finding) = f_description finding ->
   optText (f_evidence finding) = f_evidence finding ->
   optText (f_recommendations finding) = f_recommendations finding ->
   readBack finding = finding).
Proof.
  intros Hio Hd Hev Hrc Hcreate Hsize. split.
  2:{ intros H1 H2 H3. unfold readBack. rewrite H1, H2, H3.
      now destruct finding. }
  destruct (createFinding_ok_inv E _ _ _ _ _ _ Hcreate)
    as (Hbuilt & (t & Hfile) & Hindexed).
  destruct (indexed_recorded _ _ Hindexed) as (md & Hrec).
  unfold findingContent, matterStringify, findingFrontmatter in Hfile.
  unfold findingFrontmatter in Hsize.
  destruct (getFinding_readable E Hio s' projectName (f_id finding) md _ _ t
              Hrec Hfile Hsize) as (idx & _ & ->).
  cbn [fst]. f_equal.
  assert (Hd' : sectionText (f_description finding) = true)
    by now rewrite Hbuilt.
  assert (Hev' : optionalText (f_evidence finding) = true)
    by now rewrite Hbuilt.
  assert (Hrc' : optionalText (f_recommendations finding) = true)
    by now rewrite Hbuilt.
  destruct (SectionFacts.newline_cases
              (findingBody (f_description finding) (f_evidence finding)
                           (f_recommendations finding)))
    as (tail & Htail & ->).
  destruct (SectionFacts.body_read tail Htail _ _ _ Hd' Hev' Hrc')
    as (H1 & H2 & H3).
  unfold parsedFinding, readBack. cbn [fm_id fm_title fm_severity fm_cwe
    fm_cvssString fm_cvssScore fm_components fm_created fm_updated].
  now rewrite H1, H2, H3.
Qed.

Lemma createFinding_getFinding_witness :
  exists created s',
    createFinding Sample.env "0a1b2c3d" "p"
                  (Sample.xss " Comments are rendered unescaped. ")
                  Sample.oneProject = (Ok created, s') /\
    fst (getFinding Sample.env "p" (f_id created) s')
    = Ok (readBack created) /\
    f_description (readBack created) = "Comments are rendered unescaped."
    /\ f_evidence (readBack created)
       = Some "<script>alert(1)</script> is echoed back." /\
    f_recommendations (readBack created) = None.
Proof.
  destruct (createFinding Sample.env "0a1b2c3d" "p"
              (Sample.xss " Comments are rendered unescaped. ")
              Sample.oneProject) as [r s'] eqn:Hrun.
  assert (Hok : exists created, r = Ok created).
  { revert Hrun. vm_compute. intros [= <- _]. now eexists. }
  destruct Hok as (created & ->).
  exists created, s'. split; [reflexivity|].
  assert (Hcreated : created
                     = builtFinding "0a1b2c3d"
                         (Sample.xss " Comments are rendered unescaped. ")
                         (clock Sample.oneProject)
                         (derivedScore Sample.env
                            (Sample.xss " Comments are rendered unescaped. "))).
  { apply (createFinding_ok_inv _ _ _ _ _ _ _ Hrun). }
  split.
  - apply (createFinding_getFinding Sample.env "0a1b2c3d" "p"
             (Sample.xss " Comments are rendered unescaped. ")
             Sample.oneProject s' created).
    + intros op p. reflexivity.
    + reflexivity.
    + reflexivity.
    + reflexivity.
    + exact Hrun.
    + vm_compute. discriminate.
  - subst created. repeat split; reflexivity.
Defined.

(** ** Names and ids *)

Module NameFacts.
Import Js.

Lemma strAll_app P a b :
  strAll P a = true -> strAll P b = true -> strAll P (a ++ b) = true.
Proof.
  induction a as [|c a IH]; cbn [append strAll]; [auto|].
  intros H Hb. apply andb_true_iff in H as [Hc Ha]. rewrite Hc.
  now apply IH.
Qed.

Lemma strAll_take P n s : strAll P s = true -> strAll P (take n s) = true.
Proof.
  revert s. induction n as [|n IH]; intros [|c s]; cbn [take strAll]; auto.
  intros H. apply andb_true_iff in H as [Hc Hs]. rewrite Hc. now apply IH.
Qed.

Lemma length_take n s : (String.length (take n s) <= n)%nat.
Proof.
  revert s. induction n as [|n IH]; intros [|c s]; cbn [take String.length];
    try lia.
  specialize (IH s). lia.
Qed.

Lemma strAll_excludes P s c :
  strAll P s = true -> P c = false ->
  includes s (String c EmptyString) = false.
Proof.
  intros Hs Hc.
  destruct (includes s (String c EmptyString)) eqn:H; [|reflexivity].
  pose proof (PhraseFacts.includes_strAll P _ _ Hs H) as Hall.
  cbn [strAll] in Hall. rewrite Hc in Hall. discriminate.
Qed.

Lemma strAll_dashed P b s :
  strAll P s = true ->
  strAll (fun c => (P c && negb (isSpace c)) || Ascii.eqb c "-")
         (dashRuns b s) = true.
Proof.
  revert b. induction s as [|c s IH]; intros b; cbn [dashRuns strAll];
    [reflexivity|].
  intros H. apply andb_true_iff in H as [Hc Hs].
  destruct (isSpace c) eqn:Hsp.
  - destruct b; [now apply IH|]. cbn [strAll]. rewrite (IH true Hs).
    now rewrite orb_true_r.
  - cbn [strAll]. now rewrite Hc, Hsp, (IH false Hs).
Qed.

Lemma kept_lower_slug (c : ascii) :
  ((isAlnum c || isSpace c) && negb (isSpace c)) || Ascii.eqb c "-" = true ->
  slugChar (lower c) = true.
Proof.
  destruct c as [[] [] [] [] [] [] [] []]; vm_compute; congruence.
Qed.

Lemma slug_chars title : strAll slugChar (slug title) = true.
Proof.
  unfold slug. apply strAll_take.
  apply (SanitizeFacts.strAll_toLowerCase
           (fun c => ((isAlnum c || isSpace c) && negb (isSpace c))
                     || Ascii.eqb c "-")).
  - exact kept_lower_slug.
  - apply (strAll_dashed (fun c => isAlnum c || isSpace c)).
    apply SanitizeFacts.strAll_filterChars.
Qed.

Lemma slug_id (c : ascii) : slugChar c = true -> idChar c = true.
Proof. destruct c as [[] [] [] [] [] [] [] []]; vm_compute; congruence. Qed.

Lemma hex_id (c : ascii) : hexChar c = true -> idChar c = true.
Proof. destruct c as [[] [] [] [] [] [] [] []]; vm_compute; congruence. Qed.

End NameFacts.

(** X1: the result of [sanitizeProjectName] holds only lower-case letters,
    digits, [-] and [_]; so it has no [/], no [.] and no blank, and
    sanitizing it again changes nothing. A name and its sanitized form are
    valid together. *)
Theorem sanitizeProjectName_safe (name : string) :
  strAll cleanChar (sanitizeProjectName name) = true /\
  Js.includes (sanitizeProjectName name) "/" = false /\
  Js.includes (sanitizeProjectName name) "." = false /\
  Js.includes (sanitizeProjectName name) " " = false /\
  sanitizeProjectName (sanitizeProjectName name) = sanitizeProjectName name /\
  isValidProjectName (sanitizeProjectName name) = isValidProjectName name.
Proof.
  pose proof (SanitizeFacts.sanitize_clean name) as Hclean.
  repeat split.
  - exact Hclean.
  - now apply (NameFacts.strAll_excludes cleanChar).
  - now apply (NameFacts.strAll_excludes cleanChar).
  - now apply (NameFacts.strAll_excludes cleanChar).
  - apply SanitizeFacts.sanitize_idempotent.
  - unfold isValidProjectName.
    now rewrite SanitizeFacts.sanitize_idempotent.
Qed.

(** X2: the id [sanitizeFindingId] and [sanitizeAuditId] build ends in a
    slug of at most 20 characters, all of them lower-case letters, digits or
    [-]; with the eight hexadecimal digits the engine draws, the whole id
    holds only letters, digits and [-], so it has no [/] and no [.]. *)
Theorem record_id_safe (randomId title : string) :
  (String.length (slug title) <= 20)%nat /\
  strAll slugChar (slug title) = true /\
  (strAll hexChar randomId = true ->
   strAll idChar (sanitizeFindingId randomId title) = true /\
   strAll idChar (sanitizeAuditId randomId title) = true /\
   Js.includes (sanitizeFindingId randomId title) "/" = false /\
   Js.includes (sanitizeFindingId randomId title) "." = false /\
   Js.includes (sanitizeAuditId randomId title) "/" = false /\
   Js.includes (sanitizeAuditId randomId title) "." = false).
Proof.
  split; [apply NameFacts.length_take|].
  split; [apply NameFacts.slug_chars|].
  intros Hhex.
  assert (Hrest : strAll idChar (randomId ++ "-" ++ slug title) = true).
  { apply NameFacts.strAll_app.
    - eapply SanitizeFacts.strAll_impl; [exact NameFacts.hex_id|exact Hhex].
    - apply (NameFacts.strAll_app idChar "-"); [reflexivity|].
      eapply SanitizeFacts.strAll_impl;
        [exact NameFacts.slug_id|apply NameFacts.slug_chars]. }
  assert (Hf : strAll idChar (sanitizeFindingId randomId title) = true).
  { unfold sanitizeFindingId.
    now apply (NameFacts.strAll_app idChar "FIND-"). }
  assert (Ha : strAll idChar (sanitizeAuditId randomId title) = true).
  { unfold sanitizeAuditId.
    now apply (NameFacts.strAll_app idChar "AUDIT-"). }
  repeat split; try assumption;
    now apply (NameFacts.strAll_excludes idChar).
Qed.

Lemma record_id_safe_witness :
  strAll idChar (sanitizeFindingId "0a1b2c3d" "SQL injection: login form!")
  = true /\
  sanitizeFindingId "0a1b2c3d" "SQL injection: login form!"
  = "FIND-0a1b2c3d-sql-injection-login-".
Proof.
  split; [|reflexivity].
  apply (record_id_safe "0a1b2c3d" "SQL injection: login form!").
  reflexivity.
Defined.

(** ** CVSS scores *)

Module CvssFacts.
Import Js.

Lemma trimEnd_head c z :
  isSpace c = false -> exists t, trimEnd (String c z) = String c t.
Proof.
  intros Hc. cbn [trimEnd]. rewrite Hc.
  destruct (trimEnd z); eauto.
Qed.

Lemma trimStart_cases s :
  trimStart s = "" \/
  exists c z, trimStart s = String c z /\ isSpace c = false.
Proof.
  induction s as [|c s IH]; [now left|]. cbn [trimStart].
  destruct (isSpace c) eqn:Hc; [exact IH|]. right. eauto.
Qed.

Lemma trimEnd_cons c s :
  trimEnd (String c s)
  = match trimEnd s with
    | EmptyString => if isSpace c then EmptyString else String c EmptyString
    | t => String c t
    end.
Proof. reflexivity. Qed.

Lemma trimEnd_idem s : trimEnd (trimEnd s) = trimEnd s.
Proof.
  induction s as [|c s IH]; [reflexivity|]. rewrite trimEnd_cons.
  destruct (trimEnd s) as [|d t] eqn:Hs.
  - destruct (isSpace c) eqn:Hc; [reflexivity|]. cbn [trimEnd]. now rewrite Hc.
  - rewrite trimEnd_cons, IH. reflexivity.
Qed.

Lemma trim_idem s : trim (trim s) = trim s.
Proof.
  unfold trim. destruct (trimStart_cases s) as [->|(c & z & -> & Hc)];
    [reflexivity|].
  destruct (trimEnd_head c z Hc) as (t & Ht). rewrite Ht.
  cbn [trimStart]. rewrite Hc, <- Ht. apply trimEnd_idem.
Qed.

Lemma startsWith_same s p q :
  startsWith s p = true -> startsWith s q = true ->
  String.length p = String.length q -> p = q.
Proof.
  revert p q. induction s as [|c s IH]; intros [|a p] [|b q];
    cbn [startsWith String.length]; try discriminate; try reflexivity.
  intros Hp Hq Hlen.
  apply andb_true_iff in Hp as [Ha Hp], Hq as [Hb Hq].
  apply Ascii.eqb_eq in Ha, Hb. subst a b. f_equal.
  apply IH; [exact Hp|exact Hq|now injection Hlen].
Qed.

Lemma truthy_empty s : truthy s = false <-> s = "".
Proof. destruct s; cbn; split; congruence. Qed.

End CvssFacts.

Section Scores.

Variable E : Env.

Lemma scoreWith_outcome calc version cleanVector :
  match scoreWith calc version cleanVector with
  | inl e => isCVSSError e = true
  | inr score => ~ score == 0
  end.
Proof.
  unfold scoreWith. destruct (calc cleanVector) as [base|name msg].
  - unfold baseOf. destruct base as [q|]; [|reflexivity].
    destruct (Qeq_bool q 0) eqn:Hq; [reflexivity|].
    intros H. apply Qeq_bool_iff in H. congruence.
  - unfold cvssLibraryError.
    repeat match goal with
           | |- context [if ?b then _ else _] => destruct b
           end; reflexivity.
Qed.

Lemma scoreWith_zero calc version cleanVector base :
  calc cleanVector = Scores base ->
  (base = None \/ exists q, base = Some q /\ q == 0) ->
  scoreWith calc version cleanVector
  = inl (CVSSError ("CVSS " ++ version
                    ++ " calculation returned invalid scores")).
Proof.
  intros Hcalc Hbase. unfold scoreWith. rewrite Hcalc.
  destruct Hbase as [->|(q & -> & Hq)]; [reflexivity|].
  cbn [baseOf]. apply Qeq_bool_iff in Hq. now rewrite Hq.
Qed.

End Scores.

(** X3: [calculateCVSSScore] fails with a [CVSSError] only, and a score it
    returns is never 0: a vector for which the calculator gives the base
    score 0 (or none) is refused with the message [CVSS <version>
    calculation returned invalid scores], here for a CVSS 3.1 vector. *)
Theorem calculateCVSSScore_outcome (E : Env) (vector : string) :
  match calculateCVSSScore E vector with
  | inl e => isCVSSError e = true
  | inr score => ~ score == 0
  end /\
  (Js.startsWith (Js.trim vector) "CVSS:3.1" = true ->
   Cvss3P1 E (Js.trim vector) = Scores (Some (0 # 1)) ->
   calculateCVSSScore E vector
   = inl (CVSSError "CVSS 3.1 calculation returned invalid scores")).
Proof.
  split.
  - unfold calculateCVSSScore.
    repeat match goal with
           | |- context [if ?b then _ else _] => destruct b
           end; try reflexivity; apply scoreWith_outcome.
  - intros Hprefix Hzero. unfold calculateCVSSScore.
    assert (Hne : Js.trim vector <> "").
    { intros H. rewrite H in Hprefix. discriminate. }
    assert (Htruthy : Js.truthy vector = true).
    { destruct vector; [now contradiction Hne|reflexivity]. }
    rewrite Htruthy. cbn [negb orb].
    destruct (String.eqb_spec (Js.trim vector) ""); [contradiction|].
    assert (H40 : Js.startsWith (Js.trim vector) "CVSS:4.0" = false).
    { destruct (Js.startsWith (Js.trim vector) "CVSS:4.0") eqn:H;
        [|reflexivity].
      pose proof (CvssFacts.startsWith_same _ _ _ Hprefix H eq_refl).
      discriminate. }
    rewrite H40, Hprefix.
    apply (scoreWith_zero (Cvss3P1 E) "3.1" _ (Some (0 # 1)) Hzero).
    right. exists (0 # 1). split; reflexivity.
Qed.

Lemma calculateCVSSScore_outcome_witness :
  calculateCVSSScore Sample.zeroScoreEnv
    "CVSS:3.1/AV:N/AC:L/PR:N/UI:N/S:U/C:N/I:N/A:N"
  = inl (CVSSError "CVSS 3.1 calculation returned invalid scores").
Proof.
  apply (proj2 (calculateCVSSScore_outcome Sample.zeroScoreEnv
                  "CVSS:3.1/AV:N/AC:L/PR:N/UI:N/S:U/C:N/I:N/A:N"));
    reflexivity.
Defined.

(** X4: white space around a vector does not matter to
    [calculateCVSSScore]: the vector and its trimmed form get the same score
    or the same error message, and a blank vector is refused as empty. *)
Theorem calculateCVSSScore_trim (E : Env) (vector : string) :
  calculateCVSSScore E (Js.trim vector) = calculateCVSSScore E vector /\
  (Js.trim vector = "" ->
   calculateCVSSScore E vector
   = inl (CVSSError "Invalid CVSS vector: empty or null string")).
Proof.
  split.
  - unfold calculateCVSSScore. rewrite CvssFacts.trim_idem.
    destruct (String.eqb_spec (Js.trim vector) "") as [Hblank|Hne].
    + rewrite Hblank. cbn. now rewrite orb_true_r.
    + assert (H1 : Js.truthy (Js.trim vector) = true).
      { destruct (Js.trim vector); [now contradiction Hne|reflexivity]. }
      assert (H2 : Js.truthy vector = true).
      { destruct vector; [now contradiction Hne|reflexivity]. }
      now rewrite H1, H2.
  - intros Hblank. unfold calculateCVSSScore. rewrite Hblank.
    cbn. now rewrite orb_true_r.
Qed.

Lemma calculateCVSSScore_trim_witness :
  calculateCVSSScore Sample.env "   " 
  = inl (CVSSError "Invalid CVSS vector: empty or null string").
Proof.
  apply (proj2 (calculateCVSSScore_trim Sample.env "   ")). reflexivity.
Defined.

(** X5: [getCVSSSeverityRating] is monotone: a higher score never gets a
    lower rating ([None] < [Low] < [Medium] < [High] < [Critical]); a score
    below 0.1 is rated [None], a score of at least 9 [Critical]. *)
Theorem getCVSSSeverityRating_monotone (a b : Q) :
  (a <= b)%Q ->
  (ratingRank (getCVSSSeverityRating a)
   <= ratingRank (getCVSSSeverityRating b))%nat /\
  ((a < 1 # 10)%Q -> getCVSSSeverityRating a = "None") /\
  ((9 <= b)%Q -> getCVSSSeverityRating b = "Critical").
Proof.
  intros Hab.
  assert (Hstep : forall t x,
             Qle_bool t x = false -> forall y, (y <= x)%Q ->
             Qle_bool t y = false).
  { intros t x Hx y Hy. destruct (Qle_bool t y) eqn:Ht; [|reflexivity].
    apply Qle_bool_iff in Ht.
    assert (Htx : Qle_bool t x = true)
      by (apply Qle_bool_iff; now apply (Qle_trans _ y)).
    congruence. }
  split; [|split].
  - unfold getCVSSSeverityRating.
    destruct (Qle_bool 9 b) eqn:H9.
    { repeat match goal with
             | |- context [if ?c then _ else _] => destruct c
             end; cbn; lia. }
    rewrite (Hstep _ _ H9 a Hab).
    destruct (Qle_bool 7 b) eqn:H7.
    { repeat match goal with
             | |- context [if ?c then _ else _] => destruct c
             end; cbn; lia. }
    rewrite (Hstep _ _ H7 a Hab).
    destruct (Qle_bool 4 b) eqn:H4.
    { repeat match goal with
             | |- context [if ?c then _ else _] => destruct c
             end; cbn; lia. }
    rewrite (Hstep _ _ H4 a Hab).
    destruct (Qle_bool (1 # 10) b) eqn:H1.
    { repeat match goal with
             | |- context [if ?c then _ else _] => destruct c
             end; cbn; lia. }
    rewrite (Hstep _ _ H1 a Hab). cbn. lia.
  - intros Hlow. unfold getCVSSSeverityRating.
    assert (H1 : Qle_bool (1 # 10) a = false).
    { destruct (Qle_bool (1 # 10) a) eqn:H; [|reflexivity].
      apply Qle_bool_iff in H. now apply Qle_not_lt in H. }
    assert (Hup : forall t, (1 # 10 <= t)%Q -> Qle_bool t a = false).
    { intros t Ht. destruct (Qle_bool t a) eqn:H; [|reflexivity].
      apply Qle_bool_iff in H.
      assert (Qle_bool (1 # 10) a = true)
        by (apply Qle_bool_iff; now apply (Qle_trans _ t)).
      congruence. }
    rewrite (Hup 9%Q), (Hup 7%Q), (Hup 4%Q), H1 by (unfold Qle; cbn; lia).
    reflexivity.
  - intros Hhigh. unfold getCVSSSeverityRating.
    apply Qle_bool_iff in Hhigh. now rewrite Hhigh.
Qed.

Lemma getCVSSSeverityRating_monotone_witness :
  (ratingRank (getCVSSSeverityRating (69 # 10))
   <= ratingRank (getCVSSSeverityRating (98 # 10)))%nat /\
  getCVSSSeverityRating (69 # 10) = "Medium" /\
  getCVSSSeverityRating (98 # 10) = "Critical".
Proof.
  split; [|split; reflexivity].
  apply (getCVSSSeverityRating_monotone (69 # 10) (98 # 10)).
  unfold Qle. cbn. lia.
Defined.
(** ** Settings *)

(** X6: whatever the process environment holds, the settings
    [getServerConfig] gives lie in their ranges: the cache size in
    [1, 10000], the lock stale time in [5000, 300000] ms, the number of SSE
    connections in [1, 1000], the YAML size in [1, 10485760]; an [LRUCache]
    built with that cache size has exactly that capacity. When one variable
    is refused by the schema, every setting falls back to its default, also
    those whose variables are well formed. *)
Theorem getServerConfig_ranges (env : ProcessEnv) :
  1 <= sc_cacheSize (getServerConfig env) <= 10000 /\
  5000 <= sc_lockStaleMs (getServerConfig env) <= 300000 /\
  1 <= sc_maxSseConnections (getServerConfig env) <= 1000 /\
  1 <= sc_maxYamlSize (getServerConfig env) <= 10485760 /\
  LRU.capacity (Some (Js.Finite (inject_Z (sc_cacheSize (getServerConfig env)))))
  = sc_cacheSize (getServerConfig env) /\
  (validateEnvironment env = false ->
   getServerConfig env = mkServerConfig 10240 50 100 60000).
Proof.
  pose proof (getServerConfig_within env) as Hranges.
  destruct Hranges as (Hc & Hl & Hs & Hy).
  repeat split; try lia.
  - now apply capacity_exact.
  - apply getServerConfig_refused.
Qed.

Lemma getServerConfig_ranges_witness :
  getServerConfig
    (mkProcessEnv None None None None None None None (Some "200") None
                  (Some "30000") (Some "verbose") None None None None None)
  = mkServerConfig 10240 50 100 60000.
Proof.
  apply (getServerConfig_ranges
           (mkProcessEnv None None None None None None None (Some "200") None
                         (Some "30000") (Some "verbose") None None None None None)).
  reflexivity.
Defined.

(** ** The listing cache as a map *)

Module LRUMap.
Import LRU.

Section WithT.
Context {T : Type}.
Implicit Types (l : list (string * CacheEntry T)) (c : t T).

Lemma lookup_app key l l' :
  lookup key (l ++ l')
  = match lookup key l with
    | Some e => Some e
    | None => lookup key l'
    end.
Proof.
  induction l as [|[k e] l IH]; cbn [app lookup]; [reflexivity|].
  destruct (String.eqb k key); [reflexivity|exact IH].
Qed.

Lemma lookup_in key l e : lookup key l = Some e -> In key (map fst l).
Proof.
  induction l as [|[k e'] l IH]; cbn [lookup map fst In]; [discriminate|].
  destruct (String.eqb_spec k key); [now left|]. intros H. right. now apply IH.
Qed.

Lemma lookup_not_in key l : ~ In key (map fst l) -> lookup key l = None.
Proof.
  intros H. destruct (lookup key l) eqn:Hl; [|reflexivity].
  now apply lookup_in in Hl.
Qed.

Lemma lookup_not_in_inv key l : lookup key l = None -> ~ In key (map fst l).
Proof.
  induction l as [|[k e] l IH]; cbn [lookup map fst In]; [tauto|].
  destruct (String.eqb_spec k key); [discriminate|]. intros H [Hk|Hin];
    [contradiction|]. now apply IH.
Qed.

Lemma remove_in key k l : In k (map fst (remove key l)) -> In k (map fst l).
Proof.
  induction l as [|[k' e] l IH]; cbn [remove map fst In]; [auto|].
  destruct (String.eqb k' key); cbn [map fst In]; intuition.
Qed.

Lemma remove_distinct key l :
  NoDup (map fst l) -> NoDup (map fst (remove key l)).
Proof.
  induction l as [|[k e] l IH]; cbn [remove map fst]; [auto|].
  intros H. apply NoDup_cons_iff in H as [Hk Hl].
  destruct (String.eqb k key); [exact Hl|]. cbn [map fst].
  constructor; [|now apply IH]. intros Hin. apply Hk.
  now apply (remove_in key).
Qed.

Lemma lookup_remove_same key l :
  NoDup (map fst l) -> lookup key (remove key l) = None.
Proof.
  induction l as [|[k e] l IH]; cbn [remove map fst]; [reflexivity|].
  intros H. apply NoDup_cons_iff in H as [Hk Hl].
  destruct (String.eqb_spec k key) as [->|Hne].
  - now apply lookup_not_in.
  - cbn [lookup]. destruct (String.eqb_spec k key); [contradiction|].
    now apply IH.
Qed.

Lemma lookup_remove_other key k l :
  k <> key -> lookup k (remove key l) = lookup k l.
Proof.
  intros Hne. induction l as [|[k' e] l IH]; cbn [remove lookup];
    [reflexivity|].
  destruct (String.eqb_spec k' key) as [->|Hk'].
  - destruct (String.eqb_spec key k); [congruence|reflexivity].
  - cbn [lookup]. now rewrite IH.
Qed.

Lemma remove_absent key l : lookup key l = None -> remove key l = l.
Proof.
  induction l as [|[k e] l IH]; cbn [remove lookup]; [reflexivity|].
  destruct (String.eqb k key); [discriminate|]. intros H. now rewrite IH.
Qed.

Lemma appended_distinct key e l :
  NoDup (map fst l) ->
  NoDup (map fst (remove key l ++ [(key, e)])).
Proof.
  intros Hl. rewrite map_app. cbn [map fst].
  apply NoDup_app.
  - now apply remove_distinct.
  - repeat constructor. intros [].
  - intros k Hin [Heq|[]]. subst k.
    pose proof (lookup_remove_same key l Hl) as Hnone.
    apply lookup_not_in_inv in Hnone. contradiction.
Qed.

Lemma evictIfNeeded_distinct c :
  distinctKeys c -> distinctKeys (evictIfNeeded c).
Proof.
  unfold distinctKeys, evictIfNeeded. intros Hc.
  destruct (size c <=? maxSize c); [exact Hc|].
  destruct (cache c) as [|[k e] l] eqn:Hl; [now rewrite Hl|].
  destruct (Js.truthy k); [|now rewrite Hl].
  cbn [cache]. now apply remove_distinct.
Qed.

Lemma set_distinct now key d lastMod c :
  distinctKeys c -> distinctKeys (set now key d lastMod c).
Proof.
  intros Hc. unfold set. apply evictIfNeeded_distinct.
  unfold distinctKeys. cbn [cache]. now apply appended_distinct.
Qed.

Lemma get_distinct now key c :
  distinctKeys c -> distinctKeys (snd (get now key c)).
Proof.
  intros Hc. unfold get.
  destruct (lookup key (cache c)); cbn [snd]; [|exact Hc].
  unfold distinctKeys. cbn [cache]. now apply appended_distinct.
Qed.

Lemma delete_distinct key c :
  distinctKeys c -> distinctKeys (snd (delete key c)).
Proof.
  intros Hc. unfold delete.
  destruct (lookup key (cache c)); cbn [snd]; [|exact Hc].
  unfold distinctKeys. cbn [cache]. now apply remove_distinct.
Qed.

(** the entry just set is in the cache *)
Lemma set_lookup now key d lastMod c :
  distinctKeys c -> 1 <= maxSize c ->
  lookup key (cache (set now key d lastMod c))
  = Some (mkEntry d lastMod now).
Proof.
  intros Hc Hmax. unfold set, evictIfNeeded, size. cbn [cache maxSize].
  set (e := mkEntry d lastMod now).
  assert (Hhere : lookup key (remove key (cache c) ++ [(key, e)]) = Some e).
  { rewrite lookup_app, (lookup_remove_same key _ Hc). cbn [lookup].
    now rewrite String.eqb_refl. }
  destruct (Z.leb_spec (Z.of_nat (length (remove key (cache c) ++ [(key, e)])))
                       (maxSize c)) as [_|Hover]; [exact Hhere|].
  pose proof (lookup_remove_same key _ Hc) as Hnone.
  destruct (remove key (cache c)) as [|[k0 e0] rest] eqn:Hrest.
  { cbn in Hover. lia. }
  cbn [app]. destruct (Js.truthy k0); cbn [cache]; [|exact Hhere].
  cbn [lookup] in Hnone.
  destruct (String.eqb_spec k0 key) as [->|Hne]; [discriminate|].
  cbn [remove]. rewrite String.eqb_refl.
  cbn [app lookup] in Hhere.
  destruct (String.eqb_spec k0 key); [contradiction|exact Hhere].
Qed.

End WithT.

End LRUMap.

(** X7: in a cache with distinct keys (a new cache has none, and [get],
    [set] and [delete] keep them distinct), [get] after [set] of the same key
    gives the entry that was set, with its data and modification time and the
    time of the [get] as access time. *)
Theorem LRU_set_then_get {T : Type} (c : LRU.t T) (key : string) (d : T)
        (lastMod now now' : Z) :
  distinctKeys c ->
  1 <= LRU.maxSize c ->
  fst (LRU.get now' key (LRU.set now key d lastMod c))
  = Some (LRU.mkEntry d lastMod now') /\
  distinctKeys (LRU.set now key d lastMod c) /\
  distinctKeys (snd (LRU.get now' key c)) /\
  distinctKeys (snd (LRU.delete key c)) /\
  (forall arg, distinctKeys (@LRU.new T arg) /\ 1 <= LRU.maxSize (@LRU.new T arg)).
Proof.
  intros Hc Hmax. split.
  - unfold LRU.get. now rewrite (LRUMap.set_lookup now key d lastMod c Hc Hmax).
  - split; [now apply LRUMap.set_distinct|].
    split; [now apply LRUMap.get_distinct|].
    split; [now apply LRUMap.delete_distinct|].
    intros arg. split; [constructor|].
    cbn [LRU.new LRU.maxSize]. apply LRUFacts.capacity_range.
Qed.

Lemma LRU_set_then_get_witness :
  fst (LRU.get 7 "p-findings"
         (LRU.set 5 "p-findings" [1; 2; 3] 4 (LRU.new None)))
  = Some (LRU.mkEntry [1; 2; 3] 4 7).
Proof.
  apply (LRU_set_then_get (LRU.new None) "p-findings" [1; 2; 3] 4 5 7).
  - constructor.
  - cbn. lia.
Defined.

(** X8: eviction is by least recent use. When a new key is set in a full
    cache, the entry that goes is the first in the cache's order, the one
    neither set nor read for longest; a [get] moves the entry it reads to
    the end of that order, so after a [get] of the oldest key the second
    oldest goes instead. *)
Theorem LRU_evicts_least_recent {T : Type} (c : LRU.t T)
        (k0 k1 : string) (e0 e1 : LRU.CacheEntry T)
        (rest : list (string * LRU.CacheEntry T))
        (key : string) (d : T) (lastMod now1 now2 : Z) :
  LRU.cache c = (k0, e0) :: (k1, e1) :: rest ->
  LRU.size c = LRU.maxSize c ->
  LRU.lookup key (LRU.cache c) = None ->
  k0 <> "" -> k1 <> "" ->
  LRU.cache (LRU.set now2 key d lastMod c)
  = ((k1, e1) :: rest ++ [(key, LRU.mkEntry d lastMod now2)])%list /\
  LRU.cache (LRU.set now2 key d lastMod (snd (LRU.get now1 k0 c)))
  = (rest ++ [(k0, LRU.mkEntry (LRU.data e0) (LRU.lastModified e0) now1);
              (key, LRU.mkEntry d lastMod now2)])%list.
Proof.
  intros Hcache Hfull Hnew Hk0 Hk1.
  assert (Ht0 : Js.truthy k0 = true) by (destruct k0; [contradiction|reflexivity]).
  assert (Ht1 : Js.truthy k1 = true) by (destruct k1; [contradiction|reflexivity]).
  unfold LRU.size in Hfull. rewrite Hcache in Hfull, Hnew.
  cbn [length] in Hfull.
  assert (Hne0 : String.eqb k0 key = false).
  { cbn [LRU.lookup] in Hnew. now destruct (String.eqb k0 key). }
  split.
  - unfold LRU.set, LRU.evictIfNeeded, LRU.size. cbn [LRU.cache LRU.maxSize].
    rewrite Hcache, (LRUMap.remove_absent key _ Hnew).
    cbn [app length]. rewrite length_app. cbn [length].
    destruct (Z.leb_spec (Z.of_nat (S (S (length rest + 1)))) (LRU.maxSize c));
      [lia|].
    rewrite Ht0. cbn [LRU.cache LRU.remove]. now rewrite String.eqb_refl.
  - unfold LRU.get. rewrite Hcache. cbn [LRU.lookup].
    rewrite String.eqb_refl. cbn [snd LRU.remove]. rewrite String.eqb_refl.
    set (e0' := LRU.mkEntry (LRU.data e0) (LRU.lastModified e0) now1).
    assert (Hnew' : LRU.lookup key (((k1, e1) :: rest) ++ [(k0, e0')]) = None).
    { pose proof Hnew as Hrest.
      change (LRU.lookup key ((k0, e0) :: (k1, e1) :: rest))
        with (if String.eqb k0 key then Some e0
              else LRU.lookup key ((k1, e1) :: rest)) in Hrest.
      rewrite Hne0 in Hrest.
      rewrite LRUMap.lookup_app, Hrest. cbn [LRU.lookup]. now rewrite Hne0. }
    unfold LRU.set, LRU.evictIfNeeded, LRU.size. cbn [LRU.cache LRU.maxSize].
    rewrite (LRUMap.remove_absent key _ Hnew').
    cbn [app length]. rewrite !length_app. cbn [length].
    destruct (Z.leb_spec (Z.of_nat (S (length rest + 1 + 1))) (LRU.maxSize c));
      [lia|].
    rewrite Ht1. cbn [LRU.cache LRU.remove]. rewrite String.eqb_refl.
    now rewrite <- app_assoc.
Qed.

Lemma LRU_evicts_least_recent_witness :
  map fst
      (LRU.cache
         (LRU.set 9 "c" [3] 0
            (LRU.mk [("a", LRU.mkEntry [1] 0 1); ("b", LRU.mkEntry [2] 0 2)]
                    2)))
  = ["b"; "c"] /\
  map fst
      (LRU.cache
         (LRU.set 9 "c" [3] 0
            (snd (LRU.get 8 "a"
                    (LRU.mk [("a", LRU.mkEntry [1] 0 1);
                             ("b", LRU.mkEntry [2] 0 2)] 2)))))
  = ["a"; "c"].
Proof.
  destruct (LRU_evicts_least_recent
              (LRU.mk [("a", LRU.mkEntry [1] 0 1); ("b", LRU.mkEntry [2] 0 2)]
                      2)
              "a" "b" (LRU.mkEntry [1] 0 1) (LRU.mkEntry [2] 0 2) []
              "c" [3] 0 8 9 eq_refl eq_refl eq_refl)
    as [H1 H2]; try discriminate.
  rewrite H1, H2. split; reflexivity.
Defined.

(** X9: [delete] tells whether the key was cached; afterwards a [get] of
    the key finds nothing, and the entries of the other keys are as
    before. *)
Theorem LRU_delete_removes {T : Type} (c : LRU.t T) (key : string) (now : Z) :
  distinctKeys c ->
  (fst (LRU.delete key c) = true <-> LRU.lookup key (LRU.cache c) <> None) /\
  fst (LRU.get now key (snd (LRU.delete key c))) = None /\
  (forall other,
      other <> key ->
      LRU.lookup other (LRU.cache (snd (LRU.delete key c)))
      = LRU.lookup other (LRU.cache c)).
Proof.
  intros Hc. unfold LRU.delete.
  destruct (LRU.lookup key (LRU.cache c)) as [e|] eqn:Hl; cbn [fst snd].
  - split; [split; [discriminate|reflexivity]|]. split.
    + unfold LRU.get. cbn [LRU.cache].
      now rewrite (LRUMap.lookup_remove_same key _ Hc).
    + intros other Hne. cbn [LRU.cache].
      now apply LRUMap.lookup_remove_other.
  - split; [split; [discriminate|congruence]|]. split.
    + unfold LRU.get. now rewrite Hl.
    + reflexivity.
Qed.

Lemma LRU_delete_removes_witness :
  fst (LRU.get 9 "p-findings"
         (snd (LRU.delete "p-findings"
                 (LRU.set 5 "p-findings" [1] 4 (LRU.new None)))))
  = None.
Proof.
  apply (LRU_delete_removes
           (LRU.set 5 "p-findings" [1] 4 (LRU.new None)) "p-findings" 9).
  apply LRUMap.set_distinct. constructor.
Defined.

(** ** Sorting *)

Module SortFacts.

Section WithKey.
Context {A : Type} (key : A -> Z).

Lemma insertDesc_perm x l : Permutation (insertDesc key x l) (x :: l).
Proof.
  induction l as [|y l IH]; cbn [insertDesc]; [reflexivity|].
  destruct (key x <? key y); [|reflexivity].
  rewrite IH. apply perm_swap.
Qed.

Lemma sortDesc_perm l : Permutation (sortDesc key l) l.
Proof.
  unfold sortDesc. induction l as [|x l IH]; cbn [fold_right]; [reflexivity|].
  rewrite insertDesc_perm. now constructor.
Qed.

Lemma insertDesc_sorted x l :
  StronglySorted (descending key) l -> StronglySorted (descending key) (insertDesc key x l).
Proof.
  induction 1 as [|y l Hl IH Hy]; cbn [insertDesc].
  - repeat constructor.
  - destruct (Z.ltb_spec (key x) (key y)) as [Hlt|Hge].
    + constructor; [exact IH|].
      apply (Permutation_Forall (Permutation_sym (insertDesc_perm x l))).
      constructor; [unfold descending; lia|exact Hy].
    + constructor; [now constructor|].
      constructor; [exact Hge|].
      eapply Forall_impl; [|exact Hy]. unfold descending. intros a Ha. lia.
Qed.

Lemma sortDesc_sorted l : StronglySorted (descending key) (sortDesc key l).
Proof.
  unfold sortDesc. induction l as [|x l IH]; cbn [fold_right];
    [constructor|now apply insertDesc_sorted].
Qed.

Lemma sortDesc_length l : length (sortDesc key l) = length l.
Proof. apply Permutation_length, sortDesc_perm. Qed.

End WithKey.

End SortFacts.

(** X10: [listProjects] returns the projects of the index, each once, the
    most recently updated first; with an empty index it returns the empty
    list. *)
Theorem listProjects_sorted (E : Env) (s : State)
        (idx : InternalProjectIndex) :
  ioFails E OpReadFile projectIndexPath = false ->
  indexOf s = Some idx ->
  exists listed,
    listProjects E s = (Ok listed, setIndexCache (Some idx) s) /\
    Permutation listed (map snd (projects idx)) /\
    StronglySorted (fun a b => p_updated b <= p_updated a) listed /\
    (projects idx = [] -> listed = []).
Proof.
  intros Hread Hidx. exists (sortDesc p_updated (map snd (projects idx))).
  split; [|split; [|split]].
  - unfold listProjects.
    now rewrite (bind_ok _ _ _ _ _ (readProjectIndex_indexOf E Hread s idx Hidx)).
  - apply SortFacts.sortDesc_perm.
  - apply (SortFacts.sortDesc_sorted p_updated).
  - now intros ->.
Qed.

Lemma listProjects_sorted_witness :
  exists listed s',
    listProjects Sample.env Sample2.threeProjects = (Ok listed, s') /\
    map p_name listed = ["a"; "c"; "b"] /\
    StronglySorted (fun a b => p_updated b <= p_updated a) listed.
Proof.
  destruct (listProjects_sorted Sample.env Sample2.threeProjects
              (mkIndex [("a", Sample2.agedProject "a" 30);
                        ("b", Sample2.agedProject "b" 10);
                        ("c", Sample2.agedProject "c" 20)] None)
              eq_refl eq_refl) as (listed & Hrun & _ & Hsorted & _).
  exists listed. eexists. split; [exact Hrun|]. split; [|exact Hsorted].
  revert Hrun. vm_compute. now intros [= <-].
Defined.

(** ** Start-up *)

Section Startup.

Variable E : Env.

Lemma unlink_tmp s :
  let s' := snd (ignoreErrors (fs_unlink E projectIndexTmp) s) in
  agree (path_eqb projectIndexTmp) s s' /\
  projectIndexCache s' = projectIndexCache s.
Proof.
  unfold ignoreErrors, tryCatch, fs_unlink, bind, oracle, get, modify,
    sysError, throw, ret.
  destruct (ioFails E OpUnlink projectIndexTmp); cbn [snd];
    [split; [intros q Hq|]; reflexivity|].
  destruct (fsGet projectIndexTmp (disk s)) as [[t|c t]|]; cbn [snd];
    (split; [intros q Hq|]; try reflexivity).
  cbn [disk setDisk]. now rewrite fsGet_fsRemove, Hq.
Qed.

Lemma initialize_existing_run s n :
  fsGet projectIndexPath (disk s) = Some n ->
  initializeProjectIndex E s
  = if ioFails E OpAccess projectIndexPath
    then (ignoreErrors (fs_unlink E projectIndexTmp) ;;;
          throw (wrap "Failed to initialize project index: "
                      (SystemError EIO (pathString E projectIndexPath)))) s
    else (Ok tt, s).
Proof.
  intros Hfile. unfold initializeProjectIndex.
  assert (Hacc : fs_access E projectIndexPath s
                 = if ioFails E OpAccess projectIndexPath
                   then (Err (SystemError EIO (pathString E projectIndexPath)), s)
                   else (Ok tt, s)).
  { unfold fs_access, bind, oracle, get, sysError, throw, ret.
    destruct (ioFails E OpAccess projectIndexPath); [reflexivity|].
    unfold nodeAt, projectIndexPath in *. now rewrite Hfile. }
  destruct (ioFails E OpAccess projectIndexPath).
  - pose proof (tryCatch_err _
                  (fun error => if isENOENT error then ret false else throw error)
                  _ _ _ (bind_err _ (fun _ => ret true) _ _ _ Hacc)) as Hin.
    cbn [isENOENT] in Hin. unfold throw at 1 in Hin.
    now rewrite (tryCatch_err _ _ _ _ _ (bind_err _ _ _ _ _ Hin)).
  - pose proof (tryCatch_ok _
                  (fun error => if isENOENT error then ret false else throw error)
                  _ _ _ (eq_trans (bind_ok _ (fun _ => ret true) _ _ _ Hacc)
                                  eq_refl)) as Hin.
    now rewrite (tryCatch_ok _ _ _ _ _
                   (eq_trans (bind_ok _ _ _ _ _ Hin) eq_refl)).
Qed.

Lemma initialize_existing s n :
  fsGet projectIndexPath (disk s) = Some n ->
  agree (path_eqb projectIndexTmp) s (snd (initializeProjectIndex E s)) /\
  projectIndexCache (snd (initializeProjectIndex E s))
  = projectIndexCache s /\
  (ioFails E OpAccess projectIndexPath = false ->
   initializeProjectIndex E s = (Ok tt, s)).
Proof.
  intros Hfile. rewrite (initialize_existing_run s n Hfile).
  destruct (ioFails E OpAccess projectIndexPath).
  - pose proof (unlink_tmp s) as [Hag Hc]. unfold bind, throw.
    destruct (ignoreErrors (fs_unlink E projectIndexTmp) s) as [[u|e|] s1];
      cbn [snd] in *; (split; [exact Hag|split; [exact Hc|discriminate]]).
  - cbn [snd]. split; [intros q Hq; reflexivity|]. split; reflexivity.
Qed.

Lemma initialize_missing s :
  reliable E ->
  fsGet projectIndexPath (disk s) = None ->
  (forall t, fsGet projectIndexTmp (disk s) <> Some (Dir t)) ->
  exists s',
    initializeProjectIndex E s = (Ok tt, s') /\
    fsGet projectIndexPath (disk s')
    = Some (File (JsonIndex emptyIndex) (clock s)) /\
    fsGet projectIndexTmp (disk s') = None /\
    projectIndexCache s' = None /\
    agree indexFiles s s'.
Proof.
  intros Hio Hnone Htmp.
  set (d1 := fsPut projectIndexTmp (File (JsonIndex emptyIndex) (clock s))
                   (disk s)).
  set (d2 := fsPut projectIndexPath (File (JsonIndex emptyIndex) (clock s))
                   (fsRemove projectIndexTmp d1)).
  assert (Hne : projectIndexTmp <> projectIndexPath) by discriminate.
  assert (Hw : fs_writeFile E projectIndexTmp (JsonIndex emptyIndex) s
               = (Ok tt, setDisk d1 s)).
  { unfold fs_writeFile.
    rewrite (bind_ok _ _ _ _ _ (oracle_reliable E _ _ s Hio)).
    unfold bind, get, modify. cbn [projectIndexTmp parent removelast nodeAt].
    destruct (fsGet projectIndexTmp (disk s)) as [[t|c t]|] eqn:Hget;
      [exfalso; now apply (Htmp t)|reflexivity|reflexivity]. }
  assert (Hmv : fs_rename E projectIndexTmp projectIndexPath (setDisk d1 s)
                = (Ok tt, setDisk d2 (setDisk d1 s))).
  { unfold fs_rename.
    rewrite (bind_ok _ _ _ _ _ (oracle_reliable E _ _ _ Hio)).
    unfold bind, get, modify. cbn [disk setDisk].
    unfold d1 at 1. rewrite fsGet_fsPut_same.
    cbn [projectIndexPath parent removelast nodeAt].
    change [".mcp-projects.json"] with projectIndexPath.
    unfold d1 at 1. rewrite (fsGet_fsPut_other _ _ _ _ Hne), Hnone.
    reflexivity. }
  exists (setIndexCache None (setDisk d2 (setDisk d1 s))).
  split; [|split; [|split; [|split]]].
  - unfold initializeProjectIndex.
    rewrite (tryCatch_ok _ _ s tt (setIndexCache None (setDisk d2 (setDisk d1 s))));
      [reflexivity|].
    unfold bind at 1. unfold tryCatch at 1. unfold bind at 1.
    rewrite (fs_access_spec E Hio). unfold nodeAt, projectIndexPath in *.
    rewrite Hnone. cbn [isENOENT]. unfold ret at 1.
    rewrite (bind_ok _ _ _ _ _ Hw), (bind_ok _ _ _ _ _ Hmv). reflexivity.
  - cbn [disk setDisk setIndexCache]. unfold d2. apply fsGet_fsPut_same.
  - cbn [disk setDisk setIndexCache]. unfold d2.
    rewrite (fsGet_fsPut_other _ _ _ _ (not_eq_sym Hne)), fsGet_fsRemove.
    now rewrite path_eqb_refl.
  - reflexivity.
  - intros q Hq. unfold indexFiles in Hq. apply orb_false_iff in Hq as [Hq1 Hq2].
    cbn [disk setDisk setIndexCache]. unfold d2, d1.
    rewrite fsGet_fsPut_other by (now apply path_eqb_neq).
    rewrite fsGet_fsRemove, Hq2.
    now rewrite fsGet_fsPut_other by (now apply path_eqb_neq).
Qed.

End Startup.

(** X11: [initializeProjectIndex] never rewrites an index that is there:
    whatever fails, the disk is as before except that a left-over temporary
    file may be gone, and when the check of the file succeeds nothing changes
    at all. When the index is missing (and the disk works), it is created
    empty, no temporary file stays behind, the cached index is dropped and
    nothing else on the disk changes. *)
Theorem initializeProjectIndex_spec (E : Env) (s : State) :
  (forall n,
      fsGet projectIndexPath (disk s) = Some n ->
      agree (path_eqb projectIndexTmp) s (snd (initializeProjectIndex E s)) /\
      projectIndexCache (snd (initializeProjectIndex E s))
      = projectIndexCache s /\
      (ioFails E OpAccess projectIndexPath = false ->
       initializeProjectIndex E s = (Ok tt, s))) /\
  (reliable E ->
   fsGet projectIndexPath (disk s) = None ->
   (forall t, fsGet projectIndexTmp (disk s) <> Some (Dir t)) ->
   exists s',
     initializeProjectIndex E s = (Ok tt, s') /\
     indexOf s' = Some emptyIndex /\
     fsGet projectIndexTmp (disk s') = None /\
     agree indexFiles s s').
Proof.
  split.
  - intros n Hfile. exact (initialize_existing E s n Hfile).
  - intros Hio Hnone Htmp.
    destruct (initialize_missing E s Hio Hnone Htmp)
      as (s' & Hrun & Hfile & Hgone & Hcache & Hag).
    exists s'. repeat split; try assumption.
    unfold indexOf. now rewrite Hcache, Hfile.
Qed.

Lemma initializeProjectIndex_spec_witness :
  (fsGet projectIndexPath (disk (snd (initializeProjectIndex
                                        Sample3.accessFails
                                        Sample3.interrupted)))
   = Some (File (JsonIndex (mkIndex [("p", Sample.project "p" InProgress)]
                                    None)) 0)) /\
  (exists s',
      initializeProjectIndex Sample.env Sample3.fresh = (Ok tt, s') /\
      indexOf s' = Some emptyIndex).
Proof.
  split.
  - destruct (initializeProjectIndex_spec Sample3.accessFails
                Sample3.interrupted) as [Hkeep _].
    destruct (Hkeep _ eq_refl) as (Hag & _ & _).
    rewrite (Hag projectIndexPath eq_refl). reflexivity.
  - destruct (initializeProjectIndex_spec Sample.env Sample3.fresh)
      as [_ Hnew].
    destruct (Hnew (fun _ _ => eq_refl) eq_refl
                   (fun t H => ltac:(discriminate H)))
      as (s' & Hrun & Hidx & _ & _).
    exists s'. now split.
Defined.

(** ** Locks *)

Section Locks.

Variable E : Env.
Hypothesis Hio : reliable E.

Lemma release_gone name s :
  fsGet [name] (disk (snd (ignoreErrors (lockfileRelease name) s))) = None.
Proof.
  unfold ignoreErrors, tryCatch, lockfileRelease, bind, get, modify, throw, ret.
  destruct (fsGet [name] (disk s)) eqn:Hget; cbn [snd]; [|exact Hget].
  cbn [disk setDisk]. now rewrite fsGet_fsRemoveTree, under_refl.
Qed.

Lemma lockTimeout_underLock A lockKey e s :
  @lockTimeout A lockKey e s = (Err (underLock lockKey e), s).
Proof.
  unfold lockTimeout, underLock, held.
  now destruct (Js.includes (message e) "already being held").
Qed.

End Locks.

(** X12: under a free lock [withLock] runs the call with the lock's artifact
    in place and removes the artifact afterwards, whether the call returned
    or threw. The call's value is passed on; its error is passed on too,
    unless the message contains [already being held], which is reported as a
    time-out of the lock. *)
Theorem withLock_releases (E : Env) {A} (lockKey : string) (operation : M A)
        (s : State) :
  reliable E ->
  lockFree lockKey s ->
  fst (operation (locked lockKey s)) <> Hang ->
  fsGet [".mcp-lock-" ++ lockKey ++ ".lock"]
        (disk (snd (withLock E lockKey operation s))) = None /\
  fst (withLock E lockKey operation s)
  = match fst (operation (locked lockKey s)) with
    | Err e => Err (underLock lockKey e)
    | r => r
    end.
Proof.
  intros Hio Hfree Hret. rewrite (withLock_free E Hio _ _ _ _ Hfree).
  unfold finally, tryCatch.
  destruct (operation (locked lockKey s)) as [[a|e|] s1]; cbn [fst] in *.
  - cbn [fst snd]. split; [apply release_gone|reflexivity].
  - rewrite lockTimeout_underLock. cbn [fst snd].
    split; [apply release_gone|reflexivity].
  - congruence.
Qed.

Lemma withLock_releases_witness :
  fsGet [".mcp-lock-project-index.lock"]
        (disk (snd (withLock Sample.env "project-index"
                      (@throw unit
                         (PlainError "Lock file is already being held"))
                      Sample3.fresh))) = None /\
  fst (withLock Sample.env "project-index"
         (@throw unit (PlainError "Lock file is already being held"))
         Sample3.fresh)
  = Err (PlainError "Operation timed out waiting for lock: project-index").
Proof.
  apply (withLock_releases Sample.env "project-index"
           (@throw unit (PlainError "Lock file is already being held"))
           Sample3.fresh).
  - intros op p. reflexivity.
  - split; reflexivity.
  - discriminate.
Defined.

(** ** The stale-lock sweep, in general *)

Section Sweep.

Variable E : Env.

Lemma sweepLock_swept lockFile s :
  isLockFile lockFile = true ->
  sweepLock E lockFile s = (Ok tt, swept E lockFile s).
Proof.
  intros Hlock. unfold sweepLock, swept, staleTimeout.
  rewrite (sweep_never_skips E lockFile Hlock). cbn [andb].
  unfold tryCatch, fs_stat, fs_rm, bind, oracle, get, modify, sysError, throw,
    ret, nodeAt.
  destruct (ioFails E OpStat [lockFile]); [reflexivity|].
  destruct (fsGet [lockFile] (disk s)) as [n|]; [|reflexivity].
  destruct (_ <? clock s - mtimeOf n); [|reflexivity].
  destruct (ioFails E OpRm [lockFile]); reflexivity.
Qed.

Lemma forEach_sweptAll lockFiles s :
  Forall (fun f => isLockFile f = true) lockFiles ->
  forEach (sweepLock E) lockFiles s = (Ok tt, sweptAll E lockFiles s).
Proof.
  intros Hall. revert s.
  induction Hall as [|f l Hf _ IH]; intros s; [reflexivity|].
  cbn [forEach sweptAll fold_left].
  rewrite (bind_ok _ _ _ _ _ (sweepLock_swept f s Hf)). apply IH.
Qed.

Lemma lockFiles_all (names : list string) :
  Forall (fun f => isLockFile f = true) (filter isLockFile names).
Proof. apply Forall_forall. intros f Hin. now apply filter_In in Hin. Qed.

(** the sweep as a function of the disk *)
Lemma cleanupStaleLocks_run s :
  cleanupStaleLocks E s
  = (Ok tt,
     if ioFails E OpReaddir [] then s
     else sweptAll E (filter isLockFile (map fst (entriesOf [] (disk s)))) s).
Proof.
  unfold cleanupStaleLocks, tryCatch, bind at 1.
  unfold fs_readdir, bind, oracle, get, sysError, throw, ret, nodeAt.
  destruct (ioFails E OpReaddir []); [reflexivity|].
  now rewrite (forEach_sweptAll _ s (lockFiles_all _)).
Qed.

Lemma swept_caches lockFile s :
  swept E lockFile s = setDisk (disk (swept E lockFile s)) s.
Proof.
  unfold swept. destruct s as [d c l fc ac t]. cbn [disk clock].
  destruct (ioFails E OpStat [lockFile]); [reflexivity|].
  destruct (fsGet [lockFile] d) as [n|]; [|reflexivity].
  destruct (_ <? t - mtimeOf n); [|reflexivity].
  destruct (ioFails E OpRm [lockFile]); reflexivity.
Qed.

Lemma swept_clock lockFile s : clock (swept E lockFile s) = clock s.
Proof. now rewrite swept_caches. Qed.

(** a round removes the lock's tree or nothing *)
Lemma swept_disk lockFile s q :
  fsGet q (disk (swept E lockFile s)) = fsGet q (disk s) \/
  (under [lockFile] q = true /\ fsGet q (disk (swept E lockFile s)) = None).
Proof.
  unfold swept.
  destruct (ioFails E OpStat [lockFile]); [now left|].
  destruct (fsGet [lockFile] (disk s)) as [n|]; [|now left].
  destruct (_ <? clock s - mtimeOf n); [|now left].
  destruct (ioFails E OpRm [lockFile]); [now left|].
  cbn [disk setDisk]. rewrite fsGet_fsRemoveTree.
  destruct (under [lockFile] q); [now right|now left].
Qed.

Lemma under_lockArtifact lockFile q :
  isLockFile lockFile = true -> under [lockFile] q = true ->
  lockArtifact q = true.
Proof.
  intros Hlock. destruct q as [|f q]; [discriminate|]. cbn [under lockArtifact].
  destruct (String.eqb_spec lockFile f) as [->|_]; [now intros _|discriminate].
Qed.

Lemma sweptAll_caches lockFiles s :
  sweptAll E lockFiles s = setDisk (disk (sweptAll E lockFiles s)) s.
Proof.
  revert s. induction lockFiles as [|f l IH]; intros s; cbn [sweptAll fold_left].
  - now destruct s.
  - fold (sweptAll E l (swept E f s)). rewrite IH at 1.
    rewrite (swept_caches f s) at 2. reflexivity.
Qed.

Lemma sweptAll_agree lockFiles s :
  Forall (fun f => isLockFile f = true) lockFiles ->
  agree lockArtifact s (sweptAll E lockFiles s).
Proof.
  intros Hall. revert s.
  induction Hall as [|f l Hf _ IH]; intros s q Hq; [reflexivity|].
  cbn [sweptAll fold_left]. fold (sweptAll E l (swept E f s)).
  rewrite (IH _ q Hq).
  destruct (swept_disk f s q) as [Hsame|[Hunder _]]; [exact Hsame|].
  rewrite (under_lockArtifact f q Hf Hunder) in Hq. discriminate.
Qed.

Section OneLock.

Variables (lockFile : string) (n : Node) (now : Z).

(** a lock younger than its time-out stays *)
Lemma sweptAll_fresh lockFiles s :
  clock s = now ->
  fsGet [lockFile] (disk s) = Some n ->
  now - mtimeOf n <= staleTimeout E lockFile ->
  fsGet [lockFile] (disk (sweptAll E lockFiles s)) = Some n.
Proof.
  intros Hclock Hget Hfresh. revert s Hclock Hget.
  induction lockFiles as [|f l IH]; intros s Hclock Hget; [exact Hget|].
  cbn [sweptAll fold_left]. fold (sweptAll E l (swept E f s)).
  apply IH; [now rewrite swept_clock|].
  destruct (swept_disk f s [lockFile]) as [Hsame|[Hunder Hgone]];
    [now rewrite Hsame|].
  cbn [under] in Hunder. rewrite andb_true_r in Hunder.
  apply String.eqb_eq in Hunder. subst f. exfalso.
  revert Hgone. unfold swept.
  destruct (ioFails E OpStat [lockFile]); [congruence|].
  rewrite Hget, Hclock.
  destruct (Z.ltb_spec (staleTimeout E lockFile) (now - mtimeOf n)); [lia|].
  congruence.
Qed.

Hypothesis Hstat : ioFails E OpStat [lockFile] = false.
Hypothesis Hrm : ioFails E OpRm [lockFile] = false.
Hypothesis Hstale : staleTimeout E lockFile < now - mtimeOf n.

Lemma swept_gone f s :
  fsGet [lockFile] (disk s) = None ->
  fsGet [lockFile] (disk (swept E f s)) = None.
Proof.
  intros Hnone.
  destruct (swept_disk f s [lockFile]) as [Hsame|[_ Hgone]];
    [now rewrite Hsame|exact Hgone].
Qed.

Lemma sweptAll_gone lockFiles s :
  fsGet [lockFile] (disk s) = None ->
  fsGet [lockFile] (disk (sweptAll E lockFiles s)) = None.
Proof.
  revert s. induction lockFiles as [|f l IH]; intros s Hnone; [exact Hnone|].
  cbn [sweptAll fold_left]. fold (sweptAll E l (swept E f s)).
  now apply IH, swept_gone.
Qed.

(** a lock older than its time-out is removed when its turn comes *)
Lemma sweptAll_stale lockFiles s :
  clock s = now ->
  fsGet [lockFile] (disk s) = Some n ->
  In lockFile lockFiles ->
  fsGet [lockFile] (disk (sweptAll E lockFiles s)) = None.
Proof.
  intros Hclock Hget. revert s Hclock Hget.
  induction lockFiles as [|f l IH]; intros s Hclock Hget Hin; [destruct Hin|].
  cbn [sweptAll fold_left]. fold (sweptAll E l (swept E f s)).
  destruct (String.eqb_spec f lockFile) as [->|Hne].
  - apply sweptAll_gone. unfold swept. rewrite Hstat, Hget, Hclock.
    destruct (Z.ltb_spec (staleTimeout E lockFile) (now - mtimeOf n)); [|lia].
    rewrite Hrm. cbn [disk setDisk].
    now rewrite fsGet_fsRemoveTree, under_refl.
  - destruct Hin as [Heq|Hin]; [congruence|].
    apply IH; [now rewrite swept_clock| |exact Hin].
    destruct (swept_disk f s [lockFile]) as [Hsame|[Hunder _]];
      [now rewrite Hsame|].
    cbn [under] in Hunder. rewrite andb_true_r in Hunder.
    now apply String.eqb_eq in Hunder.
Qed.

End OneLock.

Lemma listed (name : string) (n : Node) (fs : FS) :
  fsGet [name] fs = Some n -> In name (map fst (entriesOf [] fs)).
Proof.
  unfold entriesOf. induction fs as [|[p m] fs IH]; [discriminate|].
  cbn [fsGet flat_map fst snd]. rewrite map_app, in_app_iff.
  destruct (path_eqb p [name]) eqn:Hp.
  - intros _. left. apply path_eqb_eq in Hp. subst p. cbn. now left.
  - intros Hget. right. now apply IH.
Qed.

End Sweep.

(** X13: the sweep of stale locks never fails, and it changes nothing but
    lock artifacts of the working directory: the rest of the disk, the
    caches and the clock are as before. A lock artifact not older than its
    time-out is kept; when the disk works, an older one is removed. The
    time-out is 60000 ms for the instance lock and the stale time of the
    validated settings for the others, so it is never below 5 s and never
    above 5 min, whatever the process environment holds. *)
Theorem cleanupStaleLocks_sweeps (E : Env) (s : State) :
  fst (cleanupStaleLocks E s) = Ok tt /\
  snd (cleanupStaleLocks E s)
  = setDisk (disk (snd (cleanupStaleLocks E s))) s /\
  agree lockArtifact s (snd (cleanupStaleLocks E s)) /\
  (forall lockFile n,
      fsGet [lockFile] (disk s) = Some n ->
      clock s - mtimeOf n <= staleTimeout E lockFile ->
      fsGet [lockFile] (disk (snd (cleanupStaleLocks E s))) = Some n) /\
  (reliable E ->
   forall lockFile n,
     isLockFile lockFile = true ->
     fsGet [lockFile] (disk s) = Some n ->
     staleTimeout E lockFile < clock s - mtimeOf n ->
     fsGet [lockFile] (disk (snd (cleanupStaleLocks E s))) = None) /\
  (forall lockFile, 5000 <= staleTimeout E lockFile <= 300000).
Proof.
  rewrite cleanupStaleLocks_run. cbn [fst snd].
  split; [reflexivity|]. split; [|split; [|split; [|split]]].
  - destruct (ioFails E OpReaddir []); [now destruct s|].
    apply sweptAll_caches.
  - destruct (ioFails E OpReaddir []); [intros q Hq; reflexivity|].
    apply sweptAll_agree, lockFiles_all.
  - intros lockFile n Hget Hfresh.
    destruct (ioFails E OpReaddir []); [exact Hget|].
    now apply (sweptAll_fresh E lockFile n (clock s)).
  - intros Hio lockFile n Hlock Hget Hstale. rewrite (Hio OpReaddir []).
    apply (sweptAll_stale E lockFile n (clock s)); auto.
    apply filter_In. split; [|exact Hlock].
    now apply (listed lockFile n).
  - intros lockFile. unfold staleTimeout, lockStaleMs.
    destruct (String.eqb lockFile ".mcp-instance.lock"); [lia|].
    apply (getServerConfig_within (processEnv E)).
Qed.

Lemma cleanupStaleLocks_sweeps_witness :
  fsGet [".mcp-lock-finding-p-FIND-1.lock"]
        (disk (snd (cleanupStaleLocks Sample.env Sample4.lockedDisk)))
  = Some (Dir 50000) /\
  fsGet [".mcp-instance.lock"]
        (disk (snd (cleanupStaleLocks Sample.env Sample4.lockedDisk)))
  = Some (Dir 45000) /\
  fsGet [".mcp-lock-project-index.lock"]
        (disk (snd (cleanupStaleLocks Sample.env Sample4.lockedDisk)))
  = None /\
  fsGet [".mcp-lock-finding-p-FIND-1.lock"]
        (disk (snd (cleanupStaleLocks
                      (Sample.startedWith (Sample.lockStaleSet "1000"))
                      Sample4.hastyDisk)))
  = Some (Dir 50000).
Proof.
  destruct (cleanupStaleLocks_sweeps Sample.env Sample4.lockedDisk)
    as (_ & _ & _ & Hfresh & Hstale & _).
  destruct (cleanupStaleLocks_sweeps
              (Sample.startedWith (Sample.lockStaleSet "1000"))
              Sample4.hastyDisk)
    as (_ & _ & _ & Hkept & _).
  split; [|split; [|split]].
  - apply Hfresh; [reflexivity|]. vm_compute. discriminate.
  - apply Hfresh; [reflexivity|]. vm_compute. discriminate.
  - apply (Hstale (fun _ _ => eq_refl) _ (Dir 30000)); reflexivity.
  - apply Hkept; [reflexivity|]. vm_compute. discriminate.
Defined.

(** ** The modification stamp of a directory *)

Module StampFacts.

Lemma fold_max_ge (l : list Z) (a : Z) : a <= fold_left Z.max l a.
Proof.
  revert a. induction l as [|x l IH]; intros a; cbn [fold_left]; [lia|].
  specialize (IH (Z.max a x)). lia.
Qed.

Lemma fold_max_in (l : list Z) (a x : Z) : In x l -> x <= fold_left Z.max l a.
Proof.
  revert a. induction l as [|y l IH]; intros a; [intros []|].
  cbn [fold_left]. intros [->|Hin]; [|now apply IH].
  pose proof (fold_max_ge l (Z.max a x)). lia.
Qed.

Lemma maxOf_ge (l : list Z) (x : Z) : In x l -> x <= maxOf l.
Proof.
  destruct l as [|a l]; [intros []|]. cbn [maxOf].
  intros [->|Hin]; [apply fold_max_ge|now apply fold_max_in].
Qed.

Lemma allSettled_map {A B} (f : A -> M B) (g : A -> B) (xs : list A) s :
  (forall x, f x s = (Ok (g x), s)) ->
  allSettled f xs s = (Ok (map g xs), s).
Proof.
  intros Hf. induction xs as [|x xs IH]; [reflexivity|].
  cbn [allSettled map]. now rewrite Hf, IH.
Qed.

Lemma childOf_app (d : path) (name : string) : childOf d (d ++ [name]) = Some name.
Proof.
  induction d as [|x d IH]; [reflexivity|].
  cbn [app childOf]. now rewrite String.eqb_refl.
Qed.

Lemma entry_listed (d : path) (name : string) (n : Node) (fs : FS) :
  fsGet (d ++ [name]) fs = Some n ->
  exists isDir, In (name, isDir) (entriesOf d fs).
Proof.
  unfold entriesOf. induction fs as [|[p m] fs IH]; [discriminate|].
  cbn [fsGet flat_map fst snd].
  destruct (path_eqb p (d ++ [name])) eqn:Hp.
  - intros _. apply path_eqb_eq in Hp. subst p. rewrite childOf_app.
    exists (isDirectory m). now left.
  - intros Hget. destruct (IH Hget) as (isDir & Hin).
    exists isDir. apply in_or_app. now right.
Qed.

End StampFacts.

Section Stamp.

Variable E : Env.

(** the time stamp [stat] gives for an entry, 0 when there is none *)
Let stamp (dirPath : path) (s : State) (file : string * bool) : Z :=
  match fsGet (dirPath ++ [fst file]) (disk s) with
  | Some n => mtimeOf n
  | None => 0
  end.

Lemma stat_or_zero dirPath s file :
  reliable E ->
  tryCatch (fs_stat E (dirPath ++ [fst file])) (fun _ => ret 0) s
  = (Ok (stamp dirPath s file), s).
Proof.
  intros Hio. unfold tryCatch, fs_stat, stamp.
  rewrite (bind_ok _ _ _ _ _ (oracle_reliable E _ _ s Hio)).
  unfold bind, get, sysError, throw, ret.
  assert (Hn : nodeAt (dirPath ++ [fst file]) (disk s)
               = fsGet (dirPath ++ [fst file]) (disk s)).
  { unfold nodeAt. now destruct dirPath. }
  rewrite Hn. now destruct (fsGet (dirPath ++ [fst file]) (disk s)).
Qed.

Lemma getDirectoryLastModified_run dirPath s t :
  reliable E ->
  nodeAt dirPath (disk s) = Some (Dir t) ->
  getDirectoryLastModified E dirPath s
  = (Ok (maxOf (map (stamp dirPath s) (entriesOf dirPath (disk s)))), s).
Proof.
  intros Hio Hdir. unfold getDirectoryLastModified.
  assert (Hrd : fs_readdir E dirPath s = (Ok (entriesOf dirPath (disk s)), s)).
  { unfold fs_readdir.
    rewrite (bind_ok _ _ _ _ _ (oracle_reliable E _ _ s Hio)).
    unfold bind, get. now rewrite Hdir. }
  apply tryCatch_ok. rewrite (bind_ok _ _ _ _ _ Hrd).
  destruct (entriesOf dirPath (disk s)) as [|file files] eqn:Hfiles;
    [reflexivity|].
  rewrite (bind_ok _ _ _ _ _
             (StampFacts.allSettled_map _ (stamp dirPath s) (file :: files) s
                (fun x => stat_or_zero dirPath s x Hio))).
  reflexivity.
Qed.

Lemma getDirectoryLastModified_zero dirPath s :
  (forall t, nodeAt dirPath (disk s) <> Some (Dir t)) \/
  entriesOf dirPath (disk s) = [] ->
  fst (getDirectoryLastModified E dirPath s) = Ok 0.
Proof.
  intros Hcase.
  unfold getDirectoryLastModified, tryCatch, bind at 1.
  unfold fs_readdir, bind, oracle, get, sysError, throw, ret.
  destruct (ioFails E OpReaddir dirPath); [reflexivity|].
  destruct (nodeAt dirPath (disk s)) as [[t|c t]|] eqn:Hn; try reflexivity.
  destruct Hcase as [Hno|Hempty]; [now contradiction (Hno t)|].
  now rewrite Hempty.
Qed.

End Stamp.

(** X14: [getDirectoryLastModified] never throws and changes nothing. It
    gives 0 for a directory that is missing, is a file or is empty; when the
    disk works, its value for a directory is at least the modification time
    of every entry of the directory. *)
Theorem getDirectoryLastModified_spec (E : Env) (dirPath : path) (s : State) :
  exists lastModified,
    getDirectoryLastModified E dirPath s = (Ok lastModified, s) /\
    ((forall t, nodeAt dirPath (disk s) <> Some (Dir t)) \/
     entriesOf dirPath (disk s) = [] -> lastModified = 0) /\
    (reliable E ->
     (exists t, nodeAt dirPath (disk s) = Some (Dir t)) ->
     forall name n,
       fsGet (dirPath ++ [name]) (disk s) = Some n ->
       mtimeOf n <= lastModified).
Proof.
  destruct (getDirectoryLastModified_ok E dirPath s) as (lastModified & Hrun).
  exists lastModified. split; [exact Hrun|]. split.
  - intros Hcase. pose proof (getDirectoryLastModified_zero E dirPath s Hcase) as H.
    rewrite Hrun in H. cbn [fst] in H. congruence.
  - intros Hio (t & Hdir) name n Hget.
    rewrite (getDirectoryLastModified_run E dirPath s t Hio Hdir) in Hrun.
    injection Hrun as <-.
    destruct (StampFacts.entry_listed dirPath name n (disk s) Hget)
      as (isDir & Hin).
    apply StampFacts.maxOf_ge. apply in_map_iff.
    exists (name, isDir). split; [|exact Hin].
    cbn [fst]. now rewrite Hget.
Qed.

Lemma getDirectoryLastModified_spec_witness :
  exists lastModified,
    getDirectoryLastModified Sample.env ["p"; "findings"] Sample.sevenFindings
    = (Ok lastModified, Sample.sevenFindings) /\
    7 <= lastModified.
Proof.
  destruct (getDirectoryLastModified_spec Sample.env ["p"; "findings"]
              Sample.sevenFindings) as (lastModified & Hrun & _ & Hmax).
  exists lastModified. split; [exact Hrun|].
  apply (Hmax (fun _ _ => eq_refl) (ex_intro _ 0 eq_refl)
              "FIND-00000007-g.md" (snd (Sample.findingFile "p" "FIND-00000007-g" 7))).
  reflexivity.
Defined.

(** ** Projects the index does not know *)

Section Unknown.

Variable E : Env.
Hypothesis Hio : reliable E.

Variables (s : State) (projectName : string).
Hypothesis Hunknown : unknownProject s projectName.

Lemma getProject_unknown :
  exists idx,
    getProject E projectName s
    = (Err (ProjectNotFoundError (sanitizeProjectName projectName)),
       setIndexCache (Some idx) s).
Proof.
  destruct Hunknown as (idx & Hidx & Hget). exists idx.
  unfold getProject.
  rewrite (bind_ok _ _ _ _ _ (readProjectIndex_indexOf E (Hio _ _) s idx Hidx)).
  now rewrite Hget.
Qed.

Lemma unknown_first {A} (rest : ProjectMetadata -> M A) :
  fst (bind (getProject E projectName) rest s)
  = Err (ProjectNotFoundError (sanitizeProjectName projectName)) /\
  readOnly s (snd (bind (getProject E projectName) rest s)).
Proof.
  destruct getProject_unknown as (idx & Hg).
  rewrite (bind_err _ _ _ _ _ Hg). cbn [fst snd].
  split; [reflexivity|apply frame_indexCache].
Qed.

End Unknown.

Lemma notFound_message_clean (name : string) :
  Js.includes (message (ProjectNotFoundError (sanitizeProjectName name))) held
  = false.
Proof.
  cbn [message].
  assert (Htail : Js.includes (sanitizeProjectName name
                               ++ Js.dquote ++ " not found.") held = false).
  { change (sanitizeProjectName name ++ Js.dquote ++ " not found.")%string
      with (sanitizeProjectName name
            ++ String (ascii_of_nat 34) " not found.")%string.
    rewrite (PhraseFacts.includes_app_boundary _ (ascii_of_nat 34) _ held
               eq_refl (PhraseFacts.sanitized_no_phrase name)).
    reflexivity. }
  cbn. exact Htail.
Qed.

Lemma unknown_locked lockKey s projectName :
  unknownProject s projectName -> unknownProject (locked lockKey s) projectName.
Proof.
  intros (idx & Hidx & Hget). exists idx. now rewrite indexOf_locked.
Qed.

Lemma unknown_sanitized s projectName :
  unknownProject s projectName ->
  unknownProject s (sanitizeProjectName projectName).
Proof.
  intros (idx & Hidx & Hget). exists idx.
  now rewrite SanitizeFacts.sanitize_idempotent.
Qed.

Section UnknownLocked.

Variable E : Env.
Hypothesis Hio : reliable E.

Variables (s : State) (projectName : string).
Hypothesis Hunknown : unknownProject s projectName.

Lemma unknown_under_lock {A} lockKey (operation : M A) :
  lockFree lockKey s ->
  fst (operation (locked lockKey s))
  = Err (ProjectNotFoundError (sanitizeProjectName projectName)) ->
  fst (withLock E lockKey operation s)
  = Err (ProjectNotFoundError (sanitizeProjectName projectName)).
Proof.
  intros Hfree Hop.
  destruct (operation (locked lockKey s)) as [r s1] eqn:Hrun.
  cbn [fst] in Hop. subst r.
  apply (withLock_free_throws E Hio A lockKey operation s _ s1 Hfree Hrun).
  apply notFound_message_clean.
Qed.

Lemma updateProject_unknown updates :
  lockFree "project-index" s ->
  fst (updateProject E projectName updates s)
  = Err (ProjectNotFoundError (sanitizeProjectName projectName)).
Proof.
  intros Hfree. unfold updateProject.
  apply unknown_under_lock; [exact Hfree|].
  apply (proj1 (unknown_first E Hio _ projectName
                  (unknown_locked "project-index" s projectName Hunknown) _)).
Qed.

Lemma deleteProject_unknown :
  lockFree "project-index" s ->
  fst (deleteProject E projectName s)
  = Err (ProjectNotFoundError (sanitizeProjectName projectName)).
Proof.
  intros Hfree. unfold deleteProject.
  apply unknown_under_lock; [exact Hfree|].
  pose proof (fun A rest =>
                proj1 (@unknown_first E Hio _ (sanitizeProjectName projectName)
                         (unknown_locked "project-index" s _
                            (unknown_sanitized s projectName Hunknown))
                         A rest)) as H.
  rewrite SanitizeFacts.sanitize_idempotent in H. apply H.
Qed.

Lemma getFinding_unknown_locked lockKey findingId {A} (rest : Finding -> M A) :
  fst ((existing <- getFinding E projectName findingId ;; rest existing)
         (locked lockKey s))
  = Err (ProjectNotFoundError (sanitizeProjectName projectName)).
Proof.
  destruct (getProject_unknown E Hio _ projectName
              (unknown_locked lockKey s projectName Hunknown)) as (idx & Hg).
  unfold getFinding.
  now rewrite (bind_err _ _ _ _ _ (bind_err _ _ _ _ _ Hg)).
Qed.

End UnknownLocked.

(** X15: every operation on a project the index does not hold fails with the
    project-not-found condition, which names the sanitized project name. The
    operations that look the project up before they take a lock leave the
    disk, the listing caches and the clock as they were. *)
Theorem unknown_project_refused (E : Env) (s : State) (projectName : string) :
  reliable E ->
  unknownProject s projectName ->
  (fst (getProject E projectName s)
   = Err (ProjectNotFoundError (sanitizeProjectName projectName)) /\
   readOnly s (snd (getProject E projectName s))) /\
  (forall randomId input,
      fst (createFinding E randomId projectName input s)
      = Err (ProjectNotFoundError (sanitizeProjectName projectName)) /\
      readOnly s (snd (createFinding E randomId projectName input s))) /\
  (forall findingId,
      fst (getFinding E projectName findingId s)
      = Err (ProjectNotFoundError (sanitizeProjectName projectName)) /\
      readOnly s (snd (getFinding E projectName findingId s))) /\
  (forall limit offset,
      fst (listFindings E projectName limit offset s)
      = Err (ProjectNotFoundError (sanitizeProjectName projectName)) /\
      readOnly s (snd (listFindings E projectName limit offset s))) /\
  (forall randomId input,
      fst (createAuditTrail E randomId projectName input s)
      = Err (ProjectNotFoundError (sanitizeProjectName projectName)) /\
      readOnly s (snd (createAuditTrail E randomId projectName input s))) /\
  (forall auditId,
      fst (getAuditTrail E projectName auditId s)
      = Err (ProjectNotFoundError (sanitizeProjectName projectName)) /\
      readOnly s (snd (getAuditTrail E projectName auditId s))) /\
  (forall limit offset,
      fst (listAuditTrails E projectName limit offset s)
      = Err (ProjectNotFoundError (sanitizeProjectName projectName)) /\
      readOnly s (snd (listAuditTrails E projectName limit offset s))) /\
  (forall updates,
      lockFree "project-index" s ->
      fst (updateProject E projectName updates s)
      = Err (ProjectNotFoundError (sanitizeProjectName projectName))) /\
  (lockFree "project-index" s ->
   fst (deleteProject E projectName s)
   = Err (ProjectNotFoundError (sanitizeProjectName projectName))) /\
  (forall findingId updates,
      lockFree ("finding-" ++ projectName ++ "-" ++ findingId) s ->
      fst (updateFinding E projectName findingId updates s)
      = Err (ProjectNotFoundError (sanitizeProjectName projectName))) /\
  (forall findingId,
      lockFree ("finding-" ++ projectName ++ "-" ++ findingId) s ->
      fst (deleteFinding E projectName findingId s)
      = Err (ProjectNotFoundError (sanitizeProjectName projectName))).
Proof.
  intros Hio Hunknown.
  split.
  { destruct (getProject_unknown E Hio s projectName Hunknown) as (idx & ->).
    split; [reflexivity|apply frame_indexCache]. }
  split; [intros; apply (unknown_first E Hio s projectName Hunknown)|].
  split; [intros; apply (unknown_first E Hio s projectName Hunknown)|].
  split; [intros; apply (unknown_first E Hio s projectName Hunknown)|].
  split; [intros; apply (unknown_first E Hio s projectName Hunknown)|].
  split; [intros; apply (unknown_first E Hio s projectName Hunknown)|].
  split; [intros; apply (unknown_first E Hio s projectName Hunknown)|].
  split; [intros; now apply updateProject_unknown|].
  split; [intros; now apply deleteProject_unknown|].
  split.
  - intros findingId updates Hfree. unfold updateFinding.
    apply (unknown_under_lock E Hio s projectName); [exact Hfree|].
    now apply getFinding_unknown_locked.
  - intros findingId Hfree. unfold deleteFinding.
    apply (unknown_under_lock E Hio s projectName); [exact Hfree|].
    now apply (getFinding_unknown_locked E Hio s projectName Hunknown _
                 findingId (fun _ => _)).
Qed.

Lemma unknown_project_refused_witness :
  fst (getProject Sample.env "Q 1!" Sample.oneProject)
  = Err (ProjectNotFoundError "q-1") /\
  fst (listFindings Sample.env "Q 1!" 100 0 Sample.oneProject)
  = Err (ProjectNotFoundError "q-1") /\
  fst (deleteProject Sample.env "Q 1!" Sample.oneProject)
  = Err (ProjectNotFoundError "q-1") /\
  fst (deleteFinding Sample.env "Q 1!" "FIND-00000001-a" Sample.oneProject)
  = Err (ProjectNotFoundError "q-1").
Proof.
  assert (Hio : reliable Sample.env) by (intros op p; reflexivity).
  assert (Hunknown : unknownProject Sample.oneProject "Q 1!").
  { eexists. split; vm_compute; reflexivity. }
  destruct (unknown_project_refused Sample.env Sample.oneProject "Q 1!"
              Hio Hunknown)
    as (Hgp & _ & _ & Hlf & _ & _ & _ & _ & Hdp & _ & Hdf).
  split; [apply Hgp|].
  split; [apply Hlf|].
  split; [apply Hdp; split; reflexivity|].
  apply Hdf; split; reflexivity.
Defined.

(** ** Updating a project *)

#[export] Instance sameClock_Frame W : Frame sameClock W.
Proof.
  split; [split; [split|]|..]; unfold sameClock; simpl;
    try (intros; reflexivity).
  intros a b c Hab Hbc. congruence.
Qed.

Lemma mapGet_mapSet_other {V} key other (v : V) m :
  other <> key -> mapGet other (mapSet key v m) = mapGet other m.
Proof.
  intros Hne. induction m as [|[k w] m IH]; simpl.
  - destruct (String.eqb_spec key other); [congruence|reflexivity].
  - destruct (String.eqb_spec k key) as [->|Hk]; simpl.
    + destruct (String.eqb_spec key other); [congruence|reflexivity].
    + destruct (String.eqb k other); [reflexivity|exact IH].
Qed.

Section ReadBack.

Variable E : Env.

(** the index a successful read returns is the one [indexOf] names, or the
    empty one *)
Lemma readProjectIndex_ok_inv s idx s' :
  readProjectIndex E s = (Ok idx, s') ->
  indexOf s = Some idx \/ (indexOf s = None /\ idx = emptyIndex).
Proof.
  unfold readProjectIndex, indexOf. unfold bind at 1. unfold get.
  destruct (projectIndexCache s) as [cached|].
  - unfold ret. intros H. injection H as <- _. now left.
  - unfold tryCatch.
    destruct (bind (fs_readFile E projectIndexPath) _ s)
      as [[a|e|] s1] eqn:Hbody.
    + intros H. injection H as <- <-. left.
      unfold bind at 1 in Hbody. unfold fs_readFile in Hbody.
      unfold bind, oracle, get, sysError, throw, ret in Hbody.
      destruct (ioFails E OpReadFile projectIndexPath); [discriminate|].
      cbn [nodeAt projectIndexPath] in Hbody.
      change [".mcp-projects.json"] with projectIndexPath in Hbody.
      destruct (fsGet projectIndexPath (disk s)) as [[t|c t]|];
        try discriminate.
      destruct c; try discriminate.
      unfold modify in Hbody. now injection Hbody as <- _.
    + destruct (isENOENT e) eqn:He; [|discriminate].
      unfold bind.
      destruct (checkForCorruptedDirectory E s1) as [[u|e'|] s2];
        try discriminate.
      unfold modify, ret. intros H. injection H as <- _. right.
      split; [|reflexivity].
      unfold bind at 1 in Hbody. unfold fs_readFile in Hbody.
      unfold bind, oracle, get, sysError, throw, ret in Hbody.
      destruct (ioFails E OpReadFile projectIndexPath);
        [cbv beta iota in Hbody; injection Hbody as He1 _; subst e;
         discriminate|].
      cbn [nodeAt projectIndexPath] in Hbody.
      change [".mcp-projects.json"] with projectIndexPath in Hbody.
      destruct (fsGet projectIndexPath (disk s)) as [[t|c t]|];
        [cbv beta iota in Hbody; injection Hbody as He1 _; subst e;
         discriminate| |reflexivity].
      destruct c; cbv beta iota in Hbody; unfold modify in Hbody;
        cbv beta iota in Hbody;
        try discriminate; injection Hbody as He1 _; subst e; discriminate.
    + discriminate.
Qed.

Lemma getProject_ok_inv projectName s md s' :
  getProject E projectName s = (Ok md, s') ->
  exists idx,
    indexOf s = Some idx /\
    projectIndexCache s' = Some idx /\
    mapGet (sanitizeProjectName projectName) (projects idx) = Some md /\
    readOnly s s'.
Proof.
  intros H.
  destruct (getProject_ok_cached E projectName s md s' H)
    as (Hro & idx & Hc & Hget).
  exists idx. repeat split; try assumption; try apply Hro.
  unfold getProject in H. apply bind_ok_inv in H as (idx' & s1 & Hr & H).
  pose proof (readProjectIndex_ok_cached E s idx' s1 Hr) as Hc1.
  destruct (mapGet (sanitizeProjectName projectName) (projects idx'))
    as [md'|] eqn:Hget'; [|discriminate].
  unfold ret in H. injection H as <- <-.
  assert (idx' = idx) by congruence. subst idx'.
  destruct (readProjectIndex_ok_inv s idx s1 Hr) as [Hidx|[_ ->]];
    [exact Hidx|discriminate].
Qed.

Lemma lockfileLock_ok_inv name stale s s' :
  lockfileLock E name stale s = (Ok tt, s') ->
  agree (under [name]) s s' /\
  projectIndexCache s' = projectIndexCache s /\
  clock s' = clock s.
Proof.
  intros H.
  pose proof (lockfileLock_frame E (R := agree (under [name])) name stale
                (fun q Hq => Hq) s) as Hag.
  pose proof (lockfileLock_frame E (R := sameClock) (W := fun _ => true)
                name stale (fun q Hq => eq_refl) s) as Hclock.
  pose proof (lockfileLock_cache E name stale s) as Hcache.
  rewrite H in *. cbn [snd] in *. auto.
Qed.

Lemma indexOf_agree W s s' :
  W projectIndexPath = false ->
  agree W s s' ->
  projectIndexCache s' = projectIndexCache s ->
  indexOf s' = indexOf s.
Proof.
  intros Hw Hag Hc. unfold indexOf. now rewrite Hc, (Hag _ Hw).
Qed.

Lemma project_file_not_locked lockKey projectName file :
  Js.startsWith file "." = false ->
  under [".mcp-lock-" ++ lockKey ++ ".lock"]
        (getProjectPath projectName ++ [file]) = false.
Proof.
  intros Hfile. unfold getProjectPath.
  change (".mcp-lock-" ++ lockKey ++ ".lock")%string
    with (String "." ("mcp-lock-" ++ lockKey ++ ".lock")).
  destruct (String.eqb (sanitizeProjectName projectName) "");
    cbn [app under].
  - destruct file as [|c file]; [reflexivity|].
    assert (Hc : Ascii.eqb "." c = false).
    { destruct file; cbn [Js.startsWith] in Hfile;
        now rewrite andb_true_r in Hfile. }
    cbn [String.eqb]. now rewrite Hc.
  - now rewrite SanitizeFacts.sanitize_not_dotfile.
Qed.

Lemma project_file_not_index projectName file :
  Js.startsWith file "." = false ->
  indexFiles (getProjectPath projectName ++ [file]) = false.
Proof.
  intros Hfile. unfold getProjectPath, indexFiles.
  destruct (String.eqb (sanitizeProjectName projectName) "");
    cbn [app path_eqb projectIndexPath projectIndexTmp].
  - destruct file as [|c file]; [reflexivity|].
    assert (Hc : Ascii.eqb "." c = false).
    { destruct file; cbn [Js.startsWith] in Hfile;
        now rewrite andb_true_r in Hfile. }
    cbn [String.eqb]. now rewrite Hc.
  - now rewrite !andb_false_r.
Qed.

End ReadBack.

Lemma readProjectIndex_cached (E : Env) s idx :
  projectIndexCache s = Some idx -> readProjectIndex E s = (Ok idx, s).
Proof.
  intros Hc. unfold readProjectIndex, bind, get. cbv beta iota. now rewrite Hc.
Qed.

(** what a call of [updateProject] that returns has done *)
Lemma updateProject_ok_spec (E : Env) (projectName : string)
        (updates : UpdateProjectInput) (s s' : State)
        (updated : ProjectMetadata) :
  updateProject E projectName updates s = (Ok updated, s') ->
  exists metadata,
    recorded s projectName metadata /\
    p_status metadata <> Completed /\
    updated = applyProjectUpdates metadata updates (clock s) /\
    recorded s' projectName updated /\
    (forall other m,
        sanitizeProjectName other <> sanitizeProjectName projectName ->
        recorded s other m <-> recorded s' other m) /\
    fsGet (getProjectPath projectName ++ ["project.json"]) (disk s')
    = Some (File (JsonProject updated) (clock s)) /\
    agree (updateFootprint (getProjectPath projectName)) s s'.
Proof.
  intros H.
  pose proof (updateProject_frame
                E (R := agree (updateFootprint (getProjectPath projectName)))
                projectName updates (fun q Hq => Hq) s) as Hframe.
  rewrite H in Hframe. cbn [snd] in Hframe.
  unfold updateProject in H.
  apply withLock_ok_inv in H as (s1 & s2 & Hlock & Hop & ->).
  apply bind_ok_inv in Hop as (md & s3 & Hg & Hop).
  destruct (ProjectStatus_eqb (p_status md) Completed) eqn:Hst;
    [discriminate|].
  unfold bind at 1 in Hop. unfold get in Hop.
  apply tryCatch_throws_ok_inv in Hop.
  2:{ intros e s4. unfold bind.
      destruct (ignoreErrors (fs_unlink E _) s4) as [[u|e'|] s5];
        discriminate. }
  apply bind_ok_inv in Hop as ([] & s4 & Hw & Hop).
  apply bind_ok_inv in Hop as ([] & s5 & Hmv & Hop).
  apply bind_ok_inv in Hop as (idx' & s6 & Hr & Hop).
  apply bind_ok_inv in Hop as ([] & s7 & Hm & Hop).
  apply bind_ok_inv in Hop as ([] & s8 & Hwi & Hop).
  unfold ret in Hop. injection Hop as <- <-.
  (* the lock and the lookup *)
  apply lockfileLock_ok_inv in Hlock as (Hag1 & Hc1 & Hclock1).
  apply getProject_ok_inv in Hg as (idx & Hidx1 & Hc3 & Hget & Hro3).
  destruct Hro3 as (Hd3 & _ & _ & _ & Hclock3).
  assert (Hidx : indexOf s = Some idx).
  { rewrite <- Hidx1. symmetry.
    apply (indexOf_agree _ _ _ (index_not_locked "project-index") Hag1 Hc1). }
  assert (Hclock : clock s3 = clock s) by congruence.
  rewrite Hclock in *.
  set (updated := applyProjectUpdates md updates (clock s)) in *.
  (* the project file *)
  apply fs_writeFile_ok_inv in Hw. apply fs_rename_ok_inv in Hmv.
  destruct Hmv as (c & t & Hgot & Hs5). subst s4.
  cbn [disk setDisk] in Hgot. rewrite fsGet_fsPut_same in Hgot.
  rewrite Hclock in Hgot. injection Hgot as <- <-.
  assert (Hfile5 : fsGet (getProjectPath projectName ++ ["project.json"])
                         (disk s5)
                   = Some (File (JsonProject updated) (clock s))).
  { subst s5. cbn [disk setDisk]. apply fsGet_fsPut_same. }
  assert (Hc5 : projectIndexCache s5 = Some idx) by (subst s5; exact Hc3).
  (* the index *)
  rewrite (readProjectIndex_cached E s5 idx Hc5) in Hr.
  injection Hr as <- <-.
  unfold modify in Hm. injection Hm as <-.
  set (index' := mkIndex (mapSet (sanitizeProjectName projectName) updated
                                 (projects idx))
                         (lastActive idx)) in *.
  pose proof (writeProjectIndex_frame
                E (R := agree indexFiles) index' eq_refl eq_refl
                (setIndexCache (Some index') s5)) as Hag8.
  rewrite Hwi in Hag8. cbn [snd] in Hag8.
  apply writeProjectIndex_ok_inv in Hwi as (Hc8 & t8 & Hfile8).
  destruct (release_readOnly_but_disk
              (".mcp-lock-" ++ "project-index" ++ ".lock") s8) as (Hc' & Hd').
  assert (Hidx' : indexOf (snd (ignoreErrors
                                  (lockfileRelease
                                     (".mcp-lock-" ++ "project-index" ++ ".lock"))
                                  s8))
                  = Some index').
  { unfold indexOf. rewrite Hc', Hc8.
    rewrite (Hd' _ (index_not_locked "project-index")).
    now rewrite Hfile8. }
  exists md. split; [now exists idx|].
  split; [intros Hdone; rewrite Hdone in Hst; discriminate|].
  split; [reflexivity|].
  split.
  { eexists. split; [exact Hidx'|]. unfold index'. cbn [projects].
    apply mapGet_mapSet. }
  split.
  { intros other m Hne. unfold recorded. rewrite Hidx, Hidx'. split.
    - intros (i & Hi & Hm). injection Hi as <-. eexists. split; [reflexivity|].
      unfold index'. cbn [projects]. now rewrite mapGet_mapSet_other.
    - intros (i & Hi & Hm). injection Hi as <-. exists idx.
      split; [reflexivity|].
      unfold index' in Hm. cbn [projects] in Hm.
      now rewrite mapGet_mapSet_other in Hm. }
  split; [|exact Hframe].
  rewrite (Hd' _ (project_file_not_locked "project-index" projectName
                    "project.json" eq_refl)).
  rewrite (Hag8 _ (project_file_not_index projectName "project.json" eq_refl)).
  exact Hfile5.
Qed.

(** X16: a call of [updateProject] that returns has found the project in the
    index, not completed, and returns its metadata with the given fields
    replaced and the time of the call as [updated] (id, name and creation
    time stay). Afterwards the index holds the returned metadata for the
    project and what it held before for every other project, the project's
    [project.json] holds the returned metadata, and the disk is unchanged
    outside the project file, the index files and the index lock. *)
Theorem updateProject_applies (E : Env) (projectName : string)
        (updates : UpdateProjectInput) (s s' : State)
        (updated : ProjectMetadata) :
  updateProject E projectName updates s = (Ok updated, s') ->
  exists metadata,
    recorded s projectName metadata /\
    p_status metadata <> Completed /\
    updated = applyProjectUpdates metadata updates (clock s) /\
    recorded s' projectName updated /\
    (forall other m,
        sanitizeProjectName other <> sanitizeProjectName projectName ->
        recorded s other m <-> recorded s' other m) /\
    fsGet (getProjectPath projectName ++ ["project.json"]) (disk s')
    = Some (File (JsonProject updated) (clock s)) /\
    agree (updateFootprint (getProjectPath projectName)) s s'.
Proof. apply updateProject_ok_spec. Qed.

Lemma updateProject_applies_witness :
  recorded (snd (updateProject Sample.env "p" Sample5.handover
                               Sample5.twoProjects))
           "p"
           (mkProject "5f0c2d1e-0000-4000-8000-000000000001" "p" (Some "Acme")
                      0 100 None Completed None) /\
  recorded (snd (updateProject Sample.env "p" Sample5.handover
                               Sample5.twoProjects))
           "q" (Sample.project "q" InProgress).
Proof.
  assert (Hrun : updateProject Sample.env "p" Sample5.handover
                               Sample5.twoProjects
                 = (Ok (mkProject "5f0c2d1e-0000-4000-8000-000000000001" "p"
                                  (Some "Acme") 0 100 None Completed None),
                    snd (updateProject Sample.env "p" Sample5.handover
                                       Sample5.twoProjects))).
  { vm_compute. reflexivity. }
  destruct (updateProject_applies _ _ _ _ _ _ Hrun)
    as (md & _ & _ & _ & Hp & Hq & _ & _).
  split; [exact Hp|].
  apply Hq; [vm_compute; discriminate|].
  eexists. split; vm_compute; reflexivity.
Defined.

(** ** Deleting a project *)

Lemma mapGet_absent {V} key (m : list (string * V)) :
  ~ In key (map fst m) -> mapGet key m = None.
Proof.
  induction m as [|[k w] m IH]; [reflexivity|]. cbn [map fst In mapGet].
  intros Hnot. destruct (String.eqb_spec k key) as [->|_]; [tauto|].
  apply IH. tauto.
Qed.

Lemma mapGet_mapDelete_same {V} key (m : list (string * V)) :
  NoDup (map fst m) -> mapGet key (mapDelete key m) = None.
Proof.
  induction m as [|[k w] m IH]; [reflexivity|]. cbn [map fst mapDelete].
  intros Hnd. inversion Hnd as [|? ? Hnot Hrest]; subst.
  destruct (String.eqb_spec k key) as [->|Hne].
  - now apply mapGet_absent.
  - cbn [mapGet]. destruct (String.eqb_spec k key); [congruence|].
    now apply IH.
Qed.

Lemma mapGet_mapDelete_other {V} key other (m : list (string * V)) :
  other <> key -> mapGet other (mapDelete key m) = mapGet other m.
Proof.
  intros Hne. induction m as [|[k w] m IH]; [reflexivity|].
  cbn [mapDelete]. destruct (String.eqb_spec k key) as [->|Hk].
  - cbn [mapGet]. destruct (String.eqb_spec key other); [congruence|].
    reflexivity.
  - cbn [mapGet]. destruct (String.eqb k other); [reflexivity|exact IH].
Qed.

Section DeleteFacts.

Variable E : Env.

Lemma checkProjectNotCompleted_ok_inv projectName operation s s' :
  checkProjectNotCompleted E projectName operation s = (Ok tt, s') ->
  exists md,
    getProject E projectName s = (Ok md, s') /\ p_status md <> Completed.
Proof.
  unfold checkProjectNotCompleted. intros H.
  apply bind_ok_inv in H as (md & s1 & Hg & H).
  destruct (ProjectStatus_eqb (p_status md) Completed) eqn:Hst;
    [discriminate|].
  unfold ret in H. injection H as <-.
  exists md. split; [exact Hg|].
  intros Hdone. rewrite Hdone in Hst. discriminate.
Qed.

Lemma fs_rm_ok_inv p s s' :
  fs_rm E p s = (Ok tt, s') -> s' = setDisk (fsRemoveTree p (disk s)) s.
Proof.
  unfold fs_rm, bind, oracle, get, modify, sysError, throw.
  destruct (ioFails E OpRm p); [discriminate|].
  intros H. now injection H as <-.
Qed.

Lemma index_not_under_project name q :
  indexFootprint q = true -> under [sanitizeProjectName name] q = false.
Proof.
  unfold indexFootprint, indexFiles, projectIndexLock, projectIndexPath,
    projectIndexTmp.
  destruct q as [|f q]; [reflexivity|]. cbn [under path_eqb].
  destruct (String.eqb_spec (sanitizeProjectName name) f) as [<-|_];
    [|reflexivity].
  rewrite !SanitizeFacts.sanitize_not_dotfile. cbn. discriminate.
Qed.

End DeleteFacts.

(** X17: a call of [deleteProject] that returns has found the project in the
    index, not completed. Afterwards the index no longer holds the project
    and does not name it as the active one, it holds every other project as
    before, nothing is left on the disk at or below the project directory,
    and the disk is unchanged outside the project directory, the index files
    and the index lock. *)
Theorem deleteProject_removes (E : Env) (projectName : string)
        (s s' : State) (idx : InternalProjectIndex) :
  sanitizeProjectName projectName <> "" ->
  indexOf s = Some idx ->
  distinctProjects idx ->
  deleteProject E projectName s = (Ok tt, s') ->
  (exists metadata,
      recorded s projectName metadata /\ p_status metadata <> Completed) /\
  (exists idx',
      indexOf s' = Some idx' /\
      mapGet (sanitizeProjectName projectName) (projects idx') = None /\
      lastActive idx' <> Some (sanitizeProjectName projectName) /\
      forall other,
        sanitizeProjectName other <> sanitizeProjectName projectName ->
        mapGet (sanitizeProjectName other) (projects idx')
        = mapGet (sanitizeProjectName other) (projects idx)) /\
  (forall q,
      under [sanitizeProjectName projectName] q = true ->
      fsGet q (disk s') = None) /\
  agree (projectFootprint (sanitizeProjectName projectName)) s s'.
Proof.
  intros Hname Hidx Hnd H. unfold deleteProject in H.
  apply withLock_ok_inv in H as (s1 & s2 & Hlock & Hop & ->).
  apply bind_ok_inv in Hop as (md & s3 & Hg & Hop).
  apply bind_ok_inv in Hop as ([] & s4 & Hc & Hop).
  apply bind_ok_inv in Hop as (originalIndex & s5 & Hr & Hop).
  apply tryCatch_throws_ok_inv in Hop.
  2:{ intros e s6. unfold bind.
      destruct (tryCatch _ _ s6) as [[u|e'|] s7]; discriminate. }
  apply bind_ok_inv in Hop as ([] & s6 & Hwi & Hrm).
  (* the lock and the lookups *)
  apply lockfileLock_ok_inv in Hlock as (Hag1 & Hc1 & _).
  apply getProject_ok_inv in Hg as (idx1 & Hidx1 & Hc3 & Hget & Hro3).
  assert (Hsame : indexOf s1 = indexOf s).
  { apply (indexOf_agree _ _ _ (index_not_locked "project-index") Hag1 Hc1). }
  assert (idx1 = idx) by congruence. subst idx1.
  rewrite SanitizeFacts.sanitize_idempotent in Hget.
  apply checkProjectNotCompleted_ok_inv in Hc as (md' & Hg' & Hst).
  rewrite (getProject_cached E _ s3 idx md Hc3) in Hg'
    by (now rewrite SanitizeFacts.sanitize_idempotent).
  injection Hg' as <- <-.
  rewrite (readProjectIndex_cached E s3 idx Hc3) in Hr.
  injection Hr as <- <-.
  (* the writes *)
  set (index' := mkIndex (mapDelete (sanitizeProjectName projectName)
                                    (projects idx))
                         (if optEqb (lastActive idx)
                                    (sanitizeProjectName projectName)
                          then None else lastActive idx)) in *.
  pose proof (writeProjectIndex_frame
                E (R := agree indexFiles) index' eq_refl eq_refl s3) as Hag6.
  rewrite Hwi in Hag6. cbn [snd] in Hag6.
  apply writeProjectIndex_ok_inv in Hwi as (Hc6 & t6 & Hfile6).
  apply fs_rm_ok_inv in Hrm.
  assert (Hpath : getProjectPath (sanitizeProjectName projectName)
                  = [sanitizeProjectName projectName]).
  { unfold getProjectPath. rewrite SanitizeFacts.sanitize_idempotent.
    now destruct (String.eqb_spec (sanitizeProjectName projectName) ""). }
  rewrite Hpath in Hrm.
  destruct (release_readOnly_but_disk
              (".mcp-lock-" ++ "project-index" ++ ".lock") s2) as (Hc' & Hd').
  set (s' := snd (ignoreErrors
                    (lockfileRelease
                       (".mcp-lock-" ++ "project-index" ++ ".lock")) s2)) in *.
  assert (Hdisk2 : forall q,
             fsGet q (disk s2)
             = if under [sanitizeProjectName projectName] q then None
               else fsGet q (disk s6)).
  { intros q. subst s2. cbn [disk setDisk]. apply fsGet_fsRemoveTree. }
  assert (Hidx' : indexOf s' = Some index').
  { unfold indexOf. rewrite Hc'. subst s2. cbn [projectIndexCache setDisk].
    rewrite Hc6. rewrite (Hd' _ (index_not_locked "project-index")).
    cbn [disk setDisk]. rewrite fsGet_fsRemoveTree.
    rewrite (index_not_under_project projectName projectIndexPath eq_refl).
    now rewrite Hfile6. }
  split; [exists md; split; [now exists idx|exact Hst]|].
  split.
  { exists index'. split; [exact Hidx'|]. unfold index'. cbn [projects lastActive].
    split; [now apply mapGet_mapDelete_same|]. split.
    - destruct (lastActive idx) as [a|]; cbn [optEqb]; [|discriminate].
      destruct (String.eqb_spec a (sanitizeProjectName projectName));
        [discriminate|congruence].
    - intros other Hne. now apply mapGet_mapDelete_other. }
  split.
  { intros q Hq.
    destruct (under [".mcp-lock-" ++ "project-index" ++ ".lock"] q) eqn:Hl.
    - pose proof (index_not_under_project projectName q) as Hno.
      unfold indexFootprint, projectIndexLock in Hno.
      change (".mcp-lock-" ++ "project-index" ++ ".lock")%string
        with ".mcp-lock-project-index.lock" in Hl.
      rewrite Hl in Hno. specialize (Hno eq_refl). congruence.
    - rewrite (Hd' q Hl), Hdisk2. now rewrite Hq. }
  intros q Hq. unfold projectFootprint, indexFootprint in Hq.
  apply orb_false_iff in Hq as [Hproj Hq].
  apply orb_false_iff in Hq as [Hl Hfiles].
  rewrite (Hd' q Hl), Hdisk2, Hproj, (Hag6 q Hfiles).
  destruct Hro3 as (Hd3 & _). rewrite Hd3. now apply Hag1.
Qed.

Lemma deleteProject_removes_witness :
  unknownProject (snd (deleteProject Sample.env "P" Sample5.twoProjects)) "p" /\
  recorded (snd (deleteProject Sample.env "P" Sample5.twoProjects)) "q"
           (Sample.project "q" InProgress) /\
  fsGet ["p"; "project.json"]
        (disk (snd (deleteProject Sample.env "P" Sample5.twoProjects))) = None.
Proof.
  assert (Hrun : deleteProject Sample.env "P" Sample5.twoProjects
                 = (Ok tt, snd (deleteProject Sample.env "P"
                                              Sample5.twoProjects))).
  { vm_compute. reflexivity. }
  destruct (deleteProject_removes Sample.env "P" Sample5.twoProjects _
              (mkIndex [("p", Sample.project "p" InProgress);
                        ("q", Sample.project "q" InProgress)] (Some "p"))
              ltac:(vm_compute; discriminate) eq_refl
              ltac:(repeat constructor; cbn; intuition discriminate)
              Hrun)
    as (_ & (idx' & Hidx' & Hgone & _ & Hothers) & Habsent & _).
  split; [exists idx'; split; [exact Hidx'|exact Hgone]|]. split.
  - exists idx'. split; [exact Hidx'|].
    rewrite (Hothers "q"); [reflexivity|vm_compute; discriminate].
  - apply Habsent. reflexivity.
Defined.

(** ** Creating a project that is there *)

Lemma exists_message_clean (name : string) :
  Js.includes (message (ProjectExistsError (sanitizeProjectName name))) held
  = false.
Proof.
  cbn [message].
  assert (Htail : Js.includes
                    (sanitizeProjectName name ++ Js.dquote
                     ++ " already exists. Cannot overwrite existing projects.")
                    held = false).
  { change (sanitizeProjectName name ++ Js.dquote
            ++ " already exists. Cannot overwrite existing projects.")%string
      with (sanitizeProjectName name
            ++ String (ascii_of_nat 34)
                 " already exists. Cannot overwrite existing projects.")%string.
    rewrite (PhraseFacts.includes_app_boundary _ (ascii_of_nat 34) _ held
               eq_refl (PhraseFacts.sanitized_no_phrase name)).
    reflexivity. }
  cbn. exact Htail.
Qed.

Lemma locked_agree lockKey s :
  agree (under [".mcp-lock-" ++ lockKey ++ ".lock"]) s (locked lockKey s).
Proof.
  intros q Hq. unfold locked. cbn [disk setDisk]. rewrite fsGet_app.
  destruct (fsGet q (disk s)); [reflexivity|]. cbn [fsGet].
  destruct (path_eqb [".mcp-lock-" ++ lockKey ++ ".lock"] q) eqn:Heq;
    [|reflexivity].
  apply path_eqb_eq in Heq. subst q. now rewrite under_refl in Hq.
Qed.

(** X18: [createProject] refuses a name that sanitizes to nothing, without
    touching anything. When something is already on the disk at the project's
    path, it fails with the project-exists condition naming the sanitized
    name; the disk is then as before (the index lock is released), and so is
    the cached index. *)
Theorem createProject_refuses (E : Env) (uuid : string)
        (input : CreateProjectInput) (s : State) :
  (sanitizeProjectName (cp_name input) = "" ->
   createProject E uuid input s = (Err (PlainError "Invalid project name"), s)) /\
  (forall n,
      reliable E ->
      lockFree "project-index" s ->
      sanitizeProjectName (cp_name input) <> "" ->
      fsGet [sanitizeProjectName (cp_name input)] (disk s) = Some n ->
      fst (createProject E uuid input s)
      = Err (ProjectExistsError (sanitizeProjectName (cp_name input))) /\
      agree (under [projectIndexLock]) s (snd (createProject E uuid input s)) /\
      fsGet [projectIndexLock] (disk (snd (createProject E uuid input s)))
      = None /\
      projectIndexCache (snd (createProject E uuid input s))
      = projectIndexCache s).
Proof.
  split.
  - intros Hempty. unfold createProject. now rewrite Hempty.
  - intros n Hio Hfree Hname Hget. unfold createProject.
    set (name := sanitizeProjectName (cp_name input)) in *.
    assert (Htruthy : Js.truthy name = true).
    { unfold Js.truthy. now destruct name. }
    rewrite Htruthy. cbn [negb].
    assert (Hpath : getProjectPath name = [name]).
    { unfold getProjectPath, name.
      rewrite SanitizeFacts.sanitize_idempotent. fold name.
      now destruct (String.eqb_spec name ""). }
    rewrite Hpath. rewrite (withLock_free E Hio _ _ _ _ Hfree).
    set (s1 := locked "project-index" s).
    assert (Hacc : fs_access E [name] s1 = (Ok tt, s1)).
    { rewrite (fs_access_spec E Hio). unfold nodeAt, s1.
      rewrite (locked_agree "project-index" s [name]).
      - now rewrite Hget.
      - cbn [under]. unfold name.
        change (".mcp-lock-" ++ "project-index" ++ ".lock")%string
          with (String "." "mcp-lock-project-index.lock").
        now rewrite SanitizeFacts.sanitize_not_dotfile. }
    match goal with
    | |- context [finally (tryCatch ?op _) _ s1] =>
        assert (Hop : op s1 = (Err (ProjectExistsError name), s1))
    end.
    { apply bind_err.
      rewrite (tryCatch_err _ _ _ _ _
                 (eq_trans (bind_ok _ _ _ _ _ Hacc) eq_refl)).
      reflexivity. }
    unfold finally. rewrite (tryCatch_err _ _ _ _ _ Hop).
    rewrite lockTimeout_underLock. unfold underLock.
    unfold name at 1. rewrite exists_message_clean. fold name. cbn [fst snd].
    destruct (release_readOnly_but_disk
                (".mcp-lock-" ++ "project-index" ++ ".lock") s1) as (Hc' & Hd').
    split; [reflexivity|]. split; [|split].
    + intros q Hq. rewrite (Hd' q Hq). now apply locked_agree.
    + apply release_gone.
    + now rewrite Hc'.
Qed.

Lemma createProject_refuses_witness :
  createProject Sample.env "5f0c2d1e-0000-4000-8000-000000000002"
                (mkCreateProjectInput "?!" None None None) Sample.oneProject
  = (Err (PlainError "Invalid project name"), Sample.oneProject) /\
  fst (createProject Sample.env "5f0c2d1e-0000-4000-8000-000000000002"
                     (mkCreateProjectInput "P" None None None)
                     Sample.oneProject)
  = Err (ProjectExistsError "p").
Proof.
  split.
  - apply (proj1 (createProject_refuses Sample.env _ _ Sample.oneProject)).
    reflexivity.
  - apply (proj2 (createProject_refuses Sample.env
                    "5f0c2d1e-0000-4000-8000-000000000002"
                    (mkCreateProjectInput "P" None None None)
                    Sample.oneProject) (Dir 0)).
    + intros op p. reflexivity.
    + split; reflexivity.
    + vm_compute. discriminate.
    + reflexivity.
Defined.

(** ** Creating a project *)

Section MkdirFacts.

Lemma mkdirFrom_keeps base segs now fs fs' q n :
  mkdirFrom base segs now fs = inr fs' ->
  fsGet q fs = Some n -> fsGet q fs' = Some n.
Proof.
  revert base fs. induction segs as [|seg segs IH]; intros base fs; simpl.
  - intros H. now injection H as <-.
  - destruct (fsGet (base ++ [seg]) fs) as [[t|c t]|] eqn:Hget.
    + apply IH.
    + discriminate.
    + intros H Hq. apply (IH _ _ H). rewrite fsGet_app. now rewrite Hq.
Qed.

Lemma mkdirFrom_cons base seg rest now fs :
  mkdirFrom base (seg :: rest) now fs
  = match fsGet (base ++ [seg]) fs with
    | Some (Dir _) => mkdirFrom (base ++ [seg]) rest now fs
    | Some (File _ _) => inl (match rest with [] => EEXIST | _ => ENOTDIR end)
    | None =>
        mkdirFrom (base ++ [seg]) rest now
                  (fs ++ [((base ++ [seg])%list, Dir now)])
    end.
Proof. reflexivity. Qed.

Lemma mkdirFrom_made base seg segs now fs fs' :
  mkdirFrom base (seg :: segs) now fs = inr fs' ->
  exists t, fsGet (base ++ seg :: segs) fs' = Some (Dir t).
Proof.
  revert base seg fs. induction segs as [|next segs IH]; intros base seg fs.
  - cbn [mkdirFrom].
    destruct (fsGet (base ++ [seg]) fs) as [[t|c t]|] eqn:Hget.
    + intros H. injection H as <-. now exists t.
    + discriminate.
    + intros H. injection H as <-. exists now.
      rewrite fsGet_app, Hget. cbn [fsGet]. now rewrite path_eqb_refl.
  - intros H. rewrite mkdirFrom_cons in H.
    replace (base ++ seg :: next :: segs)%list
      with ((base ++ [seg]) ++ next :: segs)%list
      by (now rewrite <- app_assoc).
    destruct (fsGet (base ++ [seg]) fs) as [[t|c t]|]; try discriminate;
      exact (IH _ _ _ H).
Qed.

Lemma mkdirFrom_new name now fs fs' :
  mkdirFrom [] [name] now fs = inr fs' ->
  fsGet [name] fs = None -> fs' = (fs ++ [([name], Dir now)])%list.
Proof.
  cbn [mkdirFrom app]. intros H Hnone. rewrite Hnone in H.
  now injection H as <-.
Qed.

Variable E : Env.

Lemma ensureDirectoryExists_ok_inv p s s' :
  ensureDirectoryExists E p s = (Ok tt, s') ->
  exists fs',
    mkdirFrom [] p (clock s) (disk s) = inr fs' /\ s' = setDisk fs' s.
Proof.
  unfold ensureDirectoryExists, tryCatch, fs_mkdir, bind, oracle, get, modify,
    sysError, throw, ret.
  destruct (ioFails E OpMkdir p); cbv beta iota; [discriminate|].
  destruct (mkdirFrom [] p (clock s) (disk s)) as [code|fs'];
    cbv beta iota; [discriminate|].
  intros H. injection H as <-. now exists fs'.
Qed.

(** the existence check of [createProject] lets a call pass only when
    nothing is at the project path *)
Lemma existence_check_ok_inv name s s' :
  tryCatch
    (fs_access E [name] ;;; throw (ProjectExistsError name))
    (fun error =>
       if negb (isProjectExistsError error) && negb (isENOENT error)
       then throw (wrap "Failed to check project existence: " error)
       else if isProjectExistsError error then throw error
       else ret tt) s = (Ok tt, s') ->
  s' = s /\ fsGet [name] (disk s) = None.
Proof.
  unfold tryCatch, fs_access, bind, oracle, get, sysError, throw, ret, nodeAt.
  destruct (ioFails E OpAccess [name]); cbn; [discriminate|].
  destruct (fsGet [name] (disk s)); cbn; [discriminate|].
  intros H. now injection H as <-.
Qed.

End MkdirFacts.

Section CreateOk.

Variable E : Env.
Variable name : string.
Hypothesis Hclean : sanitizeProjectName name = name.
Hypothesis Hname : name <> "".

Lemma project_not_index file :
  indexFiles [name; file] = false.
Proof.
  unfold indexFiles. cbn [path_eqb projectIndexPath projectIndexTmp].
  now rewrite !andb_false_r.
Qed.

Lemma index_not_project q : indexFiles q = true -> under [name] q = false.
Proof.
  intros Hq. rewrite <- Hclean. apply index_not_under_project.
  unfold indexFootprint. rewrite Hq. apply orb_true_r.
Qed.

Lemma project_dir_not_index : indexFiles [name] = false.
Proof.
  destruct (indexFiles [name]) eqn:H; [|reflexivity].
  apply index_not_project in H. now rewrite under_refl in H.
Qed.

Lemma mkdir_project rest now fs fs' q :
  mkdirFrom [] (name :: rest) now fs = inr fs' ->
  under [name] q = false -> fsGet q fs' = fsGet q fs.
Proof.
  intros Hmk. apply (diskStep_agree (under [name])).
  apply (mkdirFrom_step [] (name :: rest) now); [|exact Hmk].
  intros k Hk. destruct k as [|k]; [lia|].
  cbn [app firstn under]. now rewrite String.eqb_refl.
Qed.

Lemma rollback_throws (error : Error) items s md s' :
  (rollbackErrors <- rollbackAll E items ;;
   modify (setIndexCache None) ;;;
   match rollbackErrors with
   | [] => @throw ProjectMetadata
             (PlainError ("Failed to create project: " ++ message error))
   | _ => throw (PlainError ("Failed to create project: " ++ message error
                             ++ ". Rollback errors: "
                             ++ Js.join "; " rollbackErrors))
   end) s <> (Ok md, s').
Proof.
  unfold bind. destruct (rollbackAll E items s) as [[l|e|] s1];
    [destruct l| |]; discriminate.
Qed.

(** what a transaction that returns has made *)
Lemma transaction_ok_inv metadata s md s' :
  executeProjectCreationTransaction E name [name] metadata s = (Ok md, s') ->
  fsGet [name] (disk s) = None ->
  md = metadata /\
  clock s' = clock s /\
  projectIndexCache s' = None /\
  (exists originalIndexState t,
      (indexOf s = Some originalIndexState \/
       (indexOf s = None /\ originalIndexState = emptyIndex)) /\
      fsGet projectIndexPath (disk s')
      = Some (File (JsonIndex
                      (mkIndex (mapSet name metadata
                                       (projects originalIndexState))
                               (lastActive originalIndexState))) t)) /\
  fsGet [name] (disk s') = Some (Dir (clock s)) /\
  (exists t, fsGet [name; "findings"] (disk s') = Some (Dir t)) /\
  (exists t, fsGet [name; "audit-trails"] (disk s') = Some (Dir t)) /\
  fsGet [name; "project.json"] (disk s')
  = Some (File (JsonProject metadata) (clock s)) /\
  agree (fun q => under [name] q || indexFiles q) s s'.
Proof.
  unfold executeProjectCreationTransaction, transactionBody.
  destruct (ensureDirectoryExists E [name] s) as [[[]|e1|] sa] eqn:Hmk;
    [|intros H; now apply rollback_throws in H|discriminate].
  match goal with
  | |- context [match ?mid sa with _ => _ end] =>
      destruct (mid sa) as [[originalIndexState|e2|] sf] eqn:Hmid;
        [|intros H; now apply rollback_throws in H|discriminate]
  end.
  match goal with
  | |- context [writeProjectIndex E ?idx sf] =>
      set (newIndex := idx);
        pose proof (writeProjectIndex_frame
                      E (R := agree indexFiles) newIndex eq_refl eq_refl sf)
        as Hag;
        pose proof (writeProjectIndex_frame
                      E (R := sameClock) (W := fun _ => true) newIndex
                      eq_refl eq_refl sf) as Hck;
        destruct (writeProjectIndex E newIndex sf) as [[[]|e3|] sg] eqn:Hwi;
        [|intros H; now apply rollback_throws in H|discriminate]
  end.
  cbn [snd] in Hag, Hck. unfold sameClock in Hck.
  intros H Hnone. injection H as <- <-.
  apply writeProjectIndex_ok_inv in Hwi as (Hcg & tg & Hfileg).
  (* the directories *)
  apply ensureDirectoryExists_ok_inv in Hmk as (fa & Hfa & ->).
  apply bind_ok_inv in Hmid as ([] & sb & Hmk2 & Hmid).
  apply bind_ok_inv in Hmid as ([] & sc & Hmk3 & Hmid).
  apply bind_ok_inv in Hmid as ([] & sd & Hw & Hmid).
  apply bind_ok_inv in Hmid as ([] & se & Hmv & Hr).
  apply ensureDirectoryExists_ok_inv in Hmk2 as (fb & Hfb & ->).
  apply ensureDirectoryExists_ok_inv in Hmk3 as (fc & Hfc & ->).
  cbn [disk clock setDisk app] in Hfb, Hfc.
  assert (Hout : forall q, under [name] q = false -> fsGet q fc = fsGet q (disk s)).
  { intros q Hq.
    rewrite (mkdir_project _ _ _ _ q Hfc Hq), (mkdir_project _ _ _ _ q Hfb Hq).
    apply (mkdir_project _ _ _ _ q Hfa Hq). }
  assert (Hdir : fsGet [name] fc = Some (Dir (clock s))).
  { apply (mkdirFrom_keeps _ _ _ _ _ _ _ Hfc).
    apply (mkdirFrom_keeps _ _ _ _ _ _ _ Hfb).
    rewrite (mkdirFrom_new _ _ _ _ Hfa Hnone).
    rewrite fsGet_app, Hnone. cbn [fsGet]. now rewrite path_eqb_refl. }
  destruct (mkdirFrom_made [] name ["findings"] _ _ _ Hfb) as (tf & Hfind).
  apply (mkdirFrom_keeps _ _ _ _ _ _ _ Hfc) in Hfind.
  destruct (mkdirFrom_made [] name ["audit-trails"] _ _ _ Hfc) as (ta & Haud).
  cbn [app] in Hfind, Haud.
  (* the project file *)
  apply fs_writeFile_ok_inv in Hw. apply fs_rename_ok_inv in Hmv.
  destruct Hmv as (c & t & Hgot & ->). subst sd.
  cbn [disk clock setDisk app] in *. rewrite fsGet_fsPut_same in Hgot.
  injection Hgot as <- <-.
  set (fe := fsPut [name; "project.json"]
                   (File (JsonProject metadata) (clock s))
                   (fsRemove [name; "project.json.tmp"]
                      (fsPut [name; "project.json.tmp"]
                             (File (JsonProject metadata) (clock s)) fc)))
    in *.
  assert (Hfe : forall q,
             q <> [name; "project.json"] ->
             q <> [name; "project.json.tmp"] ->
             fsGet q fe = fsGet q fc).
  { intros q Hq1 Hq2. unfold fe.
    rewrite fsGet_fsPut_other by congruence. rewrite fsGet_fsRemove.
    destruct (path_eqb [name; "project.json.tmp"] q) eqn:Heq.
    - apply path_eqb_eq in Heq. congruence.
    - now rewrite fsGet_fsPut_other by congruence. }
  assert (Hfe_out : forall q, under [name] q = false ->
                              fsGet q fe = fsGet q (disk s)).
  { intros q Hq. rewrite Hfe.
    - now apply Hout.
    - intros ->. cbn [under] in Hq. now rewrite String.eqb_refl in Hq.
    - intros ->. cbn [under] in Hq. now rewrite String.eqb_refl in Hq. }
  (* the index *)
  match type of Hr with
  | readProjectIndex E ?st = _ =>
      pose proof (readProjectIndex_frame E (R := readOnly) st) as Hro
  end.
  rewrite Hr in Hro. cbn [snd] in Hro.
  destruct Hro as (Hdf & _ & _ & _ & Hcf).
  cbn [disk clock setDisk] in Hdf, Hcf.
  pose proof (readProjectIndex_ok_inv E _ _ _ Hr) as Hidx.
  assert (Hsame : indexOf s
                  = indexOf (setDisk fe
                               (setDisk
                                  (fsPut [name; "project.json.tmp"]
                                         (File (JsonProject metadata) (clock s))
                                         fc)
                                  (setDisk fc (setDisk fb (setDisk fa s)))))).
  { unfold indexOf. cbn [projectIndexCache disk setDisk].
    now rewrite (Hfe_out projectIndexPath
                   (index_not_project projectIndexPath eq_refl)). }
  assert (Hidx' : indexOf s = Some originalIndexState \/
                  (indexOf s = None /\ originalIndexState = emptyIndex))
    by (now rewrite Hsame).
  assert (Hg : forall q, indexFiles q = false ->
                         fsGet q (disk sg) = fsGet q fe).
  { intros q Hq. rewrite (Hag q Hq). now rewrite Hdf. }
  split; [reflexivity|]. split; [congruence|]. split; [exact Hcg|].
  split; [exists originalIndexState, tg; split; [exact Hidx'|exact Hfileg]|].
  split.
  { rewrite (Hg _ project_dir_not_index), Hfe by congruence. exact Hdir. }
  split.
  { exists tf. rewrite (Hg _ (project_not_index _)), Hfe by congruence.
    exact Hfind. }
  split.
  { exists ta. rewrite (Hg _ (project_not_index _)), Hfe by congruence.
    exact Haud. }
  split.
  { rewrite (Hg _ (project_not_index _)). unfold fe. apply fsGet_fsPut_same. }
  intros q Hq. apply orb_false_iff in Hq as [Hq1 Hq2].
  rewrite (Hg q Hq2). now apply Hfe_out.
Qed.

End CreateOk.

(** X19: a call of [createProject] that returns has found nothing at the
    project's path and gives the metadata of the new project: the given id,
    the sanitized name, the caller's client, scope and description, status
    in progress, created and updated at the time of the call. Afterwards the
    index file holds that metadata under the sanitized name, next to what
    the index held before; the project directory with [findings],
    [audit-trails] and [project.json] is on the disk, the index lock is
    released, and the disk is unchanged outside the project directory, the
    index files and the index lock. *)
Theorem createProject_creates (E : Env) (uuid : string)
        (input : CreateProjectInput) (s s' : State) (metadata : ProjectMetadata) :
  createProject E uuid input s = (Ok metadata, s') ->
  metadata
  = mkProject uuid (sanitizeProjectName (cp_name input)) (cp_client input)
              (clock s) (clock s) (cp_scope input) InProgress
              (cp_description input) /\
  sanitizeProjectName (cp_name input) <> "" /\
  fsGet [sanitizeProjectName (cp_name input)] (disk s) = None /\
  recorded s' (cp_name input) metadata /\
  (forall other m,
      sanitizeProjectName other <> sanitizeProjectName (cp_name input) ->
      recorded s other m <-> recorded s' other m) /\
  fsGet [sanitizeProjectName (cp_name input)] (disk s')
  = Some (Dir (clock s)) /\
  (exists t, fsGet [sanitizeProjectName (cp_name input); "findings"] (disk s')
             = Some (Dir t)) /\
  (exists t, fsGet [sanitizeProjectName (cp_name input); "audit-trails"]
                   (disk s') = Some (Dir t)) /\
  fsGet [sanitizeProjectName (cp_name input); "project.json"] (disk s')
  = Some (File (JsonProject metadata) (clock s)) /\
  fsGet [projectIndexLock] (disk s') = None /\
  agree (projectFootprint (sanitizeProjectName (cp_name input))) s s'.
Proof.
  unfold createProject.
  set (name := sanitizeProjectName (cp_name input)).
  assert (Hclean : sanitizeProjectName name = name)
    by apply SanitizeFacts.sanitize_idempotent.
  destruct (Js.truthy name) eqn:Htruthy; cbn [negb]; [|discriminate].
  assert (Hname : name <> "") by (intros Heq; now rewrite Heq in Htruthy).
  rewrite (getProjectPath_name name Hclean Hname).
  intros H. apply withLock_ok_inv in H as (s1 & s2 & Hlock & Hop & ->).
  apply bind_ok_inv in Hop as ([] & s3 & Hcheck & Hop).
  apply existence_check_ok_inv in Hcheck as (-> & Hnone1).
  unfold bind at 1 in Hop. unfold get in Hop.
  apply lockfileLock_ok_inv in Hlock as (Hag1 & Hc1 & Hclock1).
  assert (Hnl : forall q, under [name] q = true ->
                          under [".mcp-lock-" ++ "project-index" ++ ".lock"] q
                          = false).
  { intros q Hq. destruct q as [|f q]; [discriminate|].
    cbn [under] in Hq |- *. apply andb_true_iff in Hq as [Hf _].
    apply String.eqb_eq in Hf. subst f. rewrite <- Hclean.
    change (".mcp-lock-" ++ "project-index" ++ ".lock")%string
      with (String "." "mcp-lock-project-index.lock").
    now rewrite SanitizeFacts.sanitize_not_dotfile. }
  assert (Hnone : fsGet [name] (disk s) = None).
  { rewrite <- (Hag1 [name] (Hnl _ (under_refl _))). exact Hnone1. }
  apply (transaction_ok_inv E name Hclean) in Hop; [|exact Hnone1].
  destruct Hop as (-> & Hclock2 & Hc2 & (idx0 & t & Hidx0 & Hfile2)
                   & Hdir & Hfind & Haud & Hpf & Hag2).
  rewrite Hclock1 in *.
  destruct (release_readOnly_but_disk
              (".mcp-lock-" ++ "project-index" ++ ".lock") s2) as (Hc' & Hd').
  set (s' := snd (ignoreErrors
                    (lockfileRelease
                       (".mcp-lock-" ++ "project-index" ++ ".lock")) s2)) in *.
  assert (Hidx' : indexOf s'
                  = Some (mkIndex (mapSet name
                                     (mkProject uuid name (cp_client input)
                                                (clock s) (clock s)
                                                (cp_scope input) InProgress
                                                (cp_description input))
                                     (projects idx0))
                                  (lastActive idx0))).
  { unfold indexOf. rewrite Hc', Hc2.
    rewrite (Hd' _ (index_not_locked "project-index")). now rewrite Hfile2. }
  assert (Hin : forall q, under [name] q = true ->
                          fsGet q (disk s') = fsGet q (disk s2)).
  { intros q Hq. apply Hd', Hnl, Hq. }
  split; [reflexivity|]. split; [exact Hname|]. split; [exact Hnone|].
  split.
  { eexists. split; [exact Hidx'|]. cbn [projects]. apply mapGet_mapSet. }
  assert (Hbefore : indexOf s = Some idx0 \/
                    (indexOf s = None /\ idx0 = emptyIndex)).
  { now rewrite <- (indexOf_agree _ _ _ (index_not_locked "project-index")
                      Hag1 Hc1). }
  split.
  { intros other m Hne. unfold recorded. rewrite Hidx'. split.
    - intros (idx & Hidx & Hget). eexists. split; [reflexivity|].
      cbn [projects]. rewrite mapGet_mapSet_other by exact Hne.
      destruct Hbefore as [Hb|[Hb _]]; congruence.
    - intros (idx & Hidx & Hget). injection Hidx as <-.
      cbn [projects] in Hget. rewrite mapGet_mapSet_other in Hget by exact Hne.
      destruct Hbefore as [Hb|[_ ->]]; [now exists idx0|discriminate]. }
  split; [now rewrite (Hin _ (under_refl _))|].
  split.
  { destruct Hfind as (tf & Hfind). exists tf. rewrite Hin; [exact Hfind|].
    cbn [under]. now rewrite String.eqb_refl. }
  split.
  { destruct Haud as (ta & Haud). exists ta. rewrite Hin; [exact Haud|].
    cbn [under]. now rewrite String.eqb_refl. }
  split.
  { rewrite Hin; [exact Hpf|]. cbn [under]. now rewrite String.eqb_refl. }
  split; [apply release_gone|].
  intros q Hq. unfold projectFootprint, indexFootprint in Hq.
  apply orb_false_iff in Hq as [Hproj Hq].
  apply orb_false_iff in Hq as [Hl Hfiles].
  rewrite (Hd' q Hl), (Hag2 q), (Hag1 q Hl); [reflexivity|].
  now rewrite Hproj, Hfiles.
Qed.

Lemma createProject_creates_witness :
  recorded (snd (createProject Sample.env
                   "5f0c2d1e-0000-4000-8000-000000000002" Sample.acme
                   Sample6.indexOnly))
           "Acme Corp" Sample6.acmeMetadata /\
  recorded (snd (createProject Sample.env
                   "5f0c2d1e-0000-4000-8000-000000000002" Sample.acme
                   Sample6.indexOnly))
           "p" (Sample.project "p" InProgress) /\
  fsGet ["acme-corp"; "project.json"]
        (disk (snd (createProject Sample.env
                      "5f0c2d1e-0000-4000-8000-000000000002" Sample.acme
                      Sample6.indexOnly)))
  = Some (File (JsonProject Sample6.acmeMetadata) 100).
Proof.
  assert (Hrun : createProject Sample.env
                   "5f0c2d1e-0000-4000-8000-000000000002" Sample.acme
                   Sample6.indexOnly
                 = (Ok Sample6.acmeMetadata,
                    snd (createProject Sample.env
                           "5f0c2d1e-0000-4000-8000-000000000002" Sample.acme
                           Sample6.indexOnly))).
  { vm_compute. reflexivity. }
  destruct (createProject_creates _ _ _ _ _ _ Hrun)
    as (_ & _ & _ & Hnew & Hold & _ & _ & _ & Hfile & _ & _).
  split; [exact Hnew|]. split; [|exact Hfile].
  apply Hold; [vm_compute; discriminate|].
  eexists. split; vm_compute; reflexivity.
Defined.

(** ** Records of a project *)

Section RecordFacts.

Variable E : Env.

Lemma nodeAt_record projectName dir file fs :
  nodeAt (getProjectPath projectName ++ [dir; file]) fs
  = fsGet (getProjectPath projectName ++ [dir; file]) fs.
Proof. unfold nodeAt. now destruct (getProjectPath projectName). Qed.

Lemma fs_readFile_ok_inv p c s s' :
  fs_readFile E p s = (Ok c, s') ->
  s' = s /\ ioFails E OpReadFile p = false /\
  exists t, nodeAt p (disk s) = Some (File c t).
Proof.
  unfold fs_readFile, bind, oracle, get, sysError, throw, ret.
  destruct (ioFails E OpReadFile p); cbv beta iota; [discriminate|].
  destruct (nodeAt p (disk s)) as [[t|c' t]|]; try discriminate.
  intros H. injection H as <- <-. eauto.
Qed.

Lemma matterParse_ok_inv content parsed s s' :
  matterParse E content s = (Ok parsed, s') ->
  s' = s /\
  content = Markdown (fst parsed) (snd parsed) /\
  yamlLength E (fst parsed) <= getYamlSizeLimit E.
Proof.
  unfold matterParse. destruct content as [i|md|data body|x]; try discriminate.
  destruct (Z.ltb_spec (getYamlSizeLimit E) (yamlLength E data))
    as [Hlt|Hle]; [discriminate|].
  unfold ret. intros H. injection H as <- <-. auto.
Qed.

(** a finding that [getFinding] returns is the one its file holds *)
Lemma getFinding_ok_inv projectName findingId s finding s' :
  getFinding E projectName findingId s = (Ok finding, s') ->
  exists md idx data body t,
    indexOf s = Some idx /\
    projectIndexCache s' = Some idx /\
    mapGet (sanitizeProjectName projectName) (projects idx) = Some md /\
    readOnly s s' /\
    fsGet (findingPath projectName findingId) (disk s)
    = Some (File (Markdown (FindingData data) body) t) /\
    yamlLength E (FindingData data) <= getYamlSizeLimit E /\
    finding = parsedFinding data body /\
    ioFails E OpReadFile (findingPath projectName findingId) = false.
Proof.
  unfold getFinding. intros H.
  apply bind_ok_inv in H as (md & s1 & Hg & H).
  apply tryCatch_throws_ok_inv in H.
  2:{ intros e s2. destruct (isENOENT e); discriminate. }
  apply bind_ok_inv in H as (content & s2 & Hrd & H).
  apply bind_ok_inv in H as (parsed & s3 & Hparse & H).
  apply getProject_ok_inv in Hg as (idx & Hidx & Hc & Hget & Hro).
  apply fs_readFile_ok_inv in Hrd as (-> & Hio & t & Hnode).
  apply matterParse_ok_inv in Hparse as (-> & -> & Hsize).
  destruct parsed as [[data|data] body]; cbn [fst snd] in *;
    [|discriminate].
  unfold ret in H. injection H as <- <-.
  unfold findingPath in Hnode. rewrite nodeAt_record in Hnode.
  destruct Hro as (Hd & Hrest). rewrite Hd in Hnode.
  exists md, idx, data, body, t. repeat split; try assumption; apply Hrest.
Qed.

Lemma fs_unlink_ok_inv p s s' :
  fs_unlink E p s = (Ok tt, s') -> s' = setDisk (fsRemove p (disk s)) s.
Proof.
  unfold fs_unlink, bind, oracle, get, modify, sysError, throw, ret.
  destruct (ioFails E OpUnlink p); cbv beta iota; [discriminate|].
  destruct (fsGet p (disk s)) as [[t|c t]|]; cbv beta iota;
    try discriminate.
  intros H. now injection H as <-.
Qed.

Lemma finding_not_index projectName file :
  path_eqb projectIndexPath (getProjectPath projectName ++ ["findings"; file])
  = false.
Proof.
  unfold getProjectPath.
  destruct (String.eqb (sanitizeProjectName projectName) ""); cbn [app].
  - reflexivity.
  - cbn [path_eqb projectIndexPath]. now rewrite andb_false_r.
Qed.

(** the steps shared by the calls that change a record under its lock:
    after the record's file is settled, the project is touched and the
    lock released *)
Lemma touched_project projectName lockKey s5 s6 s7 md6 idx md :
  projectIndexCache s5 = Some idx ->
  mapGet (sanitizeProjectName projectName) (projects idx) = Some md ->
  updateProject E projectName noUpdates s5 = (Ok md6, s6) ->
  projectIndexCache s7 = projectIndexCache s6 ->
  disk s7 = disk s6 ->
  recorded (snd (ignoreErrors
                   (lockfileRelease (".mcp-lock-" ++ lockKey ++ ".lock")) s7))
           projectName
           (applyProjectUpdates md noUpdates (clock s5)).
Proof.
  intros Hc5 Hget Hu Hc7 Hd7.
  apply updateProject_ok_spec in Hu
    as (md0 & (idx0 & Hidx0 & Hget0) & _ & -> & (idx6 & Hidx6 & Hget6) & _).
  rewrite (indexOf_cached s5 idx Hc5) in Hidx0. injection Hidx0 as <-.
  assert (md0 = md) by congruence. subst md0.
  destruct (release_readOnly_but_disk
              (".mcp-lock-" ++ lockKey ++ ".lock") s7) as (Hc' & Hd').
  exists idx6. split; [|exact Hget6].
  rewrite <- Hidx6. unfold indexOf. rewrite Hc', Hc7.
  now rewrite (Hd' _ (index_not_locked lockKey)), Hd7.
Qed.

End RecordFacts.

(** X20: take a finding whose file the engine has written (a document with
    the metadata block of a finding, within the size limit). A call of
    [deleteFinding] on it that returns has found the project in the index,
    not completed. Afterwards the file is gone and [getFinding] reports the
    finding as not found; the project is in the index with its [updated]
    time set to the time of the call and nothing else changed; the disk is
    unchanged outside the finding's file and lock, the project file, the
    index files and the index lock. *)
Theorem deleteFinding_removes (E : Env) (projectName findingId : string)
        (s s' : State) :
  readableFinding E s projectName findingId ->
  deleteFinding E projectName findingId s = (Ok tt, s') ->
  (exists metadata,
      recorded s projectName metadata /\
      p_status metadata <> Completed /\
      recorded s' projectName
               (applyProjectUpdates metadata noUpdates (clock s))) /\
  fsGet (findingPath projectName findingId) (disk s') = None /\
  (ioFails E OpReadFile projectIndexPath = false ->
   fst (getFinding E projectName findingId s')
   = Err (FindingNotFoundError findingId)) /\
  agree (findingFootprint projectName findingId) s s'.
Proof.
  unfold deleteFinding. intros _ H.
  set (lockKey := "finding-" ++ projectName ++ "-" ++ findingId) in *.
  apply withLock_ok_inv in H as (s1 & s2 & Hlock & Hop & ->).
  apply bind_ok_inv in Hop as (f & s3 & Hgf & Hop).
  apply bind_ok_inv in Hop as ([] & s4 & Hc & Hop).
  apply tryCatch_throws_ok_inv in Hop; [|discriminate].
  apply bind_ok_inv in Hop as ([] & s5 & Hun & Hop).
  apply bind_ok_inv in Hop as (md6 & s6 & Hu & Hinv).
  unfold invalidateFindings, bind, get, modify in Hinv. injection Hinv as <-.
  apply lockfileLock_ok_inv in Hlock as (Hag1 & Hc1 & Hclock1).
  apply getFinding_ok_inv in Hgf
    as (md & idx & data & body & t & Hidx1 & Hc3 & Hget & Hro3 & Hfile1
        & Hsize & _ & Hio).
  destruct Hro3 as (Hd3 & _ & _ & _ & Hclock3).
  apply checkProjectNotCompleted_ok_inv in Hc as (md' & Hg' & Hst).
  rewrite (getProject_cached E _ s3 idx md Hc3 Hget) in Hg'.
  injection Hg' as <- <-.
  apply fs_unlink_ok_inv in Hun. subst s5.
  pose proof (updateProject_frame
                E (R := agree (updateFootprint (getProjectPath projectName)))
                projectName noUpdates (fun q Hq => Hq)
                (setDisk (fsRemove (findingPath projectName findingId)
                                   (disk s3)) s3)) as Hframe.
  rewrite Hu in Hframe. cbn [snd] in Hframe.
  pose proof (touched_project E projectName lockKey
                (setDisk (fsRemove (findingPath projectName findingId)
                                   (disk s3)) s3) _
                (setFindingsCache
                   (snd (LRU.delete (projectName ++ "-findings")
                                    (findingsCache s6))) s6)
                _ idx md Hc3 Hget Hu eq_refl eq_refl) as Hrec'.
  cbn [clock setDisk] in Hrec'. rewrite Hclock3, Hclock1 in Hrec'.
  destruct (release_readOnly_but_disk
              (".mcp-lock-" ++ lockKey ++ ".lock")
              (setFindingsCache
                 (snd (LRU.delete (projectName ++ "-findings")
                                  (findingsCache s6))) s6)) as (_ & Hd').
  set (s' := snd (ignoreErrors
                    (lockfileRelease (".mcp-lock-" ++ lockKey ++ ".lock"))
                    (setFindingsCache
                       (snd (LRU.delete (projectName ++ "-findings")
                                        (findingsCache s6))) s6))) in *.
  cbn [disk setFindingsCache] in Hd'.
  assert (Hgone : fsGet (findingPath projectName findingId) (disk s') = None).
  { rewrite (Hd' (findingPath projectName findingId)
                 (finding_not_locked lockKey projectName _)).
    cbn [disk setFindingsCache].
    rewrite (Hframe (findingPath projectName findingId)
                    (finding_outside_update projectName _)).
    cbn [disk setDisk]. now rewrite fsGet_fsRemove, path_eqb_refl. }
  split.
  { exists md. split; [|split; [exact Hst|exact Hrec']].
    exists idx. split; [|exact Hget].
    rewrite <- Hidx1. symmetry.
    apply (indexOf_agree _ _ _ (index_not_locked lockKey) Hag1 Hc1). }
  split; [exact Hgone|]. split.
  { intros Hread.
    destruct (getProject_recorded E Hread s' projectName _ Hrec')
      as (idx' & _ & Hg').
    unfold getFinding. rewrite (bind_ok _ _ _ _ _ Hg').
    unfold tryCatch, bind at 1. unfold fs_readFile, bind, oracle, get,
      sysError, throw, ret.
    rewrite Hio. cbn [disk setIndexCache]. unfold findingPath in *.
    rewrite nodeAt_record, Hgone. reflexivity. }
  intros q Hq. unfold findingFootprint in Hq.
  apply orb_false_iff in Hq as [Hq Hup].
  apply orb_false_iff in Hq as [Hq Htmp].
  apply orb_false_iff in Hq as [Hl Hfile].
  rewrite (Hd' q Hl). cbn [disk setFindingsCache].
  rewrite (Hframe q Hup). cbn [disk setDisk].
  rewrite fsGet_fsRemove, path_eqb_sym, Hfile, Hd3. now apply Hag1.
Qed.

Lemma deleteFinding_removes_witness :
  fsGet ["p"; "findings"; "FIND-00000001-a.md"]
        (disk (snd (deleteFinding Sample.env "p" "FIND-00000001-a"
                                  Sample7.oneFinding))) = None /\
  fst (getFinding Sample.env "p" "FIND-00000001-a"
                  (snd (deleteFinding Sample.env "p" "FIND-00000001-a"
                                      Sample7.oneFinding)))
  = Err (FindingNotFoundError "FIND-00000001-a").
Proof.
  assert (Hrun : deleteFinding Sample.env "p" "FIND-00000001-a"
                               Sample7.oneFinding
                 = (Ok tt, snd (deleteFinding Sample.env "p" "FIND-00000001-a"
                                              Sample7.oneFinding))).
  { vm_compute. reflexivity. }
  assert (Hreadable : readableFinding Sample.env Sample7.oneFinding "p"
                                      "FIND-00000001-a").
  { do 3 eexists. split; [vm_compute; reflexivity|vm_compute; discriminate]. }
  destruct (deleteFinding_removes _ _ _ _ _ Hreadable Hrun)
    as (_ & Hgone & Hget & _).
  split; [exact Hgone|]. apply Hget. reflexivity.
Defined.

Section UpdateFinding.

Variable E : Env.

(** the scoring step of [updateFinding] *)
Lemma rescoring_ok_inv updates base s updated s' :
  match fu_cvssString updates with
  | Some v =>
      if Js.truthy v
      then tryCatch
             (score <- liftE (calculateCVSSScore E v) ;;
              ret (withScore base (Some score)))
             (fun error => throw (wrap "Invalid CVSS string: " error))
      else ret (withScore base None)
  | None => ret base
  end s = (Ok updated, s') ->
  s' = s /\
  f_cvssScore updated = rescored E updates (f_cvssScore base) /\
  withScore updated (f_cvssScore base) = withScore base (f_cvssScore base) /\
  (forall v, fu_cvssString updates = Some v -> Js.truthy v = true ->
             exists score, calculateCVSSScore E v = inr score).
Proof.
  unfold rescored. destruct (fu_cvssString updates) as [v|].
  - destruct (Js.truthy v) eqn:Hv.
    + unfold tryCatch, bind, liftE.
      destruct (calculateCVSSScore E v) as [e|score] eqn:Hcalc;
        [discriminate|].
      unfold ret. intros H. injection H as <- <-.
      repeat split. intros v' Hv' _. injection Hv' as <-.
      now exists score.
    + unfold ret. intros H. injection H as <- <-.
      repeat split. intros v' Hv' Ht. injection Hv' as <-. congruence.
  - unfold ret. intros H. injection H as <- <-.
    repeat split. discriminate.
Qed.

End UpdateFinding.

(** X21: a call of [updateFinding] that returns has read the finding from
    its file and gives it back with the given fields replaced: id and
    creation time are the file's, [updated] is the time of the call, and the
    score is derived anew from a vector that is given, dropped with an empty
    vector and kept when no vector is given. Afterwards the finding's file
    holds the returned finding, the project's [updated] time is the time of
    the call, and the disk is unchanged outside the finding's file and lock,
    the project file, the index files and the index lock. *)
Theorem updateFinding_applies (E : Env) (projectName findingId : string)
        (updates : FindingUpdates) (s s' : State) (updated : Finding) :
  updateFinding E projectName findingId updates s = (Ok updated, s') ->
  exists data body t,
    fsGet (findingPath projectName findingId) (disk s)
    = Some (File (Markdown (FindingData data) body) t) /\
    withScore updated None
    = withScore (applyFindingUpdates (parsedFinding data body) updates
                                     (clock s)) None /\
    f_id updated = fm_id data /\
    f_created updated = fm_created data /\
    f_updated updated = clock s /\
    f_cvssScore updated = rescored E updates (fm_cvssScore data) /\
    (forall v, fu_cvssString updates = Some v -> Js.truthy v = true ->
               exists score, calculateCVSSScore E v = inr score) /\
    fsGet (findingPath projectName findingId) (disk s')
    = Some (File (findingContent updated) (clock s)) /\
    (exists metadata,
        recorded s projectName metadata /\
        p_status metadata <> Completed /\
        recorded s' projectName
                 (applyProjectUpdates metadata noUpdates (clock s))) /\
    agree (findingFootprint projectName findingId) s s'.
Proof.
  unfold updateFinding. intros H.
  set (lockKey := "finding-" ++ projectName ++ "-" ++ findingId) in *.
  apply withLock_ok_inv in H as (s1 & s2 & Hlock & Hop & ->).
  apply bind_ok_inv in Hop as (existing & s3 & Hgf & Hop).
  apply bind_ok_inv in Hop as ([] & s4 & Hc & Hop).
  unfold bind at 1 in Hop. unfold get in Hop.
  apply bind_ok_inv in Hop as (u & s5 & Hscore & Hop).
  apply tryCatch_throws_ok_inv in Hop.
  2:{ intros e s6. unfold bind.
      destruct (ignoreErrors (fs_unlink E _) s6) as [[v|e'|] s7];
        discriminate. }
  apply bind_ok_inv in Hop as ([] & s6 & Hw & Hop).
  apply bind_ok_inv in Hop as ([] & s7 & Hmv & Hop).
  apply bind_ok_inv in Hop as (md8 & s8 & Hu & Hop).
  apply bind_ok_inv in Hop as ([] & s9 & Hinv & Hop).
  unfold ret in Hop. injection Hop as <- <-.
  unfold invalidateFindings, bind, get, modify in Hinv. injection Hinv as <-.
  apply lockfileLock_ok_inv in Hlock as (Hag1 & Hc1 & Hclock1).
  apply getFinding_ok_inv in Hgf
    as (md & idx & data & body & t & Hidx1 & Hc3 & Hget & Hro3 & Hfile1
        & Hsize & -> & Hio).
  destruct Hro3 as (Hd3 & _ & _ & _ & Hclock3).
  apply checkProjectNotCompleted_ok_inv in Hc as (md' & Hg' & Hst).
  rewrite (getProject_cached E _ s3 idx md Hc3 Hget) in Hg'.
  injection Hg' as <- <-.
  assert (Hclock : clock s3 = clock s) by congruence.
  rewrite Hclock in *.
  apply rescoring_ok_inv in Hscore as (-> & Hsc & Hrest & Hvalid).
  cbn [applyFindingUpdates f_cvssScore parsedFinding] in Hsc.
  apply fs_writeFile_ok_inv in Hw. apply fs_rename_ok_inv in Hmv.
  destruct Hmv as (c & tc & Hgot & ->). subst s6.
  cbn [disk setDisk clock] in *. rewrite fsGet_fsPut_same in Hgot.
  rewrite Hclock in Hgot. injection Hgot as <- <-.
  set (d7 := fsPut (findingPath projectName findingId)
                   (File (findingContent u) (clock s))
                   (fsRemove (findingTmp projectName findingId)
                      (fsPut (findingTmp projectName findingId)
                             (File (findingContent u) (clock s)) (disk s3))))
    in *.
  match type of Hu with
  | updateProject E _ _ ?st = _ =>
      pose proof (updateProject_frame
                    E (R := agree (updateFootprint (getProjectPath projectName)))
                    projectName noUpdates (fun q Hq => Hq) st) as Hframe;
        pose proof (touched_project E projectName lockKey st _
                      (setFindingsCache
                         (snd (LRU.delete (projectName ++ "-findings")
                                          (findingsCache s8))) s8)
                      _ idx md Hc3 Hget Hu eq_refl eq_refl) as Hrec'
  end.
  rewrite Hu in Hframe. cbn [snd] in Hframe.
  cbn [clock setDisk] in Hrec'. rewrite Hclock in Hrec'.
  destruct (release_readOnly_but_disk
              (".mcp-lock-" ++ lockKey ++ ".lock")
              (setFindingsCache
                 (snd (LRU.delete (projectName ++ "-findings")
                                  (findingsCache s8))) s8)) as (_ & Hd').
  set (s' := snd (ignoreErrors
                    (lockfileRelease (".mcp-lock-" ++ lockKey ++ ".lock"))
                    (setFindingsCache
                       (snd (LRU.delete (projectName ++ "-findings")
                                        (findingsCache s8))) s8))) in *.
  exists data, body, t.
  split.
  { rewrite <- (Hag1 (findingPath projectName findingId)
                     (finding_not_locked lockKey projectName _)).
    exact Hfile1. }
  split.
  { apply (f_equal (fun f => withScore f None)) in Hrest.
    unfold withScore in Hrest |- *. cbn in Hrest |- *. exact Hrest. }
  assert (Hfields : f_id u = fm_id data /\ f_created u = fm_created data /\
                    f_updated u = clock s).
  { apply (f_equal (fun f => (f_id f, f_created f, f_updated f))) in Hrest.
    cbn in Hrest. injection Hrest as H1 H2 H3. auto. }
  destruct Hfields as (Hid & Hcr & Hup).
  split; [exact Hid|]. split; [exact Hcr|]. split; [exact Hup|].
  split; [exact Hsc|]. split; [exact Hvalid|].
  split.
  { rewrite (Hd' (findingPath projectName findingId)
                 (finding_not_locked lockKey projectName _)).
    cbn [disk setFindingsCache].
    rewrite (Hframe (findingPath projectName findingId)
                    (finding_outside_update projectName _)).
    cbn [disk setDisk]. unfold d7. apply fsGet_fsPut_same. }
  split.
  { exists md. split; [|split; [exact Hst|exact Hrec']].
    exists idx. split; [|exact Hget].
    rewrite <- Hidx1. symmetry.
    apply (indexOf_agree _ _ _ (index_not_locked lockKey) Hag1 Hc1). }
  intros q Hq. unfold findingFootprint in Hq.
  apply orb_false_iff in Hq as [Hq Hupf].
  apply orb_false_iff in Hq as [Hq Htmp].
  apply orb_false_iff in Hq as [Hl Hfile].
  rewrite (Hd' q Hl). cbn [disk setFindingsCache].
  rewrite (Hframe q Hupf). cbn [disk setDisk]. unfold d7.
  apply path_eqb_neq in Hfile, Htmp.
  rewrite fsGet_fsPut_other by congruence.
  rewrite fsGet_fsRemove.
  destruct (path_eqb (findingTmp projectName findingId) q) eqn:Heq;
    [apply path_eqb_eq in Heq; congruence|].
  rewrite fsGet_fsPut_other by congruence.
  rewrite Hd3. now apply Hag1.
Qed.

Lemma updateFinding_applies_witness :
  exists updated s',
    updateFinding Sample.env "p" "FIND-00000001-a" Sample8.rescoring
                  Sample7.oneFinding = (Ok updated, s') /\
    f_id updated = "FIND-00000001-a" /\
    f_created updated = 1 /\
    f_updated updated = 100 /\
    f_cvssScore updated = Some (98 # 10) /\
    fsGet ["p"; "findings"; "FIND-00000001-a.md"] (disk s')
    = Some (File (findingContent updated) 100).
Proof.
  destruct (updateFinding Sample.env "p" "FIND-00000001-a" Sample8.rescoring
                          Sample7.oneFinding) as [[updated|e|] s'] eqn:Hrun;
    [|vm_compute in Hrun; discriminate Hrun
     |vm_compute in Hrun; discriminate Hrun].
  exists updated, s'. split; [reflexivity|].
  destruct (updateFinding_applies _ _ _ _ _ _ _ Hrun)
    as (data & body & t & Hfile & _ & Hid & Hcr & Hup & Hsc & _ & Hnew & _).
  vm_compute in Hfile. injection Hfile as <- <- <-.
  repeat split; assumption.
Defined.

(** ** Audit trails *)

Section AuditFacts.

Variable E : Env.

Lemma audit_outside_update projectName file :
  updateFootprint (getProjectPath projectName)
                  (getProjectPath projectName ++ ["audit-trails"; file]) = false.
Proof.
  unfold updateFootprint, getProjectPath, projectIndexLock.
  destruct (String.eqb (sanitizeProjectName projectName) ""); cbn [app].
  - reflexivity.
  - cbn [under path_eqb projectIndexTmp projectIndexPath].
    rewrite SanitizeFacts.sanitize_not_dotfile.
    rewrite String.eqb_refl. cbn.
    now rewrite !andb_false_r.
Qed.

Lemma audit_not_locked lockKey projectName file :
  under [".mcp-lock-" ++ lockKey ++ ".lock"]
        (getProjectPath projectName ++ ["audit-trails"; file]) = false.
Proof.
  unfold getProjectPath.
  destruct (String.eqb (sanitizeProjectName projectName) ""); cbn [app].
  - reflexivity.
  - cbn [under]. change (".mcp-lock-" ++ lockKey ++ ".lock")%string
      with (String "." ("mcp-lock-" ++ lockKey ++ ".lock")).
    now rewrite SanitizeFacts.sanitize_not_dotfile.
Qed.

(** what a call of [createAuditTrail] that returns has done *)
Lemma createAuditTrail_ok_inv randomId projectName input s entry s' :
  createAuditTrail E randomId projectName input s = (Ok entry, s') ->
  entry = mkAuditTrailEntry (sanitizeAuditId randomId (ai_title input))
                            (ai_title input) (ai_description input) (clock s)
                            (ai_tools input) (ai_methodology input)
                            (ai_results input) (ai_notes input) /\
  fsGet (auditPath projectName (a_id entry)) (disk s')
  = Some (File (matterStringify (a_description entry) (auditFrontmatter entry))
               (clock s)) /\
  exists metadata,
    recorded s projectName metadata /\
    p_status metadata <> Completed /\
    recorded s' projectName
             (applyProjectUpdates metadata noUpdates (clock s)).
Proof.
  unfold createAuditTrail. intros H.
  apply bind_ok_inv in H as (md & s1 & Hg & H).
  apply bind_ok_inv in H as ([] & s2 & Hc & H).
  unfold bind at 1 in H. unfold get in H.
  apply getProject_ok_inv in Hg as (idx & Hidx & Hc1 & Hget & Hro1).
  destruct Hro1 as (Hd1 & _ & _ & _ & Hclock1).
  apply checkProjectNotCompleted_ok_inv in Hc as (md' & Hg' & Hst).
  rewrite (getProject_cached E _ s1 idx md Hc1 Hget) in Hg'.
  injection Hg' as <- <-.
  rewrite Hclock1 in H.
  set (entry0 := mkAuditTrailEntry (sanitizeAuditId randomId (ai_title input))
                                   (ai_title input) (ai_description input)
                                   (clock s) (ai_tools input)
                                   (ai_methodology input) (ai_results input)
                                   (ai_notes input)) in *.
  set (lockKey := "audit-" ++ projectName ++ "-" ++ a_id entry0) in *.
  apply withLock_ok_inv in H as (s3 & s4 & Hlock & Hop & ->).
  apply bind_ok_inv in Hop as ([] & s5 & Hcheck & Hop).
  apply tryCatch_throws_ok_inv in Hop.
  2:{ intros e s6. unfold bind.
      destruct (ignoreErrors (fs_unlink E _) s6) as [[v|e'|] s7];
        discriminate. }
  apply bind_ok_inv in Hop as ([] & s6 & Hmk & Hop).
  apply bind_ok_inv in Hop as ([] & s7 & Hw & Hop).
  apply bind_ok_inv in Hop as ([] & s8 & Hmv & Hop).
  apply bind_ok_inv in Hop as (md9 & s9 & Hu & Hop).
  apply bind_ok_inv in Hop as ([] & s10 & Hinv & Hop).
  unfold ret in Hop. injection Hop as <- <-.
  unfold invalidateAuditTrails, bind, get, modify in Hinv.
  injection Hinv as <-.
  split; [reflexivity|].
  (* the clock and the cached index up to the touch of the project *)
  apply lockfileLock_ok_inv in Hlock as (_ & Hc3 & Hclock3).
  assert (Hs5 : projectIndexCache s5 = Some idx /\ clock s5 = clock s).
  { pose proof (fs_access_state E (auditPath projectName (a_id entry0)) s3)
      as Hacc.
    unfold tryCatch, bind in Hcheck.
    destruct (fs_access E (auditPath projectName (a_id entry0)) s3)
      as [[v|e|] sa]; cbn [snd] in Hacc; subst sa; try discriminate.
    destruct (isENOENT e); [|discriminate].
    unfold ret in Hcheck. injection Hcheck as <-.
    split; congruence. }
  destruct Hs5 as (Hc5 & Hclock5).
  apply ensureDirectoryExists_ok_inv in Hmk as (fa & _ & ->).
  apply fs_writeFile_ok_inv in Hw. apply fs_rename_ok_inv in Hmv.
  destruct Hmv as (c & tc & Hgot & ->). subst s7.
  cbn [disk setDisk clock] in *. rewrite fsGet_fsPut_same in Hgot.
  rewrite Hclock5 in Hgot. injection Hgot as <- <-.
  match type of Hu with
  | updateProject E _ _ ?st = _ =>
      pose proof (updateProject_frame
                    E (R := agree (updateFootprint (getProjectPath projectName)))
                    projectName noUpdates (fun q Hq => Hq) st) as Hframe;
        pose proof (touched_project E projectName lockKey st _
                      (setAuditTrailsCache
                         (snd (LRU.delete (projectName ++ "-audit-trails")
                                          (auditTrailsCache s9))) s9)
                      _ idx md Hc5 Hget Hu eq_refl eq_refl) as Hrec'
  end.
  rewrite Hu in Hframe. cbn [snd] in Hframe.
  cbn [clock setDisk] in Hrec'. rewrite Hclock5 in Hrec'.
  destruct (release_readOnly_but_disk
              (".mcp-lock-" ++ lockKey ++ ".lock")
              (setAuditTrailsCache
                 (snd (LRU.delete (projectName ++ "-audit-trails")
                                  (auditTrailsCache s9))) s9)) as (_ & Hd').
  split.
  { rewrite (Hd' (auditPath projectName (a_id entry0))
                 (audit_not_locked lockKey projectName _)).
    cbn [disk setAuditTrailsCache].
    rewrite (Hframe (auditPath projectName (a_id entry0))
                    (audit_outside_update projectName _)).
    cbn [disk setDisk]. apply fsGet_fsPut_same. }
  exists md. split; [now exists idx|]. split; [exact Hst|exact Hrec'].
Qed.

Lemma getAuditTrail_reads s projectName auditId md data body t :
  ioFails E OpReadFile projectIndexPath = false ->
  ioFails E OpReadFile (auditPath projectName auditId) = false ->
  recorded s projectName md ->
  fsGet (auditPath projectName auditId) (disk s)
  = Some (File (Markdown (AuditData data) body) t) ->
  yamlLength E (AuditData data) <= getYamlSizeLimit E ->
  fst (getAuditTrail E projectName auditId s)
  = Ok (mkAuditTrailEntry (am_id data) (am_title data) body (am_created data)
                          (am_tools data) None None None).
Proof.
  intros Hread Hio Hrec Hfile Hsize.
  destruct (getProject_recorded E Hread s projectName md Hrec)
    as (idx & _ & Hg).
  unfold getAuditTrail. rewrite (bind_ok _ _ _ _ _ Hg).
  unfold tryCatch, bind at 1. unfold fs_readFile, bind, oracle, get,
    sysError, throw, ret.
  rewrite Hio. cbn [disk setIndexCache]. unfold auditPath in *.
  rewrite nodeAt_record, Hfile. unfold matterParse.
  destruct (Z.ltb_spec (getYamlSizeLimit E) (yamlLength E (AuditData data)))
    as [Hlt|_]; [lia|].
  reflexivity.
Qed.

End AuditFacts.

(** X22: a call of [createAuditTrail] that returns gives the entry made of
    the input, with an id derived from the title and the time of the call as
    creation time, and has written it to the entry's file. Read back with
    [getAuditTrail] (the metadata block within the size limit, the text not
    starting with the block delimiter), the entry has its id, title,
    creation time and tools; its text ends in a line end, and methodology,
    results and notes are not returned. *)
Theorem createAuditTrail_getAuditTrail (E : Env)
        (randomId projectName : string) (input : AuditTrailInput)
        (s s' : State) (entry : AuditTrailEntry) :
  createAuditTrail E randomId projectName input s = (Ok entry, s') ->
  entry = mkAuditTrailEntry (sanitizeAuditId randomId (ai_title input))
                            (ai_title input) (ai_description input) (clock s)
                            (ai_tools input) (ai_methodology input)
                            (ai_results input) (ai_notes input) /\
  (exists metadata,
      recorded s projectName metadata /\
      p_status metadata <> Completed /\
      recorded s' projectName
               (applyProjectUpdates metadata noUpdates (clock s))) /\
  (Js.startsWith (ai_description input) "---" = false ->
   ioFails E OpReadFile projectIndexPath = false ->
   ioFails E OpReadFile (auditPath projectName (a_id entry)) = false ->
   yamlLength E (auditFrontmatter entry) <= getYamlSizeLimit E ->
   fst (getAuditTrail E projectName (a_id entry) s')
   = Ok (auditReadBack entry)).
Proof.
  intros H.
  destruct (createAuditTrail_ok_inv E _ _ _ _ _ _ H)
    as (Hentry & Hfile & md & Hrec & Hst & Hrec').
  split; [exact Hentry|]. split; [now exists md|].
  intros _ Hread Hio Hsize.
  exact (getAuditTrail_reads E s' projectName (a_id entry) _ _ _ _
           Hread Hio Hrec' Hfile Hsize).
Qed.

Lemma createAuditTrail_getAuditTrail_witness :
  exists entry s',
    createAuditTrail Sample.env "a1b2c3d4" "p" Sample9.portScan
                     Sample.oneProject = (Ok entry, s') /\
    a_methodology entry = Some "TCP connect scan" /\
    fst (getAuditTrail Sample.env "p" "AUDIT-a1b2c3d4-port-scan" s')
    = Ok (mkAuditTrailEntry "AUDIT-a1b2c3d4-port-scan" "Port scan"
                            ("Scanned the perimeter." ++ Js.nl) 100
                            (Some ["nmap"]) None None None).
Proof.
  destruct (createAuditTrail Sample.env "a1b2c3d4" "p" Sample9.portScan
                             Sample.oneProject) as [[entry|e|] s'] eqn:Hrun;
    [|vm_compute in Hrun; discriminate Hrun
     |vm_compute in Hrun; discriminate Hrun].
  exists entry, s'. split; [reflexivity|].
  destruct (createAuditTrail_getAuditTrail _ _ _ _ _ _ _ Hrun)
    as (Hentry & _ & Hback).
  subst entry. split; [reflexivity|].
  apply Hback; [reflexivity|reflexivity|reflexivity|vm_compute; discriminate].
Defined.

(** ** Pages of a listing *)

Module PageFacts.

Lemma slice_length {A} (l : list A) (offset limit : Z) :
  0 <= offset -> 0 <= limit ->
  Z.of_nat (length (slice l offset (offset + limit))) <= limit.
Proof.
  intros Ho Hl. unfold slice, jsIndex.
  destruct (Z.ltb_spec offset 0); [lia|].
  destruct (Z.ltb_spec (offset + limit) 0); [lia|].
  rewrite length_firstn. lia.
Qed.

Lemma allSettled_length {A B} (f : A -> M B) xs s l s' :
  allSettled f xs s = (Ok l, s') -> (length l <= length xs)%nat.
Proof.
  revert s l s'. induction xs as [|x xs IH]; intros s l s'; cbn [allSettled].
  - unfold ret. intros H. injection H as <- _. reflexivity.
  - destruct (f x s) as [[b|e|] s1]; [| |discriminate].
    + destruct (allSettled f xs s1) as [[bs|e|] s2] eqn:Hrest;
        try discriminate.
      intros H. injection H as <- _. cbn [length].
      specialize (IH _ _ _ Hrest). lia.
    + intros H. specialize (IH _ _ _ H). cbn [length]. lia.
Qed.

Lemma lookup_listed {T} key (l : list (string * LRU.CacheEntry T)) e :
  LRU.lookup key l = Some e -> In (key, e) l.
Proof.
  induction l as [|[k x] l IH]; [discriminate|]. cbn [LRU.lookup].
  destruct (String.eqb_spec k key) as [->|_].
  - intros H. injection H as <-. now left.
  - intros H. right. now apply IH.
Qed.

Lemma cached_empty {T} (now : Z) key (c : LRU.t (list T)) hit :
  Forall (fun entry => LRU.data (snd entry) = []) (LRU.cache c) ->
  fst (LRU.get now key c) = Some hit -> LRU.data hit = [].
Proof.
  intros Hall. unfold LRU.get.
  destruct (LRU.lookup key (LRU.cache c)) as [e|] eqn:Hlook; [|discriminate].
  cbn [fst]. intros H. injection H as <-. cbn [LRU.data].
  apply lookup_listed in Hlook.
  rewrite Forall_forall in Hall. exact (Hall _ Hlook).
Qed.

Lemma slice_nil {A} (a b : Z) : slice (@nil A) a b = [].
Proof. unfold slice. now rewrite skipn_nil, firstn_nil. Qed.

Lemma tryCatch_ok_cases {A} (m : M A) h s a s' :
  tryCatch m h s = (Ok a, s') ->
  m s = (Ok a, s') \/ exists e s1, m s = (Err e, s1) /\ h e s1 = (Ok a, s').
Proof.
  unfold tryCatch. destruct (m s) as [[a'|e|] s1]; [now left| |discriminate].
  intros H. right. eauto.
Qed.

End PageFacts.

Section Pages.

Variable E : Env.
Variables (limit offset : Z).
Hypothesis Hoffset : 0 <= offset.
Hypothesis Hlimit : 0 <= limit.

Lemma listFindings_page projectName s page s' :
  listFindings E projectName limit offset s = (Ok page, s') ->
  Z.of_nat (length page) <= limit /\
  (emptyListings s ->
   StronglySorted (fun a b => f_updated b <= f_updated a) page).
Proof.
  unfold listFindings. intros H.
  apply bind_ok_inv in H as (md & s1 & Hg & H).
  pose proof (getProject_frame E (R := readOnly) projectName s) as Hro.
  rewrite Hg in Hro. cbn [snd] in Hro.
  destruct Hro as (_ & _ & Hfc & _).
  apply PageFacts.tryCatch_ok_cases in H as [H|(e & s2 & _ & H)].
  - apply bind_ok_inv in H as (lastModified & s2 & Hlm & H).
    unfold bind at 1 in H. unfold get in H.
    apply bind_ok_inv in H as ([] & s3 & _ & H).
    pose proof (getDirectoryLastModified_frame
                  E (R := eq) (getProjectPath projectName ++ ["findings"]) s1)
      as Hsame.
    rewrite Hlm in Hsame. cbn [snd] in Hsame. subst s2.
    destruct (fst (LRU.get (clock s1) (projectName ++ "-findings")
                           (findingsCache s1))) as [cached|] eqn:Hhit.
    + destruct (lastModified <=? LRU.lastModified cached).
      * unfold ret in H. injection H as <- _.
        split; [now apply PageFacts.slice_length|].
        intros [Hempty _]. rewrite Hfc in Hhit.
        rewrite (PageFacts.cached_empty _ _ _ _ Hempty Hhit).
        rewrite PageFacts.slice_nil. constructor.
      * apply bind_ok_inv in H as (files & s4 & _ & H).
        apply bind_ok_inv in H as (scanned & s5 & _ & H).
        apply bind_ok_inv in H as (findings & s6 & Hread & H).
        unfold ret in H. injection H as <- _.
        apply PageFacts.allSettled_length in Hread.
        rewrite SortFacts.sortDesc_length.
        rewrite length_map in Hread.
        pose proof (PageFacts.slice_length (sortDesc snd scanned) offset limit
                      Hoffset Hlimit).
        split; [lia|]. intros _. apply (SortFacts.sortDesc_sorted f_updated).
    + apply bind_ok_inv in H as (files & s4 & _ & H).
      apply bind_ok_inv in H as (scanned & s5 & _ & H).
      apply bind_ok_inv in H as (findings & s6 & Hread & H).
      unfold ret in H. injection H as <- _.
      apply PageFacts.allSettled_length in Hread.
      rewrite SortFacts.sortDesc_length.
      rewrite length_map in Hread.
      pose proof (PageFacts.slice_length (sortDesc snd scanned) offset limit
                    Hoffset Hlimit).
      split; [lia|]. intros _. apply (SortFacts.sortDesc_sorted f_updated).
  - destruct (isENOENT e); [|discriminate].
    unfold bind, get, modify, ret in H. injection H as <- _.
    split; [cbn; lia|]. intros _. constructor.
Qed.

Lemma listAuditTrails_page projectName s page s' :
  listAuditTrails E projectName limit offset s = (Ok page, s') ->
  Z.of_nat (length page) <= limit /\
  (emptyListings s ->
   StronglySorted (fun a b => a_created b <= a_created a) page).
Proof.
  unfold listAuditTrails. intros H.
  apply bind_ok_inv in H as (md & s1 & Hg & H).
  pose proof (getProject_frame E (R := readOnly) projectName s) as Hro.
  rewrite Hg in Hro. cbn [snd] in Hro.
  destruct Hro as (_ & _ & _ & Hac & _).
  apply PageFacts.tryCatch_ok_cases in H as [H|(e & s2 & _ & H)].
  - apply bind_ok_inv in H as (lastModified & s2 & Hlm & H).
    unfold bind at 1 in H. unfold get in H.
    apply bind_ok_inv in H as ([] & s3 & _ & H).
    pose proof (getDirectoryLastModified_frame
                  E (R := eq) (getProjectPath projectName ++ ["audit-trails"])
                  s1) as Hsame.
    rewrite Hlm in Hsame. cbn [snd] in Hsame. subst s2.
    destruct (fst (LRU.get (clock s1) (projectName ++ "-audit-trails")
                           (auditTrailsCache s1))) as [cached|] eqn:Hhit.
    + destruct (lastModified <=? LRU.lastModified cached).
      * unfold ret in H. injection H as <- _.
        split; [now apply PageFacts.slice_length|].
        intros [_ Hempty]. rewrite Hac in Hhit.
        rewrite (PageFacts.cached_empty _ _ _ _ Hempty Hhit).
        rewrite PageFacts.slice_nil. constructor.
      * apply bind_ok_inv in H as (files & s4 & _ & H).
        apply bind_ok_inv in H as (scanned & s5 & _ & H).
        apply bind_ok_inv in H as (entries & s6 & Hread & H).
        unfold ret in H. injection H as <- _.
        apply PageFacts.allSettled_length in Hread.
        rewrite SortFacts.sortDesc_length.
        rewrite length_map in Hread.
        pose proof (PageFacts.slice_length (sortDesc snd scanned) offset limit
                      Hoffset Hlimit).
        split; [lia|]. intros _. apply (SortFacts.sortDesc_sorted a_created).
    + apply bind_ok_inv in H as (files & s4 & _ & H).
      apply bind_ok_inv in H as (scanned & s5 & _ & H).
      apply bind_ok_inv in H as (entries & s6 & Hread & H).
      unfold ret in H. injection H as <- _.
      apply PageFacts.allSettled_length in Hread.
      rewrite SortFacts.sortDesc_length.
      rewrite length_map in Hread.
      pose proof (PageFacts.slice_length (sortDesc snd scanned) offset limit
                    Hoffset Hlimit).
      split; [lia|]. intros _. apply (SortFacts.sortDesc_sorted a_created).
  - destruct (isENOENT e); [|discriminate].
    unfold bind, get, modify, ret in H. injection H as <- _.
    split; [cbn; lia|]. intros _. constructor.
Qed.

End Pages.

(** X23: with an offset and a limit that are not negative, a page that
    [listFindings] or [listAuditTrails] returns has at most [limit] entries;
    when the listing caches hold what the engine puts there, the findings of
    the page come most recently updated first, the audit trail entries most
    recently created first. *)
Theorem listing_page_bounded (E : Env) (projectName : string)
        (limit offset : Z) (s : State) :
  0 <= offset ->
  0 <= limit ->
  (forall page s',
      listFindings E projectName limit offset s = (Ok page, s') ->
      Z.of_nat (length page) <= limit /\
      (emptyListings s ->
       StronglySorted (fun a b => f_updated b <= f_updated a) page)) /\
  (forall page s',
      listAuditTrails E projectName limit offset s = (Ok page, s') ->
      Z.of_nat (length page) <= limit /\
      (emptyListings s ->
       StronglySorted (fun a b => a_created b <= a_created a) page)).
Proof.
  intros Hoffset Hlimit. split; intros page s'.
  - now apply listFindings_page.
  - now apply listAuditTrails_page.
Qed.

Lemma listing_page_bounded_witness :
  exists page s',
    listFindings Sample.env "p" 3 2 Sample.sevenFindings = (Ok page, s') /\
    Z.of_nat (length page) <= 3 /\
    StronglySorted (fun a b => f_updated b <= f_updated a) page.
Proof.
  destruct (listFindings Sample.env "p" 3 2 Sample.sevenFindings)
    as [[page|e|] s'] eqn:Hrun;
    [|vm_compute in Hrun; discriminate Hrun
     |vm_compute in Hrun; discriminate Hrun].
  exists page, s'. split; [reflexivity|].
  destruct (listing_page_bounded Sample.env "p" 3 2 Sample.sevenFindings
              ltac:(lia) ltac:(lia)) as [Hfindings _].
  destruct (Hfindings page s' Hrun) as [Hlen Hsorted].
  split; [exact Hlen|]. apply Hsorted. split; constructor.
Defined.

(** ** The instance lock *)

Section InstanceLock.

Variable E : Env.

Lemma lockfileLock_taken name stale s s' :
  lockfileLock E name stale s = (Ok tt, s') ->
  fsGet [name] (disk s') = Some (Dir (clock s)) /\
  instanceLockRelease s' = instanceLockRelease s /\
  (forall n, fsGet [name] (disk s) = Some n -> mtimeOf n < clock s - stale).
Proof.
  unfold lockfileLock. destruct (Js.includes name "/"); [discriminate|].
  unfold bind, oracle, get, modify, sysError, throw, ret.
  destruct (ioFails E OpMkdir [name]); cbv beta iota; [discriminate|].
  destruct (fsGet [name] (disk s)) as [n|] eqn:Hget; cbv beta iota.
  - destruct (Z.ltb_spec (mtimeOf n) (clock s - stale)) as [Hlt|Hge];
      [|discriminate].
    intros H. injection H as <-. cbn [disk setDisk instanceLockRelease].
    split; [apply fsGet_fsPut_same|]. split; [reflexivity|].
    intros n' Hn'. now injection Hn' as <-.
  - intros H. injection H as <-. cbn [disk setDisk instanceLockRelease].
    split; [|split; [reflexivity|discriminate]].
    rewrite fsGet_app, Hget. cbn [fsGet]. now rewrite path_eqb_refl.
Qed.

Lemma initializeProjectIndex_frame {R : State -> State -> Prop}
      {W : path -> bool} `{!Frame R W} :
  W projectIndexTmp = true -> W projectIndexPath = true ->
  preserves R (initializeProjectIndex E).
Proof.
  intros Htmp Hidx. unfold initializeProjectIndex. frame.
  - use (fs_access_frame E).
  - use (fs_writeFile_frame E _ _ Htmp).
  - use (fs_rename_frame E _ _ Htmp Hidx).
  - apply frame_indexCache.
  - use (fs_unlink_frame E _ Htmp).
Qed.

(** after a start-up initialisation that returns, the index file is there *)
Lemma initializeProjectIndex_ok_inv s s' :
  initializeProjectIndex E s = (Ok tt, s') ->
  exists n, fsGet projectIndexPath (disk s') = Some n.
Proof.
  unfold initializeProjectIndex. intros H.
  apply tryCatch_throws_ok_inv in H.
  2:{ intros e s1. unfold bind.
      destruct (ignoreErrors (fs_unlink E projectIndexTmp) s1)
        as [[u|e'|] s2]; discriminate. }
  apply bind_ok_inv in H as (found & s1 & Hfound & H).
  destruct found.
  - unfold ret in H. injection H as <-.
    unfold tryCatch, bind in Hfound.
    pose proof (fs_access_state E projectIndexPath s) as Hst.
    destruct (fs_access E projectIndexPath s) as [[u|e|] sa] eqn:Hacc;
      cbn [snd] in Hst; subst sa.
    + unfold ret in Hfound. injection Hfound as <-.
      unfold fs_access, bind, oracle, get, sysError, throw, ret in Hacc.
      destruct (ioFails E OpAccess projectIndexPath); [discriminate|].
      cbn [nodeAt projectIndexPath] in Hacc.
      change [".mcp-projects.json"] with projectIndexPath in Hacc.
      destruct (fsGet projectIndexPath (disk s)) as [n|]; [|discriminate].
      now exists n.
    + destruct (isENOENT e); discriminate.
    + discriminate.
  - apply bind_ok_inv in H as ([] & s2 & _ & H).
    apply bind_ok_inv in H as ([] & s3 & Hmv & H).
    unfold modify in H. injection H as <-.
    apply fs_rename_ok_inv in Hmv as (c & t & _ & ->).
    cbn [disk setDisk setIndexCache]. eexists. apply fsGet_fsPut_same.
Qed.

Lemma index_not_instance_lock :
  under [instanceLockName] projectIndexPath = false.
Proof. reflexivity. Qed.

Lemma instance_lock_not_index : indexFiles [instanceLockName] = false.
Proof. reflexivity. Qed.

(** what a call of [acquireInstanceLock] that returns has done *)
Lemma acquireInstanceLock_ok_inv s s' :
  acquireInstanceLock E s = (Ok tt, s') ->
  instanceLockRelease s' = true /\
  fsGet [instanceLockName] (disk s') = Some (Dir (clock s)) /\
  (exists n, fsGet projectIndexPath (disk s') = Some n) /\
  (forall n, fsGet [instanceLockName] (disk s) = Some n ->
             mtimeOf n < clock s - 30000).
Proof.
  unfold acquireInstanceLock. intros H.
  apply tryCatch_throws_ok_inv in H.
  2:{ intros e s1. destruct (Js.includes (message e) "already being held");
        discriminate. }
  apply bind_ok_inv in H as ([] & sa & Hmk & H).
  apply bind_ok_inv in H as ([] & sb & Hinit & H).
  apply bind_ok_inv in H as ([] & sc & Hlock & H).
  unfold modify in H. injection H as <-.
  apply ensureDirectoryExists_ok_inv in Hmk as (fa & Hfa & ->).
  cbn [mkdirFrom] in Hfa. injection Hfa as <-.
  pose proof (initializeProjectIndex_frame (R := agree indexFiles)
                eq_refl eq_refl (setDisk (disk s) s)) as Hag.
  pose proof (initializeProjectIndex_frame (R := sameClock)
                (W := fun _ => true) eq_refl eq_refl (setDisk (disk s) s))
    as Hck.
  rewrite Hinit in Hag, Hck. cbn [snd] in Hag, Hck.
  unfold sameClock in Hck. cbn [clock setDisk] in Hck.
  apply initializeProjectIndex_ok_inv in Hinit as (n & Hidx).
  pose proof (lockfileLock_frame E (R := agree (under [instanceLockName]))
                instanceLockName 30000 (fun q Hq => Hq) sb) as Hagl.
  rewrite Hlock in Hagl. cbn [snd] in Hagl.
  apply lockfileLock_taken in Hlock as (Hdir & _ & Hstale).
  rewrite Hck in *.
  split; [reflexivity|]. cbn [disk setInstanceLockRelease].
  split; [exact Hdir|]. split.
  - exists n. now rewrite (Hagl _ index_not_instance_lock).
  - intros m Hm. apply Hstale.
    rewrite (Hag _ instance_lock_not_index). exact Hm.
Qed.

Lemma releaseInstanceLock_held s n :
  instanceLockRelease s = true ->
  fsGet [instanceLockName] (disk s) = Some n ->
  releaseInstanceLock s
  = (Ok tt,
     setInstanceLockRelease false
       (setDisk (fsRemoveTree [instanceLockName] (disk s)) s)).
Proof.
  intros Hflag Hget.
  unfold releaseInstanceLock, bind at 1. unfold get. rewrite Hflag.
  unfold tryCatch, lockfileRelease, bind, get, modify. now rewrite Hget.
Qed.

Lemma releaseInstanceLock_idle s :
  instanceLockRelease s = false -> releaseInstanceLock s = (Ok tt, s).
Proof.
  intros Hflag. unfold releaseInstanceLock, bind, get. cbv beta iota.
  now rewrite Hflag.
Qed.

End InstanceLock.

(** X24: a call of [acquireInstanceLock] that returns has found no instance
    lock younger than 30 seconds; it leaves the lock's artifact stamped with
    the time of the call, the release function set, and an index file on the
    disk. [releaseInstanceLock] then removes the artifact and clears the
    release function, and a second [releaseInstanceLock] does nothing. *)
Theorem instance_lock_round_trip (E : Env) (s s' : State) :
  acquireInstanceLock E s = (Ok tt, s') ->
  (forall n, fsGet [instanceLockName] (disk s) = Some n ->
             mtimeOf n < clock s - 30000) /\
  instanceLockRelease s' = true /\
  fsGet [instanceLockName] (disk s') = Some (Dir (clock s)) /\
  (exists n, fsGet projectIndexPath (disk s') = Some n) /\
  fst (releaseInstanceLock s') = Ok tt /\
  instanceLockRelease (snd (releaseInstanceLock s')) = false /\
  fsGet [instanceLockName] (disk (snd (releaseInstanceLock s'))) = None /\
  agree (under [instanceLockName]) s' (snd (releaseInstanceLock s')) /\
  releaseInstanceLock (snd (releaseInstanceLock s'))
  = (Ok tt, snd (releaseInstanceLock s')).
Proof.
  intros H.
  apply acquireInstanceLock_ok_inv in H as (Hflag & Hdir & Hidx & Hstale).
  rewrite (releaseInstanceLock_held s' _ Hflag Hdir). cbn [fst snd].
  split; [exact Hstale|]. split; [exact Hflag|]. split; [exact Hdir|].
  split; [exact Hidx|]. split; [reflexivity|]. split; [reflexivity|].
  cbn [disk setDisk setInstanceLockRelease]. split.
  { now rewrite fsGet_fsRemoveTree, under_refl. }
  split.
  { intros q Hq. cbn [disk setDisk setInstanceLockRelease].
    now rewrite fsGet_fsRemoveTree, Hq. }
  now apply releaseInstanceLock_idle.
Qed.

Lemma instance_lock_round_trip_witness :
  instanceLockRelease (snd (acquireInstanceLock Sample.env Sample3.fresh))
  = true /\
  fsGet [instanceLockName]
        (disk (snd (releaseInstanceLock
                      (snd (acquireInstanceLock Sample.env Sample3.fresh)))))
  = None.
Proof.
  assert (Hrun : acquireInstanceLock Sample.env Sample3.fresh
                 = (Ok tt, snd (acquireInstanceLock Sample.env Sample3.fresh))).
  { vm_compute. reflexivity. }
  destruct (instance_lock_round_trip _ _ _ Hrun)
    as (_ & Hflag & _ & _ & _ & _ & Hgone & _).
  split; [exact Hflag|exact Hgone].
Defined.

(** ** An update whose index write fails *)

Section FailedWrite.

Variable E : Env.
Hypothesis Hbroken : indexWriteBroken E.

Lemma oracle_works op q s :
  match op with
  | OpWriteFile => path_eqb q projectIndexTmp
  | _ => false
  end = false ->
  oracle E op q s = (Ok tt, s).
Proof. intros H. unfold oracle. now rewrite Hbroken, H. Qed.

Lemma lockfileLock_free_broken lockKey s :
  lockFree lockKey s ->
  lockfileLock E (".mcp-lock-" ++ lockKey ++ ".lock") 10000 s
  = (Ok tt, locked lockKey s).
Proof.
  intros [Hslash Hfree]. unfold lockfileLock. rewrite Hslash.
  rewrite (bind_ok _ _ _ _ _ (oracle_works OpMkdir _ s eq_refl)).
  unfold bind, get. now rewrite Hfree.
Qed.

Lemma project_tmp_not_index_tmp projectName file :
  path_eqb (getProjectPath projectName ++ [String "p" file]) projectIndexTmp
  = false.
Proof.
  unfold getProjectPath.
  destruct (String.eqb (sanitizeProjectName projectName) ""); cbn [app].
  - reflexivity.
  - cbn [path_eqb projectIndexTmp]. now rewrite andb_false_r.
Qed.

Lemma fs_writeFile_works p c s t :
  ioFails E OpWriteFile p = false ->
  p <> [] ->
  nodeAt (parent p) (disk s) = Some (Dir t) ->
  (forall t', fsGet p (disk s) <> Some (Dir t')) ->
  fs_writeFile E p c s
  = (Ok tt, setDisk (fsPut p (File c (clock s)) (disk s)) s).
Proof.
  intros Hio Hp Hparent Hnot.
  unfold fs_writeFile, bind, oracle, get, modify, ret.
  rewrite Hio. cbv beta iota. destruct p as [|x p]; [congruence|].
  rewrite Hparent.
  destruct (fsGet (x :: p) (disk s)) as [[t'|c' t']|] eqn:Hget;
    [now contradiction (Hnot t')|reflexivity|reflexivity].
Qed.

Lemma fs_rename_works a b c ta s t :
  ioFails E OpRename a = false ->
  b <> [] ->
  fsGet a (disk s) = Some (File c ta) ->
  nodeAt (parent b) (disk s) = Some (Dir t) ->
  (forall t', fsGet b (disk s) <> Some (Dir t')) ->
  fs_rename E a b s
  = (Ok tt, setDisk (fsPut b (File c ta) (fsRemove a (disk s))) s).
Proof.
  intros Hio Hb Ha Hparent Hnot.
  unfold fs_rename, bind, oracle, get, modify, ret.
  rewrite Hio. cbv beta iota. rewrite Ha. destruct b as [|y b]; [congruence|].
  rewrite Hparent.
  destruct (fsGet (y :: b) (disk s)) as [[t'|c' t']|] eqn:Hget;
    [now contradiction (Hnot t')|reflexivity|reflexivity].
Qed.

Lemma parent_app (d : path) (file : string) : parent (d ++ [file]) = d.
Proof. unfold parent. apply removelast_last. Qed.

Lemma writeProjectIndex_broken index s :
  exists e,
    writeProjectIndex E index s
    = (Err e, snd (ignoreErrors (fs_unlink E projectIndexTmp) s)).
Proof.
  unfold writeProjectIndex.
  assert (Hw : fs_writeFile E projectIndexTmp (JsonIndex index) s
               = (Err (SystemError EIO (pathString E projectIndexTmp)), s)).
  { unfold fs_writeFile, bind, oracle. rewrite Hbroken.
    now rewrite path_eqb_refl. }
  rewrite (tryCatch_err _ _ _ _ _ (bind_err _ _ _ _ _ Hw)).
  unfold bind, throw.
  destruct (ignoreErrors (fs_unlink E projectIndexTmp) s) as [[u|e|] s1]
    eqn:Hun; cbn [snd]; eauto.
  exfalso. unfold ignoreErrors, tryCatch in Hun.
  pose proof (returns_fs_unlink E projectIndexTmp s) as Hret.
  destruct (fs_unlink E projectIndexTmp s) as [[u|e|] s2]; cbn [fst] in Hret;
    try discriminate. now apply Hret.
Qed.

End FailedWrite.

Lemma unlink_ignored (E : Env) (q : path) (s : State) :
  fst (ignoreErrors (fs_unlink E q) s) = Ok tt /\
  agree (path_eqb q) s (snd (ignoreErrors (fs_unlink E q) s)) /\
  projectIndexCache (snd (ignoreErrors (fs_unlink E q) s))
  = projectIndexCache s.
Proof.
  unfold ignoreErrors, tryCatch, fs_unlink, bind, oracle, get, modify,
    sysError, throw, ret.
  destruct (ioFails E OpUnlink q); cbn [fst snd];
    [split; [|split; [intros p Hp|]]; reflexivity|].
  destruct (fsGet q (disk s)) as [[t|c t]|]; cbn [fst snd];
    (split; [|split; [intros p Hp|]]; try reflexivity).
  cbn [disk setDisk]. now rewrite fsGet_fsRemove, Hp.
Qed.

Lemma nodeAt_agree W q s s' :
  agree W s s' -> (q = [] \/ W q = false) ->
  nodeAt q (disk s') = nodeAt q (disk s).
Proof.
  intros Hag [->|Hq]; [reflexivity|].
  unfold nodeAt. destruct q; [reflexivity|]. now apply Hag.
Qed.

Lemma project_dir_not_locked lockKey projectName :
  getProjectPath projectName = [] \/
  under [".mcp-lock-" ++ lockKey ++ ".lock"] (getProjectPath projectName)
  = false.
Proof.
  unfold getProjectPath.
  destruct (String.eqb (sanitizeProjectName projectName) ""); [now left|].
  right. cbn [under].
  change (".mcp-lock-" ++ lockKey ++ ".lock")%string
    with (String "." ("mcp-lock-" ++ lockKey ++ ".lock")).
  now rewrite SanitizeFacts.sanitize_not_dotfile.
Qed.

Lemma project_dir_not_file projectName file :
  getProjectPath projectName = [] \/
  path_eqb (getProjectPath projectName ++ [file]) (getProjectPath projectName)
  = false.
Proof.
  unfold getProjectPath.
  destruct (String.eqb (sanitizeProjectName projectName) ""); [now left|].
  right. cbn [app path_eqb]. now rewrite andb_false_r.
Qed.

Section NotRolledBack.

Variable E : Env.
Hypothesis Hbroken : indexWriteBroken E.

Variables (s : State) (projectName : string) (md : ProjectMetadata)
          (updates : UpdateProjectInput).
Hypothesis Hfree : lockFree "project-index" s.
Hypothesis Hrec : recorded s projectName md.
Hypothesis Hst : p_status md <> Completed.
Hypothesis Hdir : projectWritable s projectName.

Let updated : ProjectMetadata := applyProjectUpdates md updates (clock s).
Let tempFile : path := getProjectPath projectName ++ ["project.json.tmp"].
Let projectFile : path := getProjectPath projectName ++ ["project.json"].

Lemma failed_update_run :
  exists idx e s8,
    indexOf s = Some idx /\
    (metadata <- getProject E projectName ;;
     if ProjectStatus_eqb (p_status metadata) Completed
     then throw (ProjectCompletedError projectName "update")
     else
       s0 <- get ;;
       let updated := applyProjectUpdates metadata updates (clock s0) in
       tryCatch
         (fs_writeFile E tempFile (JsonProject updated) ;;;
          fs_rename E tempFile projectFile ;;;
          index <- readProjectIndex E ;;
          let index' :=
            mkIndex (mapSet (sanitizeProjectName projectName) updated
                            (projects index))
                    (lastActive index) in
          modify (setIndexCache (Some index')) ;;;
          writeProjectIndex E index' ;;;
          ret updated)
         (fun error =>
            ignoreErrors (fs_unlink E tempFile) ;;;
            throw (wrap "Failed to update project: " error)))
      (locked "project-index" s) = (Err e, s8) /\
    projectIndexCache s8
    = Some (mkIndex (mapSet (sanitizeProjectName projectName) updated
                            (projects idx))
                    (lastActive idx)) /\
    fsGet projectIndexPath (disk s8) = fsGet projectIndexPath (disk s) /\
    fsGet projectFile (disk s8) = Some (File (JsonProject updated) (clock s)).
Proof.
  assert (Hread : ioFails E OpReadFile projectIndexPath = false)
    by (now rewrite Hbroken).
  destruct (getProject_recorded E Hread _ projectName md
              (recorded_locked "project-index" s projectName md Hrec))
    as (idx & Hidx1 & Hg).
  rewrite indexOf_locked in Hidx1.
  set (s3 := setIndexCache (Some idx) (locked "project-index" s)) in *.
  assert (Hag3 : agree (under [".mcp-lock-" ++ "project-index" ++ ".lock"])
                       s s3) by apply locked_agree.
  destruct Hdir as ((t0 & Hparent) & Htmp & Hfile).
  assert (Hparent3 : nodeAt (getProjectPath projectName) (disk s3)
                     = Some (Dir t0)).
  { rewrite (nodeAt_agree _ _ _ _ Hag3
               (project_dir_not_locked "project-index" projectName)).
    exact Hparent. }
  assert (Hne : tempFile <> projectFile).
  { unfold tempFile, projectFile. intros Heq.
    apply app_inv_head in Heq. discriminate. }
  (* the project file *)
  assert (Hw : fs_writeFile E tempFile (JsonProject updated) s3
               = (Ok tt,
                  setDisk (fsPut tempFile (File (JsonProject updated) (clock s))
                                 (disk s3)) s3)).
  { apply (fs_writeFile_works E tempFile _ s3 t0).
    - rewrite Hbroken. apply project_tmp_not_index_tmp.
    - unfold tempFile. now destruct (getProjectPath projectName).
    - unfold tempFile. now rewrite parent_app.
    - intros t'.
      rewrite (Hag3 tempFile
                 (project_file_not_locked "project-index" projectName
                    "project.json.tmp" eq_refl)).
      apply Htmp. }
  set (s4 := setDisk (fsPut tempFile (File (JsonProject updated) (clock s))
                            (disk s3)) s3) in *.
  assert (Hmv : fs_rename E tempFile projectFile s4
                = (Ok tt,
                   setDisk (fsPut projectFile
                                  (File (JsonProject updated) (clock s))
                                  (fsRemove tempFile (disk s4))) s4)).
  { apply (fs_rename_works E tempFile projectFile _ _ s4 t0).
    - now rewrite Hbroken.
    - unfold projectFile. now destruct (getProjectPath projectName).
    - unfold s4. cbn [disk setDisk]. apply fsGet_fsPut_same.
    - unfold projectFile. rewrite parent_app. unfold s4. cbn [disk setDisk].
      destruct (project_dir_not_file projectName "project.json.tmp")
        as [Hroot|Hneq].
      + rewrite Hroot in Hparent3 |- *. exact Hparent3.
      + assert (Hneq' : tempFile <> getProjectPath projectName)
          by (now apply path_eqb_neq).
        rewrite <- Hparent3. unfold nodeAt.
        destruct (getProjectPath projectName); [reflexivity|].
        now apply fsGet_fsPut_other.
    - intros t'. unfold s4. cbn [disk setDisk].
      rewrite (fsGet_fsPut_other _ _ _ _ Hne).
      rewrite (Hag3 projectFile
                 (project_file_not_locked "project-index" projectName
                    "project.json" eq_refl)).
      apply Hfile. }
  set (s5 := setDisk (fsPut projectFile (File (JsonProject updated) (clock s))
                            (fsRemove tempFile (disk s4))) s4) in *.
  assert (Hr : readProjectIndex E s5 = (Ok idx, s5))
    by (now apply readProjectIndex_cached).
  set (index' := mkIndex (mapSet (sanitizeProjectName projectName) updated
                                 (projects idx))
                         (lastActive idx)).
  destruct (writeProjectIndex_broken E Hbroken index'
              (setIndexCache (Some index') s5)) as (e1 & Hwi).
  set (s7 := snd (ignoreErrors (fs_unlink E projectIndexTmp)
                               (setIndexCache (Some index') s5))) in *.
  destruct (unlink_ignored E projectIndexTmp (setIndexCache (Some index') s5))
    as (_ & Hag7 & Hc7).
  fold s7 in Hag7, Hc7.
  destruct (unlink_ignored E tempFile s7) as (Hok8 & Hag8 & Hc8).
  set (s8 := snd (ignoreErrors (fs_unlink E tempFile) s7)) in *.
  exists idx, (wrap "Failed to update project: " e1), s8.
  split; [exact Hidx1|]. split.
  { rewrite (bind_ok _ _ _ _ _ Hg).
    destruct (p_status md); [|congruence]. cbn [ProjectStatus_eqb].
    unfold bind at 1. unfold get.
    change (clock s3) with (clock s). fold updated.
    erewrite tryCatch_err.
    2:{ rewrite (bind_ok _ _ _ _ _ Hw), (bind_ok _ _ _ _ _ Hmv),
          (bind_ok _ _ _ _ _ Hr).
        unfold bind at 1. unfold modify. fold index'.
        apply bind_err. exact Hwi. }
    fold s7. unfold bind, throw.
    destruct (ignoreErrors (fs_unlink E tempFile) s7) as [[[]|e|] sx];
      cbn [fst] in Hok8; try discriminate. reflexivity. }
  assert (Hidxfiles : indexFiles projectFile = false /\
                      indexFiles tempFile = false).
  { split; apply project_file_not_index; reflexivity. }
  destruct Hidxfiles as (Hpf & Htf).
  unfold indexFiles in Hpf, Htf.
  apply orb_false_iff in Hpf as [Hpf1 Hpf2].
  apply orb_false_iff in Htf as [Htf1 Htf2].
  split; [now rewrite Hc8, Hc7|]. split.
  - rewrite (Hag8 projectIndexPath) by (now rewrite path_eqb_sym).
    rewrite (Hag7 projectIndexPath eq_refl).
    unfold s5, s4. cbn [disk setDisk setIndexCache].
    rewrite fsGet_fsPut_other
      by (apply path_eqb_neq; now rewrite path_eqb_sym).
    rewrite fsGet_fsRemove, path_eqb_sym, Htf1.
    rewrite fsGet_fsPut_other
      by (apply path_eqb_neq; now rewrite path_eqb_sym).
    apply (Hag3 _ (index_not_locked "project-index")).
  - rewrite (Hag8 projectFile) by (now apply path_eqb_neq).
    rewrite (Hag7 projectFile) by exact Hpf2.
    unfold s5. cbn [disk setDisk setIndexCache]. apply fsGet_fsPut_same.
Qed.

End NotRolledBack.

(** X25: an update of a project whose index write fails is not rolled back.
    On an engine where only the write of the index's temporary file fails,
    [updateProject] of a project that is in the index, not completed, with a
    writable project directory and a free index lock, throws; the index file
    is then as before, but [project.json] holds the updated metadata and so
    does the cached index, so that [getProject] returns the update. *)
Theorem updateProject_not_rolled_back (E : Env) (s : State)
        (projectName : string) (metadata : ProjectMetadata)
        (updates : UpdateProjectInput) :
  indexWriteBroken E ->
  lockFree "project-index" s ->
  recorded s projectName metadata ->
  p_status metadata <> Completed ->
  projectWritable s projectName ->
  (exists e, fst (updateProject E projectName updates s) = Err e) /\
  fsGet projectIndexPath (disk (snd (updateProject E projectName updates s)))
  = fsGet projectIndexPath (disk s) /\
  fsGet (getProjectPath projectName ++ ["project.json"])
        (disk (snd (updateProject E projectName updates s)))
  = Some (File (JsonProject
                  (applyProjectUpdates metadata updates (clock s)))
               (clock s)) /\
  getProject E projectName (snd (updateProject E projectName updates s))
  = (Ok (applyProjectUpdates metadata updates (clock s)),
     snd (updateProject E projectName updates s)).
Proof.
  intros Hbroken Hfree Hrec Hst Hdir.
  destruct (failed_update_run E Hbroken s projectName metadata updates
              Hrec Hst Hdir)
    as (idx & e & s8 & Hidx & Hrun & Hc8 & Hindex8 & Hfile8).
  unfold updateProject, withLock.
  rewrite (lockfileLock_free_broken E Hbroken _ _ Hfree).
  unfold finally. rewrite (tryCatch_err _ _ _ _ _ Hrun).
  rewrite lockTimeout_underLock. cbn [fst snd].
  destruct (release_readOnly_but_disk
              (".mcp-lock-" ++ "project-index" ++ ".lock") s8) as (Hc' & Hd').
  split; [eauto|]. split; [|split].
  - rewrite (Hd' _ (index_not_locked "project-index")). exact Hindex8.
  - rewrite (Hd' _ (project_file_not_locked "project-index" projectName
                      "project.json" eq_refl)).
    exact Hfile8.
  - apply (getProject_cached E projectName _ _ _ (eq_trans Hc' Hc8)).
    cbn [projects]. apply mapGet_mapSet.
Qed.

Lemma updateProject_not_rolled_back_witness :
  fsGet projectIndexPath
        (disk (snd (updateProject Sample.indexWriteFails "p" Sample5.handover
                                  Sample10.brokenStore)))
  = Some (File (JsonIndex (mkIndex [("p", Sample.project "p" InProgress)]
                                   None)) 0) /\
  fst (getProject Sample.indexWriteFails "p"
         (snd (updateProject Sample.indexWriteFails "p" Sample5.handover
                             Sample10.brokenStore)))
  = Ok (mkProject "5f0c2d1e-0000-4000-8000-000000000001" "p" (Some "Acme")
                  0 100 None Completed None).
Proof.
  destruct (updateProject_not_rolled_back
              Sample.indexWriteFails Sample10.brokenStore "p"
              (Sample.project "p" InProgress) Sample5.handover)
    as (_ & Hindex & _ & Hget).
  - intros op q. destruct op; reflexivity.
  - split; reflexivity.
  - eexists. split; vm_compute; reflexivity.
  - discriminate.
  - split; [exists 0; reflexivity|].
    split; intros t; vm_compute; discriminate.
  - split; [rewrite Hindex; reflexivity|]. now rewrite Hget.
Defined.

(** ** Record ids that are taken *)

Module TakenFacts.

Lemma id_chars prefix randomId title :
  strAll idChar prefix = true ->
  strAll hexChar randomId = true ->
  strAll idChar (prefix ++ randomId ++ "-" ++ slug title) = true.
Proof.
  intros Hp Hhex. apply NameFacts.strAll_app; [exact Hp|].
  apply NameFacts.strAll_app.
  - eapply SanitizeFacts.strAll_impl; [exact NameFacts.hex_id|exact Hhex].
  - apply (NameFacts.strAll_app idChar "-"); [reflexivity|].
    eapply SanitizeFacts.strAll_impl;
      [exact NameFacts.slug_id|apply NameFacts.slug_chars].
Qed.

Lemma id_no_phrase id : strAll idChar id = true -> Js.includes id held = false.
Proof.
  intros Hid. destruct (Js.includes id held) eqn:H; [|reflexivity].
  pose proof (PhraseFacts.includes_strAll idChar _ _ Hid H) as Hall.
  discriminate.
Qed.

Lemma finding_taken_clean id :
  strAll idChar id = true ->
  Js.includes ("Finding with ID '" ++ id ++ "' already exists") held = false.
Proof.
  intros Hid.
  assert (Htail : Js.includes (id ++ "' already exists") held = false).
  { change (id ++ "' already exists")%string
      with (id ++ String "'" " already exists")%string.
    rewrite (PhraseFacts.includes_app_boundary id "'" _ held eq_refl
               (id_no_phrase id Hid)).
    reflexivity. }
  cbn. exact Htail.
Qed.

Lemma audit_taken_clean id :
  strAll idChar id = true ->
  Js.includes ("Audit trail with ID '" ++ id ++ "' already exists") held
  = false.
Proof.
  intros Hid.
  assert (Htail : Js.includes (id ++ "' already exists") held = false).
  { change (id ++ "' already exists")%string
      with (id ++ String "'" " already exists")%string.
    rewrite (PhraseFacts.includes_app_boundary id "'" _ held eq_refl
               (id_no_phrase id Hid)).
    reflexivity. }
  cbn. exact Htail.
Qed.

End TakenFacts.

Section Taken.

Variable E : Env.
Hypothesis Hio : reliable E.

Variables (s : State) (projectName : string) (md : ProjectMetadata).
Hypothesis Hrec : recorded s projectName md.
Hypothesis Hst : p_status md <> Completed.

Lemma guard_passes operation {A} (rest : M A) :
  exists idx,
    indexOf s = Some idx /\
    (getProject E projectName ;;;
     checkProjectNotCompleted E projectName operation ;;; rest) s
    = rest (setIndexCache (Some idx) s).
Proof.
  destruct Hrec as (idx & Hidx & Hget). exists idx. split; [exact Hidx|].
  destruct (getProject_recorded E (Hio _ _) s projectName md Hrec)
    as (idx' & Hidx' & Hg).
  assert (idx' = idx) by congruence. subst idx'.
  rewrite (bind_ok _ _ _ _ _ Hg).
  assert (Hc : checkProjectNotCompleted E projectName operation
                 (setIndexCache (Some idx) s)
               = (Ok tt, setIndexCache (Some idx) s)).
  { unfold checkProjectNotCompleted.
    rewrite (bind_ok _ _ _ _ _
               (getProject_cached E projectName
                  (setIndexCache (Some idx) s) idx md eq_refl Hget)).
    destruct (p_status md); [reflexivity|congruence]. }
  now rewrite (bind_ok _ _ _ _ _ Hc).
Qed.

(** under a free lock, a record whose file is there is refused and the
    lock released *)
Lemma taken_refused {A} lockKey (file : path) (n : Node) (what : string)
      (rest : M A) s1 :
  lockFree lockKey s1 ->
  under [".mcp-lock-" ++ lockKey ++ ".lock"] file = false ->
  file <> [] ->
  fsGet file (disk s1) = Some n ->
  Js.includes what held = false ->
  fst (withLock E lockKey
         (tryCatch (fs_access E file ;;; throw (PlainError what))
                   (fun error => if isENOENT error then ret tt else throw error)
          ;;; rest) s1)
  = Err (PlainError what) /\
  agree (under [".mcp-lock-" ++ lockKey ++ ".lock"]) s1
        (snd (withLock E lockKey
                (tryCatch (fs_access E file ;;; throw (PlainError what))
                          (fun error =>
                             if isENOENT error then ret tt else throw error)
                 ;;; rest) s1)).
Proof.
  intros Hfree Hfile Hne Hget Hclean.
  rewrite (withLock_free E Hio _ _ _ _ Hfree).
  set (s2 := locked lockKey s1).
  assert (Hacc : fs_access E file s2 = (Ok tt, s2)).
  { rewrite (fs_access_spec E Hio).
    assert (Hn : nodeAt file (disk s2) = Some n).
    { unfold nodeAt. destruct file; [congruence|].
      unfold s2. rewrite (locked_agree lockKey s1 _ Hfile). exact Hget. }
    now rewrite Hn. }
  match goal with
  | |- context [finally (tryCatch ?op _) _ s2] =>
      assert (Hop : op s2 = (Err (PlainError what), s2))
  end.
  { apply bind_err.
    rewrite (tryCatch_err _ _ _ _ _
               (eq_trans (bind_ok _ _ _ _ _ Hacc) eq_refl)).
    reflexivity. }
  unfold finally. rewrite (tryCatch_err _ _ _ _ _ Hop).
  rewrite lockTimeout_underLock. unfold underLock. cbn [message].
  rewrite Hclean. cbn [fst snd].
  destruct (release_readOnly_but_disk
              (".mcp-lock-" ++ lockKey ++ ".lock") s2) as (_ & Hd').
  split; [reflexivity|].
  intros q Hq. rewrite (Hd' q Hq). now apply locked_agree.
Qed.

End Taken.

(** X26: a record is never written over. When a file is already at the path
    of the id [createFinding] or [createAuditTrail] has derived (the project
    in the index and not completed, the record's lock free, the vector of a
    finding scorable), the call fails saying that the id already exists, and
    the disk is as before outside the artifact of the record's lock; the
    file that was there is not touched. *)
Theorem create_never_overwrites (E : Env) (s : State) (projectName : string)
        (metadata : ProjectMetadata) (randomId : string) :
  reliable E ->
  recorded s projectName metadata ->
  p_status metadata <> Completed ->
  strAll hexChar randomId = true ->
  (forall input n,
      scorable E input ->
      lockFree ("finding-" ++ projectName ++ "-"
                ++ sanitizeFindingId randomId (fi_title input)) s ->
      fsGet (findingPath projectName
                         (sanitizeFindingId randomId (fi_title input)))
            (disk s) = Some n ->
      fst (createFinding E randomId projectName input s)
      = Err (PlainError ("Finding with ID '"
                         ++ sanitizeFindingId randomId (fi_title input)
                         ++ "' already exists")) /\
      agree (under [".mcp-lock-"
                    ++ ("finding-" ++ projectName ++ "-"
                        ++ sanitizeFindingId randomId (fi_title input))
                    ++ ".lock"])
            s (snd (createFinding E randomId projectName input s))) /\
  (forall input n,
      lockFree ("audit-" ++ projectName ++ "-"
                ++ sanitizeAuditId randomId (ai_title input)) s ->
      fsGet (auditPath projectName
                       (sanitizeAuditId randomId (ai_title input)))
            (disk s) = Some n ->
      fst (createAuditTrail E randomId projectName input s)
      = Err (PlainError ("Audit trail with ID '"
                         ++ sanitizeAuditId randomId (ai_title input)
                         ++ "' already exists")) /\
      agree (under [".mcp-lock-"
                    ++ ("audit-" ++ projectName ++ "-"
                        ++ sanitizeAuditId randomId (ai_title input))
                    ++ ".lock"])
            s (snd (createAuditTrail E randomId projectName input s))).
Proof.
  intros Hio Hrec Hst Hhex. split.
  - intros input n Hscore Hfree Hfile. unfold createFinding.
    match goal with
    | |- context [bind (getProject E projectName)
                       (fun _ => bind (checkProjectNotCompleted E _ _)
                                      (fun _ => ?rest))] =>
        destruct (guard_passes E Hio s projectName metadata Hrec Hst
                    "create finding" rest) as (idx & Hidx & ->)
    end.
    match goal with
    | |- fst ?r = _ /\ _ => remember r as run eqn:Hrun
    end.
    unfold bind at 1 in Hrun. unfold get in Hrun.
    cbn [clock setIndexCache] in Hrun.
    set (id := sanitizeFindingId randomId (fi_title input)) in *.
    match type of Hrun with
    | context [bind ?scoring _ (setIndexCache (Some idx) s)] =>
        assert (Hsc : exists finding,
                   scoring (setIndexCache (Some idx) s)
                   = (Ok finding, setIndexCache (Some idx) s) /\
                   f_id finding = id)
    end.
    { destruct (fi_cvssString input) as [v|] eqn:Hv; cbn [Js.truthyOpt].
      - destruct (Js.truthy v) eqn:Ht.
        + destruct (Hscore v Hv Ht) as (score & Hcalc).
          unfold tryCatch, bind, liftE. rewrite Hcalc.
          eexists. split; reflexivity.
        + eexists. split; reflexivity.
      - eexists. split; reflexivity. }
    destruct Hsc as (finding & Hsc & Hid).
    rewrite (bind_ok _ _ _ _ _ Hsc) in Hrun. rewrite Hid in Hrun.
    subst run.
    destruct (taken_refused E Hio (A := Finding)
                ("finding-" ++ projectName ++ "-" ++ id)
                (findingPath projectName id) n
                ("Finding with ID '" ++ id ++ "' already exists")
                (tryCatch
                   (fs_writeFile E (findingTmp projectName id)
                                 (findingContent finding) ;;;
                    fs_rename E (findingTmp projectName id)
                              (findingPath projectName id) ;;;
                    updateProject E projectName noUpdates ;;;
                    invalidateFindings projectName ;;;
                    ret finding)
                   (fun error =>
                      ignoreErrors (fs_unlink E (findingTmp projectName id)) ;;;
                      throw (wrap "Failed to create finding: " error)))
                (setIndexCache (Some idx) s))
      as (Herr & Hag).
    + exact Hfree.
    + apply finding_not_locked.
    + unfold findingPath. now destruct (getProjectPath projectName).
    + exact Hfile.
    + apply TakenFacts.finding_taken_clean.
      now apply (TakenFacts.id_chars "FIND-").
    + split; [exact Herr|exact Hag].
  - intros input n Hfree Hfile. unfold createAuditTrail.
    match goal with
    | |- context [bind (getProject E projectName)
                       (fun _ => bind (checkProjectNotCompleted E _ _)
                                      (fun _ => ?rest))] =>
        destruct (guard_passes E Hio s projectName metadata Hrec Hst
                    "create audit trail" rest) as (idx & Hidx & ->)
    end.
    match goal with
    | |- fst ?r = _ /\ _ => remember r as run eqn:Hrun
    end.
    unfold bind at 1 in Hrun. unfold get in Hrun.
    cbn [clock setIndexCache a_id] in Hrun.
    set (id := sanitizeAuditId randomId (ai_title input)) in *.
    subst run.
    match goal with
    | |- context [withLock E _ (bind _ (fun _ => ?rest))
                           (setIndexCache (Some idx) s)] =>
        destruct (taken_refused E Hio (A := AuditTrailEntry)
                    ("audit-" ++ projectName ++ "-" ++ id)
                    (auditPath projectName id) n
                    ("Audit trail with ID '" ++ id ++ "' already exists")
                    rest (setIndexCache (Some idx) s))
        as (Herr & Hag)
    end.
    + exact Hfree.
    + apply audit_not_locked.
    + unfold auditPath. now destruct (getProjectPath projectName).
    + exact Hfile.
    + apply TakenFacts.audit_taken_clean.
      now apply (TakenFacts.id_chars "AUDIT-").
    + split; [exact Herr|exact Hag].
Qed.

Lemma create_never_overwrites_witness :
  fst (createFinding Sample.env "00000001" "p"
         (mkFindingInput "A" High None None None "again" None None None)
         Sample7.oneFinding)
  = Err (PlainError "Finding with ID 'FIND-00000001-a' already exists") /\
  fsGet ["p"; "findings"; "FIND-00000001-a.md"]
        (disk (snd (createFinding Sample.env "00000001" "p"
                      (mkFindingInput "A" High None None None "again"
                                      None None None)
                      Sample7.oneFinding)))
  = Some (snd (Sample.findingFile "p" "FIND-00000001-a" 1)).
Proof.
  destruct (create_never_overwrites Sample.env Sample7.oneFinding "p"
              (Sample.project "p" InProgress) "00000001") as [Hfinding _].
  - intros op q. reflexivity.
  - eexists. split; vm_compute; reflexivity.
  - discriminate.
  - reflexivity.
  - destruct (Hfinding
                (mkFindingInput "A" High None None None "again" None None None)
                (snd (Sample.findingFile "p" "FIND-00000001-a" 1)))
      as (Herr & Hag).
    + intros v Hv. discriminate Hv.
    + split; reflexivity.
    + reflexivity.
    + split; [exact Herr|].
      exact (Hag ["p"; "findings"; "FIND-00000001-a.md"] eq_refl).
Defined.
